(* ===== verification/_CoqProject ===== *)
-Q . S2P
Prelude.v
Text.v
Sql.v
Digest.v
Models.v
Schema.v
JobValidation.v
MutationFence.v
EnrollmentJournal.v
ManagerRegistry.v
RemovalJournal.v
EnrollmentJobs.v
Discovery.v
Samples.v
Lifecycle.v
DiscoveryInvariant.v
JournalProperties.v
JournalClaims.v
SagaClaims.v
RegistryClaims.v
Paging.v
JobsClaims.v
DiscoveryClaims.v
ManagerCredentials.v
CredentialStore.v
EnrollmentService.v
ServiceClaims.v
Terminal.v
SecretFiles.v
SecretFacts.v
SecretRecovery.v
Gateway.v
GatewayClaims.v
TargetPolicy.v
AgentClient.v
TargetClaims.v
Saga.v
Recovery.v
Removals.v
Enrollments.v
SagaSamples.v
SecretClaims.v
PublicResult.v
SagaFacts.v
OrchestratorClaims.v
RemovalRuns.v
SagaOrder.v
SagaOrderClaims.v
SafeRequests.v
CompactJson.v
LatestValue.v
Observations.v
ObservationClaims.v
LogSources.v
LogTail.v
LogTailClaims.v
DiscoveryService.v
ScanFacts.v
ScanClaims.v
FleetStatus.v
FleetStatusClaims.v
FleetProbes.v
FleetProbeClaims.v
TerminalSessions.v
SessionClaims.v
FleetImport.v
ImportFacts.v
ImportClaims.v
AgentHttp.v
AgentHttpClaims.v
AgentRegistry.v
Availability.v
HttpProxy.v
ProxyFacts.v
ProxyClaims.v
Identity.v
IdentityFacts.v
IdentityClaims.v
RateLimit.v
Login.v
