(* ===== verification/Prelude.v ===== *)
(** * IC Design Environment Guard: a verification library

    IC Environment Guard is a manager ("control plane") that looks after many
    Agents.  The manager keeps a SQLite database in which Agents are enrolled,
    rotated, observed and removed by sagas that survive crashes, and a
    directory with one credential file per Agent.  Each Agent keeps a table of
    the credentials it has handed to managers, serves terminals, log tails and
    observations.  This library models the parts that decide what is stored,
    who may act and whom the manager talks to, and proves the properties those
    parts exist for.  Paths are relative to [src/backend/ic_env_guard].

    ** The parts and how they interact

    - Storage of the manager: [storage/enrollment_journal.py] (enrollment jobs:
      a state machine with expiry, capacity, and recovery claims with a lease
      and a fence token), [storage/manager_registry.py] (Agents and their last
      status), [storage/removal_journal.py] (the removal saga and its audit
      event), [storage/discovery.py] (bounded network scans).  The write
      transactions of the first three call [storage/mutation_fence.py], which
      keeps a held Agent for its saga.  [control_plane_migrations] defines the
      tables, whose constraints are the last line of defence.
    - [enrollment/credential_store.py]: the credential directory.
    - [enrollment/jobs.py]: the service over the journal;
      [enrollment/orchestrator.py]: the sagas (enrollment, rotation, removal,
      recovery) over the repositories, the credential directory, the Agent
      client [enrollment/agent_client.py] and the terminal gateway
      [agents/terminal_proxy.py].
    - [fleet/target_policy.py] and [fleet/registered_target.py] decide which
      addresses may be contacted; [fleet/probes.py] asks Agents and stores
      their status, [fleet/status.py] shows it; [fleet/importer.py] brings in
      the Agents of a configuration file; [discovery/service.py] scans.
    - [agents/client.py] is the HTTP client for Agents; [fleet/registry.py] and
      [agents/registry.py] show the registry to the first API version;
      [agents/availability.py] probes an Agent and remembers its capabilities;
      [proxy/http.py] forwards requests to an Agent over these four.
    - On the Agent: [enrollment/service.py] over [storage/manager_credentials.py];
      [bootstrap/identity.py] creates the instance identity;
      [terminal/manager.py], [terminal/replay_buffer.py], [terminal/tickets.py];
      [observations] and [storage/observations.py]; [logs] and
      [storage/log_sources.py].
    - Both: [auth/rate_limit.py], [auth/token.py] and [auth/dependencies.py]
      behind the handler [login] of [api/auth.py].

    ** Files

    - [Prelude]: functional record update, tactics, the hint database and the
      generic lemmas.  [Text]: the regular expressions, canonical UUIDs and IP
      addresses the code tests.  [Sql]: null-aware comparisons, [UPDATE] with
      its row constraints, the transaction monad [Tx] and [write], the [_write]
      context manager.  [Digest]: SHA-256, JSON texts, bytes and white space.
      [CompactJson]: [json.dumps] and its properties.
    - Manager database: [Models], [Schema], [JobValidation], [MutationFence],
      [EnrollmentJournal], [ManagerRegistry], [RemovalJournal], [Discovery]:
      one definition per method.  [Samples]: concrete databases.  [Lifecycle]:
      the writing methods as one type [call], and how they move a job;
      [JournalProperties], [DiscoveryInvariant]: shared facts.  Theorems in
      [JournalClaims], [SagaClaims], [RegistryClaims], [Paging],
      [DiscoveryClaims].
    - [EnrollmentJobs], [JobsClaims]: the job service, other connections
      interleaved between its transactions.
    - Credential directory: [SecretFiles] (every system call may fail or be the
      last), [SecretFacts] (stages of a publication), [SecretRecovery],
      [SecretClaims].
    - Orchestrator: [Gateway], [GatewayClaims] (terminal tickets);
      [TargetPolicy], [AgentClient], [TargetClaims]; [Saga] (programs and the
      class [Outside]), [Recovery], [Removals], [Enrollments]; [SagaSamples];
      [SagaFacts], [OrchestratorClaims], [RemovalRuns], [SagaOrder],
      [SagaOrderClaims], [SafeRequests]; [PublicResult] (what the API shows of a
      job, and receipts).
    - Fleet: [FleetStatus], [FleetStatusClaims]; [FleetProbes],
      [FleetProbeClaims]; [FleetImport], [ImportFacts], [ImportClaims].
    - Scans: [DiscoveryService] (workers as a transition system), [ScanFacts],
      [ScanClaims].
    - Agent: [ManagerCredentials], [CredentialStore], [EnrollmentService],
      [ServiceClaims] (the service is proved against the classes
      [CredentialRepository] and [CredentialContract], which the table
      implements); [Terminal]; [TerminalSessions],
      [SessionClaims]; [LatestValue] (the compare-and-swap loop that both users
      share), [Observations], [ObservationClaims], [LogSources], [LogTail],
      [LogTailClaims].
    - Requests to Agents: [AgentHttp] (the HTTP client), [AgentHttpClaims];
      [AgentRegistry] (the registry of the first API version), [Availability];
      [HttpProxy], [ProxyFacts], [ProxyClaims].
    - Instance identity: [Identity] (over the directory of [SecretFiles] and
      the Agent's database, both of which may fail or be the last call),
      [IdentityFacts] (a program logic for it), [IdentityClaims].
    - Login: [RateLimit] (token buckets in floating-point arithmetic), [Login]
      (the handler over the limiter and the credential service).

    ** What the theorems show

    - Database: every history of calls keeps the tables well formed
      ([manager_database_invariant], [discovery_tables_invariant]); jobs follow
      lifecycle edges; a superseded fence token is refused; recovery claims
      exclude each other; capacity is respected; sagas never overlap and a held
      Agent is protected; paging ends and visits every Agent once.
    - Sagas: whatever the outside does and wherever the process dies, a removal
      unregisters only after revocation, an activation or rotation is recorded
      only after the Agent acknowledged it ([removal_order],
      [activation_order], [rotation_order]); to the database, every run of the
      orchestrator is a history of repository calls ([orchestrator_refines]);
      an unobstructed removal completes.
    - Addresses: a prepared target is on the allowlists and not forbidden, and
      every request goes to such a target ([prepared_target_safe],
      [requests_stay_in_policy]).
    - Credential files: publication survives a failure or a crash at any call
      ([put_crash_safe]); the sweep deletes exactly the orphans; the import
      keeps what the database names ([import_keeps_credentials],
      [import_compensates]).
    - Agent: exact authentication and final revocation; bounded and exact
      replay, single-use tickets, no lost shell
      ([terminal_sessions_invariant]); latest observation wins, bounded series;
      log tails are exact and within their limits; a log file is opened only
      inside its roots.
    - Scans and probes: honest outcomes, bounded concurrency, true reports of
      dispatch; status pages that list every Agent once.
    - Requests to Agents: paths that proxies cannot read differently
      ([upstream_path_safe]), JSON nesting measured on bytes
      ([json_nesting_exact]), at most one request with the right credential to
      the right address ([exchange_confined], [proxy_confined]) and true
      dispatch states ([proxy_dispatch_honest]).
    - Identity: one per instance, through failures and crashes, and a first
      start that can always be repeated ([identity_never_changes],
      [identity_start_recovers]).
    - Login: exactly who gets in, and how many tokens a source can try
      ([login_returns_iff], [login_guesses_bounded]); what the bucket lets
      through at least ([allow_after_refill], [burst_exact]).

    Theorems with an unwelcome conclusion record defects of the code; the
    manifest lists them as findings.

    ** Modelling choices

    - A time is an aware UTC datetime in microseconds, as [Z]; the stored
      texts have a fixed width and the order of the times.  Python integers
      are unbounded, so [Z] carries no wrap-around; SQLite's 64-bit limit on
      revisions is not modelled.  Readings of [time.time()] are whole numbers
      of 2^-22 seconds.
    - A Python [str] is a [string] of its UTF-8 bytes, or a list of code points
      where the code works on characters.
    - An operation returns an exception or a value together with the new
      state; each program has a small monad of its own.  The exceptions are
      the source's classes; texts of messages are not kept, codes are.
    - A transaction is atomic ([BEGIN IMMEDIATE]); what other connections
      commit between two transactions is an argument, about which nothing is
      assumed unless the theorem says so.  Between two [await]s a coroutine is
      not interrupted; at an [await] other coroutines may do anything.
    - Failures of the credential directory are a list that its system calls
      consume: each call works, fails, or is the one during which the process
      dies; death is an exception that nothing catches.
    - The clock, random names, HTTP answers, resolvers, pseudo-terminals, the
      file system of log files, token files and the HTTP library are
      parameters (the classes [Outside], [Importing], [Ptys], [LogFs], [Wire]
      and others), as are library
      functions outside the repository: URL splitting and IDNA ([UrlLib]),
      ISO times ([IsoTime]), float texts ([FloatText]), case folding
      ([TextLib]), [str] of a JSON value ([PyStr]), the judgement of mapped
      addresses ([PythonIp]).
    - IP addresses follow CPython 3.12's [ipaddress] module.
    - Fuel: decoders consume a byte per step and get the length of their input;
      cursors get one step more than there are Agents; the backward scan of a
      log gets the file's length; clean-up rounds, scans and reads state their
      bounds in their theorems, which prove them sufficient.

    ** What is not modelled

    FastAPI routes but for the login, pydantic models of the configuration, the wiring of the
    processes, SSH child processes, the HTTP library, sockets,
    metrics and read-only reports are input and output or belong to
    third-party packages; the manifest lists them with the reason.  The
    migrations' copying of old rows, diagnostic dumps, the JSON text of stored
    statuses and the cancellation of tasks at shutdown are left out. *)

From stdpp Require Import base tactics list gmap strings.
From Stdlib Require Import ZArith Lia Ascii.

(** ** Functional record update

    [r <| field := v |>] is Python's [dataclasses.replace(r, field=v)].  The
    records of the development have primitive projections, so reading a field
    that an update leaves alone reduces to reading it from [r]. *)
Definition Target {R : Type} (r : R) : Type := R.

Class Setter {R T : Type} (proj : R -> T) := setf : (T -> T) -> R -> R.

Ltac build_setter :=
  match goal with
  | |- @Setter ?R ?T ?proj =>
    let f := fresh "f" in
    let r := fresh "r" in
    intros f r; change (Target r); destruct r;
    match goal with
    | |- Target ?t =>
      let v := eval cbn in (proj t) in
      match eval pattern v in t with
      | ?k _ => let t' := eval cbv beta in (k (f v)) in exact t'
      end
    end
  end.

#[export] Hint Extern 0 (Setter _) => build_setter : typeclass_instances.

Declare Scope guard_scope.
Delimit Scope guard_scope with guard.
#[global] Open Scope guard_scope.

Notation "r <| p := v |>" := (setf (proj := p) (fun _ => v) r)
  (at level 1, left associativity, p at level 0) : guard_scope.

(** ** Booleans as propositions *)
Lemma andb_True_iff (a b : bool) : a && b = true <-> a = true /\ b = true.
Proof. destruct a, b; naive_solver. Qed.

Lemma orb_True_iff (a b : bool) : a || b = true <-> a = true \/ b = true.
Proof. destruct a, b; naive_solver. Qed.

Lemma bool_decide_true_iff (P : Prop) `{Decision P} : bool_decide P = true <-> P.
Proof. apply bool_decide_eq_true. Qed.

(** Turn every boolean test of the context into the proposition it decides. *)
Ltac prop_hyps :=
  repeat match goal with
  | H : _ && _ = true |- _ => apply andb_True_iff in H as [? ?]
  | H : _ || _ = false |- _ => apply orb_false_iff in H as [? ?]
  | H : negb _ = true |- _ => apply negb_true_iff in H
  | H : negb _ = false |- _ => apply negb_false_iff in H
  | H : bool_decide _ = true |- _ => apply bool_decide_eq_true in H
  | H : bool_decide _ = false |- _ => apply bool_decide_eq_false in H
  | H : (_ <? _)%Z = true |- _ => apply Z.ltb_lt in H
  | H : (_ <? _)%Z = false |- _ => apply Z.ltb_ge in H
  | H : (_ <=? _)%Z = true |- _ => apply Z.leb_le in H
  | H : (_ <=? _)%Z = false |- _ => apply Z.leb_gt in H
  | H : (_ =? _)%Z = true |- _ => apply Z.eqb_eq in H
  | H : (_ =? _)%Z = false |- _ => apply Z.eqb_neq in H
  end.

(** ** Options as nullable values *)
Definition is_none {A} (o : option A) : bool :=
  match o with None => true | Some _ => false end.

Definition is_some {A} (o : option A) : bool := negb (is_none o).

Lemma is_none_true {A} (o : option A) : is_none o = true <-> o = None.
Proof. by destruct o. Qed.

Lemma is_none_false {A} (o : option A) : is_none o = false <-> is_Some o.
Proof. destruct o; naive_solver. Qed.

Lemma is_some_true {A} (o : option A) : is_some o = true <-> is_Some o.
Proof. destruct o; naive_solver. Qed.

Lemma is_some_false {A} (o : option A) : is_some o = false <-> o = None.
Proof. by destruct o. Qed.

(** Python truth value of an optional string: [None] and [""] are falsy. *)
Definition truthy (o : option string) : bool :=
  match o with None => false | Some s => bool_decide (s <> "") end.

(** ** Text

    A string is the list of its UTF-8 bytes.  The patterns of the program
    ([re.fullmatch]) only accept ASCII, for which bytes and characters agree. *)
Fixpoint all_chars (p : ascii -> bool) (s : string) : bool :=
  match s with
  | EmptyString => true
  | String c rest => p c && all_chars p rest
  end.

Definition in_range (lo hi c : ascii) : bool :=
  (Ascii.nat_of_ascii lo <=? Ascii.nat_of_ascii c)%nat &&
  (Ascii.nat_of_ascii c <=? Ascii.nat_of_ascii hi)%nat.

Definition is_digit (c : ascii) : bool := in_range "0" "9" c.
Definition is_lower (c : ascii) : bool := in_range "a" "z" c.
Definition is_upper (c : ascii) : bool := in_range "A" "Z" c.
Definition is_hex_lower (c : ascii) : bool := is_digit c || in_range "a" "f" c.
Definition is_char (a c : ascii) : bool := Ascii.eqb a c.

Lemma all_chars_impl (p q : ascii -> bool) s :
  (forall c, p c = true -> q c = true) -> all_chars p s = true -> all_chars q s = true.
Proof.
  intros Hpq. induction s as [|c s IH]; cbn; [done|].
  rewrite !andb_True_iff. naive_solver.
Qed.

Lemma all_chars_app p s t :
  all_chars p (s +:+ t) = all_chars p s && all_chars p t.
Proof.
  induction s as [|c s IH]; [done|]. change (String c s +:+ t) with (String c (s +:+ t)).
  cbn [all_chars]. by rewrite IH, andb_assoc.
Qed.

Lemma string_app_nil (s : string) : s +:+ "" = s.
Proof. induction s as [|c s IH]; [done|]. change (String c (s +:+ "") = String c s). by rewrite IH. Qed.

Lemma string_app_assoc (s t u : string) : s +:+ (t +:+ u) = (s +:+ t) +:+ u.
Proof. induction s as [|c s IH]; [done|]. change (String c (s +:+ (t +:+ u)) = String c ((s +:+ t) +:+ u)). by rewrite IH. Qed.

Lemma string_length_app s t :
  String.length (s +:+ t) = (String.length s + String.length t)%nat.
Proof.
  induction s as [|c s IH]; [done|]. change (String c s +:+ t) with (String c (s +:+ t)).
  cbn [String.length]. by rewrite IH.
Qed.
