(* ===== verification/Text.v ===== *)
(** * Textual identifiers and addresses

    The [re.fullmatch] patterns, the canonical [uuid.UUID] form and the
    [ipaddress.ip_address] text form that [src/backend/ic_env_guard] checks
    before it stores a value, and the facts the storage layer uses about
    them.  Addresses follow CPython 3.12's [ipaddress] module. *)

From stdpp Require Import base tactics list gmap strings.
From Stdlib Require Import ZArith Lia Ascii.
From S2P Require Import Prelude.

(** ** Patterns *)

(** [^[A-Za-z0-9._:-]{1,128}$] *)
Definition enrollment_id_char (c : ascii) : bool :=
  is_upper c || is_lower c || is_digit c ||
  is_char "." c || is_char "_" c || is_char ":" c || is_char "-" c.

Definition is_enrollment_id (s : string) : bool :=
  all_chars enrollment_id_char s &&
  (1 <=? String.length s)%nat && (String.length s <=? 128)%nat.

(** [^[0-9a-f]{48}$] *)
Definition is_credential_ref (s : string) : bool :=
  all_chars is_hex_lower s && (String.length s =? 48)%nat.

(** [[0-9a-f]{64}] *)
Definition is_sha256_hex (s : string) : bool :=
  all_chars is_hex_lower s && (String.length s =? 64)%nat.

(** [^[a-z][a-z0-9_]{0,63}$] *)
Definition is_error_code (s : string) : bool :=
  match s with
  | EmptyString => false
  | String c rest =>
      is_lower c && all_chars (fun c => is_lower c || is_digit c || is_char "_" c) rest &&
      (String.length rest <=? 63)%nat
  end.

(** [str(UUID(s)) == s]: 8-4-4-4-12 lower-case hexadecimal digits. *)
Definition uuid_shape : list nat := [8; 4; 4; 4; 12]%nat.

Fixpoint take_hex (n : nat) (s : string) : option string :=
  match n with
  | O => Some s
  | S m => match s with
           | EmptyString => None
           | String c rest => if is_hex_lower c then take_hex m rest else None
           end
  end.

Fixpoint uuid_groups (shape : list nat) (s : string) : bool :=
  match shape with
  | [] => false
  | [n] => match take_hex n s with Some EmptyString => true | _ => false end
  | n :: shape' =>
      match take_hex n s with
      | Some (String c rest) => is_char "-" c && uuid_groups shape' rest
      | _ => false
      end
  end.

Definition is_canonical_uuid (s : string) : bool := uuid_groups uuid_shape s.

(** ** Splitting and joining *)
Fixpoint split_on (sep : ascii) (s : string) : list string :=
  match s with
  | EmptyString => [EmptyString]
  | String c rest =>
      if is_char sep c then EmptyString :: split_on sep rest
      else match split_on sep rest with
           | [] => [String c EmptyString]
           | p :: ps => String c p :: ps
           end
  end.

Fixpoint join (sep : string) (ps : list string) : string :=
  match ps with
  | [] => ""
  | [p] => p
  | p :: ps' => p +:+ sep +:+ join sep ps'
  end.

Definition has_char (c : ascii) (s : string) : bool := negb (all_chars (fun d => negb (is_char c d)) s).

(** [s.partition(sep)] with a one-character separator: [None] when absent. *)
Fixpoint partition (sep : ascii) (s : string) : string * option string :=
  match s with
  | EmptyString => (EmptyString, None)
  | String c rest =>
      if is_char sep c then (EmptyString, Some rest)
      else let '(a, b) := partition sep rest in (String c a, b)
  end.

(** ** IPv4 *)
Definition digit_value (c : ascii) : Z := Z.of_nat (Ascii.nat_of_ascii c) - 48.

Fixpoint decimal_value (acc : Z) (s : string) : Z :=
  match s with
  | EmptyString => acc
  | String c rest => decimal_value (10 * acc + digit_value c) rest
  end.

(** [IPv4Address._parse_octet] *)
Definition parse_octet (s : string) : option Z :=
  if bool_decide (s = "") || negb (all_chars is_digit s) || (3 <? String.length s)%nat then None
  else if bool_decide (s <> "0") &&
          match s with String c _ => is_char "0" c | EmptyString => false end then None
  else let v := decimal_value 0 s in if (255 <? v)%Z then None else Some v.

Definition parse_ipv4 (s : string) : option (list Z) :=
  match split_on "." s with
  | [a; b; c; d] => mapM parse_octet [a; b; c; d]
  | _ => None
  end.

(** ** IPv6 *)
Definition is_hex (c : ascii) : bool := is_digit c || in_range "a" "f" c || in_range "A" "F" c.

Definition hex_value (c : ascii) : Z :=
  if is_digit c then digit_value c
  else if in_range "a" "f" c then Z.of_nat (Ascii.nat_of_ascii c) - 87
  else Z.of_nat (Ascii.nat_of_ascii c) - 55.

Fixpoint hex_number (acc : Z) (s : string) : Z :=
  match s with
  | EmptyString => acc
  | String c rest => hex_number (16 * acc + hex_value c) rest
  end.

(** [IPv6Address._parse_hextet] *)
Definition parse_hextet (s : string) : option Z :=
  if bool_decide (s = "") || negb (all_chars is_hex s) || (4 <? String.length s)%nat then None
  else Some (hex_number 0 s).

Definition hex_digit (v : Z) : ascii :=
  Ascii.ascii_of_nat (Z.to_nat (if (v <? 10)%Z then 48 + v else 87 + v)).

(** ['%x' % v] for a 16-bit value. *)
Definition hextet_text (v : Z) : string :=
  let d3 := hex_digit (v / 4096 mod 16) in
  let d2 := hex_digit (v / 256 mod 16) in
  let d1 := hex_digit (v / 16 mod 16) in
  let d0 := hex_digit (v mod 16) in
  if (4096 <=? v)%Z then String d3 (String d2 (String d1 (String d0 EmptyString)))
  else if (256 <=? v)%Z then String d2 (String d1 (String d0 EmptyString))
  else if (16 <=? v)%Z then String d1 (String d0 EmptyString)
  else String d0 EmptyString.

(** The index of the single empty part strictly inside [parts]:
    [None] when there are two of them. *)
Fixpoint find_skip (i : nat) (inner : list string) (found : option nat) : option (option nat) :=
  match inner with
  | [] => Some found
  | p :: rest =>
      if bool_decide (p = "") then
        match found with
        | Some _ => None
        | None => find_skip (S i) rest (Some i)
        end
      else find_skip (S i) rest found
  end.

Definition first_empty (ps : list string) : bool :=
  match ps with p :: _ => bool_decide (p = "") | [] => false end.

Definition last_empty (ps : list string) : bool :=
  match last ps with Some p => bool_decide (p = "") | None => false end.

(** The dotted-quad tail of an IPv6 text as two hextets. *)
Definition expand_v4_tail (parts : list string) : option (list string) :=
  match last parts with
  | Some tail =>
      if has_char "." tail then
        match parse_ipv4 tail with
        | Some [a; b; c; d] =>
            Some (take (length parts - 1) parts ++
                  [hextet_text (256 * a + b); hextet_text (256 * c + d)])
        | _ => None
        end
      else Some parts
  | None => None
  end.

(** [IPv6Address._ip_int_from_string], as the list of the eight hextets. *)
Definition parse_hextets (s : string) : option (list Z) :=
  let parts0 := split_on ":" s in
  if bool_decide (s = "") || (length parts0 <? 3)%nat then None
  else match expand_v4_tail parts0 with
  | None => None
  | Some parts =>
    if (9 <? length parts)%nat then None
    else match find_skip 1 (take (length parts - 2) (drop 1 parts)) None with
    | None => None
    | Some (Some i) =>
        let lead := first_empty parts in
        let trail := last_empty parts in
        let hi := if lead then (i - 1)%nat else i in
        let lo0 := (length parts - i - 1)%nat in
        let lo := if trail then (lo0 - 1)%nat else lo0 in
        if (lead && (0 <? hi)%nat) || (trail && (0 <? lo)%nat) then None
        else if (8 <? hi + lo + 1)%nat then None
        else match mapM parse_hextet (take hi parts),
                   mapM parse_hextet (drop (length parts - lo) parts) with
             | Some h, Some l => Some (h ++ replicate (8 - (hi + lo)) 0%Z ++ l)
             | _, _ => None
             end
    | Some None =>
        if negb (length parts =? 8)%nat || first_empty parts || last_empty parts then None
        else mapM parse_hextet parts
    end
  end.

(** [IPv6Address._compress_hextets]: the first longest run of zero hextets. *)
Fixpoint zero_run (i : nat) (zs : list bool) (cur_start cur_len best_start best_len : nat)
    : nat * nat :=
  match zs with
  | [] => (best_start, best_len)
  | true :: rest =>
      let cs := if (cur_len =? 0)%nat then i else cur_start in
      let cl := S cur_len in
      if (best_len <? cl)%nat then zero_run (S i) rest cs cl cs cl
      else zero_run (S i) rest cs cl best_start best_len
  | false :: rest => zero_run (S i) rest 0 0 best_start best_len
  end.

Definition compress_hextets (hs : list Z) : list string :=
  let texts := map hextet_text hs in
  let '(start, len) := zero_run 0 (map (fun h => (h =? 0)%Z) hs) 0 0 0 0 in
  if (1 <? len)%nat then
    let stop := (start + len)%nat in
    (if (start =? 0)%nat then [""] else []) ++ take start texts ++ [""] ++ drop stop texts ++
    (if (stop =? length hs)%nat then [""] else [])
  else texts.

Definition ipv6_text (hs : list Z) : string := join ":" (compress_hextets hs).

Definition split_scope (s : string) : option (string * option string) :=
  match partition "%" s with
  | (a, None) => Some (a, None)
  | (a, Some scope) =>
      if bool_decide (scope = "") || has_char "%" scope then None else Some (a, Some scope)
  end.

Definition compressed_ipv6 (s : string) : option string :=
  if has_char "/" s then None
  else match split_scope s with
  | None => None
  | Some (a, scope) =>
      match parse_hextets a with
      | None => None
      | Some hs => Some (match scope with
                         | None => ipv6_text hs
                         | Some z => ipv6_text hs +:+ "%" +:+ z
                         end)
      end
  end.

(** [ip_address(s).compressed], which is [str(ip_address(s))]; [None] is
    [ValueError].  An accepted IPv4 text is already canonical. *)
Definition ip_compressed (s : string) : option string :=
  match parse_ipv4 s with
  | Some _ => Some s
  | None => compressed_ipv6 s
  end.

Definition is_canonical_ip (s : string) : bool := bool_decide (ip_compressed s = Some s).

(** ** The same values in the CHECK constraints of the schema *)

(** [x = lower(x)] *)
Definition is_lowered (s : string) : bool := all_chars (fun c => negb (is_upper c)) s.

Definition sql_address (s : string) : bool :=
  (2 <=? String.length s)%nat && (String.length s <=? 45)%nat && is_lowered s &&
  all_chars (fun c => is_hex_lower c || is_char ":" c || is_char "." c) s &&
  negb (has_char "%" s).

Definition sql_uuid (s : string) : bool :=
  (String.length s =? 36)%nat && is_lowered s &&
  all_chars (fun c => is_hex_lower c || is_char "-" c) s.

Definition sql_sha256 (s : string) : bool :=
  (String.length s =? 64)%nat && is_lowered s && all_chars is_hex_lower s.

Example ip_v4 : ip_compressed "10.0.0.7" = Some "10.0.0.7". Proof. vm_compute. done. Qed.
Example ip_v4_bad : ip_compressed "10.0.0.07" = None. Proof. vm_compute. done. Qed.
Example ip_v6 : ip_compressed "2001:DB8:0:0:1:0:0:1" = Some "2001:db8::1:0:0:1". Proof. vm_compute. done. Qed.
Example ip_v6_any : ip_compressed "0:0:0:0:0:0:0:0" = Some "::". Proof. vm_compute. done. Qed.
Example ip_v6_mapped : ip_compressed "::ffff:1.2.3.4" = Some "::ffff:102:304". Proof. vm_compute. done. Qed.
Example ip_v6_scoped : is_canonical_ip "fe80::1%eth0" = true. Proof. vm_compute. done. Qed.

(** ** What the patterns guarantee *)
Lemma hex_lower_lowered c : is_hex_lower c = true -> is_upper c = false.
Proof.
  unfold is_hex_lower, is_upper, is_digit, in_range. rewrite orb_True_iff, !andb_True_iff.
  rewrite !Nat.leb_le. intros Hc. apply andb_false_iff.
  change (nat_of_ascii "0") with 48 in *. change (nat_of_ascii "9") with 57 in *.
  change (nat_of_ascii "a") with 97 in *. change (nat_of_ascii "f") with 102 in *.
  change (nat_of_ascii "A") with 65 in *. change (nat_of_ascii "Z") with 90 in *.
  rewrite !Nat.leb_gt. lia.
Qed.

Lemma hex_lower_is_lowered s : all_chars is_hex_lower s = true -> is_lowered s = true.
Proof.
  apply all_chars_impl. intros c Hc. by rewrite hex_lower_lowered.
Qed.

Lemma sha256_sql s : is_sha256_hex s = true -> sql_sha256 s = true.
Proof.
  unfold is_sha256_hex, sql_sha256. intros. prop_hyps.
  rewrite hex_lower_is_lowered by done. by rewrite !andb_True_iff.
Qed.

Lemma take_hex_Some n s rest :
  take_hex n s = Some rest ->
  exists p, s = p +:+ rest /\ String.length p = n /\ all_chars is_hex_lower p = true.
Proof.
  revert s. induction n as [|n IH]; cbn; intros s Hs; [simplify_eq; by exists ""|].
  destruct s as [|c s]; [done|]. destruct (is_hex_lower c) eqn:Hc; [|done].
  destruct (IH _ Hs) as (p & -> & <- & Hp). exists (String c p). split; [done|].
  cbn [all_chars String.length]. by rewrite Hc.
Qed.

Definition uuid_char (c : ascii) : bool := is_hex_lower c || is_char "-" c.

Lemma uuid_groups_sound shape s :
  uuid_groups shape s = true ->
  all_chars uuid_char s = true /\
  String.length s = (list_sum shape + (length shape - 1))%nat.
Proof.
  assert (Hhex : forall p, all_chars is_hex_lower p = true -> all_chars uuid_char p = true).
  { intros p. apply all_chars_impl. intros c Hc. unfold uuid_char. by rewrite Hc. }
  revert s. induction shape as [|n shape IH]; [done|]; intros s Hs.
  destruct shape as [|m shape].
  - cbn in Hs. destruct (take_hex n s) as [rest|] eqn:E; [|done].
    apply take_hex_Some in E as (p & -> & <- & Hp). destruct rest; [|done].
    rewrite all_chars_app, string_length_app, Hhex by done. cbn. split; [done|lia].
  - cbn [uuid_groups] in Hs. destruct (take_hex n s) as [[|c rest]|] eqn:E; [done| |done].
    apply take_hex_Some in E as (p & -> & <- & Hp). apply andb_True_iff in Hs as [Hc Hs].
    destruct (IH _ Hs) as [Hall Hlen]. rewrite all_chars_app, string_length_app, Hhex by done.
    cbn [all_chars String.length]. rewrite Hall, Hlen. split.
    + unfold uuid_char. rewrite Hc, orb_true_r. done.
    + cbn. lia.
Qed.

Lemma canonical_uuid_sql s : is_canonical_uuid s = true -> sql_uuid s = true.
Proof.
  intros [Hall Hlen]%uuid_groups_sound. unfold sql_uuid. rewrite Hlen.
  rewrite !andb_True_iff. split_and!; [done| |done].
  revert Hall. apply all_chars_impl. unfold uuid_char. intros c.
  rewrite orb_True_iff. intros [Hc|Hc].
  - by rewrite hex_lower_lowered.
  - apply Ascii.eqb_eq in Hc as <-. done.
Qed.

(** ** Canonical addresses *)
Lemma hex_digit_lower v : (0 <= v < 16)%Z -> is_hex_lower (hex_digit v) = true.
Proof.
  intros Hv. assert (Hc : v ∈ seqZ 0 16) by (apply elem_of_seqZ; lia).
  apply list_elem_of_In in Hc. clear Hv. revert v Hc.
  apply (proj1 (forallb_forall (fun v => is_hex_lower (hex_digit v)) (seqZ 0 16))).
  vm_compute. done.
Qed.

Lemma hextet_text_ok v :
  all_chars is_hex_lower (hextet_text v) = true /\
  (String.length (hextet_text v) <= 4)%nat.
Proof.
  assert (Hd : forall x, is_hex_lower (hex_digit (x mod 16)) = true).
  { intros x. apply hex_digit_lower. apply Z.mod_pos_bound. lia. }
  unfold hextet_text. repeat case_match; cbn [all_chars String.length]; rewrite !Hd; split; auto; lia.
Qed.

Lemma zero_run_bound zs s l :
  length zs = 8 -> zero_run 0 zs 0 0 0 0 = (s, l) -> (s + l <= 8)%nat.
Proof.
  intros Hlen Hr. do 8 (destruct zs as [|[] zs]; [done| |]); destruct zs; try done;
    injection Hr as <- <-; by apply Nat.leb_le.
Qed.

Definition address_piece (p : string) : Prop :=
  all_chars is_hex_lower p = true /\ (String.length p <= 4)%nat.

Lemma compress_hextets_ok hs :
  length hs = 8 ->
  Forall address_piece (compress_hextets hs) /\ (3 <= length (compress_hextets hs) <= 9)%nat.
Proof.
  intros Hlen. unfold compress_hextets.
  destruct (zero_run _ _ _ _ _ _) as [start len] eqn:Hr.
  apply zero_run_bound in Hr; [|by rewrite length_map].
  assert (Ht : Forall address_piece (map hextet_text hs)).
  { apply Forall_forall. intros p (v & -> & _)%list_elem_of_fmap. apply hextet_text_ok. }
  assert (He : address_piece "") by (split; cbn; [done|lia]).
  destruct (Nat.ltb_spec 1 len).
  - split.
    + repeat apply Forall_app_2; try (by apply Forall_take); try (by apply Forall_drop);
        repeat case_match; auto using Forall_nil_2.
    + rewrite !length_app, length_take, length_drop, length_map, Hlen. cbn [length].
      destruct (Nat.eqb_spec start 0), (Nat.eqb_spec (start + len) 8); cbn [length]; lia.
  - rewrite length_map. split; [done|lia].
Qed.

Lemma join_ok ps :
  Forall address_piece ps ->
  all_chars (fun c => is_hex_lower c || is_char ":" c) (join ":" ps) = true /\
  (length ps - 1 <= String.length (join ":" ps) <= 5 * length ps - 1)%nat.
Proof.
  induction 1 as [|p ps [Hp Hl] Hps IH]; [by cbn|].
  assert (Hp' : all_chars (fun c => is_hex_lower c || is_char ":" c) p = true).
  { revert Hp. apply all_chars_impl. intros c ->. done. }
  destruct ps as [|q ps].
  - cbn [join length]. split; [done|lia].
  - change (join ":" (p :: q :: ps)) with (p +:+ ":" +:+ join ":" (q :: ps)).
    destruct IH as [IH1 IH2]. rewrite !all_chars_app, !string_length_app, Hp', IH1.
    cbn [all_chars String.length length] in *. split; [done|lia].
Qed.

Lemma find_skip_Some i inner found k :
  find_skip i inner found = Some (Some k) ->
  found = Some k \/ (i <= k < i + length inner)%nat.
Proof.
  revert i found. induction inner as [|p inner IH]; cbn; intros i found Hf; [left; congruence|].
  repeat case_match; try done; apply IH in Hf as [?|?]; simplify_eq; auto; right; lia.
Qed.

Lemma parse_hextets_length s hs : parse_hextets s = Some hs -> length hs = 8.
Proof.
  unfold parse_hextets. case_match; [done|].
  destruct (expand_v4_tail _) as [parts|]; [|done]. destruct (Nat.ltb_spec 9 (length parts)); [done|].
  destruct (find_skip _ _ _) as [[k|]|] eqn:Hf; [| |done].
  - apply find_skip_Some in Hf as [?|Hk]; [done|].
    rewrite length_take, length_drop in Hk.
    set (hi := if first_empty parts then _ else _). set (lo := if last_empty parts then _ else _).
    case_match; [done|]. destruct (Nat.ltb_spec 8 (hi + lo + 1)); [done|].
    destruct (mapM parse_hextet (take hi _)) as [h|] eqn:Hh; [|done].
    destruct (mapM parse_hextet (drop _ _)) as [l|] eqn:Hl; [|done].
    intros [= <-]. apply length_mapM in Hh. apply length_mapM in Hl.
    rewrite length_take in Hh. rewrite length_drop in Hl.
    rewrite !length_app, length_replicate.
    assert (hi <= length parts)%nat by (subst hi; case_match; lia).
    assert (lo <= length parts)%nat by (subst lo; case_match; lia). lia.
  - destruct (Nat.eqb_spec (length parts) 8); [|done]. cbn [negb orb].
    destruct (first_empty parts || last_empty parts); [done|].
    intros Hm. apply length_mapM in Hm. lia.
Qed.

Lemma ipv6_text_sql s hs :
  parse_hextets s = Some hs -> sql_address (ipv6_text hs) = true.
Proof.
  intros Hlen%parse_hextets_length. apply compress_hextets_ok in Hlen as [Hp Hn].
  destruct (join_ok _ Hp) as [Hall Hlen]. unfold sql_address, ipv6_text, is_lowered, has_char.
  rewrite negb_involutive, !andb_True_iff, !Nat.leb_le. split_and!; [lia|lia| | |].
  - revert Hall. apply all_chars_impl. intros c. rewrite orb_True_iff. intros [Hc|Hc].
    + by rewrite hex_lower_lowered.
    + by apply Ascii.eqb_eq in Hc as <-.
  - revert Hall. apply all_chars_impl. intros c ->. done.
  - revert Hall. apply all_chars_impl. intros c. rewrite orb_True_iff, negb_true_iff.
    intros Hc. apply not_true_iff_false. intros <-%Ascii.eqb_eq. by destruct Hc.
Qed.

Lemma split_on_nonempty sep s : exists p ps, split_on sep s = p :: ps.
Proof.
  induction s as [|c s (p & ps & IH)]; cbn; [eauto|]. rewrite IH. case_match; eauto.
Qed.

Lemma join_split sep s : join (String sep "") (split_on sep s) = s.
Proof.
  induction s as [|c s IH]; [done|]. cbn [split_on].
  destruct (split_on_nonempty sep s) as (p & ps & E). rewrite E in *.
  destruct (is_char sep c) eqn:Hc.
  - apply Ascii.eqb_eq in Hc as <-.
    change (join (String sep "") ("" :: p :: ps)) with (String sep (join (String sep "") (p :: ps))).
    by rewrite IH.
  - destruct ps as [|q ps]; [cbn [join] in *; congruence|].
    change (String c (join (String sep "") (p :: q :: ps)) = String c s). by rewrite IH.
Qed.

Lemma parse_octet_ok s v :
  parse_octet s = Some v -> all_chars is_digit s = true /\ (1 <= String.length s <= 3)%nat.
Proof.
  unfold parse_octet. destruct (bool_decide (s = "")) eqn:E0; [done|].
  destruct (all_chars is_digit s) eqn:E1; [|done].
  destruct (Nat.ltb_spec 3 (String.length s)); [done|]. intros _. prop_hyps.
  split; [done|]. destruct s; cbn in *; [done|lia].
Qed.

Lemma parse_ipv4_sql s q : parse_ipv4 s = Some q -> sql_address s = true.
Proof.
  unfold parse_ipv4. rewrite <- (join_split "." s) at 2.
  destruct (split_on "." s) as [|a [|b [|c [|d []]]]]; try done.
  intros Hm%mapM_Some_1.
  repeat match goal with H : Forall2 _ (_ :: _) _ |- _ => inversion_clear H end.
  repeat match goal with H : parse_octet _ = Some _ |- _ => apply parse_octet_ok in H as [? ?] end.
  cbn [join]. unfold sql_address, is_lowered, has_char.
  rewrite negb_involutive, !string_length_app, !all_chars_app. cbn [String.length all_chars].
  assert (Hd : forall p t, (forall c, is_digit c = true -> p c = true) ->
    all_chars is_digit t = true -> all_chars p t = true) by (intros; by eapply all_chars_impl).
  rewrite !Hd; try done; try (rewrite !andb_True_iff, !Nat.leb_le; split_and!; auto; lia);
    intros x Hx.
  all: first [ by rewrite hex_lower_lowered by (unfold is_hex_lower; by rewrite Hx)
             | unfold is_hex_lower; by rewrite Hx
             | apply negb_true_iff, not_true_iff_false; by intros <-%Ascii.eqb_eq ].
Qed.

(** A canonical address without a zone index satisfies the CHECK constraints
    of the address columns. *)
Lemma canonical_ip_sql s :
  is_canonical_ip s = true -> has_char "%" s = false -> sql_address s = true.
Proof.
  unfold is_canonical_ip, ip_compressed. intros Hs Hz. prop_hyps.
  destruct (parse_ipv4 s) eqn:E; [by eapply parse_ipv4_sql|].
  unfold compressed_ipv6 in Hs. case_match; [done|].
  destruct (split_scope s) as [[a scope]|]; [|done].
  destruct (parse_hextets a) as [hs|] eqn:Eh; [|done]. injection Hs as Hs.
  destruct scope as [z|]; [|rewrite <- Hs; by eapply ipv6_text_sql].
  exfalso. revert Hz. rewrite <- Hs. unfold has_char. rewrite !all_chars_app. cbn.
  by rewrite andb_false_r.
Qed.

(** [len(s)] for a text in UTF-8: the bytes that start a character. *)
Fixpoint characters (s : string) : nat :=
  match s with
  | EmptyString => 0
  | String c rest => (if in_range "128" "191" c then 0 else 1) + characters rest
  end.
