(* ===== verification/Sql.v ===== *)
(** * The parts of SQLite the storage layer relies on

    A table is a finite map from its primary key to its rows.  This file has
    the null-aware comparisons of [WHERE] clauses, [UPDATE] with its row
    constraints, and the [BEGIN IMMEDIATE] ... [COMMIT]/[ROLLBACK] context
    manager that every writing method of [src/backend/ic_env_guard/storage]
    opens. *)

From stdpp Require Import base tactics list gmap strings.
From Stdlib Require Import ZArith Lia.
From S2P Require Import Prelude.

(** ** Comparisons with NULL: a comparison with NULL is not true. *)
Definition sql_eq {A} `{EqDecision A} (x y : option A) : bool :=
  match x, y with
  | Some a, Some b => bool_decide (a = b)
  | _, _ => false
  end.

Definition sql_gt (x : option Z) (y : Z) : bool :=
  match x with Some a => (y <? a)%Z | None => false end.

Definition sql_le (x : option Z) (y : Z) : bool :=
  match x with Some a => (a <=? y)%Z | None => false end.

(** ** Transactions

    The body of a [with self._write()] block reads and writes the database
    and may raise; [E] is the type of exceptions. *)
Definition Tx (S E A : Type) : Type := S -> E + (A * S).

Definition tx_ret {S E A} (a : A) : Tx S E A := fun s => inr (a, s).

Definition tx_bind {S E A B} (m : Tx S E A) (k : A -> Tx S E B) : Tx S E B :=
  fun s => match m s with
           | inl e => inl e
           | inr (a, s') => k a s'
           end.

Definition raise {S E A} (e : E) : Tx S E A := fun _ => inl e.

Definition raise_if {S E} (b : bool) (e : E) : Tx S E unit :=
  if b then raise e else tx_ret tt.

Definition reads {S E A} (f : S -> A) : Tx S E A := fun s => inr (f s, s).

Definition modifies {S E} (f : S -> S) : Tx S E unit := fun s => inr (tt, f s).

Definition lift {S E A} (r : E + A) : Tx S E A :=
  fun s => match r with inl e => inl e | inr a => inr (a, s) end.

Notation "'let*' x ':=' m 'in' k" := (tx_bind m (fun x => k))
  (at level 10, x pattern, m at level 100, k at level 200) : guard_scope.
Notation "m ';;;' k" := (tx_bind m (fun _ => k))
  (at level 199, right associativity) : guard_scope.

(** [_SQLiteRepository._write]: commit when the block ends normally (an early
    [return] included), roll back when it raises; [handler] is the translation
    the surrounding [except] clauses apply. *)
Definition write {S E A} (handler : E -> E) (body : Tx S E A) (s : S) : (E + A) * S :=
  match body s with
  | inl e => (inl (handler e), s)
  | inr (a, s') => (inr a, s')
  end.

(** A read-only connection never changes the database. *)
Definition query {S E A} (f : S -> E + A) (s : S) : (E + A) * S := (f s, s).

(** Checks made before the transaction is opened. *)
Definition checked {S E A} (r : E + unit) (op : S -> (E + A) * S) (s : S) : (E + A) * S :=
  match r with
  | inl e => (inl e, s)
  | inr _ => op s
  end.

(** ** UPDATE

    [update_pk]: [UPDATE t SET ... WHERE pk=? AND cond].  [None] is an
    [IntegrityError]: the new row violates a constraint.  The number is
    [cursor.rowcount]. *)
Section Update.
Context {K R : Type} `{Countable K}.

Definition update_pk (ok : R -> bool) (k : K) (cond : R -> bool) (f : R -> R)
    (t : gmap K R) : option (gmap K R * nat) :=
  match t !! k with
  | Some r =>
      if cond r then
        if ok (f r) then Some (<[k := f r]> t, 1) else None
      else Some (t, 0)
  | None => Some (t, 0)
  end.

(** [UPDATE t SET ... WHERE cond] over the whole table. *)
Definition update_all (ok : R -> bool) (cond : R -> bool) (f : R -> R)
    (t : gmap K R) : option (gmap K R) :=
  if bool_decide (map_Forall (fun _ r => cond r = true -> ok (f r) = true) t)
  then Some ((fun r => if cond r then f r else r) <$> t)
  else None.

(** [SELECT COUNT( * ) ... WHERE cond]. *)
Definition count_where (cond : R -> bool) (t : gmap K R) : nat :=
  size (filter (fun kr => cond kr.2 = true) t).

(** [SELECT ... WHERE cond LIMIT 1] is not None. *)
Definition exists_where (cond : R -> bool) (t : gmap K R) : bool :=
  negb (bool_decide (map_Forall (fun _ r => cond r = false) t)).
End Update.

(** ** Facts about transactions *)
Section TxFacts.
Context {S E : Type}.

Lemma tx_bind_inr {A B} (m : Tx S E A) (k : A -> Tx S E B) s b s' :
  tx_bind m k s = inr (b, s') <-> exists a s1, m s = inr (a, s1) /\ k a s1 = inr (b, s').
Proof. unfold tx_bind. destruct (m s) as [e|[a s1]]; naive_solver. Qed.

Lemma raise_if_inr (b : bool) (e : E) (s : S) u s' :
  raise_if b e s = inr (u, s') <-> b = false /\ s' = s.
Proof. unfold raise_if, raise, tx_ret. destruct b, u; naive_solver. Qed.

Lemma lift_inr {A} (r : E + A) (s : S) a s' :
  lift r s = inr (a, s') <-> r = inr a /\ s' = s.
Proof. unfold lift. destruct r; naive_solver. Qed.

Lemma tx_ret_inr {A} (a : A) (s : S) b s' :
  tx_ret (E := E) a s = inr (b, s') <-> b = a /\ s' = s.
Proof. unfold tx_ret. naive_solver. Qed.

Lemma reads_inr {A} (f : S -> A) (s : S) a s' :
  reads (E := E) f s = inr (a, s') <-> a = f s /\ s' = s.
Proof. unfold reads. naive_solver. Qed.

Lemma modifies_inr (f : S -> S) (s : S) u s' :
  modifies (E := E) f s = inr (u, s') <-> s' = f s.
Proof. unfold modifies. destruct u. naive_solver. Qed.

(** A method preserves what its transaction body preserves: an exception
    rolls back. *)
Lemma write_preserves {A} (P : S -> Prop) h (body : Tx S E A) s :
  P s -> (forall a s', body s = inr (a, s') -> P s') -> P (write h body s).2.
Proof. unfold write. intros Hs Hb. destruct (body s) as [e|[a s']] eqn:Eb; cbn; eauto. Qed.

Lemma checked_preserves {A} (P : S -> Prop) r (op : S -> (E + A) * S) s :
  P s -> (r = inr tt -> P (op s).2) -> P (checked r op s).2.
Proof. unfold checked. destruct r as [|[]]; naive_solver. Qed.

Lemma write_inr {A} h (body : Tx S E A) s a s' :
  write h body s = (inr a, s') <-> body s = inr (a, s').
Proof. unfold write. destruct (body s) as [e|[a0 s0]]; naive_solver. Qed.

Lemma write_inl {A} h (body : Tx S E A) s e s' : write h body s = (inl e, s') -> s' = s.
Proof. unfold write. destruct (body s) as [e0|[a0 s0]]; naive_solver. Qed.

Lemma checked_inr {A} r (op : S -> (E + A) * S) s a s' :
  checked r op s = (inr a, s') <-> r = inr tt /\ op s = (inr a, s').
Proof. unfold checked. destruct r as [|[]]; naive_solver. Qed.

Lemma checked_inl {A} r (op : S -> (E + A) * S) s e s' :
  (forall e s', op s = (inl e, s') -> s' = s) -> checked r op s = (inl e, s') -> s' = s.
Proof. unfold checked. destruct r; naive_solver. Qed.

Lemma checked_ok {A} r (op : S -> (E + A) * S) s : r = inr tt -> checked r op s = op s.
Proof. by intros ->. Qed.
End TxFacts.

(** Decompose a successful run of a transaction into the runs of its parts. *)
Ltac tx_inv :=
  repeat match goal with
  | H : tx_bind _ _ _ = inr (_, _) |- _ =>
      apply tx_bind_inr in H as (? & ? & ? & H)
  | H : raise_if _ _ _ = inr (_, _) |- _ =>
      apply raise_if_inr in H as [? ?]
  | H : raise _ _ = inr _ |- _ => discriminate H
  | H : inl _ = inr _ |- _ => discriminate H
  | H : lift _ _ = inr (_, _) |- _ => apply lift_inr in H as [? ?]
  | H : tx_ret _ _ = inr (_, _) |- _ => apply tx_ret_inr in H as [? ?]
  | H : reads _ _ = inr (_, _) |- _ => apply reads_inr in H as [? ?]
  | H : modifies _ _ = inr (_, _) |- _ => apply modifies_inr in H
  | H : write _ _ _ = (inr _, _) |- _ => apply write_inr in H
  | H : checked _ _ _ = (inr _, _) |- _ => apply checked_inr in H as [? H]
  end; subst.

(** A method that raised left the state as it was. *)
Ltac unchanged :=
  match goal with
  | H : checked _ _ _ = (inl _, _) |- _ => revert H; apply checked_inl; intros ? ? H; unchanged
  | H : write _ _ _ = (inl _, _) |- _ => exact (write_inl _ _ _ _ _ H)
  end.

(** ** Facts about updates *)
Section UpdateFacts.
Context {K R : Type} `{Countable K}.
Implicit Types (t : gmap K R).

Lemma update_pk_Some ok (k : K) cond f t t' n :
  update_pk ok k cond f t = Some (t', n) <->
  (exists r, t !! k = Some r /\ cond r = true /\ ok (f r) = true /\
     t' = <[k := f r]> t /\ n = 1) \/
  ((forall r, t !! k = Some r -> cond r = false) /\ t' = t /\ n = 0).
Proof.
  unfold update_pk. split.
  - destruct (t !! k) as [r|] eqn:E;
      [destruct (cond r) eqn:C; [destruct (ok (f r)) eqn:O|]|]; intros; simplify_eq.
    + left. eauto 10.
    + right. split; [congruence|done].
    + right. split; [congruence|done].
  - intros [(r & -> & -> & -> & -> & ->)|(Hc & -> & ->)]; [done|].
    destruct (t !! k) as [r|]; [|done]. by rewrite (Hc r).
Qed.

Lemma update_pk_hit ok (k : K) cond f t t' :
  update_pk ok k cond f t = Some (t', 1) <->
  exists r, t !! k = Some r /\ cond r = true /\ ok (f r) = true /\ t' = <[k := f r]> t.
Proof.
  rewrite update_pk_Some. split.
  - intros [(r & ? & ? & ? & ? & _)|(_ & _ & ?)]; [eauto|done].
  - intros (r & ? & ? & ? & ?). left. eauto 10.
Qed.

Lemma update_all_Some ok cond f t t' :
  update_all ok cond f t = Some t' <->
  map_Forall (fun _ r => cond r = true -> ok (f r) = true) t /\
  t' = (fun r => if cond r then f r else r) <$> t.
Proof. unfold update_all. case_bool_decide; naive_solver. Qed.

Lemma update_all_lookup ok cond f t t' k :
  update_all ok cond f t = Some t' ->
  t' !! k = (fun r => if cond r then f r else r) <$> t !! k.
Proof. intros [_ ->]%update_all_Some. apply lookup_fmap. Qed.

Lemma exists_where_true cond t :
  exists_where cond t = true <-> exists k r, t !! k = Some r /\ cond r = true.
Proof.
  unfold exists_where. rewrite negb_true_iff, bool_decide_eq_false. split.
  - intros Hn. apply map_not_Forall in Hn as (k & r & ? & ?); [|apply _].
    exists k, r. split; [done|]. by destruct (cond r).
  - intros (k & r & Hk & Hc) Hall. specialize (Hall k r Hk). cbn in Hall. congruence.
Qed.

Lemma exists_where_false cond t :
  exists_where cond t = false <-> forall k r, t !! k = Some r -> cond r = false.
Proof.
  unfold exists_where. rewrite negb_false_iff, bool_decide_eq_true. done.
Qed.

Lemma count_where_insert_new cond t k r :
  t !! k = None ->
  count_where cond (<[k := r]> t) = ((if cond r then 1 else 0) + count_where cond t)%nat.
Proof.
  intros Hk. unfold count_where. destruct (cond r) eqn:C.
  - rewrite map_filter_insert_True by done. apply map_size_insert_None.
    apply map_lookup_filter_None_2. by left.
  - rewrite map_filter_insert_False by (cbn; congruence). by rewrite delete_id.
Qed.

Lemma count_where_insert_same cond t k r r' :
  t !! k = Some r -> cond r' = cond r ->
  count_where cond (<[k := r']> t) = count_where cond t.
Proof.
  intros Hk Hc. rewrite <- (insert_delete_id t k r Hk) at 2. rewrite <- insert_delete_eq.
  rewrite !count_where_insert_new by apply lookup_delete_eq. by rewrite Hc.
Qed.

Lemma count_where_filter cond (P : K * R -> Prop) `{forall x, Decision (P x)} t :
  (forall k r, t !! k = Some r -> cond r = true -> P (k, r)) ->
  count_where cond (filter P t) = count_where cond t.
Proof.
  intros HP. unfold count_where. f_equal. apply map_eq. intros k. apply option_eq. intros r.
  rewrite !map_lookup_filter_Some. naive_solver.
Qed.

Lemma count_where_none cond t :
  (forall k r, t !! k = Some r -> cond r = false) -> count_where cond t = 0.
Proof.
  intros Hn. unfold count_where. apply map_size_empty_iff, map_empty. intros k.
  apply map_lookup_filter_None. right. intros r Hr Hc. cbn in Hc. specialize (Hn k r Hr). congruence.
Qed.

Lemma count_where_fmap_le cond (f : R -> R) t :
  (forall r, cond (f r) = true -> cond r = true) ->
  (count_where cond (f <$> t) <= count_where cond t)%nat.
Proof.
  intros Hf. unfold count_where. rewrite map_filter_fmap, map_size_fmap.
  apply map_subseteq_size. apply map_filter_subseteq_ext.
  intros k r Hr. cbn. apply Hf.
Qed.
End UpdateFacts.

(** ** Invariants of transactions

    [Preserves P m]: a run of [m] that returns keeps [P].  The rules below
    follow the structure of a body; statements add their own. *)
Definition Preserves {S E A} (P : S -> Prop) (m : Tx S E A) : Prop :=
  forall s a s', P s -> m s = inr (a, s') -> P s'.

Definition OpPreserves {S E A} (P : S -> Prop) (op : S -> (E + A) * S) : Prop :=
  forall s, P s -> P (op s).2.

Create HintDb preserves.

Section Preserves.
Context {S E : Type} (P : S -> Prop).

Lemma preserves_bind {A B} (m : Tx S E A) (k : A -> Tx S E B) :
  Preserves P m -> (forall a, Preserves P (k a)) -> Preserves P (tx_bind m k).
Proof. intros Hm Hk s b s' Hs (a & s1 & H1 & H2)%tx_bind_inr. exact (Hk _ _ _ _ (Hm _ _ _ Hs H1) H2). Qed.

Lemma preserves_ret {A} (a : A) : Preserves P (tx_ret (E := E) a).
Proof. intros s b s' Hs ?. by tx_inv. Qed.

Lemma preserves_raise {A} (e : E) : Preserves P (raise (A := A) e).
Proof. intros s b s' Hs ?. by tx_inv. Qed.

Lemma preserves_raise_if b (e : E) : Preserves P (raise_if b e).
Proof. intros s u s' Hs ?. by tx_inv. Qed.

Lemma preserves_reads {A} (f : S -> A) : Preserves P (reads (E := E) f).
Proof. intros s b s' Hs ?. by tx_inv. Qed.

Lemma preserves_lift {A} (r : E + A) : Preserves P (lift r).
Proof. intros s b s' Hs ?. by tx_inv. Qed.

Lemma op_write {A} h (body : Tx S E A) : Preserves P body -> OpPreserves P (write h body).
Proof. intros Hb s Hs. apply write_preserves; [done|]. intros a s' Hr. by eapply Hb. Qed.

Lemma op_checked {A} r (op : S -> (E + A) * S) : OpPreserves P op -> OpPreserves P (checked r op).
Proof. intros Ho s Hs. apply checked_preserves; eauto. Qed.

Lemma op_query {A} (f : S -> E + A) : OpPreserves P (query f).
Proof. by intros s Hs. Qed.
End Preserves.

#[export] Hint Resolve preserves_bind preserves_ret preserves_raise preserves_raise_if
  preserves_reads preserves_lift op_write op_checked op_query : preserves.

(** Walk through a transaction body: binds, matches and tests, then the rules
    of the statements from the hint database. *)
Ltac preserves :=
  repeat first
  [ progress intros
  | solve [ eauto 3 with preserves ]
  | apply op_write
  | apply op_checked
  | apply preserves_bind
  | match goal with
    | |- Preserves _ (match ?x with _ => _ end) => destruct x
    | |- Preserves _ (if ?x then _ else _) => destruct x
    | |- OpPreserves _ (match ?x with _ => _ end) => destruct x
    end ].
