(* ===== verification/Digest.v ===== *)
(** * Digests of canonical JSON

    The parts of Python's standard library behind the input fingerprints and
    stored credential digests: [hashlib.sha256(...).hexdigest()] on bytes and
    [json.dumps] of texts and integers with its default [ensure_ascii=True].
    A text is the list of its UTF-8 bytes. *)

From stdpp Require Import base tactics list strings pretty.
From Stdlib Require Import ZArith Lia Ascii.
From S2P Require Import Prelude.

(** ** Hexadecimal *)
Definition hex_char (n : Z) : ascii :=
  Ascii.ascii_of_nat (Z.to_nat (if (n <? 10)%Z then 48 + n else 87 + n)).

Fixpoint hex (digits : nat) (n : Z) : string :=
  match digits with
  | 0 => ""
  | S d => hex d (Z.shiftr n 4) +:+ String (hex_char (Z.land n 15)) ""
  end.

Definition byte_of (c : ascii) : Z := Z.of_nat (Ascii.nat_of_ascii c).

Fixpoint bytes_of (s : string) : list Z :=
  match s with
  | EmptyString => []
  | String c rest => byte_of c :: bytes_of rest
  end.

(** ** SHA-256 (FIPS 180-4) on 32-bit words *)
Definition w32 (x : Z) : Z := Z.land x 0xffffffff.
Definition add32 (x y : Z) : Z := w32 (x + y).
Definition rotr (n x : Z) : Z := Z.lor (Z.shiftr x n) (w32 (Z.shiftl x (32 - n))).

(** The constants of FIPS 180-4: the first 32 bits of the fractional parts of
    the cube roots (round constants) and square roots (initial value) of the
    first primes. *)
Definition is_prime (n : nat) : bool :=
  forallb (fun d => negb (Nat.eqb (n mod d) 0)) (seq 2 (n - 2)).

Definition primes_below (n : nat) : list Z :=
  Z.of_nat <$> filter is_prime (seq 2 (n - 2)).

(** The integer cube root, bit by bit from bit [n - 1] down. *)
Fixpoint cbrt_bits (n : nat) (root x : Z) : Z :=
  match n with
  | 0 => root
  | S n =>
      let next := Z.setbit root (Z.of_nat n) in
      cbrt_bits n (if (next * next * next <=? x)%Z then next else root) x
  end.

Definition sha_k : list Z :=
  Eval vm_compute in
  (fun p => w32 (cbrt_bits 36 0 (Z.shiftl p 96))) <$> primes_below 312.

Definition sha_init : list Z :=
  Eval vm_compute in
  (fun p => w32 (Z.sqrt (Z.shiftl p 64))) <$> primes_below 20.

(** The message schedule, newest word first. *)
Fixpoint sha_extend (n : nat) (ws : list Z) : list Z :=
  match n with
  | 0 => ws
  | S n =>
      let at_ i := nth i ws 0%Z in
      let s0 := Z.lxor (Z.lxor (rotr 7 (at_ 14)) (rotr 18 (at_ 14))) (Z.shiftr (at_ 14) 3) in
      let s1 := Z.lxor (Z.lxor (rotr 17 (at_ 1)) (rotr 19 (at_ 1))) (Z.shiftr (at_ 1) 10) in
      sha_extend n (add32 (add32 (at_ 15) s0) (add32 (at_ 6) s1) :: ws)
  end.

Definition sha_round (st : list Z) (kw : Z * Z) : list Z :=
  match st with
  | [a; b; c; d; e; f; g; h] =>
      let s1 := Z.lxor (Z.lxor (rotr 6 e) (rotr 11 e)) (rotr 25 e) in
      let ch := Z.lxor (Z.land e f) (Z.land (Z.lxor e 0xffffffff) g) in
      let t1 := add32 (add32 h s1) (add32 ch (kw.1 + kw.2)%Z) in
      let s0 := Z.lxor (Z.lxor (rotr 2 a) (rotr 13 a)) (rotr 22 a) in
      let maj := Z.lxor (Z.lxor (Z.land a b) (Z.land a c)) (Z.land b c) in
      [add32 t1 (add32 s0 maj); a; b; c; add32 d t1; e; f; g]
  | _ => st
  end.

Fixpoint words (bytes : list Z) : list Z :=
  match bytes with
  | a :: b :: c :: d :: rest =>
      Z.lor (Z.lor (Z.shiftl a 24) (Z.shiftl b 16)) (Z.lor (Z.shiftl c 8) d) :: words rest
  | _ => []
  end.

Definition sha_block (st : list Z) (block : list Z) : list Z :=
  let ws := rev (sha_extend 48 (rev block)) in
  zip_with add32 st (foldl sha_round st (zip sha_k ws)).

Fixpoint sha_blocks (n : nat) (st : list Z) (ws : list Z) : list Z :=
  match n with
  | 0 => st
  | S n => sha_blocks n (sha_block st (take 16 ws)) (drop 16 ws)
  end.

Definition sha_pad (bytes : list Z) : list Z :=
  let len := length bytes in
  let zeros := (119 - len mod 64) mod 64 in
  bytes ++ [128%Z] ++ replicate zeros 0%Z ++
  ((fun i => Z.land (Z.shiftr (8 * Z.of_nat len) (8 * Z.of_nat i)) 255) <$> rev (seq 0 8)).

Definition sha256_hex (bytes : list Z) : string :=
  let padded := sha_pad bytes in
  foldr (fun w acc => hex 8 w +:+ acc) "" (sha_blocks (length padded / 64) sha_init (words padded)).

Example sha256_abc :
  sha256_hex (bytes_of "abc") = "ba7816bf8f01cfea414140de5dae2223b00361a396177a9cb410ff61f20015ad".
Proof. vm_compute. reflexivity. Qed.

Example sha256_two_blocks :
  sha256_hex (bytes_of "abcdbcdecdefdefgefghfghighijhijkijkljklmklmnlmnomnopnopq") =
    "248d6a61d20638b8e5c026930c3e6039a33ce45964ff2167f6ecedd419db06c1".
Proof. vm_compute. reflexivity. Qed.

(** ** JSON texts *)

(** Code points of a UTF-8 text. *)
Fixpoint code_points (bytes : list Z) : list Z :=
  match bytes with
  | [] => []
  | a :: rest =>
      if (a <? 0x80)%Z then a :: code_points rest
      else if (a <? 0xe0)%Z then
        match rest with
        | b :: rest => (Z.land a 31 * 64 + Z.land b 63)%Z :: code_points rest
        | _ => []
        end
      else if (a <? 0xf0)%Z then
        match rest with
        | b :: c :: rest =>
            (Z.land a 15 * 4096 + Z.land b 63 * 64 + Z.land c 63)%Z :: code_points rest
        | _ => []
        end
      else
        match rest with
        | b :: c :: d :: rest =>
            (Z.land a 7 * 262144 + Z.land b 63 * 4096 + Z.land c 63 * 64 + Z.land d 63)%Z ::
            code_points rest
        | _ => []
        end
  end.

Definition json_escape (n : Z) : string := "\u" +:+ hex 4 n.

Definition json_char (n : Z) : string :=
  if (n =? 34)%Z then String "092" (String "034" "")
  else if (n =? 92)%Z then String "092" (String "092" "")
  else if (n =? 10)%Z then "\n"
  else if (n =? 13)%Z then "\r"
  else if (n =? 9)%Z then "\t"
  else if (n =? 12)%Z then "\f"
  else if (n =? 8)%Z then "\b"
  else if (32 <=? n)%Z && (n <=? 126)%Z then String (Ascii.ascii_of_nat (Z.to_nat n)) ""
  else if (n <? 0x10000)%Z then json_escape n
  else
    let v := (n - 0x10000)%Z in
    json_escape (Z.lor 0xd800 (Z.land (Z.shiftr v 10) 0x3ff)) +:+
    json_escape (Z.lor 0xdc00 (Z.land v 0x3ff)).

Definition quote : string := String "034" "".

Definition json_string (s : string) : string :=
  quote +:+ foldr (fun n acc => json_char n +:+ acc) "" (code_points (bytes_of s)) +:+ quote.

Definition json_opt_string (o : option string) : string := from_option json_string "null" o.
Definition json_opt_int (o : option Z) : string := from_option pretty "null" o.

(** ** Bytes of a text *)
Fixpoint string_of_bytes (l : list Z) : string :=
  match l with
  | [] => ""
  | b :: l => String (Ascii.ascii_of_nat (Z.to_nat b)) (string_of_bytes l)
  end.

(** [str.isspace] of a code point, and [str.strip] on code points. *)
Definition py_space (c : Z) : bool :=
  ((9 <=? c) && (c <=? 13) || (28 <=? c) && (c <=? 32) || (0x2000 <=? c) && (c <=? 0x200a))%Z ||
  bool_decide (c ∈ [0x85; 0xa0; 0x1680; 0x2028; 0x2029; 0x202f; 0x205f; 0x3000]%Z).

Fixpoint drop_space (l : list Z) : list Z :=
  match l with
  | c :: rest => if py_space c then drop_space rest else l
  | [] => []
  end.

Definition strip_points (l : list Z) : list Z := reverse (drop_space (reverse (drop_space l))).

(** [not value.strip()] *)
Definition blank (s : string) : bool := forallb py_space (code_points (bytes_of s)).

Lemma bytes_of_length s : length (bytes_of s) = String.length s.
Proof. induction s; cbn; [done|]. by f_equal. Qed.

Lemma bytes_of_inj s t : bytes_of s = bytes_of t -> s = t.
Proof.
  revert t. induction s as [|c s IH]; intros [|d t]; try done. cbn. intros E. injection E as Ec Et.
  f_equal; [|by apply IH]. rewrite <- (Ascii.ascii_nat_embedding c), <- (Ascii.ascii_nat_embedding d). f_equal.
  unfold byte_of in Ec. lia.
Qed.
