(* ===== verification/Models.v ===== *)
(** * Domain records

    The enumerations, dataclasses and exceptions of
    [src/backend/ic_env_guard/fleet/models.py], and the rows of the tables
    that carry no dataclass of their own.  Times are aware UTC datetimes as
    microseconds since the epoch; the stored texts have a fixed width, so they
    are ordered as the times are. *)

From stdpp Require Import base tactics list gmap strings.
From Stdlib Require Import ZArith Lia SpecFloat.
From S2P Require Import Prelude.

(** Aware UTC datetime, in microseconds. *)
Definition time : Type := Z.

(** [timedelta(seconds=n)] *)
Definition seconds (n : Z) : Z := n * 1000000.

(** ** Enumerations *)
Inductive EnrollmentMethod :=
| SSH_AUTO
| SSH_CLI
| SSH_SERVICE_KEY
| LOCAL_SOCKET
| LEGACY_ADMIN_TOKEN.

Inductive EnrollmentState :=
| PENDING
| RUNNING
| AWAITING_CLI
| CREDENTIAL_ISSUED
| VERIFYING
| VERIFIED
| ACTIVATION_REQUESTED
| ACTIVATED
| CONSUMED
| CANCELLED
| FAILED
| EXPIRED.

#[global] Instance EnrollmentMethod_eq : EqDecision EnrollmentMethod.
Proof. solve_decision. Defined.

#[global] Instance EnrollmentState_eq : EqDecision EnrollmentState.
Proof. solve_decision. Defined.

(** [EnrollmentState.terminal] *)
Definition terminal (s : EnrollmentState) : bool :=
  match s with CONSUMED | CANCELLED | FAILED | EXPIRED => true | _ => false end.

(** [_EXPIRABLE_STATES] of the journal ([EXPIRABLE_STATES] of the jobs
    service): the phases a TTL may end. *)
Definition expirable (s : EnrollmentState) : bool :=
  match s with
  | PENDING | RUNNING | AWAITING_CLI | CREDENTIAL_ISSUED | VERIFYING | VERIFIED => true
  | _ => false
  end.

(** ** Exceptions

    [RegistryError] and its subclasses carry the code the callers dispatch on
    where there is one; [IntegrityError] is SQLite's, [ValueError] stands for
    the [TypeError]/[ValueError] of decoding a row. *)
Inductive exn :=
| RegistryConflict (code : string)
| RevisionConflict
| RegistryInvariantError
| RegistryError
| IntegrityError
| ValueError
| AssertionError.

#[global] Instance exn_eq : EqDecision exn.
Proof. solve_decision. Defined.

(** ** JSON values *)
Inductive json :=
| JNull
| JBool (b : bool)
| JInt (n : Z)
| JFloat (f : spec_float)
| JString (s : string)
| JList (l : list json)
| JDict (d : list (string * json)).

(** ** Dataclasses *)
#[local] Set Primitive Projections.

Record AgentRecord := mkAgent {
  agent_id : string;
  agent_instance_id : option string;
  agent_display_name : string;
  agent_normalized_endpoint : string;
  agent_credential_ref : string;
  agent_remote_credential_id : option string;
  agent_transport_profile_id : string;
  agent_enrollment_method : EnrollmentMethod;
  agent_enabled : bool;
  agent_source : string;
  agent_revision : Z;
  agent_created_at : time;
  agent_updated_at : time
}.

Record AgentQuery := mkQuery {
  query_limit : Z;
  query_cursor : option string
}.

Record AgentPage := mkPage {
  page_items : list AgentRecord;
  page_next_cursor : option string
}.

Record AgentStatus := mkStatus {
  status_agent_id : string;
  status_target_revision : Z;
  status_connection_status : string;
  status_workload_status : string;
  status_observed_at : option time;
  status_stale_after : option time;
  status_api_version : option string;
  status_agent_version : option string;
  status_capabilities : list string;
  status_summary : json;
  status_last_error_code : option string;
  status_updated_at : time
}.

Record EnrollmentJob := mkJob {
  job_enrollment_id : string;
  job_manager_id : string;
  job_state : EnrollmentState;
  job_normalized_endpoint : string;
  job_transport_profile_id : string;
  job_discovery_result_id : option string;
  job_replace_agent_id : option string;
  job_requested_display_name : option string;
  job_ssh_user : option string;
  job_ssh_host : option string;
  job_ssh_port : option Z;
  job_enrollment_method : EnrollmentMethod;
  job_remote_instance_id : option string;
  job_remote_credential_id : option string;
  job_credential_temp_ref : option string;
  job_old_credential_ref : option string;
  job_old_remote_credential_id : option string;
  job_save_requested : bool;
  job_expires_at : time;
  job_last_error_code : option string;
  job_created_at : time;
  job_updated_at : time;
  job_recovery_owner : option string;
  job_recovery_lease_until : option time;
  job_recovery_revision : Z;
  job_validated_http_address : option string;
  job_cli_resume_nonce : option string;
  job_cli_peer_uid : option Z;
  job_cli_input_fingerprint : option string;
  job_cli_pinned_address : option string;
  job_cli_accept_receipt : option string;
  job_old_normalized_endpoint : option string;
  job_old_transport_profile_id : option string;
  job_old_instance_id : option string;
  job_old_registry_revision : option Z;
  job_old_enrollment_method : option EnrollmentMethod;
  job_old_source : option string;
  job_old_enabled : option bool;
  job_old_display_name : option string
}.

Record AgentRemovalJob := mkRemoval {
  removal_id : string;
  removal_agent_id : string;
  removal_captured_revision : Z;
  removal_credential_ref : string;
  removal_remote_credential_id : option string;
  removal_normalized_endpoint : string;
  removal_transport_profile_id : string;
  removal_enrollment_method : EnrollmentMethod;
  removal_phase : string;
  removal_local_only : bool;
  removal_audit_event_id : Z;
  removal_last_error_code : option string;
  removal_created_at : time;
  removal_updated_at : time
}.

(** A row of [agent_enrollment_jobs]: the job and the column
    [replace_agent_tombstone], which no dataclass carries. *)
Record JobRow := mkJobRow {
  row_job : EnrollmentJob;
  row_replace_agent_tombstone : option string
}.

(** The columns of [control_plane_audit_events] the lifecycle code touches. *)
Record AuditRow := mkAudit {
  audit_agent_id : option string;
  audit_operation : string;
  audit_target : string;
  audit_result : string;
  audit_dispatch_state : string;
  audit_failure_category : option string
}.

(** ** Discovery ([discovery/models.py]) *)
Inductive DiscoveryState := D_QUEUED | D_RUNNING | D_COMPLETED | D_CANCELLED | D_FAILED.

Inductive DiscoveryDispatchState := NOT_DISPATCHED | DISPATCH_UNKNOWN | DISPATCHED.

Record DiscoveryTarget := mkTarget {
  target_ip : string;
  target_port : Z;
  target_transport_profile_id : string;
  target_scheme : string
}.

Record DiscoveryJob := mkDiscoveryJob {
  discovery_job_id : string;
  discovery_scope_id : string;
  discovery_state : DiscoveryState;
  discovery_total_targets : Z;
  discovery_checked_targets : Z;
  discovery_found_targets : Z;
  discovery_cancel_requested : bool;
  discovery_safe_error_code : option string;
  discovery_start_audit_event_id : Z;
  discovery_deadline_at : time;
  discovery_created_at : time;
  discovery_updated_at : time;
  discovery_completed_at : option time;
  discovery_dispatch_state : DiscoveryDispatchState
}.

Record DiscoveryResult := mkDiscoveryResult {
  result_id : string;
  result_job_id : string;
  result_canonical_url : string;
  result_ip : string;
  result_port : Z;
  result_transport_profile_id : string;
  result_fingerprint_version : option string;
  result_found : bool;
  result_safe_error_code : option string;
  result_first_seen_at : time;
  result_last_seen_at : time;
  result_linked_enrollment_id : option string
}.

#[local] Unset Primitive Projections.

#[global] Instance DiscoveryState_eq : EqDecision DiscoveryState.
Proof. solve_decision. Defined.

#[global] Instance DiscoveryDispatchState_eq : EqDecision DiscoveryDispatchState.
Proof. solve_decision. Defined.

#[global] Instance AgentRecord_eq : EqDecision AgentRecord.
Proof. solve_decision. Defined.

(** ** Facts about the enumerations *)
Lemma terminal_not_expirable s : terminal s = true -> expirable s = false.
Proof. by destruct s. Qed.
