(* ===== verification/Schema.v ===== *)
(** * The manager database

    The tables of the control-plane database as the migrations of
    [src/backend/ic_env_guard/control_plane_migrations] leave them: the CHECK
    constraints as boolean functions on rows, the UNIQUE and FOREIGN KEY
    constraints on tables, and the statements (INSERT, UPDATE, DELETE) that
    raise [IntegrityError] when a constraint fails. *)

From stdpp Require Import base tactics list gmap strings.
From Stdlib Require Import ZArith Lia.
From S2P Require Import Prelude Text Sql Models.

#[local] Set Primitive Projections.
Record DB := mkDB {
  manager_metadata : gmap string string;
  agents : gmap string AgentRecord;
  agent_status : gmap string AgentStatus;
  agent_enrollment_jobs : gmap string JobRow;
  agent_removal_jobs : gmap string AgentRemovalJob;
  control_plane_audit_events : gmap Z AuditRow;
  discovery_jobs : gmap string DiscoveryJob;
  discovery_results : gmap string DiscoveryResult
}.
#[local] Unset Primitive Projections.

Definition empty_db : DB := mkDB ∅ ∅ ∅ ∅ ∅ ∅ ∅ ∅.

(** The result of a transaction on this database. *)
Abbreviation TxDB := (Tx DB exn).

(** ** CHECK constraints *)
Definition opt_check {A} (p : A -> bool) (o : option A) : bool :=
  match o with None => true | Some a => p a end.

Definition agent_sources : list string :=
  ["config_import"; "manual"; "discovery"; "local_dev_bootstrap"].

Definition is_legacy (m : EnrollmentMethod) : bool := bool_decide (m = LEGACY_ADMIN_TOKEN).

Definition agents_check (a : AgentRecord) : bool :=
  bool_decide (agent_source a ∈ agent_sources) &&
  (1 <=? agent_revision a)%Z &&
  (is_some (agent_instance_id a) || is_legacy (agent_enrollment_method a)) &&
  (is_some (agent_remote_credential_id a) || is_legacy (agent_enrollment_method a)).

Definition connection_statuses : list string :=
  ["disabled"; "unknown"; "ready"; "degraded"; "unavailable"].

Definition workload_statuses : list string :=
  ["unknown"; "healthy"; "warning"; "critical"; "stale"].

Definition status_check (s : AgentStatus) : bool :=
  (1 <=? status_target_revision s)%Z &&
  bool_decide (status_connection_status s ∈ connection_statuses) &&
  bool_decide (status_workload_status s ∈ workload_statuses).

(** [state IN ('credential_issued', ..., 'activated')] *)
Definition credential_state (s : EnrollmentState) : bool :=
  match s with
  | CREDENTIAL_ISSUED | VERIFYING | VERIFIED | ACTIVATION_REQUESTED | ACTIVATED => true
  | _ => false
  end.

Definition activation_state (s : EnrollmentState) : bool :=
  match s with ACTIVATION_REQUESTED | ACTIVATED => true | _ => false end.

(** The states in which a CLI resume claim may be stored. *)
Definition cli_claim_state (s : EnrollmentState) : bool :=
  bool_decide (s = RUNNING) || credential_state s.

Definition non_ssh (m : EnrollmentMethod) : bool :=
  match m with LEGACY_ADMIN_TOKEN | LOCAL_SOCKET => true | _ => false end.

(** The CHECK on [validated_http_address] and the phase. *)
Definition check_pin_phase (j : EnrollmentJob) : bool :=
  let pin := job_validated_http_address j in
  if is_legacy (job_enrollment_method j) then is_none pin
  else if credential_state (job_state j) then is_some pin
  else if terminal (job_state j) then
    Bool.eqb (is_none (job_credential_temp_ref j)) (is_none pin)
  else is_none pin.

(** The CHECK that the four CLI columns are set together, for CLI enrollments
    in the phases that carry a resume claim. *)
Definition check_cli_claim (j : EnrollmentJob) : bool :=
  (is_none (job_cli_resume_nonce j) && is_none (job_cli_peer_uid j) &&
   is_none (job_cli_input_fingerprint j) && is_none (job_cli_pinned_address j)) ||
  (is_some (job_cli_resume_nonce j) && is_some (job_cli_peer_uid j) &&
   is_some (job_cli_input_fingerprint j) && is_some (job_cli_pinned_address j) &&
   bool_decide (job_enrollment_method j = SSH_CLI) && cli_claim_state (job_state j)).

Definition check_receipt (j : EnrollmentJob) : bool :=
  opt_check sql_sha256 (job_cli_accept_receipt j) &&
  (is_none (job_cli_accept_receipt j) ||
   (bool_decide (job_state j = CONSUMED) && bool_decide (job_enrollment_method j = SSH_CLI))) &&
  (is_none (job_cli_accept_receipt j) || is_none (job_cli_resume_nonce j)).

Definition check_running_cli (j : EnrollmentJob) : bool :=
  negb (bool_decide (job_state j = RUNNING) &&
        bool_decide (job_enrollment_method j = SSH_CLI) &&
        is_none (job_credential_temp_ref j)) ||
  is_some (job_cli_resume_nonce j).

Definition check_ssh (j : EnrollmentJob) : bool :=
  if non_ssh (job_enrollment_method j) then
    is_none (job_ssh_user j) && is_none (job_ssh_host j) && is_none (job_ssh_port j)
  else
    is_some (job_ssh_user j) && is_some (job_ssh_host j) && is_some (job_ssh_port j).

Definition check_activation (j : EnrollmentJob) : bool :=
  (negb (credential_state (job_state j)) || is_some (job_credential_temp_ref j)) &&
  (negb (activation_state (job_state j)) ||
   (job_save_requested j && is_some (job_requested_display_name j))) &&
  (negb (activation_state (job_state j)) || is_legacy (job_enrollment_method j) ||
   (is_some (job_remote_instance_id j) && is_some (job_remote_credential_id j))).

(** The CHECKs that do not read the state. *)
Definition check_columns (j : EnrollmentJob) : bool :=
  opt_check (fun p => (1 <=? p)%Z && (p <=? 65535)%Z) (job_ssh_port j) &&
  (0 <=? job_recovery_revision j)%Z &&
  opt_check sql_address (job_validated_http_address j) &&
  opt_check sql_uuid (job_cli_resume_nonce j) &&
  opt_check (fun u => (0 <=? u)%Z) (job_cli_peer_uid j) &&
  opt_check sql_sha256 (job_cli_input_fingerprint j) &&
  opt_check sql_address (job_cli_pinned_address j) &&
  opt_check (fun r => (1 <=? r)%Z) (job_old_registry_revision j) &&
  (is_none (job_discovery_result_id j) || is_none (job_replace_agent_id j)) &&
  (negb (job_save_requested j) || is_some (job_requested_display_name j)) &&
  check_ssh j &&
  Bool.eqb (is_none (job_recovery_owner j)) (is_none (job_recovery_lease_until j)).

(** All CHECK constraints of [agent_enrollment_jobs]. *)
Definition jobs_check (j : EnrollmentJob) : bool :=
  check_columns j && check_pin_phase j && check_cli_claim j && check_receipt j &&
  check_running_cli j && check_activation j.

Definition removal_phases : list string :=
  ["pending"; "revoking"; "revoked"; "registry_deleted"; "credential_deleted";
   "completed"; "residual"].

Definition removals_check (r : AgentRemovalJob) : bool :=
  (1 <=? removal_captured_revision r)%Z && bool_decide (removal_phase r ∈ removal_phases).

(** ** UNIQUE and FOREIGN KEY constraints *)

(** [instance_id TEXT NULL UNIQUE], [normalized_endpoint TEXT NOT NULL UNIQUE]:
    the row [a] stored at key [k] collides with no other row. *)
Definition agents_unique (t : gmap string AgentRecord) (k : string) (a : AgentRecord) : bool :=
  bool_decide (map_Forall (fun k' b => k' <> k ->
    sql_eq (agent_instance_id a) (agent_instance_id b) = false /\
    agent_normalized_endpoint a <> agent_normalized_endpoint b) t).

(** [replace_agent_id TEXT NULL REFERENCES agents(agent_id)] *)
Definition job_fk (t : gmap string AgentRecord) (j : EnrollmentJob) : bool :=
  match job_replace_agent_id j with
  | None => true
  | Some a => bool_decide (is_Some (t !! a))
  end.

Definition job_row_ok (t : gmap string AgentRecord) (r : JobRow) : bool :=
  jobs_check (row_job r) && job_fk t (row_job r).

(** [phase != 'completed'] *)
Definition removal_active (r : AgentRemovalJob) : bool :=
  bool_decide (removal_phase r <> "completed").

(** The unique index [idx_agent_removal_active]. *)
Definition removals_unique (t : gmap string AgentRemovalJob) (k : string)
    (r : AgentRemovalJob) : bool :=
  negb (removal_active r) ||
  bool_decide (map_Forall (fun k' q => k' <> k ->
    removal_active q = true -> removal_agent_id q <> removal_agent_id r) t).

(** [linked_enrollment_id TEXT NULL UNIQUE REFERENCES agent_enrollment_jobs] *)
Definition result_link_ok (db : DB) (k id : string) : bool :=
  bool_decide (is_Some (agent_enrollment_jobs db !! id)) &&
  bool_decide (map_Forall (fun k' q => k' <> k -> result_linked_enrollment_id q <> Some id)
    (discovery_results db)).

(** ** Statements *)
Definition guard_integrity (b : bool) : TxDB unit := raise_if (negb b) IntegrityError.

Definition with_rows {A} (o : option A) : TxDB A :=
  match o with Some a => tx_ret a | None => raise IntegrityError end.

(** [INSERT INTO agents] *)
Definition insert_agent (a : AgentRecord) : TxDB unit := fun db =>
  (guard_integrity (bool_decide (agents db !! agent_id a = None) && agents_check a &&
                    agents_unique (agents db) (agent_id a) a) ;;;
   modifies (fun db => db <| agents := <[agent_id a := a]> (agents db) |>)) db.

(** [UPDATE agents SET <every column but agent_id> WHERE agent_id=? AND cond] *)
Definition update_agent (k : string) (cond : AgentRecord -> bool) (a : AgentRecord) : TxDB nat :=
  fun db =>
  (let* (t, n) := with_rows (update_pk (fun b => agents_check b && agents_unique (agents db) k b)
                      k cond (fun b => a <| agent_id := agent_id b |>) (agents db)) in
   modifies (fun db => db <| agents := t |>) ;;; tx_ret n) db.

(** [DELETE FROM agents WHERE agent_id=? AND cond]: the foreign key of the
    journal blocks it, the status row goes with it (ON DELETE CASCADE). *)
Definition delete_agent (k : string) (cond : AgentRecord -> bool) : TxDB nat := fun db =>
  match agents db !! k with
  | Some a =>
      if cond a then
        (guard_integrity (negb (exists_where
           (fun r => bool_decide (job_replace_agent_id (row_job r) = Some k))
           (agent_enrollment_jobs db))) ;;;
         modifies (fun db => db <| agents := delete k (agents db) |>
                                <| agent_status := delete k (agent_status db) |>) ;;;
         tx_ret 1) db
      else inr (0, db)
  | None => inr (0, db)
  end.

(** [INSERT INTO agent_enrollment_jobs] *)
Definition insert_job (j : EnrollmentJob) : TxDB unit := fun db =>
  (guard_integrity (bool_decide (agent_enrollment_jobs db !! job_enrollment_id j = None) &&
                    job_row_ok (agents db) (mkJobRow j None)) ;;;
   modifies (fun db => db <| agent_enrollment_jobs :=
     <[job_enrollment_id j := mkJobRow j None]> (agent_enrollment_jobs db) |>)) db.

(** Change the job of a row, keeping its tombstone column. *)
Definition on_job (f : EnrollmentJob -> EnrollmentJob) (r : JobRow) : JobRow :=
  mkJobRow (f (row_job r)) (row_replace_agent_tombstone r).

(** [UPDATE agent_enrollment_jobs SET ... WHERE enrollment_id=? AND cond] *)
Definition update_job (k : string) (cond : EnrollmentJob -> bool)
    (f : EnrollmentJob -> EnrollmentJob) : TxDB nat := fun db =>
  (let* (t, n) := with_rows (update_pk (job_row_ok (agents db)) k (fun r => cond (row_job r))
                      (on_job f) (agent_enrollment_jobs db)) in
   modifies (fun db => db <| agent_enrollment_jobs := t |>) ;;; tx_ret n) db.

(** [UPDATE agent_enrollment_jobs SET ... WHERE cond] *)
Definition update_jobs (cond : EnrollmentJob -> bool) (f : JobRow -> JobRow) : TxDB unit := fun db =>
  (let* t := with_rows (update_all (job_row_ok (agents db)) (fun r => cond (row_job r)) f
                          (agent_enrollment_jobs db)) in
   modifies (fun db => db <| agent_enrollment_jobs := t |>)) db.

(** [INSERT INTO agent_removal_jobs] *)
Definition insert_removal (r : AgentRemovalJob) : TxDB unit := fun db =>
  (guard_integrity (bool_decide (agent_removal_jobs db !! removal_id r = None) &&
                    removals_check r && removals_unique (agent_removal_jobs db) (removal_id r) r) ;;;
   modifies (fun db => db <| agent_removal_jobs :=
     <[removal_id r := r]> (agent_removal_jobs db) |>)) db.

(** [UPDATE agent_removal_jobs SET ... WHERE removal_id=? AND cond] *)
Definition update_removal (k : string) (cond : AgentRemovalJob -> bool)
    (f : AgentRemovalJob -> AgentRemovalJob) : TxDB nat := fun db =>
  (let* (t, n) := with_rows (update_pk
                      (fun r => removals_check r && removals_unique (agent_removal_jobs db) k r)
                      k cond f (agent_removal_jobs db)) in
   modifies (fun db => db <| agent_removal_jobs := t |>) ;;; tx_ret n) db.

(** [INSERT INTO agent_status ... ON CONFLICT(agent_id) DO UPDATE]: the new
    row replaces the old one; [agent_id REFERENCES agents(agent_id)]. *)
Definition upsert_status (s : AgentStatus) : TxDB unit := fun db =>
  (guard_integrity (status_check s && bool_decide (is_Some (agents db !! status_agent_id s))) ;;;
   modifies (fun db => db <| agent_status := <[status_agent_id s := s]> (agent_status db) |>)) db.

(** [... ON CONFLICT(agent_id) DO NOTHING] *)
Definition insert_status_if_absent (s : AgentStatus) : TxDB unit := fun db =>
  match agent_status db !! status_agent_id s with
  | Some _ => inr (tt, db)
  | None => upsert_status s db
  end.

(** [UPDATE discovery_results SET linked_enrollment_id=? WHERE result_id=?
    AND linked_enrollment_id IS NULL] *)
Definition link_result (k id : string) : TxDB nat := fun db =>
  (let* (t, n) := with_rows (update_pk (fun _ => result_link_ok db k id) k
                      (fun r => is_none (result_linked_enrollment_id r))
                      (fun r => r <| result_linked_enrollment_id := Some id |>)
                      (discovery_results db)) in
   modifies (fun db => db <| discovery_results := t |>) ;;; tx_ret n) db.

(** [UPDATE control_plane_audit_events SET ... WHERE cond] *)
Definition update_audit (cond : Z -> AuditRow -> bool) (f : AuditRow -> AuditRow) : TxDB nat := fun db =>
  let t := control_plane_audit_events db in
  inr (size (filter (fun kr => cond kr.1 kr.2 = true) t),
       db <| control_plane_audit_events :=
               map_imap (fun k r => Some (if cond k r then f r else r)) t |>).

(** Translation of the exceptions by the [except] clauses of a method. *)
Definition storage_error (e : exn) : exn :=
  match e with IntegrityError => RegistryError | _ => e end.

Definition storage_or_value_error (e : exn) : exn :=
  match e with IntegrityError | ValueError => RegistryError | _ => e end.

Definition integrity_conflict (code : string) (e : exn) : exn :=
  match e with IntegrityError => RegistryConflict code | _ => e end.

(** ** Well-formed databases *)
Record db_wf (db : DB) : Prop := {
  wf_agents k a : agents db !! k = Some a ->
    agent_id a = k /\ agents_check a = true /\ agents_unique (agents db) k a = true;
  wf_status k s : agent_status db !! k = Some s ->
    status_agent_id s = k /\ status_check s = true /\ is_Some (agents db !! k);
  wf_jobs k r : agent_enrollment_jobs db !! k = Some r ->
    job_enrollment_id (row_job r) = k /\ job_row_ok (agents db) r = true;
  wf_removals k r : agent_removal_jobs db !! k = Some r ->
    removal_id r = k /\ removals_check r = true /\
    removals_unique (agent_removal_jobs db) k r = true;
  wf_results k r id : discovery_results db !! k = Some r ->
    result_linked_enrollment_id r = Some id ->
    is_Some (agent_enrollment_jobs db !! id) /\
    forall k' r', discovery_results db !! k' = Some r' ->
      result_linked_enrollment_id r' = Some id -> k' = k
}.

Lemma empty_db_wf : db_wf empty_db.
Proof. split; cbn; intros *; rewrite lookup_empty; done. Qed.

Lemma with_rows_inr {A} (o : option A) db a db' :
  with_rows o db = inr (a, db') <-> o = Some a /\ db' = db.
Proof. unfold with_rows, tx_ret, raise. destruct o; naive_solver. Qed.

Lemma guard_integrity_inr b db u db' :
  guard_integrity b db = inr (u, db') <-> b = true /\ db' = db.
Proof. unfold guard_integrity. rewrite raise_if_inr. destruct b; naive_solver. Qed.

Ltac db_inv :=
  repeat (progress tx_inv ||
    match goal with
    | H : with_rows _ _ = inr (_, _) |- _ => apply with_rows_inr in H as [? ?]
    | H : guard_integrity _ _ = inr (_, _) |- _ => apply guard_integrity_inr in H as [? ?]
    | H : context [match ?x with (_, _) => _ end] |- _ => destruct x
    end); subst.

(** *** What a statement that returns has done *)
Lemma insert_agent_inr a db u db' :
  insert_agent a db = inr (u, db') <->
  agents db !! agent_id a = None /\ agents_check a = true /\
  agents_unique (agents db) (agent_id a) a = true /\
  db' = db <| agents := <[agent_id a := a]> (agents db) |>.
Proof.
  unfold insert_agent. split.
  - intros. db_inv. by prop_hyps.
  - intros (E & C & U & ->). unfold tx_bind, guard_integrity, modifies, raise_if.
    rewrite C, U, bool_decide_true by done. by destruct u.
Qed.

Lemma update_agent_inr k cond a db n db' :
  update_agent k cond a db = inr (n, db') <->
  exists t, update_pk (fun b => agents_check b && agents_unique (agents db) k b) k cond
    (fun b => a <| agent_id := agent_id b |>) (agents db) = Some (t, n) /\
  db' = db <| agents := t |>.
Proof.
  unfold update_agent. split.
  - intros. db_inv. eauto.
  - intros (t & E & ->). unfold tx_bind. rewrite E. done.
Qed.

Lemma insert_job_inr j db u db' :
  insert_job j db = inr (u, db') <->
  agent_enrollment_jobs db !! job_enrollment_id j = None /\
  job_row_ok (agents db) (mkJobRow j None) = true /\
  db' = db <| agent_enrollment_jobs :=
    <[job_enrollment_id j := mkJobRow j None]> (agent_enrollment_jobs db) |>.
Proof.
  unfold insert_job. split.
  - intros. db_inv. by prop_hyps.
  - intros (E & C & ->). unfold tx_bind, guard_integrity, modifies, raise_if.
    rewrite C, bool_decide_true by done. by destruct u.
Qed.

Lemma update_job_inr k cond f db n db' :
  update_job k cond f db = inr (n, db') <->
  exists t, update_pk (job_row_ok (agents db)) k (fun r => cond (row_job r)) (on_job f)
    (agent_enrollment_jobs db) = Some (t, n) /\
  db' = db <| agent_enrollment_jobs := t |>.
Proof.
  unfold update_job. split.
  - intros. db_inv. eauto.
  - intros (t & E & ->). unfold tx_bind. rewrite E. done.
Qed.

Lemma update_jobs_inr cond f db u db' :
  update_jobs cond f db = inr (u, db') <->
  exists t, update_all (job_row_ok (agents db)) (fun r => cond (row_job r)) f
    (agent_enrollment_jobs db) = Some t /\
  db' = db <| agent_enrollment_jobs := t |>.
Proof.
  unfold update_jobs. split.
  - intros. db_inv. eauto.
  - intros (t & E & ->). unfold tx_bind. rewrite E. by destruct u.
Qed.

Lemma update_removal_inr k cond f db n db' :
  update_removal k cond f db = inr (n, db') <->
  exists t, update_pk (fun r => removals_check r && removals_unique (agent_removal_jobs db) k r)
    k cond f (agent_removal_jobs db) = Some (t, n) /\
  db' = db <| agent_removal_jobs := t |>.
Proof.
  unfold update_removal. split.
  - intros. db_inv. eauto.
  - intros (t & E & ->). unfold tx_bind. rewrite E. done.
Qed.

(** *** Constraints under changes of the tables *)
Lemma sql_eq_sym {A} `{EqDecision A} (x y : option A) : sql_eq x y = sql_eq y x.
Proof. destruct x, y; cbn; try done. by apply bool_decide_ext. Qed.

Lemma sql_eq_true {A} `{EqDecision A} (x y : option A) :
  sql_eq x y = true <-> exists a, x = Some a /\ y = Some a.
Proof. destruct x, y; cbn; try rewrite bool_decide_eq_true; naive_solver. Qed.

Lemma agents_unique_true t k a :
  agents_unique t k a = true <->
  forall k' b, t !! k' = Some b -> k' <> k ->
    sql_eq (agent_instance_id a) (agent_instance_id b) = false /\
    agent_normalized_endpoint a <> agent_normalized_endpoint b.
Proof. unfold agents_unique. rewrite bool_decide_eq_true. unfold map_Forall. naive_solver. Qed.

Lemma agents_unique_insert t k a k' b :
  (forall k b, t !! k = Some b -> agents_unique t k b = true) ->
  agents_unique t k a = true ->
  <[k := a]> t !! k' = Some b -> agents_unique (<[k := a]> t) k' b = true.
Proof.
  setoid_rewrite agents_unique_true. intros Hall Ha Hb k1 c Hc Hne.
  apply lookup_insert_Some in Hb as [[<- <-]|[Hk' Hb]];
    apply lookup_insert_Some in Hc as [[<- <-]|[Hk1 Hc]]; [done|by eapply Ha| |by eapply (Hall k' b Hb)].
  rewrite sql_eq_sym. destruct (Ha k' b Hb) as [? ?]; auto.
Qed.

Lemma agents_unique_delete t k k' b :
  agents_unique t k' b = true -> agents_unique (delete k t) k' b = true.
Proof.
  rewrite !agents_unique_true. intros H k1 c [_ Hc]%lookup_delete_Some. by apply H.
Qed.

Lemma job_row_ok_mono (t t' : gmap string AgentRecord) r :
  (forall k, is_Some (t !! k) -> is_Some (t' !! k)) ->
  job_row_ok t r = true -> job_row_ok t' r = true.
Proof.
  unfold job_row_ok, job_fk. intros Ht Hr. prop_hyps. apply andb_True_iff. split; [done|].
  case_match; [|done]. prop_hyps. apply bool_decide_eq_true. auto.
Qed.

Lemma removals_unique_true t k r :
  removals_unique t k r = true <->
  (removal_active r = true -> forall k' q, t !! k' = Some q -> k' <> k ->
     removal_active q = true -> removal_agent_id q <> removal_agent_id r).
Proof.
  unfold removals_unique. rewrite orb_True_iff, negb_true_iff, bool_decide_eq_true.
  unfold map_Forall. destruct (removal_active r); naive_solver.
Qed.

Lemma removals_unique_insert t k r k' q :
  (forall k q, t !! k = Some q -> removals_unique t k q = true) ->
  removals_unique t k r = true ->
  <[k := r]> t !! k' = Some q -> removals_unique (<[k := r]> t) k' q = true.
Proof.
  setoid_rewrite removals_unique_true. intros Hall Hr Hq Ha k1 c Hc Hne Hac.
  apply lookup_insert_Some in Hq as [[<- <-]|[Hk' Hq]];
    apply lookup_insert_Some in Hc as [[<- <-]|[Hk1 Hc]];
    [done|by eapply Hr| |by eapply (Hall k' q Hq)].
  intros E. eapply Hr; eauto.
Qed.

Lemma lookup_insert_is_Some_mono {V} (t : gmap string V) k v k' :
  is_Some (t !! k') -> is_Some (<[k := v]> t !! k').
Proof. rewrite lookup_insert_is_Some'. auto. Qed.

(** *** Every statement keeps the database well formed *)
Lemma insert_agents_wf db k a :
  db_wf db -> agent_id a = k -> agents_check a = true -> agents_unique (agents db) k a = true ->
  db_wf (db <| agents := <[k := a]> (agents db) |>).
Proof.
  intros W Hk Hc Hu. split; cbn.
  - intros k' b Hb. split_and!.
    + apply lookup_insert_Some in Hb as [[<- <-]|[? Hb]]; [done|]. by destruct (wf_agents _ W _ _ Hb) as (? & ? & ?).
    + apply lookup_insert_Some in Hb as [[<- <-]|[? Hb]]; [done|]. by destruct (wf_agents _ W _ _ Hb) as (? & ? & ?).
    + eapply agents_unique_insert; eauto. intros. by eapply wf_agents.
  - intros k' s (? & ? & ?)%(wf_status _ W). auto using lookup_insert_is_Some_mono.
  - intros k' r (? & Hr)%(wf_jobs _ W). split; [done|]. eapply job_row_ok_mono, Hr.
    auto using lookup_insert_is_Some_mono.
  - apply (wf_removals _ W).
  - apply (wf_results _ W).
Qed.

Lemma insert_agent_wf a : Preserves db_wf (insert_agent a).
Proof.
  intros db u db' W (? & ? & ? & ->)%insert_agent_inr. by apply insert_agents_wf.
Qed.

Lemma update_agent_wf k cond a : Preserves db_wf (update_agent k cond a).
Proof.
  intros db n db' W (t & E & ->)%update_agent_inr.
  apply update_pk_Some in E as [(b & Hb & _ & Hok & -> & _)|(_ & -> & _)]; [|done].
  prop_hyps. apply insert_agents_wf; cbn; [done| |done|done]. by apply (wf_agents _ W) in Hb as [? _].
Qed.

Lemma delete_agent_wf k cond : Preserves db_wf (delete_agent k cond).
Proof.
  intros db n db' W. unfold delete_agent.
  destruct (agents db !! k) as [a|] eqn:Ha; [destruct (cond a)|]; try by intros [= <- <-].
  intros. db_inv. prop_hyps.
  match goal with H : exists_where _ _ = _ |- _ => rename H into Hfk end.
  rewrite exists_where_false in Hfk. split; cbn.
  - intros k' b [? Hb]%lookup_delete_Some. destruct (wf_agents _ W _ _ Hb) as (? & ? & ?).
    auto using agents_unique_delete.
  - intros k' s [? Hs]%lookup_delete_Some. destruct (wf_status _ W _ _ Hs) as (? & ? & ?).
    rewrite lookup_delete_ne by done. auto.
  - intros k' r Hr. destruct (wf_jobs _ W _ _ Hr) as (? & Hok). split; [done|].
    unfold job_row_ok, job_fk in *. prop_hyps. apply andb_True_iff. split; [done|].
    destruct (job_replace_agent_id (row_job r)) as [a'|] eqn:Er; [|done]. prop_hyps.
    apply bool_decide_eq_true. rewrite lookup_delete_ne; [done|]. intros <-.
    apply Hfk in Hr. cbn in Hr. by apply bool_decide_eq_false in Hr.
  - apply (wf_removals _ W).
  - apply (wf_results _ W).
Qed.

Lemma set_jobs_wf db (t : gmap string JobRow) :
  db_wf db ->
  (forall k r, t !! k = Some r ->
     job_enrollment_id (row_job r) = k /\ job_row_ok (agents db) r = true) ->
  (forall k, is_Some (agent_enrollment_jobs db !! k) -> is_Some (t !! k)) ->
  db_wf (db <| agent_enrollment_jobs := t |>).
Proof.
  intros W Ht Hdom. split; cbn; [apply (wf_agents _ W)|apply (wf_status _ W)|done|
    apply (wf_removals _ W)|].
  intros k r id Hr Hid. destruct (wf_results _ W k r id Hr Hid). eauto.
Qed.

Lemma insert_job_wf j : Preserves db_wf (insert_job j).
Proof.
  intros db u db' W (? & ? & ->)%insert_job_inr. apply set_jobs_wf; [done| |].
  - intros k r [[<- <-]|[? Hr]]%lookup_insert_Some; [done|]. by apply (wf_jobs _ W).
  - auto using lookup_insert_is_Some_mono.
Qed.

Lemma update_job_wf k cond f :
  (forall j, job_enrollment_id j = k -> job_enrollment_id (f j) = k) ->
  Preserves db_wf (update_job k cond f).
Proof.
  intros Hf db n db' W (t & E & ->)%update_job_inr.
  apply update_pk_Some in E as [(r & Hr & _ & Hok & -> & _)|(_ & -> & _)]; [|done].
  apply set_jobs_wf; [done| |auto using lookup_insert_is_Some_mono].
  intros k' r' [[<- <-]|[? Hr']]%lookup_insert_Some; [|by apply (wf_jobs _ W)].
  split; [|done]. cbn. apply Hf. by destruct (wf_jobs _ W _ _ Hr).
Qed.

Lemma update_jobs_wf cond f :
  (forall r, job_enrollment_id (row_job (f r)) = job_enrollment_id (row_job r)) ->
  Preserves db_wf (update_jobs cond f).
Proof.
  intros Hf db n db' W (t & E & ->)%update_jobs_inr.
  apply update_all_Some in E as [Hok ->]. apply set_jobs_wf; [done| |].
  - intros k r (r0 & <- & Hr)%lookup_fmap_Some. destruct (wf_jobs _ W _ _ Hr) as [Hk ?].
    cbv beta. destruct (cond (row_job r0)) eqn:C; [|done]. rewrite Hf. split; [done|].
    by apply (Hok _ _ Hr).
  - intros k. by rewrite lookup_fmap, fmap_is_Some.
Qed.

Lemma set_removals_wf db k r :
  db_wf db -> removal_id r = k -> removals_check r = true ->
  removals_unique (agent_removal_jobs db) k r = true ->
  db_wf (db <| agent_removal_jobs := <[k := r]> (agent_removal_jobs db) |>).
Proof.
  intros W Hk Hc Hu. split; cbn; [apply (wf_agents _ W)|apply (wf_status _ W)|
    apply (wf_jobs _ W)| |apply (wf_results _ W)].
  intros k' q Hq. assert (removals_unique (<[k := r]> (agent_removal_jobs db)) k' q = true).
  { eapply removals_unique_insert; eauto. intros. by eapply wf_removals. }
  apply lookup_insert_Some in Hq as [[<- <-]|[? Hq]]; [done|].
  by destruct (wf_removals _ W _ _ Hq) as (? & ? & ?).
Qed.

Lemma insert_removal_wf r : Preserves db_wf (insert_removal r).
Proof.
  intros db u db' W. unfold insert_removal. intros. db_inv. prop_hyps. by apply set_removals_wf.
Qed.

Lemma update_removal_wf k cond f :
  (forall r, removal_id (f r) = removal_id r) -> Preserves db_wf (update_removal k cond f).
Proof.
  intros Hf db n db' W (t & E & ->)%update_removal_inr.
  apply update_pk_Some in E as [(r & Hr & _ & Hok & -> & _)|(_ & -> & _)]; [|done].
  prop_hyps. apply set_removals_wf; try done. rewrite Hf. by destruct (wf_removals _ W _ _ Hr).
Qed.

Lemma upsert_status_wf s : Preserves db_wf (upsert_status s).
Proof.
  intros db u db' W. unfold upsert_status. intros. db_inv. prop_hyps.
  split; cbn; [apply (wf_agents _ W)| |apply (wf_jobs _ W)|apply (wf_removals _ W)|
    apply (wf_results _ W)].
  intros k q [[<- <-]|[? Hq]]%lookup_insert_Some; [done|by apply (wf_status _ W)].
Qed.

Lemma insert_status_if_absent_wf s : Preserves db_wf (insert_status_if_absent s).
Proof.
  intros db u db' W. unfold insert_status_if_absent. case_match; [by intros [= <- <-]|].
  by apply upsert_status_wf.
Qed.

Lemma link_result_wf k id : Preserves db_wf (link_result k id).
Proof.
  intros db n db' W. unfold link_result. intros. db_inv.
  match goal with H : update_pk _ _ _ _ _ = _ |- _ => rename H into E end.
  apply update_pk_Some in E as [(r & Hr & _ & Hok & -> & _)|(_ & -> & _)]; [|done].
  unfold result_link_ok in Hok. prop_hyps.
  match goal with H : map_Forall _ _ |- _ => rename H into Hu end.
  split; cbn; [apply (wf_agents _ W)|apply (wf_status _ W)|apply (wf_jobs _ W)|
    apply (wf_removals _ W)|].
  intros k' r' id' [[<- <-]|[? Hr']]%lookup_insert_Some Hid.
  - cbn in Hid. simplify_eq. split; [done|].
    intros k1 r1 [[<- <-]|[? Hr1]]%lookup_insert_Some Hid; [done|]. by destruct (Hu k1 r1 Hr1).
  - destruct (wf_results _ W k' r' id' Hr' Hid) as [? Hu']. split; [done|].
    intros k1 r1 [[<- <-]|[? Hr1]]%lookup_insert_Some Hid1; [|by eauto].
    cbn in Hid1. simplify_eq. exfalso. by apply (Hu k' r' Hr').
Qed.

Lemma update_audit_wf cond f : Preserves db_wf (update_audit cond f).
Proof. intros db n db' [] [= <- <-]. by split. Qed.

#[export] Hint Resolve insert_agent_wf update_agent_wf delete_agent_wf insert_job_wf
  insert_removal_wf upsert_status_wf insert_status_if_absent_wf link_result_wf
  update_audit_wf : preserves.
#[export] Hint Extern 2 (Preserves db_wf (update_job _ _ _)) =>
  apply update_job_wf; done : preserves.
#[export] Hint Extern 2 (Preserves db_wf (update_jobs _ _)) =>
  apply update_jobs_wf; done : preserves.
#[export] Hint Extern 2 (Preserves db_wf (update_removal _ _ _)) =>
  apply update_removal_wf; done : preserves.
