(* ===== verification/JobValidation.v ===== *)
(** * Validation of enrollment jobs

    [_validate_job] of [src/backend/ic_env_guard/storage/enrollment_journal.py]
    and its relation to the CHECK constraints of the table the job is stored
    in. *)

From stdpp Require Import base tactics list gmap strings.
From Stdlib Require Import ZArith Lia Ascii.
From S2P Require Import Prelude Text Sql Models Schema.

(** A required text is not empty. *)
Definition nonempty (s : string) : bool := bool_decide (s <> "").

Definition valid_identity (j : EnrollmentJob) : bool :=
  is_enrollment_id (job_enrollment_id j) &&
  is_canonical_uuid (job_manager_id j) &&
  nonempty (job_normalized_endpoint j) && nonempty (job_transport_profile_id j).

Definition valid_ssh (j : EnrollmentJob) : bool :=
  (if non_ssh (job_enrollment_method j) then
     negb (is_some (job_ssh_user j) || is_some (job_ssh_host j) || is_some (job_ssh_port j))
   else
     negb (is_none (job_ssh_user j) || is_none (job_ssh_host j) || is_none (job_ssh_port j))) &&
  opt_check (fun p => (1 <=? p)%Z && (p <=? 65535)%Z) (job_ssh_port j).

(** The seven fields of the snapshot that a rotation always carries. *)
Definition rotation_metadata_none (j : EnrollmentJob) : list bool :=
  [is_none (job_old_normalized_endpoint j); is_none (job_old_transport_profile_id j);
   is_none (job_old_registry_revision j); is_none (job_old_enrollment_method j);
   is_none (job_old_source j); is_none (job_old_enabled j); is_none (job_old_display_name j)].

Definition valid_rotation (j : EnrollmentJob) : bool :=
  match job_replace_agent_id j with
  | None =>
      forallb id (rotation_metadata_none j) &&
      is_none (job_old_credential_ref j) && is_none (job_old_remote_credential_id j) &&
      is_none (job_old_instance_id j)
  | Some _ =>
      forallb negb (rotation_metadata_none j) &&
      (match job_state j with
       | CONSUMED | FAILED => true
       | _ => is_some (job_old_credential_ref j) &&
              (bool_decide (job_old_enrollment_method j = Some LEGACY_ADMIN_TOKEN) ||
               (is_some (job_old_remote_credential_id j) && is_some (job_old_instance_id j)))
       end) &&
      (match job_remote_instance_id j, job_old_instance_id j with
       | Some a, Some b => bool_decide (a = b)
       | _, _ => true
       end)
  end.

Definition valid_phase (j : EnrollmentJob) : bool :=
  (negb (credential_state (job_state j)) || is_some (job_credential_temp_ref j)) &&
  (negb (activation_state (job_state j)) ||
   (job_save_requested j && truthy (job_requested_display_name j) &&
    (is_legacy (job_enrollment_method j) ||
     (is_some (job_remote_instance_id j) && is_some (job_remote_credential_id j))))).

Definition valid_recovery (j : EnrollmentJob) : bool :=
  Bool.eqb (is_none (job_recovery_owner j)) (is_none (job_recovery_lease_until j)) &&
  opt_check is_canonical_uuid (job_recovery_owner j) &&
  (0 <=? job_recovery_revision j)%Z &&
  opt_check is_error_code (job_last_error_code j).

(** [any(value is not None for value in cli_claim)] *)
Definition cli_any (j : EnrollmentJob) : bool :=
  is_some (job_cli_resume_nonce j) || is_some (job_cli_peer_uid j) ||
  is_some (job_cli_input_fingerprint j) || is_some (job_cli_pinned_address j).

Definition valid_cli (j : EnrollmentJob) : bool :=
  if cli_any j then
    match job_cli_resume_nonce j, job_cli_peer_uid j, job_cli_input_fingerprint j,
          job_cli_pinned_address j with
    | Some nonce, Some uid, Some fingerprint, Some pinned =>
        bool_decide (job_enrollment_method j = SSH_CLI) && cli_claim_state (job_state j) &&
        is_canonical_uuid nonce && (0 <=? uid)%Z && is_sha256_hex fingerprint &&
        is_canonical_ip pinned
    | _, _, _, _ => false
    end
  else
    negb (bool_decide (job_enrollment_method j = SSH_CLI) &&
          bool_decide (job_state j = RUNNING) && is_none (job_credential_temp_ref j)).

Definition valid_receipt (j : EnrollmentJob) : bool :=
  match job_cli_accept_receipt j with
  | None => true
  | Some receipt =>
      is_sha256_hex receipt && bool_decide (job_state j = CONSUMED) &&
      bool_decide (job_enrollment_method j = SSH_CLI) && negb (cli_any j)
  end.

Definition credential_pin_required (j : EnrollmentJob) : bool :=
  credential_state (job_state j) ||
  (terminal (job_state j) && is_some (job_credential_temp_ref j)).

Definition valid_pin (j : EnrollmentJob) : bool :=
  opt_check is_canonical_ip (job_validated_http_address j) &&
  (if is_legacy (job_enrollment_method j) then is_none (job_validated_http_address j)
   else Bool.eqb (credential_pin_required j) (is_some (job_validated_http_address j))).

(** [_validate_job]: every failing test raises [RegistryInvariantError]. *)
Definition valid_job (j : EnrollmentJob) : bool :=
  valid_identity j && valid_ssh j &&
  (negb (job_save_requested j) || truthy (job_requested_display_name j)) &&
  negb (is_some (job_discovery_result_id j) && is_some (job_replace_agent_id j)) &&
  valid_rotation j && valid_phase j && valid_recovery j && valid_pin j && valid_cli j &&
  valid_receipt j &&
  opt_check is_credential_ref (job_credential_temp_ref j) &&
  opt_check is_credential_ref (job_old_credential_ref j).

Definition validate_job (j : EnrollmentJob) : exn + unit :=
  if valid_job j then inr tt else inl RegistryInvariantError.

(** Two facts the database requires and [_validate_job] does not test: the
    pinned addresses carry no IPv6 zone index, and the captured registry
    revision of a rotation is positive. *)
Definition unscoped (o : option string) : bool := opt_check (fun s => negb (has_char "%" s)) o.

Definition storable_job (j : EnrollmentJob) : bool :=
  unscoped (job_validated_http_address j) && unscoped (job_cli_pinned_address j) &&
  opt_check (fun r => (1 <=? r)%Z) (job_old_registry_revision j).

Lemma validate_job_inr j : validate_job j = inr tt <-> valid_job j = true.
Proof. unfold validate_job. destruct (valid_job j); naive_solver. Qed.

Lemma truthy_is_some o : truthy o = true -> is_some o = true.
Proof. by destruct o. Qed.

Lemma pin_sql o :
  opt_check is_canonical_ip o = true -> unscoped o = true -> opt_check sql_address o = true.
Proof. destruct o; cbn; [|done]. intros ? ?%negb_true_iff. by apply canonical_ip_sql. Qed.

Lemma valid_ssh_check j : valid_ssh j = true -> check_ssh j = true.
Proof.
  unfold valid_ssh, check_ssh. intros Hv. prop_hyps.
  destruct (non_ssh _), (job_ssh_user j), (job_ssh_host j), (job_ssh_port j); done.
Qed.

Lemma valid_pin_check j :
  valid_pin j = true -> valid_phase j = true -> check_pin_phase j = true.
Proof.
  unfold valid_pin, check_pin_phase, credential_pin_required, is_some. intros. prop_hyps.
  destruct (is_legacy _); [done|].
  destruct (job_state j), (job_credential_temp_ref j), (job_validated_http_address j); done.
Qed.

Lemma valid_cli_check j :
  valid_cli j = true -> unscoped (job_cli_pinned_address j) = true ->
  check_cli_claim j = true /\ check_running_cli j = true /\
  opt_check sql_uuid (job_cli_resume_nonce j) = true /\
  opt_check (fun u => (0 <=? u)%Z) (job_cli_peer_uid j) = true /\
  opt_check sql_sha256 (job_cli_input_fingerprint j) = true /\
  opt_check sql_address (job_cli_pinned_address j) = true.
Proof.
  unfold valid_cli, cli_any, check_cli_claim, check_running_cli. intros Hv Hu.
  destruct (job_cli_resume_nonce j), (job_cli_peer_uid j), (job_cli_input_fingerprint j),
    (job_cli_pinned_address j); cbn in Hv; try done; cbn in *; prop_hyps.
  - split_and!; auto using canonical_uuid_sql, sha256_sql, canonical_ip_sql.
    + by rewrite bool_decide_true.
    + by rewrite orb_true_r.
    + by apply Z.leb_le.
  - split_and!; try done. rewrite orb_false_r, negb_true_iff.
    destruct (bool_decide (_ = SSH_CLI)), (bool_decide (_ = RUNNING)); done.
Qed.

Lemma valid_receipt_check j : valid_receipt j = true -> check_receipt j = true.
Proof.
  unfold valid_receipt, check_receipt, cli_any. destruct (job_cli_accept_receipt j); cbn; [|done].
  intros. prop_hyps. rewrite sha256_sql, !bool_decide_true by done. cbn.
  by destruct (job_cli_resume_nonce j).
Qed.

Lemma valid_phase_check j : valid_phase j = true -> check_activation j = true.
Proof.
  unfold valid_phase, check_activation. intros Hv. prop_hyps.
  rewrite !andb_True_iff. split_and!; [done| |];
    destruct (activation_state _); cbn in *; prop_hyps; auto.
  apply andb_True_iff. auto using truthy_is_some.
Qed.

(** A job that passes [_validate_job] satisfies every CHECK of its table. *)
Lemma valid_job_check j : valid_job j = true -> storable_job j = true -> jobs_check j = true.
Proof.
  unfold valid_job, storable_job. intros. prop_hyps.
  destruct (valid_cli_check j) as (? & ? & ? & ? & ? & ?); [done|done|].
  unfold valid_ssh, valid_pin, valid_recovery in *. prop_hyps.
  unfold jobs_check, check_columns. rewrite !andb_True_iff. split_and!;
    auto using pin_sql, valid_receipt_check, valid_phase_check.
  - by apply Z.leb_le.
  - unfold is_some in *. destruct (job_discovery_result_id j), (job_replace_agent_id j); done.
  - destruct (job_save_requested j); cbn in *; auto using truthy_is_some.
  - apply valid_ssh_check. unfold valid_ssh. by apply andb_True_iff.
  - apply valid_pin_check; [|done]. unfold valid_pin. by apply andb_True_iff.
Qed.
