(* ===== verification/MutationFence.v ===== *)
(** * The mutation fence

    [assert_agent_mutation_allowed] of
    [src/backend/ic_env_guard/storage/mutation_fence.py]: inside a write
    transaction, refuse to change an Agent while another saga holds it. *)

From stdpp Require Import base tactics list gmap strings.
From Stdlib Require Import ZArith Lia.
From S2P Require Import Prelude Text Sql Models Schema.

(** [AND key<>?], present only when the owner is given. *)
Definition not_owner (owner : option string) (key : string) : bool :=
  match owner with None => true | Some o => bool_decide (key <> o) end.

(** A removal of the Agent that is not completed. *)
Definition removal_blocks (agent : string) (owner : option string) (r : AgentRemovalJob) : bool :=
  bool_decide (removal_agent_id r = agent) && removal_active r && not_owner owner (removal_id r).

(** A rotation of the Agent that was saved and is not terminal. *)
Definition rotation_blocks (agent : string) (owner : option string) (r : JobRow) : bool :=
  let j := row_job r in
  sql_eq (job_replace_agent_id j) (Some agent) && job_save_requested j &&
  negb (terminal (job_state j)) && not_owner owner (job_enrollment_id j).

Definition assert_agent_mutation_allowed (agent : string)
    (owner_enrollment_id owner_removal_id : option string) : TxDB unit :=
  let* removal := reads (fun db =>
    exists_where (removal_blocks agent owner_removal_id) (agent_removal_jobs db)) in
  raise_if removal (RegistryConflict "agent_mutation_in_progress") ;;;
  let* rotation := reads (fun db =>
    exists_where (rotation_blocks agent owner_enrollment_id) (agent_enrollment_jobs db)) in
  raise_if rotation (RegistryConflict "agent_mutation_in_progress").

(** What the fence guarantees to the statements that follow it in the same
    transaction. *)
Definition fence_open (db : DB) (agent : string) (oe orm : option string) : Prop :=
  (forall k r, agent_removal_jobs db !! k = Some r -> removal_blocks agent orm r = false) /\
  (forall k r, agent_enrollment_jobs db !! k = Some r -> rotation_blocks agent oe r = false).

Lemma assert_agent_mutation_allowed_inr agent oe orm db u db' :
  assert_agent_mutation_allowed agent oe orm db = inr (u, db') <->
  db' = db /\ fence_open db agent oe orm.
Proof.
  unfold assert_agent_mutation_allowed, fence_open. split.
  - intros. tx_inv. split; [done|]. split; by apply exists_where_false.
  - intros [-> [Hr He]]. unfold tx_bind, reads.
    rewrite (proj2 (exists_where_false _ _) Hr). cbn.
    rewrite (proj2 (exists_where_false _ _) He). by destruct u.
Qed.

Lemma assert_agent_mutation_allowed_inl agent oe orm db e :
  assert_agent_mutation_allowed agent oe orm db = inl e ->
  e = RegistryConflict "agent_mutation_in_progress".
Proof.
  unfold assert_agent_mutation_allowed, tx_bind, reads, raise_if, raise, tx_ret.
  repeat case_match; naive_solver.
Qed.

Lemma preserves_fence P agent oe orm : Preserves P (assert_agent_mutation_allowed agent oe orm).
Proof. intros db u db' HP [-> _]%assert_agent_mutation_allowed_inr. done. Qed.

#[export] Hint Resolve preserves_fence : preserves.
