(* ===== verification/EnrollmentJournal.v ===== *)
(** * The enrollment journal

    [EnrollmentJournalRepository] of
    [src/backend/ic_env_guard/storage/enrollment_journal.py]: one definition
    per method, each a transaction on the manager database. *)

From stdpp Require Import base tactics list gmap strings sorting.
From Stdlib Require Import ZArith Lia Ascii.
From S2P Require Import Prelude Text Sql Models Schema JobValidation MutationFence.

(** A method: it returns a value or raises, and leaves a database. *)
Definition Method (A : Type) : Type := DB -> (exn + A) * DB.

(** [_ALLOWED_TRANSITIONS] *)
Definition allowed_transition (from to : EnrollmentState) : bool :=
  match from, to with
  | PENDING, (RUNNING | AWAITING_CLI | CANCELLED | EXPIRED) => true
  | RUNNING, (AWAITING_CLI | CREDENTIAL_ISSUED | CANCELLED | FAILED | EXPIRED) => true
  | AWAITING_CLI, (RUNNING | CREDENTIAL_ISSUED | CANCELLED | FAILED | EXPIRED) => true
  | CREDENTIAL_ISSUED, (VERIFYING | CANCELLED | EXPIRED) => true
  | VERIFYING, (VERIFIED | CANCELLED | FAILED | EXPIRED) => true
  | VERIFIED, (ACTIVATION_REQUESTED | CANCELLED | EXPIRED) => true
  | ACTIVATION_REQUESTED, (ACTIVATED | FAILED) => true
  | ACTIVATED, (CONSUMED | FAILED) => true
  | _, _ => false
  end.

(** ** Shared clauses *)
Definition live (j : EnrollmentJob) : bool := negb (terminal (job_state j)).

Definition due (now : time) (j : EnrollmentJob) : bool :=
  expirable (job_state j) && (job_expires_at j <=? now)%Z.

(** [SET state='expired', updated_at=?] *)
Definition expire (now : time) (j : EnrollmentJob) : EnrollmentJob :=
  j <| job_state := EXPIRED |> <| job_updated_at := now |>.

Definition clear_cli (j : EnrollmentJob) : EnrollmentJob :=
  j <| job_cli_resume_nonce := None |> <| job_cli_peer_uid := None |>
    <| job_cli_input_fingerprint := None |> <| job_cli_pinned_address := None |>
    <| job_cli_accept_receipt := None |>.

(** [recovery_owner=NULL, recovery_lease_until=NULL,
    recovery_revision=recovery_revision+1] *)
Definition release_claim (j : EnrollmentJob) : EnrollmentJob :=
  j <| job_recovery_owner := None |> <| job_recovery_lease_until := None |>
    <| job_recovery_revision := (job_recovery_revision j + 1)%Z |>.

(** [SET state='expired', updated_at=?], the claim and the CLI columns cleared. *)
Definition expire_and_release (now : time) (j : EnrollmentJob) : EnrollmentJob :=
  clear_cli (release_claim (expire now j)).

(** [recovery_owner=? AND recovery_revision=? AND recovery_lease_until>?] *)
Definition holds_claim (owner : string) (revision : Z) (now : time) (j : EnrollmentJob) : bool :=
  sql_eq (job_recovery_owner j) (Some owner) && (job_recovery_revision j =? revision)%Z &&
  sql_gt (job_recovery_lease_until j) now.

(** [recovery_owner IS NULL OR recovery_lease_until<=?] *)
Definition claimable (now : time) (j : EnrollmentJob) : bool :=
  is_none (job_recovery_owner j) || sql_le (job_recovery_lease_until j) now.

Definition state_is (s : EnrollmentState) (j : EnrollmentJob) : bool :=
  bool_decide (job_state j = s).

Definition select_job (id : string) : TxDB (option EnrollmentJob) :=
  reads (fun db => row_job <$> agent_enrollment_jobs db !! id).

Definition active_count (db : DB) : Z :=
  Z.of_nat (count_where (fun r => live (row_job r)) (agent_enrollment_jobs db)).

Definition raise_if_full (max_active : Z) : TxDB unit :=
  let* count := reads active_count in
  raise_if (max_active <=? count)%Z (RegistryConflict "agent_enrollment_capacity").

Definition expire_due (now : time) : TxDB unit := update_jobs (due now) (on_job (expire now)).

Definition require (b : bool) : exn + unit := if b then inr tt else inl RegistryInvariantError.

(** ** Creation *)
Definition journal_create (job : EnrollmentJob) : Method EnrollmentJob :=
  checked (validate_job job)
    (write (integrity_conflict "enrollment job conflicts with existing state")
       (insert_job job ;;; tx_ret job)).

Definition create_with_capacity (job : EnrollmentJob) (now : time) (max_active : Z)
    : Method EnrollmentJob :=
  checked (validate_job job) (checked (require (negb (max_active <? 1)%Z))
    (write (integrity_conflict "enrollment job conflicts with existing state")
       (expire_due now ;;;
        raise_if_full max_active ;;;
        insert_job job ;;;
        tx_ret job))).

(** The row of [discovery_results JOIN discovery_jobs] for a result. *)
Definition select_result (id : string)
    : TxDB (option (DiscoveryResult * DiscoveryJob)) :=
  reads (fun db =>
    r ← discovery_results db !! id;
    d ← discovery_jobs db !! result_job_id r;
    Some (r, d)).

(** The discovered endpoint may still be enrolled: found without error,
    not linked, its scan completed and retained.  Comparing a missing
    completion time raises [TypeError]. *)
Definition result_usable (retained_after : time)
    (row : option (DiscoveryResult * DiscoveryJob)) : exn + (DiscoveryResult * DiscoveryJob) :=
  match row with
  | None => inl (RegistryConflict "agent_validation_changed")
  | Some (r, d) =>
      if negb (result_found r) || is_some (result_safe_error_code r) ||
         is_some (result_linked_enrollment_id r) ||
         bool_decide (discovery_state d <> D_COMPLETED)
      then inl (RegistryConflict "agent_validation_changed")
      else match discovery_completed_at d with
           | None => inl ValueError
           | Some t => if (t <? retained_after)%Z
                       then inl (RegistryConflict "agent_validation_changed")
                       else inr (r, d)
           end
  end.

Definition conflict_or_value_error (code : string) (e : exn) : exn :=
  match e with
  | IntegrityError => RegistryConflict code
  | ValueError => RegistryError
  | _ => e
  end.

Definition create_discovery_with_capacity (job : EnrollmentJob) (now : time) (max_active : Z)
    (retention_seconds : Z) : Method EnrollmentJob :=
  match job_discovery_result_id job with
  | None => checked (require false) (query (fun _ => inr job))
  | Some result_id =>
      checked (require (is_none (job_replace_agent_id job))) (checked (validate_job job)
        (write (conflict_or_value_error "agent_validation_changed")
           (expire_due now ;;;
            raise_if_full max_active ;;;
            let* row := select_result result_id in
            let* (r, d) := lift (result_usable (now - seconds retention_seconds)%Z row) in
            raise_if (bool_decide (job_transport_profile_id job <> result_transport_profile_id r))
              (RegistryConflict "transport_profile_mismatch") ;;;
            let* ssh_ip := lift (match ip_compressed (default "" (job_ssh_host job)) with
                                 | Some ip => inr ip
                                 | None => inl (RegistryConflict "agent_validation_changed")
                                 end) in
            raise_if (bool_decide (job_normalized_endpoint job <> result_canonical_url r) ||
                      bool_decide (ssh_ip <> result_ip r))
              (RegistryConflict "agent_validation_changed") ;;;
            let* duplicate := reads (fun db => exists_where
              (fun a => bool_decide (agent_normalized_endpoint a = result_canonical_url r))
              (agents db)) in
            raise_if duplicate (RegistryConflict "agent_validation_changed") ;;;
            insert_job job ;;;
            let* claimed := link_result result_id (job_enrollment_id job) in
            raise_if (negb (claimed =? 1)) (RegistryConflict "agent_validation_changed") ;;;
            tx_ret job)))
  end.

(** The job with the snapshot of the Agent it replaces. *)
Definition capture_rotation (job : EnrollmentJob) (old : AgentRecord) : EnrollmentJob :=
  job <| job_normalized_endpoint := agent_normalized_endpoint old |>
      <| job_transport_profile_id := agent_transport_profile_id old |>
      <| job_requested_display_name := Some (agent_display_name old) |>
      <| job_old_credential_ref := Some (agent_credential_ref old) |>
      <| job_old_remote_credential_id := agent_remote_credential_id old |>
      <| job_old_normalized_endpoint := Some (agent_normalized_endpoint old) |>
      <| job_old_transport_profile_id := Some (agent_transport_profile_id old) |>
      <| job_old_instance_id := agent_instance_id old |>
      <| job_old_registry_revision := Some (agent_revision old) |>
      <| job_old_enrollment_method := Some (agent_enrollment_method old) |>
      <| job_old_source := Some (agent_source old) |>
      <| job_old_enabled := Some (agent_enabled old) |>
      <| job_old_display_name := Some (agent_display_name old) |>.

(** [SELECT ... FROM agents WHERE agent_id=?], [RegistryConflict(code)] when
    there is none. *)
Definition select_agent (id code : string) : TxDB AgentRecord :=
  let* row := reads (fun db => agents db !! id) in
  lift (match row with Some a => inr a | None => inl (RegistryConflict code) end).

(** A rotation of the Agent that is not terminal, saved or not. *)
Definition rotation_live (agent : string) (r : JobRow) : bool :=
  sql_eq (job_replace_agent_id (row_job r)) (Some agent) && live (row_job r).

Definition create_rotation_with_capacity (job : EnrollmentJob) (now : time) (max_active : Z)
    : Method EnrollmentJob :=
  match job_replace_agent_id job with
  | None => checked (require false) (query (fun _ => inr job))
  | Some agent =>
      write (integrity_conflict "agent_enrollment_conflict")
        (expire_due now ;;;
         let* old := select_agent agent "agent_not_found" in
         assert_agent_mutation_allowed (agent_id old) None None ;;;
         let* blocker := reads (fun db =>
           exists_where (rotation_live (agent_id old)) (agent_enrollment_jobs db)) in
         raise_if blocker (RegistryConflict "agent_mutation_in_progress") ;;;
         let captured := capture_rotation job old in
         lift (validate_job captured) ;;;
         raise_if_full max_active ;;;
         insert_job captured ;;;
         tx_ret captured)
  end.

(** ** Saving a rotation *)
Definition request_activation (display_name : string) (now : time) (j : EnrollmentJob) : EnrollmentJob :=
  j <| job_state := ACTIVATION_REQUESTED |>
    <| job_requested_display_name := Some display_name |>
    <| job_save_requested := true |> <| job_updated_at := now |>.

(** [row is None] raises [RegistryConflict(code)]. *)
Definition require_job (id code : string) : TxDB EnrollmentJob :=
  let* row := select_job id in
  lift (match row with Some j => inr j | None => inl (RegistryConflict code) end).

Definition consume_rotation (enrollment_id agent display_name : string) (now : time)
    : Method EnrollmentJob :=
  write storage_or_value_error
    (let* job := require_job enrollment_id "agent_enrollment_not_found" in
     raise_if (state_is CONSUMED job) (RegistryConflict "agent_enrollment_consumed") ;;;
     raise_if (job_expires_at job <=? now)%Z (RegistryConflict "agent_enrollment_expired") ;;;
     raise_if (negb (state_is VERIFIED job)) (RegistryConflict "agent_enrollment_not_verified") ;;;
     raise_if (bool_decide (job_replace_agent_id job <> Some agent))
       (RegistryConflict "agent_enrollment_conflict") ;;;
     let* registered := select_agent agent "agent_not_found" in
     raise_if (bool_decide (Some (agent_revision registered) <> job_old_registry_revision job) ||
               bool_decide (Some (agent_credential_ref registered) <> job_old_credential_ref job) ||
               bool_decide (agent_instance_id registered <> job_old_instance_id job))
       (RegistryConflict "agent_changed") ;;;
     assert_agent_mutation_allowed agent (Some enrollment_id) None ;;;
     let updated := request_activation display_name now job in
     lift (validate_job updated) ;;;
     let* n := update_job enrollment_id
                 (fun j => state_is VERIFIED j && negb (job_save_requested j))
                 (request_activation display_name now) in
     raise_if (negb (n =? 1)) RevisionConflict ;;;
     tx_ret updated).

Definition journal_get (enrollment_id : string) : Method (option EnrollmentJob) :=
  query (fun db => inr (row_job <$> agent_enrollment_jobs db !! enrollment_id)).

(** ** Retrying a local bootstrap *)
Definition rearmable_state (s : EnrollmentState) : bool :=
  match s with CANCELLED | EXPIRED | FAILED => true | _ => false end.

Definition rearm (now expires_at : time) (j : EnrollmentJob) : EnrollmentJob :=
  (clear_cli j)
    <| job_state := PENDING |> <| job_discovery_result_id := None |>
    <| job_replace_agent_id := None |>
    <| job_ssh_user := None |> <| job_ssh_host := None |> <| job_ssh_port := None |>
    <| job_remote_instance_id := None |> <| job_remote_credential_id := None |>
    <| job_credential_temp_ref := None |> <| job_old_credential_ref := None |>
    <| job_old_remote_credential_id := None |> <| job_save_requested := false |>
    <| job_expires_at := expires_at |> <| job_last_error_code := None |>
    <| job_created_at := now |> <| job_updated_at := now |>
    <| job_recovery_owner := None |> <| job_recovery_lease_until := None |>
    <| job_recovery_revision := (job_recovery_revision j + 1)%Z |>
    <| job_validated_http_address := None |>
    <| job_old_normalized_endpoint := None |> <| job_old_transport_profile_id := None |>
    <| job_old_instance_id := None |> <| job_old_registry_revision := None |>
    <| job_old_enrollment_method := None |> <| job_old_source := None |>
    <| job_old_enabled := None |> <| job_old_display_name := None |>.

(** The assignment of every column of [rearmed] that is not immutable. *)
Definition assign_mutable (rearmed j : EnrollmentJob) : EnrollmentJob :=
  rearmed <| job_enrollment_id := job_enrollment_id j |>
          <| job_manager_id := job_manager_id j |>
          <| job_normalized_endpoint := job_normalized_endpoint j |>
          <| job_transport_profile_id := job_transport_profile_id j |>
          <| job_requested_display_name := job_requested_display_name j |>
          <| job_enrollment_method := job_enrollment_method j |>.

Definition rearm_expired_local (enrollment_id endpoint profile display_name : string)
    (now expires_at : time) : Method EnrollmentJob :=
  write storage_or_value_error
    (let* current := require_job enrollment_id "agent_enrollment_not_found" in
     raise_if (bool_decide (job_enrollment_method current <> LOCAL_SOCKET))
       (RegistryConflict "agent_enrollment_conflict") ;;;
     raise_if (bool_decide (job_normalized_endpoint current <> endpoint) ||
               bool_decide (job_transport_profile_id current <> profile) ||
               bool_decide (job_requested_display_name current <> Some display_name))
       (RegistryConflict "agent_enrollment_conflict") ;;;
     raise_if (negb (rearmable_state (job_state current)) ||
               (now <? job_expires_at current)%Z ||
               is_some (job_credential_temp_ref current))
       (RegistryConflict "local_bootstrap_retry_pending") ;;;
     let rearmed := rearm now expires_at current in
     lift (validate_job rearmed) ;;;
     let* n := update_job enrollment_id
                 (fun j => bool_decide (job_enrollment_method j = LOCAL_SOCKET) &&
                           bool_decide (job_normalized_endpoint j = endpoint) &&
                           bool_decide (job_transport_profile_id j = profile) &&
                           sql_eq (job_requested_display_name j) (Some display_name) &&
                           rearmable_state (job_state j) && (job_expires_at j <=? now)%Z &&
                           is_none (job_credential_temp_ref j))
                 (assign_mutable rearmed) in
     raise_if (negb (n =? 1)) RevisionConflict ;;;
     tx_ret rearmed).

(** ** Transitions *)
Definition set_state (enrollment_id : string) (state : EnrollmentState) (updated_at : time)
    (expected_state : EnrollmentState) : Method unit :=
  checked (require (allowed_transition expected_state state))
    (write storage_error
       (let* n := update_job enrollment_id (state_is expected_state)
                    (fun j => j <| job_state := state |> <| job_updated_at := updated_at |>) in
        raise_if (negb (n =? 1)) RevisionConflict)).

(** The optional fence of [replace_if_state]. *)
Record Fence := mkFence {
  fence_owner : option string;
  fence_revision : option Z;
  fence_now : option time
}.

Definition no_fence : Fence := mkFence None None None.

Definition fence_valid (fence : Fence) (job : EnrollmentJob) : bool :=
  match fence_owner fence with
  | None => true
  | Some _ =>
      match fence_revision fence, fence_now fence with
      | Some revision, Some _ => (job_recovery_revision job =? revision + 1)%Z
      | _, _ => false
      end
  end.

Definition fence_clause (fence : Fence) (j : EnrollmentJob) : bool :=
  match fence_owner fence with
  | None => true
  | Some owner =>
      match fence_revision fence, fence_now fence with
      | Some revision, Some now => holds_claim owner revision now j
      | _, _ => false
      end
  end.

Definition replace_if_state (job : EnrollmentJob) (expected_state : EnrollmentState)
    (fence : Fence) : Method EnrollmentJob :=
  checked (validate_job job)
    (checked (require (allowed_transition expected_state (job_state job)))
      (checked (require (fence_valid fence job))
        (write storage_error
          (let* n := update_job (job_enrollment_id job)
                       (fun j => state_is expected_state j && fence_clause fence j)
                       (fun _ => job) in
           raise_if (negb (n =? 1)) RevisionConflict ;;;
           tx_ret job)))).

(** ** Dispatch of automatic enrollments *)
Definition claim_pending_auto (enrollment_id : string) (now : time)
    : Method (option EnrollmentJob) :=
  write storage_or_value_error
    (update_job enrollment_id
       (fun j => state_is PENDING j && (job_expires_at j <=? now)%Z) (expire now) ;;;
     let* n := update_job enrollment_id
                 (fun j => state_is PENDING j && (now <? job_expires_at j)%Z)
                 (fun j => j <| job_state := RUNNING |> <| job_updated_at := now |>) in
     if n =? 1 then select_job enrollment_id else tx_ret None).

Definition recheck_auto_dispatch (enrollment_id : string) (now : time)
    : Method (option EnrollmentJob) :=
  write storage_or_value_error
    (update_job enrollment_id
       (fun j => state_is RUNNING j && (job_expires_at j <=? now)%Z) (expire now) ;;;
     let* row := select_job enrollment_id in
     tx_ret (j ← row;
             if state_is RUNNING j && is_none (job_credential_temp_ref j) &&
                (now <? job_expires_at j)%Z
             then Some j else None)).

Definition recheck_cli_submission (enrollment_id owner : string) (expected_revision : Z)
    (now : time) : Method (option EnrollmentJob) :=
  write storage_or_value_error
    (update_job enrollment_id
       (fun j => state_is RUNNING j && sql_eq (job_recovery_owner j) (Some owner) &&
                 (job_recovery_revision j =? expected_revision)%Z && (job_expires_at j <=? now)%Z)
       (expire_and_release now) ;;;
     let* row := select_job enrollment_id in
     tx_ret (j ← row;
             if state_is RUNNING j && bool_decide (job_enrollment_method j = SSH_CLI) &&
                holds_claim owner expected_revision now j && (now <? job_expires_at j)%Z
             then Some j else None)).

(** ** Recovery claims *)

(** [SELECT enrollment_id ... ORDER BY created_at, enrollment_id]: rows in the
    order of a time column, then of the primary key (bytewise). *)
Definition order_le (key : EnrollmentJob -> time) (a b : EnrollmentJob) : Prop :=
  (key a < key b)%Z \/
  (key a = key b /\ String.leb (job_enrollment_id a) (job_enrollment_id b) = true).

#[global] Instance order_le_dec key a b : Decision (order_le key a b).
Proof. unfold order_le. apply _. Defined.

Definition select_ordered (key : EnrollmentJob -> time) (cond : EnrollmentJob -> bool) (db : DB)
    : list EnrollmentJob :=
  merge_sort (order_le key)
    (filter (fun j => cond j = true) (row_job <$> (map_to_list (agent_enrollment_jobs db)).*2)).

Definition list_non_terminal : Method (list EnrollmentJob) :=
  query (fun db => inr (select_ordered job_created_at live db)).

Definition prepare_recovery (now : time) : Method (list string) :=
  write storage_or_value_error
    (update_jobs (due now) (on_job (expire_and_release now)) ;;;
     reads (fun db => job_enrollment_id <$>
       select_ordered job_created_at
         (fun j => credential_state (job_state j) && claimable now j) db)).

Definition take_claim (owner : string) (now : time) (lease_seconds : Z) (j : EnrollmentJob)
    : EnrollmentJob :=
  j <| job_recovery_owner := Some owner |>
    <| job_recovery_lease_until := Some (now + seconds lease_seconds)%Z |>
    <| job_recovery_revision := (job_recovery_revision j + 1)%Z |>
    <| job_updated_at := now |>.

Definition claim_recovery (enrollment_id owner : string) (now : time) (lease_seconds : Z)
    : Method (option EnrollmentJob) :=
  checked (require (is_canonical_uuid owner && negb (lease_seconds <? 1)%Z))
    (write storage_or_value_error
       (update_job enrollment_id (due now) (expire_and_release now) ;;;
        let* n := update_job enrollment_id
                    (fun j => credential_state (job_state j) && claimable now j)
                    (take_claim owner now lease_seconds) in
        if n =? 1 then select_job enrollment_id else tx_ret None)).

Definition renew_claim (now : time) (lease_seconds : Z) (j : EnrollmentJob) : EnrollmentJob :=
  j <| job_recovery_lease_until := Some (now + seconds lease_seconds)%Z |>
    <| job_recovery_revision := (job_recovery_revision j + 1)%Z |>
    <| job_updated_at := now |>.

Definition renew_recovery_claim (enrollment_id owner : string) (expected_revision : Z)
    (now : time) (lease_seconds : Z) : Method (option EnrollmentJob) :=
  checked (require (negb ((lease_seconds <? 1)%Z || (expected_revision <? 1)%Z)))
    (write storage_or_value_error
       (let* n := update_job enrollment_id (holds_claim owner expected_revision now)
                    (renew_claim now lease_seconds) in
        if n =? 1 then select_job enrollment_id else tx_ret None)).

Definition release_recovery_claim (enrollment_id owner : string) (expected_revision : Z)
    (now : time) : Method bool :=
  write storage_error
    (let* n := update_job enrollment_id (holds_claim owner expected_revision now) release_claim in
     tx_ret (n =? 1)).

Definition fail_claim (error_code : string) (now : time) (j : EnrollmentJob) : EnrollmentJob :=
  (clear_cli (release_claim j)) <| job_state := FAILED |>
    <| job_last_error_code := Some error_code |> <| job_updated_at := now |>.

Definition fail_recovery_claim (enrollment_id owner : string) (expected_revision : Z)
    (error_code : string) (now : time) : Method bool :=
  checked (require (is_error_code error_code))
    (write storage_error
       (let* n := update_job enrollment_id (holds_claim owner expected_revision now)
                    (fail_claim error_code now) in
        tx_ret (n =? 1))).

Definition residual_claim (error_code : string) (now : time) (j : EnrollmentJob) : EnrollmentJob :=
  (release_claim j) <| job_last_error_code := Some error_code |> <| job_updated_at := now |>.

(** No test of the lease: a residual is recorded even after it lapsed. *)
Definition release_recovery_residual (enrollment_id owner : string) (expected_revision : Z)
    (error_code : string) (now : time) : Method bool :=
  checked (require (is_error_code error_code))
    (write storage_error
       (let* n := update_job enrollment_id
                    (fun j => sql_eq (job_recovery_owner j) (Some owner) &&
                              (job_recovery_revision j =? expected_revision)%Z &&
                              activation_state (job_state j))
                    (residual_claim error_code now) in
        tx_ret (n =? 1))).

Definition mark_error (error_code : string) (now : time) (j : EnrollmentJob) : EnrollmentJob :=
  j <| job_last_error_code := Some error_code |>
    <| job_recovery_revision := (job_recovery_revision j + 1)%Z |> <| job_updated_at := now |>.

Definition mark_recovery_claim_error (enrollment_id owner : string) (expected_revision : Z)
    (error_code : string) (now : time) : Method bool :=
  checked (require (is_error_code error_code))
    (write storage_error
       (let* n := update_job enrollment_id
                    (fun j => holds_claim owner expected_revision now j && state_is ACTIVATED j)
                    (mark_error error_code now) in
        tx_ret (n =? 1))).

(** ** Cleanup of terminal jobs *)
Definition list_terminal_cleanup : Method (list EnrollmentJob) :=
  query (fun db => inr (select_ordered job_updated_at
    (fun j => rearmable_state (job_state j) && is_some (job_credential_temp_ref j)) db)).

Definition cleanup_clause (state : EnrollmentState) (reference : string) (j : EnrollmentJob) : bool :=
  state_is state j && sql_eq (job_credential_temp_ref j) (Some reference).

(** The row read back after the update ([assert row is not None]). *)
Definition select_updated (n : nat) (enrollment_id : string) : TxDB EnrollmentJob :=
  raise_if (negb (n =? 1)) RevisionConflict ;;;
  let* row := select_job enrollment_id in
  lift (match row with Some j => inr j | None => inl ValueError end).

Definition finish_cleanup (now : time) (j : EnrollmentJob) : EnrollmentJob :=
  j <| job_credential_temp_ref := None |> <| job_validated_http_address := None |>
    <| job_last_error_code :=
         if bool_decide (job_last_error_code j = Some "credential_cleanup_failed") then None
         else job_last_error_code j |>
    <| job_updated_at := now |>.

Definition finish_terminal_cleanup (enrollment_id : string) (state : EnrollmentState)
    (expected_reference : string) (now : time) : Method EnrollmentJob :=
  checked (require (rearmable_state state))
    (write storage_or_value_error
       (let* n := update_job enrollment_id (cleanup_clause state expected_reference)
                    (finish_cleanup now) in
        select_updated n enrollment_id)).

Definition mark_cleanup_failed (now : time) (j : EnrollmentJob) : EnrollmentJob :=
  j <| job_last_error_code :=
         if is_none (job_last_error_code j) ||
            sql_eq (job_last_error_code j) (Some "credential_cleanup_failed")
         then Some "credential_cleanup_failed" else job_last_error_code j |>
    <| job_updated_at := now |>.

Definition mark_terminal_cleanup_failed (enrollment_id : string) (state : EnrollmentState)
    (expected_reference : string) (now : time) : Method EnrollmentJob :=
  write storage_or_value_error
    (let* n := update_job enrollment_id (cleanup_clause state expected_reference)
                 (mark_cleanup_failed now) in
     select_updated n enrollment_id).

(** [recovery_credential_references]: the references of the jobs that are not
    terminal or still name one. *)
Definition job_references (j : EnrollmentJob) : gset string :=
  option_to_set (job_credential_temp_ref j) ∪ option_to_set (job_old_credential_ref j).

Definition recovery_credential_references (db : DB) : gset string :=
  ⋃ (job_references <$> filter (fun j =>
       (live j || is_some (job_credential_temp_ref j) || is_some (job_old_credential_ref j)) = true)
       (row_job <$> (map_to_list (agent_enrollment_jobs db)).*2)).
