(* ===== verification/ManagerRegistry.v ===== *)
(** * The Agent registry

    [ManagerRegistryRepository] and [AgentStatusRepository] of
    [src/backend/ic_env_guard/storage/manager_registry.py].  URL splitting and
    the IDNA codec are library calls: the class [UrlLib] is the interface to
    them and an argument of every definition that validates an endpoint. *)

From stdpp Require Import base tactics list gmap strings sorting pretty.
From Stdlib Require Import ZArith Lia Ascii SpecFloat.
From S2P Require Import Prelude Text Sql Digest Models Schema JobValidation MutationFence EnrollmentJournal.

(** ** Endpoints *)
Record SplitResult := mkSplit {
  split_scheme : string;
  split_hostname : option string;
  split_port : option Z;
  split_username : option string;
  split_password : option string;
  split_path : string;
  split_query : string;
  split_fragment : string
}.

(** [urllib.parse.urlsplit] with the [port] attribute read ([None] when one of
    them raises [ValueError]), and [str.encode("idna").decode("ascii")]
    ([None] is [UnicodeError]). *)
Class UrlLib := {
  urlsplit : string -> option SplitResult;
  idna : string -> option string
}.

Definition ascii_lower (c : ascii) : ascii :=
  if is_upper c then Ascii.ascii_of_nat (Ascii.nat_of_ascii c + 32) else c.

Fixpoint lower (s : string) : string :=
  match s with
  | EmptyString => EmptyString
  | String c rest => String (ascii_lower c) (lower rest)
  end.

Section Endpoint.
Context `{UrlLib}.

(** [_canonical_endpoint]; [None] is [RegistryInvariantError]. *)
Definition canonical_endpoint (value : string) : option string :=
  match urlsplit value with
  | None => None
  | Some parsed =>
      let default_port := if bool_decide (split_scheme parsed = "https") then 443%Z else 80%Z in
      let port := match split_port parsed with
                  | None => default_port
                  | Some p => if (p =? 0)%Z then default_port else p
                  end in
      match split_hostname parsed with
      | None => None
      | Some hostname =>
          if bool_decide (split_scheme parsed ∉ ["http"; "https"]) ||
             is_some (split_username parsed) || is_some (split_password parsed) ||
             bool_decide (split_path parsed ∉ [""; "/"]) ||
             nonempty (split_query parsed) || nonempty (split_fragment parsed)
          then None
          else match idna hostname with
          | None => None
          | Some encoded =>
              let host := lower encoded in
              let rendered := if has_char ":" host then "[" +:+ host +:+ "]" else host in
              Some (split_scheme parsed +:+ "://" +:+ rendered +:+ ":" +:+ pretty port)
          end
      end
  end.

Definition LOCAL_BOOTSTRAP_SOURCE : string := "local_dev_bootstrap".

(** [_validate_record] *)
Definition valid_record (r : AgentRecord) : bool :=
  negb (existsb blank [agent_id r; agent_display_name r; agent_normalized_endpoint r;
                       agent_credential_ref r; agent_transport_profile_id r]) &&
  is_credential_ref (agent_credential_ref r) &&
  bool_decide (canonical_endpoint (agent_normalized_endpoint r) =
               Some (agent_normalized_endpoint r)) &&
  (1 <=? agent_revision r)%Z &&
  bool_decide (agent_source r ∈ ["config_import"; "manual"; "discovery"; LOCAL_BOOTSTRAP_SOURCE]) &&
  Bool.eqb (bool_decide (agent_enrollment_method r = LOCAL_SOCKET))
           (bool_decide (agent_source r = LOCAL_BOOTSTRAP_SOURCE)) &&
  (is_some (agent_instance_id r) || is_legacy (agent_enrollment_method r)) &&
  (is_some (agent_remote_credential_id r) || is_legacy (agent_enrollment_method r)).

Definition validate_record (r : AgentRecord) : exn + unit := require (valid_record r).

(** ** Registry operations *)
Definition manager_id_row (uuid4 : string) : Method string :=
  write storage_or_value_error
    (let* row := reads (fun db => manager_metadata db !! "manager_id") in
     match row with
     | None =>
         modifies (fun db => db <| manager_metadata :=
           <["manager_id" := uuid4]> (manager_metadata db) |>) ;;;
         tx_ret uuid4
     | Some value => tx_ret value
     end).

(** The value is checked after the transaction has committed. *)
Definition get_or_create_manager_id (uuid4 : string) : Method string :=
  fun db =>
  let '(r, db') := manager_id_row uuid4 db in
  (match r with
   | inl e => inl e
   | inr value => if is_canonical_uuid value then inr value else inl RegistryError
   end, db').

Lemma get_or_create_manager_id_db uuid4 db :
  (get_or_create_manager_id uuid4 db).2 = (manager_id_row uuid4 db).2.
Proof. unfold get_or_create_manager_id. by destruct (manager_id_row uuid4 db). Qed.

Definition registry_create (record : AgentRecord) : Method AgentRecord :=
  checked (validate_record record)
    (write (integrity_conflict "agent ID, identity, or endpoint already exists")
       (insert_agent record ;;; tx_ret record)).

(** The status row of an Agent that has not been probed at its revision. *)
Definition unknown_status (id : string) (revision : Z) (connection : string) (now : time)
    : AgentStatus :=
  mkStatus id revision connection "unknown" None None None None [] (JDict []) None now.

Definition consume_job (receipt : option string) (now : time) (j : EnrollmentJob) : EnrollmentJob :=
  (clear_cli (release_claim j))
    <| job_state := CONSUMED |> <| job_credential_temp_ref := None |>
    <| job_validated_http_address := None |> <| job_cli_accept_receipt := receipt |>
    <| job_updated_at := now |>.

Definition commit_activated_enrollment (job : EnrollmentJob) (record : AgentRecord) (now : time)
    (cli_accept_receipt : option string) : Method AgentRecord :=
  checked (require (state_is ACTIVATED job)) (checked (validate_record record)
    (write (integrity_conflict "agent ID, identity, or endpoint already exists")
       (let* existing := reads (fun db => agents db !! agent_id record) in
        match existing with
        | None => insert_agent record
        | Some a => raise_if (bool_decide (a <> record))
                      (RegistryConflict "agent ID, identity, or endpoint already exists")
        end ;;;
        insert_status_if_absent
          (unknown_status (agent_id record) (agent_revision record) "unknown" now) ;;;
        let* n := update_job (job_enrollment_id job)
                    (fun j => state_is ACTIVATED j &&
                              sql_eq (job_recovery_owner j) (job_recovery_owner job) &&
                              (job_recovery_revision j =? job_recovery_revision job)%Z)
                    (consume_job cli_accept_receipt now) in
        raise_if (negb (n =? 1)) RevisionConflict ;;;
        tx_ret record))).

Definition registry_get (id : string) : Method (option AgentRecord) :=
  query (fun db => inr (agents db !! id)).

(** [SELECT ... WHERE cond LIMIT 1]: some row that satisfies the clause. *)
Definition select_first (cond : AgentRecord -> bool) (db : DB) : option AgentRecord :=
  head (filter (fun a => cond a = true) (map_to_list (agents db)).*2).

Definition find_duplicate (instance_id : option string) (endpoint : string)
    : Method (option AgentRecord) :=
  query (fun db => inr (match instance_id with
    | None => select_first (fun a => bool_decide (agent_normalized_endpoint a = endpoint)) db
    | Some i => select_first (fun a => sql_eq (agent_instance_id a) (Some i) ||
                                       bool_decide (agent_normalized_endpoint a = endpoint)) db
    end)).

(** [ORDER BY agent_id], bytewise. *)
Definition agent_le (a b : AgentRecord) : Prop := String.leb (agent_id a) (agent_id b) = true.

#[global] Instance agent_le_dec a b : Decision (agent_le a b).
Proof. unfold agent_le. apply _. Defined.

(** [WHERE agent_id > ?], present only with a cursor. *)
Definition after_cursor (cursor : option string) (a : AgentRecord) : bool :=
  match cursor with None => true | Some c => String.ltb c (agent_id a) end.

(** Every Agent in order. *)
Definition sorted_agents (db : DB) : list AgentRecord :=
  merge_sort agent_le (map_to_list (agents db)).*2.

Definition select_page (cursor : option string) (limit : nat) (db : DB) : list AgentRecord :=
  take limit (filter (fun a => after_cursor cursor a = true) (sorted_agents db)).

Definition registry_list (q : AgentQuery) : Method AgentPage :=
  checked (require ((1 <=? query_limit q)%Z && (query_limit q <=? 1000)%Z))
    (query (fun db =>
       let limit := Z.to_nat (query_limit q) in
       let rows := select_page (query_cursor q) (limit + 1) db in
       let items := take limit rows in
       let next_cursor := if (limit <? length rows)%nat then agent_id <$> last items else None in
       inr (mkPage items next_cursor))).

Definition update_if_revision (record : AgentRecord) (expected_revision : Z)
    (owner_enrollment_id owner_removal_id : option string) : Method AgentRecord :=
  let updated := record <| agent_revision := (expected_revision + 1)%Z |> in
  checked (require (negb (expected_revision <? 1)%Z)) (checked (validate_record updated)
    (write (integrity_conflict "agent identity or endpoint already exists")
       (assert_agent_mutation_allowed (agent_id record) owner_enrollment_id owner_removal_id ;;;
        let* n := update_agent (agent_id record)
                    (fun a => (agent_revision a =? expected_revision)%Z) updated in
        raise_if (negb (n =? 1)) RevisionConflict ;;;
        tx_ret updated))).

Definition update_and_reset_status (record : AgentRecord) (expected_revision : Z) (now : time)
    (owner_enrollment_id owner_removal_id : option string) : Method AgentRecord :=
  let updated := record <| agent_revision := (expected_revision + 1)%Z |>
                        <| agent_updated_at := now |> in
  let connection_status := if agent_enabled updated then "unknown" else "disabled" in
  checked (validate_record updated)
    (write (integrity_conflict "agent identity or endpoint already exists")
       (assert_agent_mutation_allowed (agent_id record) owner_enrollment_id owner_removal_id ;;;
        let* n := update_agent (agent_id record)
                    (fun a => (agent_revision a =? expected_revision)%Z) updated in
        raise_if (negb (n =? 1)) RevisionConflict ;;;
        upsert_status (unknown_status (agent_id updated) (agent_revision updated)
                         connection_status now) ;;;
        tx_ret updated)).

(** Python's [a or b] for an optional text. *)
Definition or_else (o : option string) (d : string) : string :=
  if truthy o then default d o else d.

(** The record a completed rotation installs. *)
Definition rotated_record (job : EnrollmentJob) (old : AgentRecord) (now : time) : AgentRecord :=
  mkAgent (agent_id old) (job_remote_instance_id job)
    (or_else (job_old_display_name job) (agent_display_name old))
    (job_normalized_endpoint job) (or_else (job_credential_temp_ref job) "")
    (job_remote_credential_id job) (job_transport_profile_id job) (job_enrollment_method job)
    (default false (job_old_enabled job)) (or_else (job_old_source job) (agent_source old))
    (match job_old_registry_revision job with
     | Some r => if (r =? 0)%Z then agent_revision old else r
     | None => agent_revision old
     end + 1)%Z
    (agent_created_at old) now.

(** The fields of the snapshot a swap needs are all present. *)
Definition rotation_complete (job : EnrollmentJob) : bool :=
  is_some (job_replace_agent_id job) && is_some (job_credential_temp_ref job) &&
  is_some (job_old_credential_ref job) && is_some (job_old_registry_revision job) &&
  is_some (job_old_enrollment_method job) && is_some (job_old_source job) &&
  is_some (job_old_display_name job).

Definition swap_rotation (job : EnrollmentJob) (now : time) : Method AgentRecord :=
  let agent := default "" (job_replace_agent_id job) in
  checked (require (state_is ACTIVATED job && rotation_complete job))
    (write (integrity_conflict "agent identity or endpoint already exists")
       (let* old := select_agent agent "agent_not_found" in
        assert_agent_mutation_allowed (agent_id old) (Some (job_enrollment_id job)) None ;;;
        raise_if (bool_decide (Some (agent_revision old) <> job_old_registry_revision job) ||
                  bool_decide (Some (agent_credential_ref old) <> job_old_credential_ref job) ||
                  bool_decide (agent_instance_id old <> job_old_instance_id job))
          RevisionConflict ;;;
        let updated := rotated_record job old now in
        lift (validate_record updated) ;;;
        let* n := update_agent (agent_id updated)
                    (fun a => sql_eq (Some (agent_revision a)) (job_old_registry_revision job) &&
                              sql_eq (Some (agent_credential_ref a)) (job_old_credential_ref job) &&
                              sql_eq (agent_instance_id a) (job_old_instance_id job))
                    updated in
        raise_if (negb (n =? 1)) RevisionConflict ;;;
        upsert_status (unknown_status (agent_id updated) (agent_revision updated) "unknown" now) ;;;
        tx_ret updated)).

Definition registry_delete (id : string) (owner_enrollment_id owner_removal_id : option string)
    : Method unit :=
  write storage_error
    (assert_agent_mutation_allowed id owner_enrollment_id owner_removal_id ;;;
     delete_agent id (fun _ => true) ;;;
     tx_ret tt).

(** [SET replace_agent_tombstone=replace_agent_id, replace_agent_id=NULL] *)
Definition entomb (r : JobRow) : JobRow :=
  mkJobRow ((row_job r) <| job_replace_agent_id := None |>) (job_replace_agent_id (row_job r)).

Definition delete_if_revision_and_credential (id : string) (expected_revision : Z)
    (expected_credential_ref : string) (owner_enrollment_id owner_removal_id : option string)
    : Method bool :=
  let matches a := (agent_revision a =? expected_revision)%Z &&
                   bool_decide (agent_credential_ref a = expected_credential_ref) in
  write storage_error
    (assert_agent_mutation_allowed id owner_enrollment_id owner_removal_id ;;;
     let* row := reads (fun db => agents db !! id) in
     match row with
     | Some a =>
         if matches a then
           let* active_rotation := reads (fun db =>
             exists_where (rotation_live id) (agent_enrollment_jobs db)) in
           raise_if active_rotation (RegistryConflict "agent_mutation_in_progress") ;;;
           update_jobs (fun j => sql_eq (job_replace_agent_id j) (Some id) && terminal (job_state j))
             entomb ;;;
           let* n := delete_agent id matches in
           raise_if (negb (n =? 1)) RegistryError ;;;
           tx_ret true
         else tx_ret false
     | None => tx_ret false
     end).

Definition credential_references (db : DB) : gset string :=
  list_to_set (agent_credential_ref <$> (map_to_list (agents db)).*2).
End Endpoint.

(** ** Agent status *)

(** [_validate_json_value]: at most 32 levels, finite numbers.  A value is a
    tree, so the test for cycles never fires. *)
Fixpoint valid_json (depth : nat) (v : json) : bool :=
  (depth <=? 32)%nat &&
  match v with
  | JNull | JBool _ | JInt _ | JString _ => true
  | JFloat f => match f with S754_zero _ | S754_finite _ _ _ => true | _ => false end
  | JList l => forallb (valid_json (S depth)) l
  | JDict d => forallb (fun kv => valid_json (S depth) kv.2) d
  end.

Definition valid_status (s : AgentStatus) : bool :=
  (1 <=? status_target_revision s)%Z &&
  bool_decide (status_connection_status s ∈ connection_statuses) &&
  bool_decide (status_workload_status s ∈ workload_statuses) &&
  forallb nonempty (status_capabilities s) &&
  valid_json 0 (JList (JString <$> status_capabilities s)) &&
  valid_json 0 (status_summary s).

Definition status_get (id : string) : Method (option AgentStatus) :=
  query (fun db => inr (agent_status db !! id)).

(** [_stored_time_is_later] *)
Definition stored_time_is_later (stored candidate : option time) : bool :=
  match stored, candidate with
  | None, _ => false
  | Some _, None => true
  | Some a, Some b => (b <? a)%Z
  end.

(** The observation is for the current revision of its Agent and is not older
    than the stored one for that revision. *)
Definition observation_current (db : DB) (o : AgentStatus) : bool :=
  match agents db !! status_agent_id o with
  | None => false
  | Some a =>
      (agent_revision a =? status_target_revision o)%Z &&
      match agent_status db !! status_agent_id o with
      | None => true
      | Some e =>
          negb ((status_target_revision e =? status_target_revision o)%Z &&
                (stored_time_is_later (status_observed_at e) (status_observed_at o) ||
                 stored_time_is_later (Some (status_updated_at e)) (Some (status_updated_at o))))
      end
  end.

Fixpoint upsert_all (os : list AgentStatus) : TxDB unit :=
  match os with
  | [] => tx_ret tt
  | o :: rest => upsert_status o ;;; upsert_all rest
  end.

Definition update_many_if_target_revisions (observations : list AgentStatus) : Method bool :=
  checked (require (negb (length observations =? 0)))
    (checked (require (bool_decide (NoDup (status_agent_id <$> observations))))
      (checked (require (forallb valid_status observations))
        (write storage_or_value_error
          (let* current := reads (fun db => forallb (observation_current db) observations) in
           if current then upsert_all observations ;;; tx_ret true else tx_ret false)))).

Definition update_if_target_revision (observation : AgentStatus) (expected_revision : Z)
    : Method bool :=
  checked (require (negb (negb (status_target_revision observation =? expected_revision)%Z ||
                          (expected_revision <? 1)%Z)))
    (update_many_if_target_revisions [observation]).
