(* ===== verification/RemovalJournal.v ===== *)
(** * The removal journal

    [AgentRemovalRepository] of
    [src/backend/ic_env_guard/storage/removal_journal.py]: the durable saga
    that removes an Agent. *)

From stdpp Require Import base tactics list gmap strings sorting.
From Stdlib Require Import ZArith Lia Ascii.
From S2P Require Import Prelude Text Sql Models Schema JobValidation MutationFence EnrollmentJournal.

(** [_validate] *)
Definition valid_removal (r : AgentRemovalJob) : bool :=
  bool_decide (removal_phase r ∈ removal_phases) && is_credential_ref (removal_credential_ref r) &&
  (is_legacy (removal_enrollment_method r) || is_some (removal_remote_credential_id r)).

(** The pending audit event a removal must be recorded under. *)
Definition removal_audit_pending (agent : string) (row : option AuditRow) : bool :=
  match row with
  | None => false
  | Some e => bool_decide (audit_result e = "pending") &&
              sql_eq (audit_agent_id e) (Some agent) &&
              bool_decide (audit_operation e = "agents.v2.remove")
  end.

Definition new_removal (uuid4 : string) (a : AgentRecord) (audit_event_id : Z) (local_only : bool)
    (now : time) : AgentRemovalJob :=
  mkRemoval uuid4 (agent_id a) (agent_revision a) (agent_credential_ref a)
    (agent_remote_credential_id a) (agent_normalized_endpoint a) (agent_transport_profile_id a)
    (agent_enrollment_method a) "pending" local_only audit_event_id None now now.

Definition create_for_agent (uuid4 agent : string) (audit_event_id : Z) (local_only : bool)
    (now : time) : Method AgentRemovalJob :=
  checked (require (negb (audit_event_id <? 1)%Z))
    (write (integrity_conflict "agent_removal_in_progress")
       (let* audit := reads (fun db => control_plane_audit_events db !! audit_event_id) in
        raise_if (negb (removal_audit_pending agent audit))
          (RegistryConflict "agent_removal_audit_invalid") ;;;
        let* a := select_agent agent "agent_not_found" in
        assert_agent_mutation_allowed (agent_id a) None None ;;;
        let job := new_removal uuid4 a audit_event_id local_only now in
        lift (require (valid_removal job)) ;;;
        insert_removal job ;;;
        tx_ret job)).

Definition removal_get (id : string) : Method (option AgentRemovalJob) :=
  query (fun db => inr (agent_removal_jobs db !! id)).

(** [ORDER BY created_at, removal_id] *)
Definition removal_le (a b : AgentRemovalJob) : Prop :=
  (removal_created_at a < removal_created_at b)%Z \/
  (removal_created_at a = removal_created_at b /\
   String.leb (removal_id a) (removal_id b) = true).

#[global] Instance removal_le_dec a b : Decision (removal_le a b).
Proof. unfold removal_le. apply _. Defined.

(** Not completed, or its audit event still pending. *)
Definition recoverable_removal (db : DB) (r : AgentRemovalJob) : bool :=
  removal_active r ||
  match control_plane_audit_events db !! removal_audit_event_id r with
  | Some e => bool_decide (audit_result e = "pending")
  | None => false
  end.

Definition list_recoverable : Method (list AgentRemovalJob) :=
  query (fun db => inr (merge_sort removal_le
    (filter (fun r => recoverable_removal db r = true) (map_to_list (agent_removal_jobs db)).*2))).

Definition blocks_usage (agent : string) : Method bool :=
  query (fun db => inr (exists_where
    (fun r => bool_decide (removal_agent_id r = agent) && removal_active r)
    (agent_removal_jobs db))).

Definition final_error_codes : list string :=
  ["agent_changed"; "agent_credential_unavailable"; "agent_not_found"].

(** [audit_is_recoverable] on the latest removal of the audit event. *)
Definition removal_recoverable (r : AgentRemovalJob) : bool :=
  removal_active r &&
  match removal_last_error_code r with
  | None => true
  | Some c => bool_decide (c ∉ final_error_codes)
  end.

(** [ORDER BY created_at DESC LIMIT 1] *)
Definition newer_removal (a b : AgentRemovalJob) : Prop :=
  (removal_created_at b <= removal_created_at a)%Z.

#[global] Instance newer_removal_dec a b : Decision (newer_removal a b).
Proof. unfold newer_removal. apply _. Defined.

Definition audit_is_recoverable (audit_event_id : Z) : Method bool :=
  query (fun db => inr (
    match head (merge_sort newer_removal
      (filter (fun r => removal_audit_event_id r = audit_event_id)
         (map_to_list (agent_removal_jobs db)).*2)) with
    | None => false
    | Some r => removal_recoverable r
    end)).

(** [UPDATE ... SET phase, last_error_code, updated_at WHERE removal_id=? AND phase=?] *)
Definition enter_phase (phase : string) (code : option string) (now : time) (r : AgentRemovalJob)
    : AgentRemovalJob :=
  r <| removal_phase := phase |> <| removal_last_error_code := code |>
    <| removal_updated_at := now |>.

Definition transition (job : AgentRemovalJob) (phase : string) (now : time)
    (last_error_code : option string) : Method AgentRemovalJob :=
  let updated := enter_phase phase last_error_code now job in
  checked (require (valid_removal updated))
    (write storage_error
       (let* n := update_removal (removal_id job)
                    (fun r => bool_decide (removal_phase r = removal_phase job))
                    (enter_phase phase last_error_code now) in
        raise_if (negb (n =? 1)) RevisionConflict ;;;
        tx_ret updated)).

(** ** Audit events of removals *)
Definition finish_audit (result dispatch : string) (category : option string) (e : AuditRow)
    : AuditRow :=
  e <| audit_result := result |> <| audit_dispatch_state := dispatch |>
    <| audit_failure_category := category |>.

Definition finalize_audit_if_pending (job : AgentRemovalJob) (success : bool) : Method bool :=
  write storage_error
    (let* n := update_audit
       (fun id e => (id =? removal_audit_event_id job)%Z && bool_decide (audit_result e = "pending"))
       (finish_audit (if success then "success" else "failed")
          (if removal_local_only job || is_legacy (removal_enrollment_method job)
           then "not_dispatched" else "dispatched")
          (if removal_local_only job then Some "remote_credential_residual" else None)) in
     tx_ret (n =? 1)).

Definition finalize_orphaned_pending_audits : Method nat :=
  write storage_error (fun db =>
    update_audit
      (fun id e => bool_decide (audit_operation e = "agents.v2.remove") &&
                   bool_decide (audit_result e = "pending") &&
                   negb (exists_where (fun r => (removal_audit_event_id r =? id)%Z)
                           (agent_removal_jobs db)))
      (finish_audit "failed" "not_dispatched" (Some "agent_removal_interrupted")) db).
