(* ===== verification/EnrollmentJobs.v ===== *)
(** * The enrollment job service

    [EnrollmentJobs] of [src/backend/ic_env_guard/enrollment/jobs.py]: the
    service in front of the journal.  Several of its methods read a job in one
    transaction and write it in another; [other n] is what other connections
    commit before the [n]-th later transaction of the method. *)

From stdpp Require Import base tactics list gmap strings.
From Stdlib Require Import ZArith Lia.
From S2P Require Import Prelude Text Sql Digest Models Schema JobValidation MutationFence EnrollmentJournal.

Inductive service_exn :=
| EnrollmentConflict (code : string)
| Propagated (e : exn).

Definition ServiceMethod (A : Type) : Type := DB -> (service_exn + A) * DB.

Record EnrollmentJobRequest := mkRequest {
  request_normalized_endpoint : string;
  request_transport_profile_id : string;
  request_display_name : option string;
  request_ssh_user : option string;
  request_ssh_host : option string;
  request_ssh_port : option Z;
  request_enrollment_method : EnrollmentMethod;
  request_discovery_result_id : option string;
  request_replace_agent_id : option string
}.

(** The configuration of the service. *)
Record EnrollmentJobs := mkJobs {
  jobs_manager_id : string;
  jobs_pending_ttl_seconds : Z;
  jobs_max_active : Z;
  jobs_discovery_retention_seconds : Z
}.

(** ** Fingerprints *)

(** [json.dumps(payload, sort_keys=True, separators=(",", ":"))] *)
Definition json_member (key value : string) : string := json_string key +:+ ":" +:+ value.

Definition fingerprint_payload (r : EnrollmentJobRequest) : string :=
  "{" +:+ json_member "endpoint" (json_string (request_normalized_endpoint r)) +:+
  "," +:+ json_member "profile" (json_string (request_transport_profile_id r)) +:+
  "," +:+ json_member "ssh_host" (json_opt_string (request_ssh_host r)) +:+
  "," +:+ json_member "ssh_port" (json_opt_int (request_ssh_port r)) +:+
  "," +:+ json_member "ssh_user" (json_opt_string (request_ssh_user r)) +:+ "}".

Definition enrollment_input_fingerprint (r : EnrollmentJobRequest) : string :=
  sha256_hex (bytes_of (fingerprint_payload r)).

Definition job_input_fingerprint (j : EnrollmentJob) : string :=
  enrollment_input_fingerprint
    (mkRequest (job_normalized_endpoint j) (job_transport_profile_id j) None
       (job_ssh_user j) (job_ssh_host j) (job_ssh_port j) (job_enrollment_method j) None None).

(** ** Operations *)

(** [except RegistryConflict as exc]: the listed codes are passed on, every
    other one becomes [agent_enrollment_conflict]. *)
Definition translate_conflict (codes : list string) (e : exn) : service_exn :=
  match e with
  | RegistryConflict code =>
      EnrollmentConflict (if bool_decide (code ∈ codes) then code else "agent_enrollment_conflict")
  | _ => Propagated e
  end.

(** [except RevisionConflict] besides. *)
Definition translate_revision (handler : exn -> service_exn) (e : exn) : service_exn :=
  match e with
  | RevisionConflict => EnrollmentConflict "agent_enrollment_conflict"
  | _ => handler e
  end.

Definition call {A} (handler : exn -> service_exn) (m : Method A) : ServiceMethod A := fun db =>
  match m db with
  | (inl e, db') => (inl (handler e), db')
  | (inr a, db') => (inr a, db')
  end.

Section Service.
Context (s : EnrollmentJobs).

(** The job both creating methods build. *)
Definition new_job (request : EnrollmentJobRequest) (enrollment_id : string)
    (discovery_result_id : option string) (state : EnrollmentState) (now : time) : EnrollmentJob :=
  mkJob enrollment_id (jobs_manager_id s) state
    (request_normalized_endpoint request) (request_transport_profile_id request)
    discovery_result_id (request_replace_agent_id request)
    (request_display_name request) (request_ssh_user request) (request_ssh_host request)
    (request_ssh_port request) (request_enrollment_method request)
    None None None None None false
    (now + seconds (jobs_pending_ttl_seconds s))%Z None now now
    None None 0%Z None None None None None None None None None None None None None None.

Definition jobs_create (request : EnrollmentJobRequest) (enrollment_id : option string)
    (uuid4 : string) (now : time) (state : EnrollmentState) : ServiceMethod EnrollmentJob :=
  let job := new_job request (default uuid4 enrollment_id)
               (request_discovery_result_id request) state now in
  call (translate_conflict
          ["agent_enrollment_capacity"; "agent_validation_changed"; "transport_profile_mismatch"])
    (match request_discovery_result_id request with
     | Some _ => create_discovery_with_capacity job now (jobs_max_active s)
                   (jobs_discovery_retention_seconds s)
     | None => create_with_capacity job now (jobs_max_active s)
     end).

Definition jobs_create_rotation (request : EnrollmentJobRequest) (uuid4 : string) (now : time)
    : ServiceMethod EnrollmentJob :=
  match request_replace_agent_id request with
  | None => fun db => (inl (EnrollmentConflict "agent_not_found"), db)
  | Some _ =>
      call (translate_conflict
              ["agent_not_found"; "agent_enrollment_capacity"; "agent_mutation_in_progress"])
        (create_rotation_with_capacity (new_job request uuid4 None PENDING now) now (jobs_max_active s))
  end.

Definition jobs_rearm_expired_local (request : EnrollmentJobRequest) (enrollment_id : string)
    (now : time) : ServiceMethod EnrollmentJob :=
  if bool_decide (request_enrollment_method request <> LOCAL_SOCKET)
  then fun db => (inl (EnrollmentConflict "agent_enrollment_conflict"), db)
  else call (translate_conflict ["local_bootstrap_retry_pending"])
         (rearm_expired_local enrollment_id (request_normalized_endpoint request)
            (request_transport_profile_id request) (default "" (request_display_name request))
            now (now + seconds (jobs_pending_ttl_seconds s))%Z).
End Service.

(** [replace(job, state=..., <claim and CLI columns cleared>, updated_at=now)] *)
Definition end_job (state : EnrollmentState) (now : time) (j : EnrollmentJob) : EnrollmentJob :=
  (clear_cli (release_claim j)) <| job_state := state |> <| job_updated_at := now |>.

Definition jobs_get (other : nat -> DB -> DB) (enrollment_id : string) (now : time)
    : ServiceMethod EnrollmentJob := fun db =>
  match agent_enrollment_jobs db !! enrollment_id with
  | None => (inl (EnrollmentConflict "agent_enrollment_not_found"), db)
  | Some row =>
      let job := row_job row in
      if due now job then
        match replace_if_state (end_job EXPIRED now job) (job_state job) no_fence (other 0 db) with
        | (inr expired, db') => (inr expired, db')
        | (inl RevisionConflict, db') =>
            let db2 := other 1 db' in
            (inr (from_option row_job job (agent_enrollment_jobs db2 !! enrollment_id)), db2)
        | (inl e, db') => (inl (Propagated e), db')
        end
      else (inr job, db)
  end.

(** [except RevisionConflict as exc: raise EnrollmentConflict(...)] *)
Definition revision_conflict (e : exn) : service_exn := translate_revision Propagated e.

Definition jobs_cancel (other : nat -> DB -> DB) (enrollment_id : string) (now : time)
    : ServiceMethod EnrollmentJob := fun db =>
  match jobs_get other enrollment_id now db with
  | (inl e, db1) => (inl e, db1)
  | (inr job, db1) =>
      if bool_decide (job_state job = EXPIRED)
      then (inl (EnrollmentConflict "agent_enrollment_expired"), db1)
      else if negb (expirable (job_state job))
      then (inl (EnrollmentConflict "agent_enrollment_not_cancellable"), db1)
      else call revision_conflict
             (replace_if_state (end_job CANCELLED now job) (job_state job) no_fence) (other 2 db1)
  end.

Definition jobs_consume (other : nat -> DB -> DB) (enrollment_id display_name input_fingerprint : string)
    (now : time) : ServiceMethod EnrollmentJob := fun db =>
  match jobs_get other enrollment_id now db with
  | (inl e, db1) => (inl e, db1)
  | (inr job, db1) =>
      if bool_decide (job_state job = CONSUMED)
      then (inl (EnrollmentConflict "agent_enrollment_consumed"), db1)
      else if bool_decide (job_state job = EXPIRED)
      then (inl (EnrollmentConflict "agent_enrollment_expired"), db1)
      else if bool_decide (job_state job <> VERIFIED)
      then (inl (EnrollmentConflict "agent_enrollment_not_verified"), db1)
      else if bool_decide (input_fingerprint <> job_input_fingerprint job)
      then (inl (EnrollmentConflict "agent_enrollment_input_changed"), db1)
      else call revision_conflict
             (replace_if_state (request_activation display_name now job) VERIFIED no_fence) (other 2 db1)
  end.

Definition jobs_consume_rotation (enrollment_id agent display_name : string) (now : time)
    : ServiceMethod EnrollmentJob :=
  call (translate_revision (translate_conflict
          ["agent_enrollment_not_found"; "agent_enrollment_consumed"; "agent_enrollment_expired";
           "agent_enrollment_not_verified"; "agent_enrollment_conflict"; "agent_not_found";
           "agent_changed"; "agent_mutation_in_progress"]))
    (consume_rotation enrollment_id agent display_name now).
