(* ===== verification/Discovery.v ===== *)
(** * Discovery jobs and results

    [DiscoveryRepository] of [src/backend/ic_env_guard/storage/discovery.py]:
    the bounded scans of a network scope, and what they found.  The tables
    [discovery_jobs] and [discovery_results] are part of the manager database;
    their constraints are those of migrations 0010 and 0011.

    A method that writes and then reads the job back does so on two
    connections: [other] is what other connections commit in between. *)

From stdpp Require Import base tactics list gmap strings sorting pretty.
From Stdlib Require Import ZArith Lia Ascii.
From S2P Require Import Prelude Text Sql Models Schema EnrollmentJournal.

(** ** Constraints *)
Definition between (lo x hi : Z) : bool := (lo <=? x)%Z && (x <=? hi)%Z.

Definition discovery_check (d : DiscoveryJob) : bool :=
  between 0 (discovery_total_targets d) 2048 &&
  between 0 (discovery_checked_targets d) (discovery_total_targets d) &&
  between 0 (discovery_found_targets d) (discovery_checked_targets d).

(** [start_audit_event_id INTEGER NOT NULL UNIQUE REFERENCES
    control_plane_audit_events(id)] *)
Definition discovery_audit_ok (db : DB) (d : DiscoveryJob) : bool :=
  bool_decide (is_Some (control_plane_audit_events db !! discovery_start_audit_event_id d)) &&
  bool_decide (map_Forall (fun _ d' =>
    discovery_start_audit_event_id d' <> discovery_start_audit_event_id d) (discovery_jobs db)).

Definition result_check (r : DiscoveryResult) : bool := between 1 (result_port r) 65535.

(** [UNIQUE(job_id, ip, port, transport_profile_id)] *)
Definition result_key (r : DiscoveryResult) : string * string * Z * string :=
  (result_job_id r, result_ip r, result_port r, result_transport_profile_id r).

(** ** Statements *)
Definition insert_discovery (d : DiscoveryJob) : TxDB unit := fun db =>
  (guard_integrity (bool_decide (discovery_jobs db !! discovery_job_id d = None) &&
                    discovery_check d && discovery_audit_ok db d) ;;;
   modifies (fun db => db <| discovery_jobs :=
     <[discovery_job_id d := d]> (discovery_jobs db) |>)) db.

(** [UPDATE discovery_jobs SET ... WHERE job_id=? AND cond] *)
Definition update_discovery (k : string) (cond : DiscoveryJob -> bool)
    (f : DiscoveryJob -> DiscoveryJob) : TxDB nat := fun db =>
  (let* (t, n) := with_rows (update_pk discovery_check k cond f (discovery_jobs db)) in
   modifies (fun db => db <| discovery_jobs := t |>) ;;; tx_ret n) db.

(** [UPDATE discovery_jobs SET ... WHERE cond] *)
Definition update_discoveries (cond : DiscoveryJob -> bool) (f : DiscoveryJob -> DiscoveryJob)
    : TxDB unit := fun db =>
  (let* t := with_rows (update_all discovery_check cond f (discovery_jobs db)) in
   modifies (fun db => db <| discovery_jobs := t |>)) db.

(** The row of a table with the key of [r]. *)
Definition find_result (t : gmap string DiscoveryResult) (r : DiscoveryResult)
    : option DiscoveryResult :=
  head (filter (fun q => result_key q = result_key r) (map_to_list t).*2).

(** The columns of the [DO UPDATE] clause. *)
Definition seen_again (r q : DiscoveryResult) : DiscoveryResult :=
  q <| result_fingerprint_version := result_fingerprint_version r |>
    <| result_found := result_found r |>
    <| result_safe_error_code := result_safe_error_code r |>
    <| result_last_seen_at := result_last_seen_at r |>.

(** [INSERT INTO discovery_results ... ON CONFLICT(job_id,ip,port,
    transport_profile_id) DO UPDATE]; [result_id] is a fresh [uuid4]. *)
Definition upsert_result (r : DiscoveryResult) : TxDB unit := fun db =>
  (guard_integrity (bool_decide (discovery_results db !! result_id r = None) && result_check r &&
                    bool_decide (is_Some (discovery_jobs db !! result_job_id r))) ;;;
   modifies (fun db => db <| discovery_results :=
     match find_result (discovery_results db) r with
     | Some q => <[result_id q := seen_again r q]> (discovery_results db)
     | None => <[result_id r := r]> (discovery_results db)
     end |>)) db.

(** [DELETE FROM discovery_jobs WHERE cond]; the results go with their job
    (ON DELETE CASCADE).  The number is [cursor.rowcount]. *)
Definition delete_discoveries (cond : DB -> DiscoveryJob -> bool) : TxDB nat := fun db =>
  let gone k := match discovery_jobs db !! k with Some d => cond db d | None => false end in
  inr (count_where (cond db) (discovery_jobs db),
       db <| discovery_jobs := filter (fun kd => gone kd.1 = false) (discovery_jobs db) |>
          <| discovery_results :=
               filter (fun kr => gone (result_job_id kr.2) = false) (discovery_results db) |>).

(** ** Clauses *)
(** [state IN ('queued','running')] *)
Definition discovery_active (d : DiscoveryJob) : bool :=
  match discovery_state d with D_QUEUED | D_RUNNING => true | _ => false end.

Definition discovery_is (s : DiscoveryState) (d : DiscoveryJob) : bool :=
  bool_decide (discovery_state d = s).

Definition overdue (now : time) (d : DiscoveryJob) : bool := (discovery_deadline_at d <=? now)%Z.

(** [SET state=?,updated_at=?,completed_at=?] *)
Definition end_discovery (s : DiscoveryState) (now : time) (d : DiscoveryJob) : DiscoveryJob :=
  d <| discovery_state := s |> <| discovery_updated_at := now |>
    <| discovery_completed_at := Some now |>.

(** [SET state='failed',safe_error_code='job_timeout',...] *)
Definition time_out (now : time) (d : DiscoveryJob) : DiscoveryJob :=
  end_discovery D_FAILED now (d <| discovery_safe_error_code := Some "job_timeout" |>).

Definition enter_discovery (s : DiscoveryState) (now : time) (d : DiscoveryJob) : DiscoveryJob :=
  d <| discovery_state := s |> <| discovery_updated_at := now |>.

(** [SELECT ... WHERE cond]: the order of the rows is not specified. *)
Definition select_discoveries (cond : DiscoveryJob -> bool) (db : DB) : list DiscoveryJob :=
  filter (fun d => cond d = true) (map_to_list (discovery_jobs db)).*2.

(** [ORDER BY created_at] *)
Definition created_le (a b : DiscoveryJob) : Prop :=
  (discovery_created_at a <= discovery_created_at b)%Z.

#[global] Instance created_le_dec a b : Decision (created_le a b).
Proof. unfold created_le. apply _. Defined.

(** ** Operations *)
Definition expire_deadlines (now : time) : Method (list DiscoveryJob) :=
  write storage_or_value_error
    (let* rows := reads (select_discoveries (fun d => discovery_active d && overdue now d)) in
     update_discoveries (fun d => discovery_active d && overdue now d) (time_out now) ;;;
     tx_ret (time_out now <$> rows)).

(** [completed_at] is inserted as NULL whatever the job says. *)
Definition create_job (job : DiscoveryJob) (max_active_jobs : Z) : Method DiscoveryJob :=
  write storage_error
    (let* active := reads (fun db => count_where discovery_active (discovery_jobs db)) in
     raise_if (max_active_jobs <=? Z.of_nat active)%Z (RegistryConflict "discovery_capacity") ;;;
     insert_discovery (job <| discovery_completed_at := None |>) ;;;
     tx_ret job).

Definition get_job (job_id : string) : Method (option DiscoveryJob) :=
  query (fun db => inr (discovery_jobs db !! job_id)).

(** Read the job back on a new connection after the transaction of a method;
    [missing] is raised when it is gone. *)
Definition read_back {A} (other : DB -> DB) (job_id : string) (missing : exn)
    (op : Method A) : Method DiscoveryJob := fun db =>
  match op db with
  | (inl e, db') => (inl e, db')
  | (inr _, db') =>
      let db2 := other db' in
      match discovery_jobs db2 !! job_id with
      | Some d => (inr d, db2)
      | None => (inl missing, db2)
      end
  end.

(** The CASE expression of [merge_dispatch]. *)
Definition merge_state (stored incoming : DiscoveryDispatchState) : DiscoveryDispatchState :=
  match stored, incoming with
  | DISPATCHED, _ | _, DISPATCHED => DISPATCHED
  | DISPATCH_UNKNOWN, _ | _, DISPATCH_UNKNOWN => DISPATCH_UNKNOWN
  | _, _ => NOT_DISPATCHED
  end.

Definition merge_dispatch (other : DB -> DB) (job_id : string) (state : DiscoveryDispatchState)
    (now : time) : Method DiscoveryJob :=
  read_back other job_id (RegistryConflict "discovery_job_not_found")
    (write storage_or_value_error
       (update_discovery job_id (discovery_is D_RUNNING)
          (fun d => d <| discovery_dispatch_state := merge_state (discovery_dispatch_state d) state |>
                      <| discovery_updated_at := now |>))).

Definition recover (now : time) : Method (list DiscoveryJob * list DiscoveryJob) :=
  let cancelled d := discovery_active d && discovery_cancel_requested d in
  let expired d := discovery_active d && negb (discovery_cancel_requested d) && overdue now d in
  write storage_or_value_error
    (let* cancelled_rows := reads (select_discoveries cancelled) in
     update_discoveries cancelled (end_discovery D_CANCELLED now) ;;;
     let* expired_rows := reads (select_discoveries expired) in
     update_discoveries
       (fun d => discovery_is D_RUNNING d && negb (discovery_cancel_requested d) && negb (overdue now d))
       (enter_discovery D_QUEUED now) ;;;
     update_discoveries expired (time_out now) ;;;
     let* resumable_rows := reads (fun db => merge_sort created_le (select_discoveries
       (fun d => discovery_is D_QUEUED d && negb (discovery_cancel_requested d)) db)) in
     tx_ret (resumable_rows,
             (end_discovery D_CANCELLED now <$> cancelled_rows) ++ (time_out now <$> expired_rows))).

(** The audit event of the job's start, by operation and target. *)
Definition start_audit (db : DB) (d : DiscoveryJob) : option AuditRow :=
  match control_plane_audit_events db !! discovery_start_audit_event_id d with
  | Some e => if bool_decide (audit_operation e = "discovery.start") &&
                 bool_decide (audit_target e = "discovery:" +:+ discovery_scope_id d)
              then Some e else None
  | None => None
  end.

Definition audit_final (e : AuditRow) : bool := bool_decide (audit_result e ∈ ["success"; "failed"]).

(** A result of the job is linked to an enrollment that is not terminal. *)
Definition enrolling (db : DB) (d : DiscoveryJob) : bool :=
  exists_where (fun r =>
    bool_decide (result_job_id r = discovery_job_id d) &&
    match (id ← result_linked_enrollment_id r; agent_enrollment_jobs db !! id) with
    | Some e => live (row_job e)
    | None => false
    end) (discovery_results db).

Definition disposable (retained_after : time) (db : DB) (d : DiscoveryJob) : bool :=
  negb (discovery_active d) &&
  match discovery_completed_at d with Some t => (t <? retained_after)%Z | None => false end &&
  match start_audit db d with Some e => audit_final e | None => false end &&
  negb (enrolling db d).

Definition cleanup (retained_after : time) : Method nat :=
  write storage_error (delete_discoveries (disposable retained_after)).

Definition terminal_jobs_with_pending_audit : Method (list DiscoveryJob) :=
  query (fun db => inr (merge_sort created_le (select_discoveries
    (fun d => negb (discovery_active d) &&
       match start_audit db d with
       | Some e => bool_decide (audit_result e = "pending")
       | None => false
       end) db))).

Definition claim (other : DB -> DB) (job_id : string) (now : time) : Method (option DiscoveryJob) :=
  fun db =>
  match write storage_error
          (update_discovery job_id
             (fun d => discovery_is D_QUEUED d && negb (discovery_cancel_requested d))
             (enter_discovery D_RUNNING now)) db with
  | (inl e, db') => (inl e, db')
  | (inr n, db') =>
      if n =? 1 then (inr (discovery_jobs (other db') !! job_id), other db') else (inr None, db')
  end.

Definition request_cancel (other : DB -> DB) (job_id : string) (now : time) : Method DiscoveryJob :=
  read_back other job_id AssertionError
    (write storage_error
       (let* n := update_discovery job_id discovery_active
                    (fun d => d <| discovery_cancel_requested := true |>
                                <| discovery_updated_at := now |>) in
        raise_if (negb (n =? 1)) (RegistryConflict "discovery_not_cancellable"))).

(** [DiscoveryTarget.canonical_url] *)
Definition canonical_url (t : DiscoveryTarget) : string :=
  let host := if has_char ":"%char (target_ip t) then "[" +:+ target_ip t +:+ "]" else target_ip t in
  target_scheme t +:+ "://" +:+ host +:+ ":" +:+ pretty (target_port t).

Definition new_result (uuid4 job_id : string) (t : DiscoveryTarget) (fingerprint : option string)
    (safe_error_code : option string) (now : time) : DiscoveryResult :=
  mkDiscoveryResult uuid4 job_id (canonical_url t) (target_ip t) (target_port t)
    (target_transport_profile_id t) fingerprint (is_some fingerprint) safe_error_code now now None.

Definition results_of (job_id : string) (t : gmap string DiscoveryResult) : nat :=
  count_where (fun r => bool_decide (result_job_id r = job_id)) t.

Definition found_of (job_id : string) (t : gmap string DiscoveryResult) : nat :=
  count_where (fun r => bool_decide (result_job_id r = job_id) && result_found r) t.

Definition set_counts (checked found : nat) (now : time) (d : DiscoveryJob) : DiscoveryJob :=
  d <| discovery_checked_targets := Z.of_nat checked |>
    <| discovery_found_targets := Z.of_nat found |> <| discovery_updated_at := now |>.

Definition record_result (uuid4 job_id : string) (target : DiscoveryTarget)
    (fingerprint safe_error_code : option string) (now : time) : Method unit :=
  write storage_error
    (let* active := reads (fun db =>
       match discovery_jobs db !! job_id with Some d => discovery_is D_RUNNING d | None => false end) in
     if active then
       upsert_result (new_result uuid4 job_id target fingerprint safe_error_code now) ;;;
       let* checked := reads (fun db => results_of job_id (discovery_results db)) in
       let* found := reads (fun db => found_of job_id (discovery_results db)) in
       update_discovery job_id (discovery_is D_RUNNING) (set_counts checked found now) ;;;
       tx_ret tt
     else tx_ret tt).

Definition finish (other : DB -> DB) (job_id : string) (state : DiscoveryState) (now : time)
    (safe_error_code : option string) : Method DiscoveryJob :=
  read_back other job_id AssertionError
    (write storage_error
       (update_discovery job_id
          (fun d => discovery_active d &&
             Bool.eqb (discovery_cancel_requested d) (bool_decide (state = D_CANCELLED)))
          (fun d => end_discovery state now (d <| discovery_safe_error_code := safe_error_code |>)))).

(** [ORDER BY ip,port] *)
Definition result_le (a b : DiscoveryResult) : Prop :=
  String.ltb (result_ip a) (result_ip b) = true \/
  (result_ip a = result_ip b /\ (result_port a <= result_port b)%Z).

#[global] Instance result_le_dec a b : Decision (result_le a b).
Proof. unfold result_le. apply _. Defined.

Definition list_results (job_id : string) : Method (list DiscoveryResult) :=
  query (fun db => inr (merge_sort result_le
    (filter (fun r => result_job_id r = job_id) (map_to_list (discovery_results db)).*2))).

Definition get_result (result_id : string) : Method (option DiscoveryResult) :=
  query (fun db => inr (discovery_results db !! result_id)).

(** The targets of the job that have a result. *)
Definition result_keys (job_id : string) : Method (gset (string * Z * string)) :=
  query (fun db => inr (list_to_set
    ((fun r => (result_ip r, result_port r, result_transport_profile_id r)) <$>
     filter (fun r => result_job_id r = job_id) (map_to_list (discovery_results db)).*2))).

(** [DiscoveryService.start]: the job it creates. *)
Definition new_discovery (uuid4 scope_id : string) (targets : Z) (start_audit_event_id : Z)
    (now : time) (job_timeout_seconds : Z) : DiscoveryJob :=
  mkDiscoveryJob uuid4 scope_id D_QUEUED targets 0 0 false None start_audit_event_id
    (now + seconds job_timeout_seconds)%Z now now None NOT_DISPATCHED.
