(* ===== verification/Samples.v ===== *)
(** * Concrete data for the witnesses

    Small databases on which the hypotheses of the theorems hold, and a URL
    library that understands [http://host:port]. *)

From stdpp Require Import base tactics list gmap strings.
From Stdlib Require Import ZArith Lia Ascii.
From S2P Require Import Prelude Text Sql Models Schema JobValidation MutationFence.
From S2P Require Import EnrollmentJournal ManagerRegistry RemovalJournal.

Definition ref_a : string := "aaaaaaaaaaaaaaaaaaaaaaaaaaaaaaaaaaaaaaaaaaaaaaaa".
Definition ref_b : string := "bbbbbbbbbbbbbbbbbbbbbbbbbbbbbbbbbbbbbbbbbbbbbbbb".
Definition uuid_m : string := "00000000-0000-4000-8000-000000000001".
Definition uuid_p : string := "00000000-0000-4000-8000-00000000000a".
Definition uuid_q : string := "00000000-0000-4000-8000-00000000000b".
Definition sha_a : string := "aaaaaaaaaaaaaaaaaaaaaaaaaaaaaaaaaaaaaaaaaaaaaaaaaaaaaaaaaaaaaaaa".

(** Splits [http://<host>:8765] for hosts without a colon. *)
#[global] Instance sample_url : UrlLib := {|
  urlsplit s := match split_on ":" s with
    | [scheme; String _ (String _ host); "8765"] =>
        Some (mkSplit scheme (Some host) (Some 8765%Z) None None "" "" "")
    | _ => None
    end;
  idna s := Some s
|}.

(** A pending automatic enrollment. *)
Definition job_auto : EnrollmentJob :=
  mkJob "job-1" uuid_m PENDING "http://agent-1:8765" "plain" None None (Some "agent one")
    (Some "root") (Some "10.0.0.7") (Some 22%Z) SSH_AUTO None None None None None false
    1000%Z None 0%Z 0%Z None None 0%Z None None None None None None
    None None None None None None None None.

(** A verified enrollment whose credential is stored. *)
Definition job_verified : EnrollmentJob :=
  job_auto <| job_state := VERIFIED |> <| job_remote_instance_id := Some "inst-1" |>
    <| job_remote_credential_id := Some "cred-1" |> <| job_credential_temp_ref := Some ref_b |>
    <| job_validated_http_address := Some "10.0.0.7" |>.

(** A CLI enrollment that waits for its helper. *)
Definition job_cli : EnrollmentJob :=
  job_auto <| job_enrollment_id := "job-cli" |> <| job_state := RUNNING |>
    <| job_enrollment_method := SSH_CLI |> <| job_recovery_owner := Some uuid_p |>
    <| job_recovery_lease_until := Some 1000%Z |> <| job_recovery_revision := 1%Z |>
    <| job_cli_resume_nonce := Some uuid_p |> <| job_cli_peer_uid := Some 0%Z |>
    <| job_cli_input_fingerprint := Some sha_a |> <| job_cli_pinned_address := Some "10.0.0.7" |>.

(** A registered Agent and its rotation. *)
Definition agent_one : AgentRecord :=
  mkAgent "agent-1" (Some "inst-1") "agent one" "http://agent-1:8765" ref_a (Some "cred-0")
    "plain" SSH_AUTO true "manual" 3%Z 0%Z 0%Z.

Definition job_rotation : EnrollmentJob :=
  (capture_rotation job_verified agent_one) <| job_replace_agent_id := Some "agent-1" |>.

Definition job_activated : EnrollmentJob :=
  job_verified <| job_state := ACTIVATED |> <| job_save_requested := true |>
    <| job_recovery_owner := Some uuid_p |> <| job_recovery_lease_until := Some 900%Z |>
    <| job_recovery_revision := 1%Z |>.

Definition jobs_db (rows : list EnrollmentJob) : DB :=
  empty_db <| agent_enrollment_jobs :=
    list_to_map ((fun j => (job_enrollment_id j, mkJobRow j None)) <$> rows) |>.

Definition with_agent (a : AgentRecord) (db : DB) : DB :=
  db <| agents := <[agent_id a := a]> (agents db) |>.

(** Everything at once: an Agent, its verified rotation and a pending job. *)
Definition fleet_db : DB :=
  with_agent agent_one (jobs_db [job_rotation; job_auto <| job_enrollment_id := "job-2" |>]).

Example samples_valid :
  valid_job job_auto && valid_job job_verified && valid_job job_cli && valid_job job_rotation &&
  valid_job job_activated && valid_record agent_one = true.
Proof. vm_compute. done. Qed.

Lemma fleet_db_wf : db_wf fleet_db.
Proof.
  assert (H1 : insert_agent agent_one empty_db = inr (tt, with_agent agent_one empty_db))
    by (vm_compute; reflexivity).
  assert (H2 : insert_job job_rotation (with_agent agent_one empty_db) =
    inr (tt, with_agent agent_one (jobs_db [job_rotation]))) by (vm_compute; reflexivity).
  assert (H3 : insert_job (job_auto <| job_enrollment_id := "job-2" |>)
    (with_agent agent_one (jobs_db [job_rotation])) = inr (tt, fleet_db)) by (vm_compute; reflexivity).
  exact (insert_job_wf _ _ _ _ (insert_job_wf _ _ _ _ (insert_agent_wf _ _ _ _ empty_db_wf H1) H2) H3).
Qed.

Lemma jobs_db_wf_cli : db_wf (jobs_db [job_cli]).
Proof.
  assert (Hi : insert_job job_cli empty_db = inr (tt, jobs_db [job_cli])) by (vm_compute; reflexivity).
  exact (insert_job_wf job_cli empty_db tt _ empty_db_wf Hi).
Qed.
