(* ===== verification/Lifecycle.v ===== *)
(** * Lifecycle of the manager database

    Every writing method of the three repositories as one type of calls, and
    the theorems about arbitrary sequences of them. *)

From stdpp Require Import base tactics list gmap strings.
From Stdlib Require Import ZArith Lia.
From S2P Require Import Prelude Text Sql Models Schema JobValidation MutationFence EnrollmentJournal.
From S2P Require Import ManagerRegistry RemovalJournal.

(** ** Calls *)
Inductive JournalCall :=
| CallCreate (job : EnrollmentJob)
| CallCreateWithCapacity (job : EnrollmentJob) (now : time) (max_active : Z)
| CallCreateDiscovery (job : EnrollmentJob) (now : time) (max_active retention_seconds : Z)
| CallCreateRotation (job : EnrollmentJob) (now : time) (max_active : Z)
| CallConsumeRotation (enrollment_id agent display_name : string) (now : time)
| CallRearm (enrollment_id endpoint profile display_name : string) (now expires_at : time)
| CallSetState (enrollment_id : string) (state : EnrollmentState) (updated_at : time)
    (expected_state : EnrollmentState)
| CallReplace (job : EnrollmentJob) (expected_state : EnrollmentState) (fence : Fence)
| CallClaimPendingAuto (enrollment_id : string) (now : time)
| CallRecheckAuto (enrollment_id : string) (now : time)
| CallRecheckCli (enrollment_id owner : string) (expected_revision : Z) (now : time)
| CallPrepareRecovery (now : time)
| CallClaimRecovery (enrollment_id owner : string) (now : time) (lease_seconds : Z)
| CallRenew (enrollment_id owner : string) (expected_revision : Z) (now : time) (lease_seconds : Z)
| CallRelease (enrollment_id owner : string) (expected_revision : Z) (now : time)
| CallFail (enrollment_id owner : string) (expected_revision : Z) (error_code : string) (now : time)
| CallResidual (enrollment_id owner : string) (expected_revision : Z) (error_code : string) (now : time)
| CallMarkError (enrollment_id owner : string) (expected_revision : Z) (error_code : string) (now : time)
| CallFinishCleanup (enrollment_id : string) (state : EnrollmentState) (reference : string) (now : time)
| CallCleanupFailed (enrollment_id : string) (state : EnrollmentState) (reference : string) (now : time).

Definition journal_run (c : JournalCall) (db : DB) : DB :=
  match c with
  | CallCreate job => (journal_create job db).2
  | CallCreateWithCapacity job now m => (create_with_capacity job now m db).2
  | CallCreateDiscovery job now m r => (create_discovery_with_capacity job now m r db).2
  | CallCreateRotation job now m => (create_rotation_with_capacity job now m db).2
  | CallConsumeRotation id a d now => (consume_rotation id a d now db).2
  | CallRearm id e p d now x => (rearm_expired_local id e p d now x db).2
  | CallSetState id s t x => (set_state id s t x db).2
  | CallReplace job x f => (replace_if_state job x f db).2
  | CallClaimPendingAuto id now => (claim_pending_auto id now db).2
  | CallRecheckAuto id now => (recheck_auto_dispatch id now db).2
  | CallRecheckCli id o r now => (recheck_cli_submission id o r now db).2
  | CallPrepareRecovery now => (prepare_recovery now db).2
  | CallClaimRecovery id o now l => (claim_recovery id o now l db).2
  | CallRenew id o r now l => (renew_recovery_claim id o r now l db).2
  | CallRelease id o r now => (release_recovery_claim id o r now db).2
  | CallFail id o r e now => (fail_recovery_claim id o r e now db).2
  | CallResidual id o r e now => (release_recovery_residual id o r e now db).2
  | CallMarkError id o r e now => (mark_recovery_claim_error id o r e now db).2
  | CallFinishCleanup id s ref now => (finish_terminal_cleanup id s ref now db).2
  | CallCleanupFailed id s ref now => (mark_terminal_cleanup_failed id s ref now db).2
  end.

Inductive RegistryCall :=
| CallManagerId (uuid4 : string)
| CallRegister (record : AgentRecord)
| CallCommit (job : EnrollmentJob) (record : AgentRecord) (now : time) (receipt : option string)
| CallUpdate (record : AgentRecord) (expected_revision : Z) (oe orm : option string)
| CallUpdateReset (record : AgentRecord) (expected_revision : Z) (now : time) (oe orm : option string)
| CallSwap (job : EnrollmentJob) (now : time)
| CallDelete (id : string) (oe orm : option string)
| CallDeleteIf (id : string) (expected_revision : Z) (reference : string) (oe orm : option string)
| CallStatus (observations : list AgentStatus)
| CallStatusOne (observation : AgentStatus) (expected_revision : Z).

Definition registry_run `{UrlLib} (c : RegistryCall) (db : DB) : DB :=
  match c with
  | CallManagerId u => (get_or_create_manager_id u db).2
  | CallRegister r => (registry_create r db).2
  | CallCommit j r now x => (commit_activated_enrollment j r now x db).2
  | CallUpdate r x oe orm => (update_if_revision r x oe orm db).2
  | CallUpdateReset r x now oe orm => (update_and_reset_status r x now oe orm db).2
  | CallSwap j now => (swap_rotation j now db).2
  | CallDelete id oe orm => (registry_delete id oe orm db).2
  | CallDeleteIf id x ref oe orm => (delete_if_revision_and_credential id x ref oe orm db).2
  | CallStatus os => (update_many_if_target_revisions os db).2
  | CallStatusOne o x => (update_if_target_revision o x db).2
  end.

Inductive RemovalCall :=
| CallRemove (uuid4 agent : string) (audit_event_id : Z) (local_only : bool) (now : time)
| CallTransition (job : AgentRemovalJob) (phase : string) (now : time) (code : option string)
| CallFinalizeAudit (job : AgentRemovalJob) (success : bool)
| CallFinalizeOrphans.

Definition removal_run (c : RemovalCall) (db : DB) : DB :=
  match c with
  | CallRemove u a e l now => (create_for_agent u a e l now db).2
  | CallTransition j p now code => (transition j p now code db).2
  | CallFinalizeAudit j s => (finalize_audit_if_pending j s db).2
  | CallFinalizeOrphans => (finalize_orphaned_pending_audits db).2
  end.

Inductive Call :=
| Journal (c : JournalCall)
| Registry (c : RegistryCall)
| Removal (c : RemovalCall).

Definition run `{UrlLib} (c : Call) (db : DB) : DB :=
  match c with
  | Journal c => journal_run c db
  | Registry c => registry_run c db
  | Removal c => removal_run c db
  end.

(** The methods in the order their transactions commit. *)
Definition run_all `{UrlLib} (cs : list Call) (db : DB) : DB := foldl (fun db c => run c db) db cs.

(** Unfold every writing method; the mutation of a call is then in view. *)
Ltac unfold_methods :=
  unfold journal_create, create_with_capacity, create_discovery_with_capacity,
    create_rotation_with_capacity, consume_rotation, rearm_expired_local, set_state,
    replace_if_state, claim_pending_auto, recheck_auto_dispatch, recheck_cli_submission,
    prepare_recovery, claim_recovery, renew_recovery_claim, release_recovery_claim,
    fail_recovery_claim, release_recovery_residual, mark_recovery_claim_error,
    finish_terminal_cleanup, mark_terminal_cleanup_failed;
  rewrite ?get_or_create_manager_id_db;
  unfold manager_id_row, registry_create, commit_activated_enrollment, update_if_revision,
    update_and_reset_status, swap_rotation, registry_delete, delete_if_revision_and_credential,
    update_if_target_revision, update_many_if_target_revisions,
    create_for_agent, transition, finalize_audit_if_pending, finalize_orphaned_pending_audits.

(** ** Well-formedness *)
Lemma expire_due_wf now : Preserves db_wf (expire_due now).
Proof. unfold expire_due. preserves. Qed.

Lemma raise_if_full_preserves P m : Preserves P (raise_if_full m).
Proof. unfold raise_if_full. preserves. Qed.

Lemma select_job_preserves P id : Preserves P (select_job id).
Proof. unfold select_job. preserves. Qed.

Lemma require_job_preserves P id code : Preserves P (require_job id code).
Proof. unfold require_job, select_job. preserves. Qed.

Lemma select_agent_preserves P id code : Preserves P (select_agent id code).
Proof. unfold select_agent. preserves. Qed.

Lemma select_result_preserves P id : Preserves P (select_result id).
Proof. unfold select_result. preserves. Qed.

Lemma select_updated_preserves P n id : Preserves P (select_updated n id).
Proof. unfold select_updated, select_job. preserves. Qed.

#[export] Hint Resolve expire_due_wf raise_if_full_preserves select_job_preserves
  require_job_preserves select_agent_preserves select_result_preserves
  select_updated_preserves : preserves.

Lemma journal_run_wf c db : db_wf db -> db_wf (journal_run c db).
Proof.
  revert db. destruct c; cbn [journal_run]; unfold_methods.
  all: match goal with |- forall db, _ -> db_wf (?m db).2 => change (OpPreserves db_wf m) end.
  all: preserves.
Qed.

Lemma upsert_all_wf os : Preserves db_wf (upsert_all os).
Proof. induction os; cbn; preserves. Qed.

Lemma manager_metadata_wf f : Preserves (E := exn) db_wf (modifies (fun db => db <| manager_metadata := f db |>)).
Proof. intros db u db' [] ->%modifies_inr. by split. Qed.

#[export] Hint Resolve upsert_all_wf manager_metadata_wf : preserves.

Lemma registry_run_wf `{UrlLib} c db : db_wf db -> db_wf (registry_run c db).
Proof.
  revert db. destruct c; cbn [registry_run]; [setoid_rewrite get_or_create_manager_id_db|..];
    unfold_methods.
  all: match goal with |- forall db, _ -> db_wf (?m db).2 => change (OpPreserves db_wf m) end.
  all: preserves.
Qed.

Lemma removal_run_wf c db : db_wf db -> db_wf (removal_run c db).
Proof.
  revert db. destruct c; cbn [removal_run]; unfold_methods.
  all: match goal with |- forall db, _ -> db_wf (?m db).2 => change (OpPreserves db_wf m) end.
  all: preserves. intros db n db' W. by apply update_audit_wf.
Qed.

Lemma run_wf `{UrlLib} c db : db_wf db -> db_wf (run c db).
Proof. destruct c; [apply journal_run_wf|apply registry_run_wf|apply removal_run_wf]. Qed.

(** * How the jobs of the journal move

    A small logic for the effect of a transaction on the rows of
    [agent_enrollment_jobs]: [TxMoves R m] says that every stored job survives
    [m] and is related to its successor by [R]. *)

Definition Moves (R : EnrollmentJob -> EnrollmentJob -> Prop) (db db' : DB) : Prop :=
  forall id r, agent_enrollment_jobs db !! id = Some r ->
    exists r', agent_enrollment_jobs db' !! id = Some r' /\ R (row_job r) (row_job r').

Definition TxMoves {A} (R : EnrollmentJob -> EnrollmentJob -> Prop) (m : TxDB A) : Prop :=
  forall db a db', m db = inr (a, db') -> Moves R db db'.

(** [m] keeps every stored job as it is (it may add new ones). *)
Definition Silent {A} (m : TxDB A) : Prop := TxMoves eq m.

Create HintDb silent.
Create HintDb moves.

Section Silent.
Lemma unchanged_moves db : Moves eq db db.
Proof. intros id r Hr. eauto. Qed.

Lemma silent_ret {A} (a : A) : Silent (tx_ret a).
Proof. intros db b db' ?. tx_inv; apply unchanged_moves. Qed.

Lemma silent_raise {A} e : Silent (raise (A := A) e).
Proof. intros db b db' ?. tx_inv; apply unchanged_moves. Qed.

Lemma silent_raise_if b e : Silent (raise_if b e).
Proof. intros db u db' ?. tx_inv; apply unchanged_moves. Qed.

Lemma silent_reads {A} (f : DB -> A) : Silent (reads f).
Proof. intros db b db' ?. tx_inv; apply unchanged_moves. Qed.

Lemma silent_lift {A} (r : exn + A) : Silent (lift r).
Proof. intros db b db' ?. tx_inv; apply unchanged_moves. Qed.

Lemma silent_bind {A B} (m : TxDB A) (k : A -> TxDB B) :
  Silent m -> (forall a, Silent (k a)) -> Silent (tx_bind m k).
Proof.
  intros Hm Hk db b db' (a & db1 & H1 & H2)%tx_bind_inr id r Hr.
  destruct (Hm _ _ _ H1 id r Hr) as (r1 & Hr1 & ->). by eapply Hk.
Qed.

Lemma silent_fence agent oe orm : Silent (assert_agent_mutation_allowed agent oe orm).
Proof. intros db u db' [-> _]%assert_agent_mutation_allowed_inr. apply unchanged_moves. Qed.

Lemma silent_full m : Silent (raise_if_full m).
Proof. intros db u db' ?. unfold raise_if_full in *. tx_inv; apply unchanged_moves. Qed.

Lemma silent_select_job id : Silent (select_job id).
Proof. intros db u db' ?. unfold select_job in *. tx_inv; apply unchanged_moves. Qed.

Lemma silent_require_job id code : Silent (require_job id code).
Proof. intros db u db' ?. unfold require_job, select_job in *. tx_inv; apply unchanged_moves. Qed.

Lemma silent_select_agent id code : Silent (select_agent id code).
Proof. intros db u db' ?. unfold select_agent in *. tx_inv; apply unchanged_moves. Qed.

Lemma silent_select_result id : Silent (select_result id).
Proof. intros db u db' ?. unfold select_result in *. tx_inv; apply unchanged_moves. Qed.

Lemma silent_select_updated n id : Silent (select_updated n id).
Proof. intros db u db' ?. unfold select_updated, select_job in *. tx_inv; apply unchanged_moves. Qed.

Lemma silent_link_result k id : Silent (link_result k id).
Proof. intros db u db' ?. unfold link_result in *. db_inv. exact (unchanged_moves db). Qed.

Lemma silent_insert_job j : Silent (insert_job j).
Proof.
  intros db u db' (Hn & _ & ->)%insert_job_inr id r Hr. cbn.
  rewrite lookup_insert_ne by congruence. eauto.
Qed.

Lemma silent_insert_agent a : Silent (insert_agent a).
Proof. intros db u db' (_ & _ & _ & ->)%insert_agent_inr. exact (unchanged_moves db). Qed.

Lemma silent_update_agent k cond a : Silent (update_agent k cond a).
Proof. intros db u db' (t & _ & ->)%update_agent_inr. exact (unchanged_moves db). Qed.

Lemma silent_delete_agent k cond : Silent (delete_agent k cond).
Proof.
  intros db n db'. unfold delete_agent. repeat case_match; intros; db_inv; simplify_eq;
    exact (unchanged_moves db) || exact (unchanged_moves db').
Qed.

Lemma silent_upsert_status s : Silent (upsert_status s).
Proof. intros db u db' ?. unfold upsert_status in *. db_inv. exact (unchanged_moves db). Qed.

Lemma silent_insert_status s : Silent (insert_status_if_absent s).
Proof.
  intros db u db'. unfold insert_status_if_absent. case_match; [|apply silent_upsert_status].
  intros [= <- <-]. apply unchanged_moves.
Qed.

Lemma silent_upsert_all os : Silent (upsert_all os).
Proof. induction os; cbn; eauto using silent_ret, silent_bind, silent_upsert_status. Qed.

Lemma silent_metadata f : Silent (modifies (fun db => db <| manager_metadata := f db |>)).
Proof. intros db u db' ->%modifies_inr. exact (unchanged_moves db). Qed.

Lemma silent_insert_removal r : Silent (insert_removal r).
Proof. intros db u db' ?. unfold insert_removal in *. db_inv. exact (unchanged_moves db). Qed.

Lemma silent_update_removal k cond f : Silent (update_removal k cond f).
Proof. intros db u db' (t & _ & ->)%update_removal_inr. exact (unchanged_moves db). Qed.

Lemma silent_update_audit cond f : Silent (update_audit cond f).
Proof. intros db u db' [= <- <-]. exact (unchanged_moves db). Qed.
End Silent.

#[export] Hint Resolve silent_insert_agent silent_update_agent silent_delete_agent
  silent_upsert_status silent_insert_status silent_upsert_all silent_metadata
  silent_insert_removal silent_update_removal silent_update_audit : silent.
#[export] Hint Resolve silent_insert_job silent_ret silent_raise silent_raise_if silent_reads silent_lift silent_bind
  silent_fence silent_full silent_select_job silent_require_job silent_select_agent
  silent_select_result silent_select_updated silent_link_result : silent.

Ltac silent :=
  repeat first
  [ progress intros
  | solve [ eauto 2 with silent ]
  | apply silent_bind
  | match goal with
    | |- Silent (match ?x with _ => _ end) => destruct x
    | |- Silent (if ?x then _ else _) => destruct x
    end ].

Section Moves.
Context (R : EnrollmentJob -> EnrollmentJob -> Prop) `{!Reflexive R}.

Lemma moves_refl db : Moves R db db.
Proof. intros id r Hr. eauto. Qed.

Lemma silent_moves {A} (m : TxDB A) : Silent m -> TxMoves R m.
Proof.
  intros Hm db a db' E id r Hr. destruct (Hm _ _ _ E id r Hr) as (r' & ? & ->). eauto.
Qed.

Lemma moves_bind_l {A B} (m : TxDB A) (k : A -> TxDB B) :
  Silent m -> (forall a, TxMoves R (k a)) -> TxMoves R (tx_bind m k).
Proof.
  intros Hm Hk db b db' (a & db1 & H1 & H2)%tx_bind_inr id r Hr.
  destruct (Hm _ _ _ H1 id r Hr) as (r1 & Hr1 & ->). by eapply Hk.
Qed.

Lemma moves_bind_r {A B} (m : TxDB A) (k : A -> TxDB B) :
  TxMoves R m -> (forall a, Silent (k a)) -> TxMoves R (tx_bind m k).
Proof.
  intros Hm Hk db b db' (a & db1 & H1 & H2)%tx_bind_inr id r Hr.
  destruct (Hm _ _ _ H1 id r Hr) as (r1 & Hr1 & ?).
  destruct (Hk _ _ _ _ H2 id r1 Hr1) as (r2 & ? & E). exists r2. by rewrite <- E.
Qed.

Lemma moves_bind `{!Transitive R} {A B} (m : TxDB A) (k : A -> TxDB B) :
  TxMoves R m -> (forall a, TxMoves R (k a)) -> TxMoves R (tx_bind m k).
Proof.
  intros Hm Hk db b db' (a & db1 & H1 & H2)%tx_bind_inr id r Hr.
  destruct (Hm _ _ _ H1 id r Hr) as (r1 & Hr1 & ?).
  destruct (Hk _ _ _ _ H2 id r1 Hr1) as (r2 & Hr2 & ?).
  exists r2. split; [done|]. by etrans.
Qed.

Lemma update_job_moves k cond f :
  (forall j, cond j = true -> R j (f j)) -> TxMoves R (update_job k cond f).
Proof.
  intros Hf db n db' (t & E & ->)%update_job_inr id r Hr. cbn.
  apply update_pk_Some in E as [(r0 & Hr0 & Hc & _ & -> & _)|(_ & -> & _)]; [|eauto].
  destruct (decide (id = k)) as [->|Hne].
  - rewrite lookup_insert_eq. exists (on_job f r0). split; [done|].
    assert (r = r0) as -> by congruence. by apply Hf.
  - rewrite lookup_insert_ne by done. eauto.
Qed.

(** Two updates of the same row in one transaction. *)
Lemma update_job_twice_moves k c1 f1 c2 f2 {A} (rest : nat -> TxDB A) :
  (forall j, c1 j = true -> c2 (f1 j) = false) ->
  (forall j, c1 j = true -> R j (f1 j)) ->
  (forall j, c2 j = true -> R j (f2 j)) ->
  (forall n, Silent (rest n)) ->
  TxMoves R (update_job k c1 f1 ;;; let* n := update_job k c2 f2 in rest n).
Proof.
  intros Hx H1 H2 Hs db a db' (n1 & db1 & E1 & E)%tx_bind_inr id r Hr.
  apply tx_bind_inr in E as (n2 & db2 & E2 & E3).
  destruct (update_job_moves k c1 f1 H1 _ _ _ E1 id r Hr) as (r1 & Hr1 & HR1).
  destruct (update_job_moves k c2 f2 H2 _ _ _ E2 id r1 Hr1) as (r2 & Hr2 & HR2).
  destruct (Hs _ _ _ _ E3 id r2 Hr2) as (r3 & Hr3 & E4). exists r3. split; [done|].
  rewrite <- E4. clear r3 Hr3 E4.
  apply update_job_inr in E1 as (t1 & E1 & ->), E2 as (t2 & E2 & ->). cbn in *.
  apply update_pk_Some in E1 as [(q & Hq & Hc & _ & -> & _)|(_ & -> & _)]; [|by simplify_eq].
  apply update_pk_Some in E2 as [(q' & Hq' & Hc' & _)|(_ & -> & _)]; [|by simplify_eq].
  rewrite lookup_insert_eq in Hq'. simplify_eq. cbn in Hc'. by rewrite Hx in Hc'.
Qed.

Lemma update_jobs_moves cond f :
  (forall r, cond (row_job r) = true -> R (row_job r) (row_job (f r))) ->
  TxMoves R (update_jobs cond f).
Proof.
  intros Hf db n db' (t & E & ->)%update_jobs_inr id r Hr. cbn.
  rewrite (update_all_lookup _ _ _ _ _ id E), Hr. cbn. eexists. split; [done|].
  destruct (cond (row_job r)) eqn:C; auto.
Qed.

(** An operation moves the jobs as its transaction does; when it raises, it
    leaves them. *)
Lemma write_moves {A} h (m : TxDB A) db : TxMoves R m -> Moves R db (write h m db).2.
Proof.
  intros Hm. unfold write. destruct (m db) as [e|[a db']] eqn:E; cbn; [apply moves_refl|].
  by eapply Hm.
Qed.

Lemma checked_moves {A} r (op : Method A) db :
  (r = inr tt -> Moves R db (op db).2) -> Moves R db (checked r op db).2.
Proof. unfold checked. destruct r as [|[]]; intros; [apply moves_refl|auto]. Qed.

(** A history of calls composes the moves of its calls. *)
Lemma run_all_moves `{!Transitive R} `{UrlLib} (P : Call -> Prop) cs db :
  (forall c db, P c -> Moves R db (run c db)) -> Forall P cs -> Moves R db (run_all cs db).
Proof.
  intros Hc Hcs. revert db. induction Hcs as [|c cs HP Hcs IH]; intros db; [apply moves_refl|].
  intros id r Hr. destruct (Hc c db HP id r Hr) as (r1 & Hr1 & H1).
  destruct (IH (run c db) id r1 Hr1) as (r2 & Hr2 & H2).
  exists r2. split; [exact Hr2|]. by etrans.
Qed.
End Moves.

(** Follow a method: parts that keep the jobs, and one update. *)
Ltac moves :=
  repeat first
  [ progress intros
  | apply moves_refl; apply _
  | apply write_moves; [apply _|]
  | apply checked_moves; [apply _|]
  | solve [ apply silent_moves; [apply _ | silent] ]
  | apply update_job_twice_moves; [apply _| | | |solve [silent]]
  | apply moves_bind_r; [|solve [silent]]
  | apply moves_bind_l; [solve [silent]|]
  | apply update_job_moves; [apply _|]
  | apply update_jobs_moves; [apply _|]
  | match goal with
    | |- Moves _ _ (match ?x with _ => _ end _).2 => destruct x eqn:?
    | |- TxMoves _ (match ?x with _ => _ end) => destruct x eqn:?
    end ].
