(* ===== verification/DiscoveryInvariant.v ===== *)
(** * The discovery tables stay consistent

    Well-formedness of [discovery_jobs] and [discovery_results], and that the
    statements of every repository preserve it. *)

From stdpp Require Import base tactics list gmap strings sorting.
From Stdlib Require Import ZArith Lia.
From S2P Require Import Prelude Text Sql Models Schema JobValidation MutationFence.
From S2P Require Import EnrollmentJournal ManagerRegistry RemovalJournal Discovery Lifecycle.

(** A job that has ended has its time of completion. *)
Definition completed_known (d : DiscoveryJob) : Prop :=
  discovery_active d = false -> is_Some (discovery_completed_at d).

(** The counters of a job are the numbers of its results. *)
Definition counts_right (t : gmap string DiscoveryResult) (d : DiscoveryJob) : Prop :=
  discovery_checked_targets d = Z.of_nat (results_of (discovery_job_id d) t) /\
  discovery_found_targets d = Z.of_nat (found_of (discovery_job_id d) t).

Record discovery_wf (db : DB) : Prop := {
  dw_job k d : discovery_jobs db !! k = Some d ->
    discovery_job_id d = k /\ discovery_check d = true /\ completed_known d /\
    is_Some (control_plane_audit_events db !! discovery_start_audit_event_id d);
  dw_audit k d k' d' : discovery_jobs db !! k = Some d -> discovery_jobs db !! k' = Some d' ->
    discovery_start_audit_event_id d = discovery_start_audit_event_id d' -> k = k';
  dw_result k r : discovery_results db !! k = Some r ->
    result_id r = k /\ result_check r = true /\ is_Some (discovery_jobs db !! result_job_id r);
  dw_key k r k' r' : discovery_results db !! k = Some r -> discovery_results db !! k' = Some r' ->
    result_key r = result_key r' -> k = k';
  dw_counts k d : discovery_jobs db !! k = Some d -> counts_right (discovery_results db) d
}.

Lemma empty_discovery_wf db :
  discovery_jobs db = ∅ -> discovery_results db = ∅ -> discovery_wf db.
Proof. intros E1 E2. split; intros *; rewrite ?E1, ?E2, lookup_empty; done. Qed.

(** ** The statements of the other repositories *)
Lemma discovery_wf_ext db db' :
  discovery_wf db -> discovery_jobs db' = discovery_jobs db ->
  discovery_results db' = discovery_results db ->
  (forall k, is_Some (control_plane_audit_events db !! k) ->
     is_Some (control_plane_audit_events db' !! k)) ->
  discovery_wf db'.
Proof.
  intros [J A R K C] Ej Er Ea. split; rewrite ?Ej, ?Er; [|done..].
  intros k d Hd. destruct (J k d Hd) as (? & ? & ? & ?). eauto.
Qed.

Ltac other_tables :=
  intros db ? db' W; intros; db_inv; by apply (discovery_wf_ext db).

Lemma insert_agent_dw a : Preserves discovery_wf (insert_agent a).
Proof. unfold insert_agent. other_tables. Qed.

Lemma update_agent_dw k cond a : Preserves discovery_wf (update_agent k cond a).
Proof. unfold update_agent. other_tables. Qed.

Lemma delete_agent_dw k cond : Preserves discovery_wf (delete_agent k cond).
Proof.
  unfold delete_agent. intros db n db' W Hd.
  destruct (agents db !! k); [destruct (cond a)|]; [|by simplify_eq..].
  db_inv. by apply (discovery_wf_ext db).
Qed.

Lemma insert_job_dw j : Preserves discovery_wf (insert_job j).
Proof. unfold insert_job. other_tables. Qed.

Lemma update_job_dw k cond f : Preserves discovery_wf (update_job k cond f).
Proof. unfold update_job. other_tables. Qed.

Lemma update_jobs_dw cond f : Preserves discovery_wf (update_jobs cond f).
Proof. unfold update_jobs. other_tables. Qed.

Lemma insert_removal_dw r : Preserves discovery_wf (insert_removal r).
Proof. unfold insert_removal. other_tables. Qed.

Lemma update_removal_dw k cond f : Preserves discovery_wf (update_removal k cond f).
Proof. unfold update_removal. other_tables. Qed.

Lemma upsert_status_dw s : Preserves discovery_wf (upsert_status s).
Proof. unfold upsert_status. other_tables. Qed.

Lemma insert_status_if_absent_dw s : Preserves discovery_wf (insert_status_if_absent s).
Proof.
  intros db u db' W. unfold insert_status_if_absent.
  destruct (_ !! _); [by intros [= <- <-]|by apply upsert_status_dw].
Qed.

#[export] Hint Resolve insert_agent_dw update_agent_dw delete_agent_dw insert_job_dw update_job_dw
  update_jobs_dw insert_removal_dw update_removal_dw upsert_status_dw
  insert_status_if_absent_dw : preserves.

Lemma upsert_all_dw os : Preserves discovery_wf (upsert_all os).
Proof. induction os; cbn; preserves. Qed.

Lemma update_audit_dw cond f : Preserves discovery_wf (update_audit cond f).
Proof.
  intros db n db' W [= <- <-]. apply (discovery_wf_ext db); [done..|]. cbn.
  intros k [e He]. rewrite map_lookup_imap, He. cbn. eauto.
Qed.

Lemma manager_metadata_dw f :
  Preserves (E := exn) discovery_wf (modifies (fun db => db <| manager_metadata := f db |>)).
Proof. other_tables. Qed.

(** ** Changes of the result table *)

(** A result that keeps its key, its job and its fate does not move a
    counter. *)
Lemma counts_insert_same t k q r d :
  t !! k = Some q -> result_job_id r = result_job_id q -> result_found r = result_found q ->
  counts_right t d -> counts_right (<[k := r]> t) d.
Proof.
  unfold counts_right, results_of, found_of. intros Hq Hj Hf [-> ->].
  rewrite !(count_where_insert_same _ t k q r) by (cbv beta; rewrite ?Hj, ?Hf; done). done.
Qed.

Lemma link_result_dw k id : Preserves discovery_wf (link_result k id).
Proof.
  intros db n db' W. unfold link_result. intros. db_inv.
  match goal with H : update_pk _ _ _ _ _ = _ |- _ => rename H into E end.
  apply update_pk_Some in E as [(r & Hr & _ & _ & -> & _)|(_ & -> & _)]; [|done].
  destruct W as [J A R K C]. split; cbn; [done|done| | |].
  - intros k' r' [[<- <-]|[? ?]]%lookup_insert_Some; [exact (R k r Hr)|eauto].
  - assert (Hs : forall k' r', <[k := r <| result_linked_enrollment_id := Some id |>]>
        (discovery_results db) !! k' = Some r' ->
        exists r0, discovery_results db !! k' = Some r0 /\ result_key r0 = result_key r').
    { intros k' r' [[<- <-]|[? ?]]%lookup_insert_Some; eauto. }
    intros k1 r1 k2 r2 (q1 & H1 & E1)%Hs (q2 & H2 & E2)%Hs E. apply (K k1 q1 k2 q2); congruence.
  - intros k' d Hd. by eapply counts_insert_same; eauto.
Qed.

Lemma expire_due_dw now : Preserves discovery_wf (expire_due now).
Proof. unfold expire_due. preserves. Qed.

#[export] Hint Resolve upsert_all_dw update_audit_dw manager_metadata_dw link_result_dw
  expire_due_dw : preserves.

Lemma run_dw `{UrlLib} c db : discovery_wf db -> discovery_wf (run c db).
Proof.
  revert db. destruct c as [c|c|c]; destruct c; cbn [run journal_run registry_run removal_run];
    try setoid_rewrite get_or_create_manager_id_db; unfold_methods.
  all: match goal with |- forall db, _ -> discovery_wf (?m db).2 => change (OpPreserves discovery_wf m) end.
  all: preserves. intros db n db' W. by apply update_audit_dw.
Qed.

(** ** The statements of the discovery repository *)

(** An update that keeps what the constraints and the counters depend on. *)
Definition keeps_identity (f : DiscoveryJob -> DiscoveryJob) : Prop := forall d,
  discovery_job_id (f d) = discovery_job_id d /\
  discovery_start_audit_event_id (f d) = discovery_start_audit_event_id d /\
  discovery_total_targets (f d) = discovery_total_targets d /\
  discovery_checked_targets (f d) = discovery_checked_targets d /\
  discovery_found_targets (f d) = discovery_found_targets d /\
  (completed_known d -> completed_known (f d)).

Lemma keeps_counts f t d : keeps_identity f -> counts_right t d -> counts_right t (f d).
Proof. intros Hf. destruct (Hf d) as (Hi & _ & _ & Hc & Hg & _). unfold counts_right. by rewrite Hi, Hc, Hg. Qed.

Lemma keeps_check f d : keeps_identity f -> discovery_check (f d) = discovery_check d.
Proof. intros Hf. destruct (Hf d) as (_ & _ & Ht & Hc & Hg & _). unfold discovery_check. by rewrite Ht, Hc, Hg. Qed.

(** A job table whose rows are the old rows, some of them updated. *)
Lemma set_discoveries_dw db t f :
  discovery_wf db -> keeps_identity f ->
  (forall k, t !! k = discovery_jobs db !! k \/ t !! k = f <$> discovery_jobs db !! k) ->
  discovery_wf (db <| discovery_jobs := t |>).
Proof.
  intros [J A R K C] Hf Ht.
  assert (Hs : forall k d', t !! k = Some d' -> exists d, discovery_jobs db !! k = Some d /\
      (d' = d \/ d' = f d)).
  { intros k d' Hd. destruct (Ht k) as [E|E]; rewrite E in Hd; [by eauto|].
    apply fmap_Some in Hd as (d & ? & ->). eauto. }
  split; cbn; [| | |done|].
  - intros k d' (d & Hd & Hor)%Hs. destruct (J k d Hd) as (? & ? & ? & ?).
    destruct Hor as [-> | ->]; [done|]. rewrite keeps_check by done.
    destruct (Hf d) as (-> & -> & _ & _ & _ & ?). auto.
  - intros k d k' d' (d0 & Hd0 & Ho)%Hs (d1 & Hd1 & Ho')%Hs E. apply (A k d0 k' d1 Hd0 Hd1).
    destruct (Hf d0) as (_ & E0 & _), (Hf d1) as (_ & E1 & _).
    destruct Ho as [-> | ->], Ho' as [-> | ->]; congruence.
  - intros k r Hr. destruct (R k r Hr) as (? & ? & [d Hd]). split_and!; [done..|].
    destruct (Ht (result_job_id r)) as [-> | ->]; rewrite Hd; eauto.
  - intros k d' (d & Hd & [-> | ->])%Hs; [by eapply C|]. apply keeps_counts; eauto.
Qed.

Lemma update_discovery_dw k cond f :
  keeps_identity f -> Preserves discovery_wf (update_discovery k cond f).
Proof.
  intros Hf db n db' W. unfold update_discovery. intros. db_inv.
  match goal with H : update_pk _ _ _ _ _ = _ |- _ => rename H into E end.
  apply (set_discoveries_dw _ _ f); [done..|]. intros k'.
  apply update_pk_Some in E as [(d & Hd & _ & _ & -> & _)|(_ & -> & _)]; [|by left].
  destruct (decide (k = k')) as [<-|]; [right; by rewrite lookup_insert_eq, Hd|left].
  by rewrite lookup_insert_ne.
Qed.

Lemma update_discoveries_dw cond f :
  keeps_identity f -> Preserves discovery_wf (update_discoveries cond f).
Proof.
  intros Hf db n db' W. unfold update_discoveries. intros. db_inv.
  match goal with H : update_all _ _ _ _ = _ |- _ => rename H into E end.
  apply (set_discoveries_dw _ _ f); [done..|]. intros k. rewrite (update_all_lookup _ _ _ _ _ k E).
  destruct (discovery_jobs db !! k) as [d|]; cbn; [|by left]. destruct (cond d); auto.
Qed.

Lemma end_discovery_keeps s now : keeps_identity (end_discovery s now).
Proof. intros d. split_and!; try done. intros _ _. eexists. done. Qed.

Lemma time_out_keeps now : keeps_identity (time_out now).
Proof. intros d. split_and!; try done. intros _ _. eexists. done. Qed.

Lemma insert_discovery_dw d :
  discovery_checked_targets d = 0%Z -> discovery_found_targets d = 0%Z -> completed_known d ->
  Preserves discovery_wf (insert_discovery d).
Proof.
  intros Hc Hf Hk db u db' W. unfold insert_discovery. intros. db_inv.
  unfold discovery_audit_ok in *. prop_hyps.
  match goal with H : map_Forall _ _ |- _ => rename H into Hu end.
  destruct W as [J A R K C]. split; cbn; [| | |done|].
  - intros k d' [[<- <-]|[? ?]]%lookup_insert_Some; [done|eauto].
  - intros k d1 k' d2 [[<- <-]|[? Hd1]]%lookup_insert_Some [[<- <-]|[? Hd2]]%lookup_insert_Some E;
      [done|by destruct (Hu k' d2)|by destruct (Hu k d1)|eauto].
  - intros k r Hr. destruct (R k r Hr) as (? & ? & ?). split_and!; [done..|].
    apply lookup_insert_is_Some'. by right.
  - assert (Hnone : forall k r, discovery_results db !! k = Some r ->
        bool_decide (result_job_id r = discovery_job_id d) = false).
    { intros k r Hr. apply bool_decide_eq_false. intros E. destruct (R k r Hr) as (_ & _ & [d0 ?]).
      rewrite E in *. congruence. }
    intros k d' [[<- <-]|[? ?]]%lookup_insert_Some; [|by eapply C].
    unfold counts_right, results_of, found_of. rewrite !count_where_none; [done| |done].
    intros k r Hr. cbv beta. by rewrite (Hnone k r Hr).
Qed.

Lemma delete_discoveries_dw cond : Preserves discovery_wf (delete_discoveries cond).
Proof.
  intros db n db' [J A R K C] [= <- <-]. split; cbn.
  - intros k d [? _]%map_lookup_filter_Some. by apply J.
  - intros k d k' d' [? _]%map_lookup_filter_Some [? _]%map_lookup_filter_Some. by eapply A.
  - intros k r [Hr Hg]%map_lookup_filter_Some. destruct (R k r Hr) as (? & ? & [d Hd]).
    split_and!; [done..|]. exists d. by apply map_lookup_filter_Some.
  - intros k r k' r' [? _]%map_lookup_filter_Some [? _]%map_lookup_filter_Some. by eapply K.
  - intros k d [Hd Hg]%map_lookup_filter_Some. destruct (J k d Hd) as (Hid & _).
    destruct (C k d Hd) as [Hc Hf]. unfold counts_right, results_of, found_of.
    rewrite !count_where_filter; [done| |]; intros k' r Hr Hj; prop_hyps; cbn in *;
      by replace (result_job_id r) with k by congruence.
Qed.

(** ** Recording a result *)
Lemma find_result_Some db r q :
  discovery_wf db -> find_result (discovery_results db) r = Some q ->
  discovery_results db !! result_id q = Some q /\ result_key q = result_key r.
Proof.
  intros W Hq. apply head_Some_elem_of in Hq.
  apply list_elem_of_filter in Hq as [Hk (x & -> & Hx)%list_elem_of_fmap].
  destruct x as [k q']. apply elem_of_map_to_list in Hx. cbn in *.
  by destruct (dw_result _ W k q' Hx) as (-> & _).
Qed.

Lemma find_result_None t r k q :
  find_result t r = None -> t !! k = Some q -> result_key q <> result_key r.
Proof.
  intros Hn%head_None Hq Hk. assert (Hin : q ∈ filter (fun q => result_key q = result_key r) (map_to_list t).*2).
  { apply list_elem_of_filter. split; [done|]. apply list_elem_of_fmap.
    exists (k, q). split; [done|]. by apply elem_of_map_to_list. }
  rewrite Hn in Hin. by apply not_elem_of_nil in Hin.
Qed.

(** The result table after the upsert of [r]: one row has the key of [r]
    (the old row of that key, if there was one), the others are as before. *)
Lemma upsert_result_inr r db u db' :
  discovery_wf db -> upsert_result r db = inr (u, db') ->
  result_check r = true /\
  exists k q, db' = db <| discovery_results := <[k := q]> (discovery_results db) |> /\
    result_id q = k /\ result_key q = result_key r /\
    match discovery_results db !! k with
    | Some q0 => result_key q0 = result_key r /\
        result_linked_enrollment_id q = result_linked_enrollment_id q0
    | None => result_linked_enrollment_id q = result_linked_enrollment_id r
    end /\
    (forall k' q', discovery_results db !! k' = Some q' -> result_key q' = result_key r -> k' = k).
Proof.
  intros W. unfold upsert_result. intros. db_inv. prop_hyps. split; [done|].
  destruct (find_result (discovery_results db) r) as [q|] eqn:Ef.
  - destruct (find_result_Some _ _ _ W Ef) as [Hq Hk].
    exists (result_id q), (seen_again r q). rewrite Hq. split_and!; [done|done|exact Hk|done|done|].
    intros k' q' Hq' Hk'. apply (dw_key _ W k' q' _ q); [done..|congruence].
  - exists (result_id r), r. match goal with H : _ !! result_id r = None |- _ => rewrite H end.
    split_and!; [done..|].
    intros k' q' Hq' Hk'. by destruct (find_result_None _ _ _ _ Ef Hq').
Qed.

(** Rows of other jobs do not count. *)
Lemma counts_other_job t k q d :
  result_job_id q <> discovery_job_id d ->
  (forall q0, t !! k = Some q0 -> result_job_id q0 = result_job_id q) ->
  counts_right t d -> counts_right (<[k := q]> t) d.
Proof.
  unfold counts_right, results_of, found_of. intros Hne Hold [E1 E2]. rewrite E1, E2.
  destruct (t !! k) as [q0|] eqn:Hq0.
  - rewrite !(count_where_insert_same _ t k q0 q); [done|done| |done|];
      cbv beta; rewrite (Hold q0 eq_refl), !bool_decide_false by done; done.
  - rewrite !count_where_insert_new, !bool_decide_false by done. done.
Qed.

(** The two tables after a result of job [d] was stored and its counters were
    refreshed. *)
Lemma refreshed_dw db k q d now :
  discovery_wf db -> discovery_jobs db !! result_job_id q = Some d ->
  result_id q = k -> result_check q = true ->
  (forall k' q', discovery_results db !! k' = Some q' -> result_key q' = result_key q -> k' = k) ->
  (forall q0, discovery_results db !! k = Some q0 -> result_job_id q0 = result_job_id q) ->
  let t := <[k := q]> (discovery_results db) in
  let d' := set_counts (results_of (result_job_id q) t) (found_of (result_job_id q) t) now d in
  discovery_check d' = true ->
  discovery_wf (db <| discovery_results := t |> <| discovery_jobs := <[result_job_id q := d']> (discovery_jobs db) |>).
Proof.
  intros W Hd Hid Hchk Hu Hold t d' Hd'. destruct W as [J A R K C].
  destruct (J _ _ Hd) as (Hidd & _ & Hdone & Haud). split; cbn.
  - intros k' e [[<- <-]|[? ?]]%lookup_insert_Some; [done|by apply J].
  - assert (Hs : forall k' e, <[result_job_id q := d']> (discovery_jobs db) !! k' = Some e ->
      exists e0, discovery_jobs db !! k' = Some e0 /\
        discovery_start_audit_event_id e = discovery_start_audit_event_id e0).
    { intros k' e [[<- <-]|[? ?]]%lookup_insert_Some; [exists d|]; eauto. }
    intros k1 e1 k2 e2 (o1 & H1 & E1)%Hs (o2 & H2 & E2)%Hs E. apply (A k1 o1 k2 o2); congruence.
  - intros k' r Hr. rewrite lookup_insert_is_Some'. revert Hr.
    intros [[<- <-]|[? Hr]]%lookup_insert_Some; [by eauto|]. destruct (R k' r Hr) as (? & ? & ?). auto.
  - intros k1 r1 k2 r2 [[<- <-]|[? Hr1]]%lookup_insert_Some [[<- <-]|[? Hr2]]%lookup_insert_Some E;
      [done|symmetry; by apply (Hu k2 r2)|by apply (Hu k1 r1)|eauto].
  - intros k' e [[<- <-]|[Hne He]]%lookup_insert_Some.
    + unfold counts_right. change (discovery_job_id d') with (discovery_job_id d). by rewrite Hidd.
    + destruct (J k' e He) as (Hide & _). apply counts_other_job; [congruence|done|by eapply C].
Qed.

Lemma record_result_dw u id t fp err now : OpPreserves discovery_wf (record_result u id t fp err now).
Proof.
  apply op_write. intros db a db' W Hrun. db_inv.
  destruct (discovery_jobs db !! id) as [d|] eqn:Hd; [|by db_inv].
  destruct (discovery_is D_RUNNING d) eqn:Hr; [|by db_inv].
  apply tx_bind_inr in Hrun as (v & db1 & Hup & Hrun).
  destruct (upsert_result_inr _ _ _ _ W Hup) as (Hchk & k & q & -> & Hid & Hk & Hold & Hu).
  assert (Hjob : result_job_id q = id) by (apply (f_equal (fun x => x.1.1.1)) in Hk; exact Hk).
  unfold update_discovery in Hrun. db_inv.
  match goal with H : update_pk _ _ _ _ _ = _ |- _ => rename H into E end. cbn in E.
  apply update_pk_Some in E as [(d0 & Hd0 & _ & Hok & -> & _)|(Hno & _)];
    [|exfalso; specialize (Hno d Hd); congruence].
  change (discovery_jobs db !! result_job_id q = Some d0) in Hd0.
  assert (d0 = d) as -> by congruence. apply refreshed_dw; [done..| | | |done].
  - apply (f_equal (fun x => x.1.2)) in Hk. unfold result_check in *. cbn in Hk, Hchk. by rewrite Hk.
  - intros k' q' Hq' E. apply (Hu k' q' Hq'). congruence.
  - intros q0 Hq0. rewrite Hq0 in Hold. destruct Hold as [Hk0 _].
    exact (f_equal (fun x => x.1.1.1) (eq_trans Hk0 (eq_sym Hk))).
Qed.

(** ** The constraints of the other tables *)
Lemma set_results_wf db k q :
  db_wf db ->
  match discovery_results db !! k with
  | Some q0 => result_linked_enrollment_id q = result_linked_enrollment_id q0
  | None => result_linked_enrollment_id q = None
  end ->
  db_wf (db <| discovery_results := <[k := q]> (discovery_results db) |>).
Proof.
  intros [A S J R L] Hq. split; cbn; [done..|].
  assert (Hs : forall k' q', <[k := q]> (discovery_results db) !! k' = Some q' ->
      forall id, result_linked_enrollment_id q' = Some id ->
      exists q0, discovery_results db !! k' = Some q0 /\ result_linked_enrollment_id q0 = Some id).
  { intros k' q' [[<- <-]|[? ?]]%lookup_insert_Some id Hid; [|by eauto].
    destruct (discovery_results db !! k) as [q0|]; [|congruence]. exists q0. by rewrite <- Hq. }
  intros k' q' id Hq' Hid. destruct (Hs _ _ Hq' _ Hid) as (q0 & H0 & Hid0).
  destruct (L _ _ _ H0 Hid0) as [? Hu]. split; [done|].
  intros k2 q2 Hq2 Hid2. destruct (Hs _ _ Hq2 _ Hid2) as (q3 & H3 & Hid3). eauto.
Qed.

Lemma record_result_wf u id t fp err now db :
  db_wf db -> discovery_wf db -> db_wf (record_result u id t fp err now db).2.
Proof.
  intros W D. unfold record_result. apply write_preserves; [done|]. intros a db' Hrun. db_inv.
  destruct (discovery_jobs db !! id) as [d|]; [|by db_inv].
  destruct (discovery_is D_RUNNING d); [|by db_inv].
  apply tx_bind_inr in Hrun as (v & db1 & Hup & Hrun).
  destruct (upsert_result_inr _ _ _ _ D Hup) as (_ & k & q & -> & _ & _ & Hold & _).
  assert (W1 : db_wf (db <| discovery_results := <[k := q]> (discovery_results db) |>)).
  { apply set_results_wf; [done|]. destruct (discovery_results db !! k); naive_solver. }
  unfold update_discovery in Hrun. db_inv. destruct W1. by split.
Qed.

Ltac jobs_only := intros db ? db' []; intros; db_inv; by split.

Lemma update_discovery_wf k cond f : Preserves db_wf (update_discovery k cond f).
Proof. unfold update_discovery. jobs_only. Qed.

Lemma update_discoveries_wf cond f : Preserves db_wf (update_discoveries cond f).
Proof. unfold update_discoveries. jobs_only. Qed.

Lemma insert_discovery_wf d : Preserves db_wf (insert_discovery d).
Proof. unfold insert_discovery. jobs_only. Qed.

Lemma delete_discoveries_wf cond : Preserves db_wf (delete_discoveries cond).
Proof.
  intros db n db' [A S J R L] [= <- <-]. split; cbn; [done..|].
  intros k r id [Hr _]%map_lookup_filter_Some Hid. destruct (L k r id Hr Hid) as [? Hu].
  split; [done|]. intros k' r' [? _]%map_lookup_filter_Some. eauto.
Qed.

#[export] Hint Resolve update_discovery_wf update_discoveries_wf insert_discovery_wf
  delete_discoveries_wf delete_discoveries_dw end_discovery_keeps time_out_keeps : preserves.
#[export] Hint Extern 2 (Preserves discovery_wf (update_discovery _ _ _)) =>
  apply update_discovery_dw : preserves.
#[export] Hint Extern 2 (Preserves discovery_wf (update_discoveries _ _)) =>
  apply update_discoveries_dw : preserves.
#[export] Hint Extern 3 (keeps_identity _) =>
  intros ?; split_and!; try done; intros _ ?; try done; eexists; done : preserves.
#[export] Hint Extern 2 (Preserves discovery_wf (insert_discovery _)) =>
  apply insert_discovery_dw; done : preserves.

(** ** Calls *)
Inductive DiscoveryCall :=
| CallExpireDeadlines (now : time)
| CallStart (uuid4 scope_id : string) (targets audit : Z) (now : time) (timeout max_active : Z)
| CallMerge (job_id : string) (state : DiscoveryDispatchState) (now : time)
| CallRecover (now : time)
| CallCleanupDiscovery (retained_after : time)
| CallClaim (job_id : string) (now : time)
| CallRequestCancel (job_id : string) (now : time)
| CallRecord (uuid4 job_id : string) (target : DiscoveryTarget)
    (fingerprint safe_error_code : option string) (now : time)
| CallFinish (job_id : string) (state : DiscoveryState) (now : time) (code : option string).

(** What other connections commit after the transaction is a later call. *)
Definition id_other (db : DB) : DB := db.

Definition discovery_run (c : DiscoveryCall) (db : DB) : DB :=
  match c with
  | CallExpireDeadlines now => (expire_deadlines now db).2
  | CallStart u s n a now t m => (create_job (new_discovery u s n a now t) m db).2
  | CallMerge id s now => (merge_dispatch id_other id s now db).2
  | CallRecover now => (recover now db).2
  | CallCleanupDiscovery t => (cleanup t db).2
  | CallClaim id now => (claim id_other id now db).2
  | CallRequestCancel id now => (request_cancel id_other id now db).2
  | CallRecord u id t fp err now => (record_result u id t fp err now db).2
  | CallFinish id s now code => (finish id_other id s now code db).2
  end.

Inductive SystemCall := Manager (c : Call) | Discover (c : DiscoveryCall).

Definition system_run `{UrlLib} (cs : list SystemCall) (db : DB) : DB :=
  foldl (fun db c => match c with Manager c => run c db | Discover c => discovery_run c db end) db cs.

Lemma read_back_db {A} id e (op : Method A) db : (read_back id_other id e op db).2 = (op db).2.
Proof. unfold read_back, id_other. destruct (op db) as [[?|?] db']; [done|]. by destruct (_ !! _). Qed.

Lemma claim_db id now db :
  (claim id_other id now db).2 =
  (write storage_error (update_discovery id
     (fun d => discovery_is D_QUEUED d && negb (discovery_cancel_requested d))
     (enter_discovery D_RUNNING now)) db).2.
Proof. unfold claim. destruct (write _ _ _) as [[?|?] ?]; [done|]. by destruct (_ =? _). Qed.

Lemma discovery_run_dw c db : discovery_wf db -> discovery_wf (discovery_run c db).
Proof.
  revert db. destruct c; cbn [discovery_run];
    unfold merge_dispatch, request_cancel, finish;
    try setoid_rewrite read_back_db; try setoid_rewrite claim_db.
  all: match goal with |- forall db, _ -> discovery_wf (?m db).2 => change (OpPreserves discovery_wf m) end.
  all: try apply record_result_dw.
  all: unfold expire_deadlines, create_job, recover, cleanup; preserves.
Qed.

Lemma discovery_run_wf c db : db_wf db -> discovery_wf db -> db_wf (discovery_run c db).
Proof.
  destruct c; cbn [discovery_run];
    try (intros W _; revert db W; unfold merge_dispatch, request_cancel, finish;
         try setoid_rewrite read_back_db; try setoid_rewrite claim_db;
         match goal with |- forall db, _ -> db_wf (?m db).2 => change (OpPreserves db_wf m) end;
         unfold expire_deadlines, create_job, recover, cleanup; solve [preserves]).
  apply record_result_wf.
Qed.
