(* ===== verification/JournalProperties.v ===== *)
(** * Properties of the enrollment journal *)

From stdpp Require Import base tactics list gmap strings.
From Stdlib Require Import ZArith Lia.
From S2P Require Import Prelude Text Sql Models Schema JobValidation MutationFence.
From S2P Require Import EnrollmentJournal ManagerRegistry RemovalJournal Samples Lifecycle.

(** ** The lifecycle *)

(** What one call may do to a job: nothing, a transition of
    [_ALLOWED_TRANSITIONS], the failure a claim holder records, or the rearming
    of a local bootstrap that ended without a stored credential. *)
Definition lifecycle_edge (j j' : EnrollmentJob) : Prop :=
  job_state j' = job_state j \/
  allowed_transition (job_state j) (job_state j') = true \/
  (job_state j' = FAILED /\ is_Some (job_recovery_owner j)) \/
  (job_state j' = PENDING /\ rearmable_state (job_state j) = true /\
   job_enrollment_method j = LOCAL_SOCKET /\ job_credential_temp_ref j = None).

#[global] Instance lifecycle_edge_refl : Reflexive lifecycle_edge.
Proof. intros j. by left. Qed.

Lemma due_allowed now j : due now j = true -> allowed_transition (job_state j) EXPIRED = true.
Proof. unfold due. intros. prop_hyps. by destruct (job_state j). Qed.

Lemma state_is_true s j : state_is s j = true <-> job_state j = s.
Proof. unfold state_is. by rewrite bool_decide_eq_true. Qed.

Lemma holds_claim_true owner revision now j :
  holds_claim owner revision now j = true <->
  job_recovery_owner j = Some owner /\ job_recovery_revision j = revision /\
  exists lease, job_recovery_lease_until j = Some lease /\ (now < lease)%Z.
Proof.
  unfold holds_claim, sql_gt. rewrite !andb_True_iff, sql_eq_true, Z.eqb_eq. split.
  - intros [[(o & -> & [= <-]) ->] Hl]. destruct (job_recovery_lease_until j) as [l|]; [|done].
    apply Z.ltb_lt in Hl. eauto.
  - intros (-> & -> & l & -> & Hl). split_and!; eauto. by apply Z.ltb_lt.
Qed.

Ltac clauses :=
  unfold lifecycle_edge; cbn; prop_hyps;
  repeat match goal with
  | H : due _ _ = true |- _ => apply due_allowed in H
  | H : state_is _ _ = true |- _ => apply state_is_true in H
  | H : holds_claim _ _ _ _ = true |- _ => apply holds_claim_true in H as (? & ? & ? & ? & ?)
  | H : require _ = inr tt |- _ => unfold require in H
  | H : (if ?b then inr tt else inl _) = inr tt |- _ => destruct b eqn:?; [clear H|discriminate H]
  end.

Lemma journal_lifecycle c db : Moves lifecycle_edge db (journal_run c db).
Proof.
  destruct c; cbn [journal_run]; unfold_methods; unfold expire_due; moves; clauses.
  all: repeat match goal with H : job_state ?j = _ |- context [job_state ?j] => rewrite H end.
  all: try done; try (by left); try (by right; left); try (by right; right; left; eauto).
  right; right; right. by rewrite <- is_none_true.
Qed.

Lemma registry_lifecycle `{UrlLib} c db : Moves lifecycle_edge db (registry_run c db).
Proof.
  destruct c; cbn [registry_run]; unfold_methods; moves; clauses; [|by left].
  right; left. by repeat match goal with H : job_state ?j = _ |- _ => rewrite H end.
Qed.

(** ** Fence tokens

    A recovery claim is the pair of the owner and its lease; the revision is
    the token its holder presents. *)
Definition claim_of (j : EnrollmentJob) : option string * option time :=
  (job_recovery_owner j, job_recovery_lease_until j).

Definition token_le (j j' : EnrollmentJob) : Prop :=
  (job_recovery_revision j <= job_recovery_revision j')%Z /\
  (claim_of j' = claim_of j \/ (job_recovery_revision j < job_recovery_revision j')%Z).

#[global] Instance token_le_refl : Reflexive token_le.
Proof. intros j. split; [lia|by left]. Qed.

#[global] Instance token_le_trans : Transitive token_le.
Proof. intros a b c [? [E1|?]] [? [E2|?]]; split; try lia; [left; congruence|right; lia..]. Qed.

Lemma token_same j j' :
  job_recovery_revision j' = job_recovery_revision j -> claim_of j' = claim_of j -> token_le j j'.
Proof. intros E ?. split; [rewrite E; lia|by left]. Qed.

Lemma token_bump j j' :
  job_recovery_revision j' = (job_recovery_revision j + 1)%Z -> token_le j j'.
Proof. intros E. split; [|right]; rewrite E; lia. Qed.

Ltac tokens :=
  solve [ apply token_same; reflexivity | apply token_bump; reflexivity | done ].

(** [replace_if_state] writes the revision of the job it is given; it is a
    fenced call when the caller passes the claim it holds. *)
Definition fenced (c : Call) : Prop :=
  match c with
  | Journal (CallReplace _ _ fence) => is_Some (fence_owner fence)
  | _ => True
  end.

(** The row a method has read is the row its update finds. *)
Lemma require_job_inr id code db j db' :
  require_job id code db = inr (j, db') <->
  db' = db /\ exists t, agent_enrollment_jobs db !! id = Some (mkJobRow j t).
Proof.
  unfold require_job, select_job, tx_bind, reads, lift.
  destruct (agent_enrollment_jobs db !! id) as [[j0 t0]|]; cbn; naive_solver.
Qed.

Lemma select_agent_hit id code db a :
  agents db !! id = Some a -> select_agent id code db = inr (a, db).
Proof. intros Ha. unfold select_agent, tx_bind, reads, lift. by rewrite Ha. Qed.

Lemma select_agent_inr id code db a db' :
  select_agent id code db = inr (a, db') <-> db' = db /\ agents db !! id = Some a.
Proof.
  unfold select_agent, tx_bind, reads, lift. destruct (agents db !! id); naive_solver.
Qed.

Lemma update_job_once id cond f db db' r n :
  agent_enrollment_jobs db !! id = Some r -> negb (n =? 1) = false ->
  update_job id cond f db = inr (n, db') ->
  cond (row_job r) = true /\ job_row_ok (agents db) (on_job f r) = true /\
  db' = db <| agent_enrollment_jobs := <[id := on_job f r]> (agent_enrollment_jobs db) |>.
Proof.
  intros Hr Hn (t & E & ->)%update_job_inr.
  apply update_pk_Some in E as [(r0 & Hr0 & Hc & Hok & -> & _)|(_ & _ & ->)]; [|done].
  by simplify_eq.
Qed.

(** What a successful rearming has checked and done. *)
Lemma rearm_expired_local_spec id endpoint profile name now x db j db' :
  rearm_expired_local id endpoint profile name now x db = (inr j, db') ->
  exists r, agent_enrollment_jobs db !! id = Some r /\
    job_enrollment_method (row_job r) = LOCAL_SOCKET /\
    rearmable_state (job_state (row_job r)) = true /\
    (job_expires_at (row_job r) <= now)%Z /\ job_credential_temp_ref (row_job r) = None /\
    j = rearm now x (row_job r) /\
    db' = db <| agent_enrollment_jobs :=
      <[id := on_job (fun _ => j) r]> (agent_enrollment_jobs db) |>.
Proof.
  unfold rearm_expired_local. intros Hm. tx_inv.
  match goal with H : require_job _ _ _ = _ |- _ => apply require_job_inr in H as (-> & t & Hr) end.
  match goal with H : update_job _ _ _ _ = _ |- _ =>
    eapply update_job_once in H as (Hc & _ & ->); [|exact Hr|done] end.
  prop_hyps. exists (mkJobRow x0 t). cbn in *. split_and!; auto.
  by rewrite <- is_none_true.
Qed.

Lemma rearm_tokens id e p d now x db :
  Moves token_le db (rearm_expired_local id e p d now x db).2.
Proof.
  destruct (rearm_expired_local id e p d now x db) as [[err|j] db'] eqn:E; cbn.
  - apply write_inl in E as ->. apply moves_refl, _.
  - apply rearm_expired_local_spec in E as (r & Hr & _ & _ & _ & _ & -> & ->).
    intros k q Hq. cbn. destruct (decide (k = id)) as [->|].
    + rewrite lookup_insert_eq. simplify_eq. eexists. split; [done|]. split; cbn; lia.
    + rewrite lookup_insert_ne by done. exists q. split; [done|reflexivity].
Qed.

Lemma journal_tokens c db : fenced (Journal c) -> Moves token_le db (journal_run c db).
Proof.
  intros Hf. destruct c; cbn [journal_run]; try apply rearm_tokens;
    unfold_methods; unfold expire_due; moves; clauses; try tokens.
  destruct Hf as [o Ho]. cbn in Ho. unfold fence_valid, fence_clause in *. rewrite Ho in *.
  destruct (fence_revision fence), (fence_now fence); try done. clauses.
  split; [lia|right; lia].
Qed.

Lemma registry_tokens `{UrlLib} c db : Moves token_le db (registry_run c db).
Proof. destruct c; cbn [registry_run]; unfold_methods; moves; clauses; tokens. Qed.

(** A removal touches no job of the journal. *)
Lemma removal_moves R `{!Reflexive R} c db : Moves R db (removal_run c db).
Proof.
  destruct c; cbn [removal_run]; unfold_methods; moves.
  intros db0 n db' E. exact (silent_moves R _ (silent_update_audit _ _) _ _ _ E).
Qed.

Lemma run_tokens `{UrlLib} c db : fenced c -> Moves token_le db (run c db).
Proof.
  destruct c; intros; [by apply journal_tokens|apply registry_tokens|by apply removal_moves, _].
Qed.

Lemma run_all_tokens `{UrlLib} cs db : Forall fenced cs -> Moves token_le db (run_all cs db).
Proof. apply run_all_moves; [apply _..|]. intros. by apply run_tokens. Qed.

Lemma run_all_token_at `{UrlLib} cs db id r r' :
  Forall fenced cs -> agent_enrollment_jobs (run_all cs db) !! id = Some r' ->
  agent_enrollment_jobs db !! id = Some r -> token_le (row_job r) (row_job r').
Proof.
  intros Hf Hr' Hr. destruct (run_all_tokens cs db Hf id r Hr) as (q & Hq & ?). by simplify_eq.
Qed.

(** An update whose clause fails on the row does nothing. *)
Lemma update_job_miss id cond f db :
  (forall r, agent_enrollment_jobs db !! id = Some r -> cond (row_job r) = false) ->
  update_job id cond f db = inr (0, db).
Proof.
  intros Hc. unfold update_job, update_pk, tx_bind.
  destruct (agent_enrollment_jobs db !! id) as [r|]; [rewrite (Hc r) by done|]; done.
Qed.

(** ** Exclusive claims *)
Lemma claim_recovery_spec id owner now lease db j db' :
  claim_recovery id owner now lease db = (inr (Some j), db') ->
  exists r, agent_enrollment_jobs db !! id = Some r /\
    due now (row_job r) = false /\ credential_state (job_state (row_job r)) = true /\
    claimable now (row_job r) = true /\ j = take_claim owner now lease (row_job r) /\
    db' = db <| agent_enrollment_jobs :=
      <[id := on_job (fun _ => j) r]> (agent_enrollment_jobs db) |>.
Proof.
  unfold claim_recovery. intros Hm. tx_inv.
  match goal with H : update_job _ (due _) _ _ = _ |- _ => rename H into E1 end.
  match goal with H : update_job _ (fun _ => _) _ _ = _ |- _ => rename H into E2 end.
  destruct (x1 =? 1) eqn:Hn; [|by tx_inv]. unfold select_job in Hm. tx_inv.
  apply update_job_inr in E1 as (t1 & E1 & ->), E2 as (t2 & E2 & ->). cbn in *.
  apply update_pk_Some in E2 as [(r & Hr & Hc & _ & -> & _)|(_ & _ & ->)]; [|done].
  apply update_pk_Some in E1 as [(r0 & Hr0 & Hd & _ & -> & _)|(Hd & -> & _)].
  - rewrite lookup_insert_eq in Hr. by simplify_eq.
  - prop_hyps. rewrite lookup_insert_eq in H0. cbn in H0. simplify_eq.
    exists r. split_and!; auto.
Qed.


(** ** Capacity *)
Lemma live_expire now j : live (if due now j then expire now j else j) = true -> live j = true.
Proof. destruct (due now j); [done|done]. Qed.

Lemma expire_due_spec now db u db' :
  expire_due now db = inr (u, db') ->
  (active_count db' <= active_count db)%Z /\ agents db' = agents db /\
  forall id, agent_enrollment_jobs db' !! id =
    (fun r => if due now (row_job r) then on_job (expire now) r else r) <$>
      agent_enrollment_jobs db !! id.
Proof.
  intros (t & E & ->)%update_jobs_inr. split_and!; [|done|].
  - unfold active_count. cbn. apply update_all_Some in E as [_ ->]. apply inj_le.
    apply count_where_fmap_le. intros r. destruct (due now (row_job r)); done.
  - intros id. cbn. apply (update_all_lookup _ _ _ _ _ id E).
Qed.

Lemma raise_if_full_inr m db u db' :
  raise_if_full m db = inr (u, db') <-> (active_count db < m)%Z /\ db' = db.
Proof.
  unfold raise_if_full. rewrite tx_bind_inr. setoid_rewrite reads_inr.
  setoid_rewrite raise_if_inr. setoid_rewrite Z.leb_gt. naive_solver.
Qed.

Lemma insert_job_count j db u db' :
  insert_job j db = inr (u, db') -> (active_count db' <= active_count db + 1)%Z.
Proof.
  intros (Hn & _ & ->)%insert_job_inr. unfold active_count. cbn.
  rewrite count_where_insert_new by done. destruct (live _); lia.
Qed.

Lemma create_with_capacity_spec job now m db j db' :
  create_with_capacity job now m db = (inr j, db') ->
  j = job /\ (1 <= m)%Z /\ (active_count db' <= m)%Z /\ agents db' = agents db /\
  agent_enrollment_jobs db !! job_enrollment_id job = None /\
  forall id, agent_enrollment_jobs db' !! id =
    if decide (id = job_enrollment_id job) then Some (mkJobRow job None)
    else (fun r => if due now (row_job r) then on_job (expire now) r else r) <$>
      agent_enrollment_jobs db !! id.
Proof.
  unfold create_with_capacity. intros Hm. tx_inv.
  match goal with H : expire_due _ _ = _ |- _ => apply expire_due_spec in H as (? & Ha & Hl) end.
  match goal with H : raise_if_full _ _ = _ |- _ => apply raise_if_full_inr in H as (? & ->) end.
  match goal with H : insert_job _ _ = _ |- _ =>
    pose proof (insert_job_count _ _ _ _ H); apply insert_job_inr in H as (Hn & _ & ->) end.
  clauses. split_and!; try done; try lia.
  - rewrite Hl in Hn. by apply fmap_None in Hn.
  - intros id. cbn. case_decide; [by subst; rewrite lookup_insert_eq|].
    by rewrite lookup_insert_ne, Hl.
Qed.

Lemma create_rotation_count job now m db j db' :
  create_rotation_with_capacity job now m db = (inr j, db') -> (active_count db' <= m)%Z.
Proof.
  unfold create_rotation_with_capacity. case_match; intros Hm; tx_inv; [|done].
  match goal with H : raise_if_full _ _ = _ |- _ => apply raise_if_full_inr in H as (? & ->) end.
  match goal with H : insert_job _ _ = _ |- _ => apply insert_job_count in H end.
  clauses. lia.
Qed.

Lemma link_result_count k id db n db' :
  link_result k id db = inr (n, db') -> active_count db' = active_count db.
Proof. unfold link_result. intros. by db_inv. Qed.

Lemma create_discovery_count job now m ret db j db' :
  create_discovery_with_capacity job now m ret db = (inr j, db') -> (active_count db' <= m)%Z.
Proof.
  unfold create_discovery_with_capacity. case_match; intros Hm; tx_inv; [|done].
  db_inv.
  match goal with H : raise_if_full _ _ = _ |- _ => apply raise_if_full_inr in H as (? & ->) end.
  match goal with H : insert_job _ _ = _ |- _ => apply insert_job_count in H end.
  match goal with H : link_result _ _ _ = _ |- _ => apply link_result_count in H end.
  unfold select_result in *. tx_inv. lia.
Qed.
