(* ===== verification/JournalClaims.v ===== *)
(** * What the enrollment journal guarantees

    The theorems about [EnrollmentJournalRepository]: the lifecycle of a job,
    fence tokens and exclusive claims, capacity, and the expiry of jobs that
    carry a CLI resume claim. *)

From stdpp Require Import base tactics list gmap strings.
From Stdlib Require Import ZArith Lia.
From S2P Require Import Prelude Text Sql Models Schema JobValidation MutationFence.
From S2P Require Import EnrollmentJournal ManagerRegistry RemovalJournal Samples Lifecycle.
From S2P Require Import JournalProperties.

(** ** Well-formedness *)



(** ** The lifecycle *)

Lemma run_lifecycle `{UrlLib} c db : Moves lifecycle_edge db (run c db).
Proof.
  destruct c; [apply journal_lifecycle|apply registry_lifecycle|apply removal_moves, _].
Qed.

(** C2: the lifecycle of an enrollment.  Whatever the call (journal, registry
    or removal, successful or not), no stored job disappears, and its state
    stays the same or follows an edge of the lifecycle: a transition of
    [_ALLOWED_TRANSITIONS], the failure recorded by the holder of a claim, or
    the rearming of a local bootstrap that ended without a stored credential. *)
Theorem enrollment_lifecycle_edges `{UrlLib} c db id r :
  agent_enrollment_jobs db !! id = Some r ->
  exists r', agent_enrollment_jobs (run c db) !! id = Some r' /\
    lifecycle_edge (row_job r) (row_job r').
Proof. apply run_lifecycle. Qed.

Lemma enrollment_lifecycle_edges_witness :
  exists r', agent_enrollment_jobs
      (run (Journal (CallClaimPendingAuto "job-1" 10%Z)) (jobs_db [job_auto])) !! "job-1" = Some r' /\
    lifecycle_edge job_auto (row_job r').
Proof.
  apply (enrollment_lifecycle_edges (Journal (CallClaimPendingAuto "job-1" 10%Z))
           (jobs_db [job_auto]) "job-1" (mkJobRow job_auto None)).
  vm_compute. reflexivity.
Defined.

(** A consumed job whose claim and stored credential were handed over. *)
Definition settled (j : EnrollmentJob) : Prop :=
  job_state j = CONSUMED /\ job_recovery_owner j = None /\ job_credential_temp_ref j = None.

Definition keeps_settled (j j' : EnrollmentJob) : Prop := settled j -> settled j'.

#[global] Instance keeps_settled_refl : Reflexive keeps_settled.
Proof. by intros j Hj. Qed.

#[global] Instance keeps_settled_trans : Transitive keeps_settled.
Proof. intros a b c Hab Hbc Ha. auto. Qed.

(** The guard of every update excludes settled jobs, or the update leaves the
    three columns alone. *)
Ltac settle :=
  intros (Hs & Ho & Ht);
  unfold due, state_is, cleanup_clause, claimable, rearmable_state in *; prop_hyps;
  rewrite ?Hs in *; cbn in *; first [ done | congruence | by destruct (job_recovery_owner _) | by split_and! ].

Lemma run_settled `{UrlLib} c db : Moves keeps_settled db (run c db).
Proof.
  destruct c as [c|c|c]; [| |apply removal_moves, _]; destruct c;
    cbn [run journal_run registry_run]; unfold_methods; unfold expire_due; moves; clauses.
  all: try settle; try done.
  all: intros (Hs & _); simplify_eq; by rewrite Hs in *.
Qed.

(** Consumption is final.  A job that is CONSUMED with its claim released
    and no stored credential stays so whatever calls follow: it is never
    reopened, claimed again or given another credential reference. *)
Theorem consumed_is_final `{UrlLib} cs db id r :
  agent_enrollment_jobs db !! id = Some r -> settled (row_job r) ->
  exists r', agent_enrollment_jobs (run_all cs db) !! id = Some r' /\ settled (row_job r').
Proof.
  intros Hr Hs. destruct (run_all_moves keeps_settled (fun _ => True) cs db
    ltac:(intros; apply run_settled) ltac:(by apply Forall_true) id r Hr) as (r' & ? & Hk). eauto.
Qed.

Definition job_settled : EnrollmentJob := consume_job None 20%Z job_activated.

Lemma consumed_is_final_witness :
  exists r', agent_enrollment_jobs
      (run_all [Journal (CallFail "job-1" uuid_p 1%Z "enrollment_failed" 30%Z);
                Journal (CallClaimRecovery "job-1" uuid_q 40%Z 60%Z)]
         (jobs_db [job_settled])) !! "job-1" = Some r' /\ settled (row_job r').
Proof.
  apply (consumed_is_final _ (jobs_db [job_settled]) "job-1" (mkJobRow job_settled None)).
  - vm_compute. reflexivity.
  - split_and!; reflexivity.
Defined.

(** ** Fence tokens and exclusive claims *)

(** The job has moved past the token: no fenced operation that presents it
    changes the database. *)
Definition token_refused (id : string) (token : Z) (db : DB) : Prop :=
  forall owner now lease code,
    (renew_recovery_claim id owner token now lease db = (inr None, db) \/
     renew_recovery_claim id owner token now lease db = (inl RegistryInvariantError, db)) /\
    release_recovery_claim id owner token now db = (inr false, db) /\
    (is_error_code code = true ->
     fail_recovery_claim id owner token code now db = (inr false, db) /\
     release_recovery_residual id owner token code now db = (inr false, db) /\
     mark_recovery_claim_error id owner token code now db = (inr false, db)) /\
    (forall job x, job_enrollment_id job = id -> exists e,
     replace_if_state job x (mkFence (Some owner) (Some token) (Some now)) db = (inl e, db)).

Lemma holds_claim_miss owner token now j :
  job_recovery_revision j <> token -> holds_claim owner token now j = false.
Proof.
  intros Hne. destruct (holds_claim _ _ _ _) eqn:E; [|done]. clauses. congruence.
Qed.

Lemma moved_past_token_refused id token db r :
  agent_enrollment_jobs db !! id = Some r -> job_recovery_revision (row_job r) <> token ->
  token_refused id token db.
Proof.
  intros Hr Hne owner now lease code.
  assert (Hc : forall q, agent_enrollment_jobs db !! id = Some q ->
    holds_claim owner token now (row_job q) = false).
  { intros q Hq. simplify_eq. by apply holds_claim_miss. }
  split_and!.
  - unfold renew_recovery_claim, checked, require, write, tx_bind.
    rewrite (update_job_miss _ _ _ _ Hc). destruct (negb _); auto.
  - unfold release_recovery_claim, write, tx_bind. by rewrite (update_job_miss _ _ _ _ Hc).
  - intros Hcode. unfold fail_recovery_claim, release_recovery_residual,
      mark_recovery_claim_error, checked, require, write, tx_bind. rewrite Hcode.
    rewrite !update_job_miss; [done| | |done]; intros q Hq; [by rewrite (Hc q Hq)|].
    simplify_eq. by rewrite (proj2 (Z.eqb_neq _ _) Hne), andb_false_r.
  - intros job x <-. unfold replace_if_state, checked, write, tx_bind.
    rewrite (update_job_miss (job_enrollment_id job)).
    { unfold raise_if, raise. cbn. repeat case_match; eexists; reflexivity. }
    intros q Hq. cbn. by rewrite (Hc q Hq), andb_false_r.
Qed.


(** A verified job claimed by one process until its lease ends. *)
Definition job_claimed : EnrollmentJob := take_claim uuid_p 10%Z 60%Z job_verified.

Definition takeover : list Call :=
  [Journal (CallClaimRecovery "job-1" uuid_q 900%Z 60%Z);
   Journal (CallRelease "job-1" uuid_p 1%Z 20%Z);
   Journal (CallClaimRecovery "job-1" uuid_q 900%Z 60%Z)].



Definition claimed_db : DB := jobs_db [job_claimed].
Definition job_reclaimed : EnrollmentJob := take_claim uuid_q 900%Z 60%Z (release_claim job_claimed).


(** ** Capacity and bulk expiry *)

(** C5: the capacity is a bound.  Whenever one of the three creating methods
    returns, the journal holds at most [max_active] jobs that are not
    terminal, counting the new one. *)
Theorem capacity_respected job now m ret db j db' :
  create_with_capacity job now m db = (inr j, db') \/
  create_discovery_with_capacity job now m ret db = (inr j, db') \/
  create_rotation_with_capacity job now m db = (inr j, db') ->
  (active_count db' <= m)%Z.
Proof.
  intros [(_ & _ & ? & _)%create_with_capacity_spec|[?%create_discovery_count|
    ?%create_rotation_count]]; done.
Qed.

Lemma capacity_respected_witness :
  (active_count (create_with_capacity (job_auto <| job_enrollment_id := "job-2" |>) 10%Z 2%Z
     (jobs_db [job_auto])).2 <= 2)%Z.
Proof.
  apply (capacity_respected (job_auto <| job_enrollment_id := "job-2" |>) 10%Z 2%Z 0%Z
    (jobs_db [job_auto]) (job_auto <| job_enrollment_id := "job-2" |>)).
  left. vm_compute. reflexivity.
Defined.

(** The bulk expiry of the creating methods writes the state only.  These are
    the timed-out rows on which that breaks a CHECK constraint: a CLI resume
    claim is still stored, or a credential without its pinned address. *)
Definition expiry_violates (j : EnrollmentJob) : bool :=
  is_some (job_cli_resume_nonce j) ||
  (negb (is_legacy (job_enrollment_method j)) && negb (credential_state (job_state j)) &&
   is_some (job_credential_temp_ref j)).

Lemma expire_pin now j :
  check_pin_phase j = true -> check_activation j = true -> expirable (job_state j) = true ->
  check_pin_phase (expire now j) =
    (is_legacy (job_enrollment_method j) || credential_state (job_state j) ||
     is_none (job_credential_temp_ref j)).
Proof.
  intros Hp Ha He.
  change (check_pin_phase (expire now j)) with
    (if is_legacy (job_enrollment_method j) then is_none (job_validated_http_address j)
     else Bool.eqb (is_none (job_credential_temp_ref j)) (is_none (job_validated_http_address j))).
  unfold check_pin_phase, check_activation in *. prop_hyps. destruct (is_legacy _); [done|].
  destruct (job_state j), (job_credential_temp_ref j), (job_validated_http_address j); cbn in *; done.
Qed.

Lemma expire_cli now j :
  check_cli_claim j = true -> check_cli_claim (expire now j) = is_none (job_cli_resume_nonce j).
Proof.
  change (check_cli_claim (expire now j)) with
    ((is_none (job_cli_resume_nonce j) && is_none (job_cli_peer_uid j) &&
      is_none (job_cli_input_fingerprint j) && is_none (job_cli_pinned_address j)) ||
     (is_some (job_cli_resume_nonce j) && is_some (job_cli_peer_uid j) &&
      is_some (job_cli_input_fingerprint j) && is_some (job_cli_pinned_address j) &&
      bool_decide (job_enrollment_method j = SSH_CLI) && false)).
  unfold check_cli_claim. rewrite andb_false_r, orb_false_r.
  destruct (job_cli_resume_nonce j), (job_cli_peer_uid j), (job_cli_input_fingerprint j),
    (job_cli_pinned_address j); done.
Qed.

Lemma expire_receipt now j :
  check_receipt j = true -> expirable (job_state j) = true -> check_receipt (expire now j) = true.
Proof.
  unfold check_receipt. change (job_cli_accept_receipt (expire now j)) with (job_cli_accept_receipt j).
  destruct (job_cli_accept_receipt j); [|done]. intros. prop_hyps. cbn in *. prop_hyps.
  by destruct (job_state j).
Qed.

Lemma expire_check now j :
  jobs_check j = true -> due now j = true -> jobs_check (expire now j) = negb (expiry_violates j).
Proof.
  unfold due, jobs_check, expiry_violates. change (check_columns (expire now j)) with (check_columns j).
  intros Hj Hd. prop_hyps. rewrite expire_pin, expire_cli, expire_receipt by done.
  change (check_running_cli (expire now j)) with true. change (check_activation (expire now j)) with true.
  rewrite H1. unfold is_some.
  destruct (is_legacy _), (credential_state _), (is_none (job_cli_resume_nonce j)),
    (is_none (job_credential_temp_ref j)); done.
Qed.

Lemma expire_row_ok db now id r :
  db_wf db -> agent_enrollment_jobs db !! id = Some r -> due now (row_job r) = true ->
  job_row_ok (agents db) (on_job (expire now) r) = negb (expiry_violates (row_job r)).
Proof.
  intros W Hr Hd. destruct (wf_jobs _ W _ _ Hr) as [_ Hok]. unfold job_row_ok in *. prop_hyps.
  change (job_fk (agents db) (row_job (on_job (expire now) r))) with (job_fk (agents db) (row_job r)).
  change (row_job (on_job (expire now) r)) with (expire now (row_job r)).
  rewrite expire_check by done. by rewrite H0, andb_true_r.
Qed.

Lemma expire_due_blocked db now id r :
  db_wf db -> agent_enrollment_jobs db !! id = Some r -> due now (row_job r) = true ->
  expiry_violates (row_job r) = true -> expire_due now db = inl IntegrityError.
Proof.
  intros W Hr Hd Hv. unfold expire_due, update_jobs, update_all, tx_bind.
  rewrite bool_decide_false; [done|]. intros Hall. specialize (Hall id r Hr Hd).
  cbv beta in Hall. by rewrite (expire_row_ok db now id r W Hr Hd), Hv in Hall.
Qed.

(** The rows after the bulk expiry. *)
Definition expired_db (now : time) (db : DB) : DB :=
  db <| agent_enrollment_jobs :=
    (fun r => if due now (row_job r) then on_job (expire now) r else r) <$> agent_enrollment_jobs db |>.

Lemma expire_due_free db now :
  db_wf db ->
  (forall id r, agent_enrollment_jobs db !! id = Some r -> due now (row_job r) = true ->
     expiry_violates (row_job r) = false) ->
  expire_due now db = inr (tt, expired_db now db).
Proof.
  intros W Hfree. unfold expire_due, update_jobs, update_all, tx_bind.
  rewrite bool_decide_true; [done|]. intros id r Hr Hd. cbv beta.
  by rewrite (expire_row_ok db now id r W Hr Hd), (Hfree id r Hr Hd).
Qed.

(** One timed-out CLI enrollment blocks every creation.  The bulk expiry
    that opens the three creating methods sets the state to [expired] and
    leaves the CLI resume columns, which the schema forbids for a terminal job.
    So while the journal holds a timed-out job with a stored resume nonce,
    every creation fails with a conflict and changes nothing. *)
Theorem timed_out_cli_job_blocks_creation db now id r job m ret :
  db_wf db -> agent_enrollment_jobs db !! id = Some r -> due now (row_job r) = true ->
  is_some (job_cli_resume_nonce (row_job r)) = true -> valid_job job = true -> (1 <= m)%Z ->
  create_with_capacity job now m db =
    (inl (RegistryConflict "enrollment job conflicts with existing state"), db) /\
  (is_some (job_discovery_result_id job) = true -> is_none (job_replace_agent_id job) = true ->
   create_discovery_with_capacity job now m ret db =
     (inl (RegistryConflict "agent_validation_changed"), db)) /\
  (is_some (job_replace_agent_id job) = true ->
   create_rotation_with_capacity job now m db =
     (inl (RegistryConflict "agent_enrollment_conflict"), db)).
Proof.
  intros W Hr Hd Hn Hv Hm.
  assert (E : expire_due now db = inl IntegrityError).
  { eapply expire_due_blocked; eauto. unfold expiry_violates. by rewrite Hn. }
  unfold create_with_capacity, create_discovery_with_capacity, create_rotation_with_capacity,
    checked, write, tx_bind.
  rewrite E, (proj2 (validate_job_inr job) Hv), (proj2 (Z.ltb_ge m 1) Hm). split_and!; [done|..].
  - destruct (job_discovery_result_id job); [|done]. intros _ Hrep. by rewrite Hrep, E.
  - destruct (job_replace_agent_id job); [|done]. by rewrite E.
Qed.

Lemma timed_out_cli_job_blocks_creation_witness :
  create_with_capacity job_auto 2000%Z 8%Z (jobs_db [job_cli]) =
    (inl (RegistryConflict "enrollment job conflicts with existing state"), jobs_db [job_cli]).
Proof.
  refine (proj1 (timed_out_cli_job_blocks_creation (jobs_db [job_cli]) 2000%Z "job-cli"
    (mkJobRow job_cli None) job_auto 8%Z 0%Z jobs_db_wf_cli _ _ _ _ _)); vm_compute; done.
Defined.

(** Otherwise creation is available.  In a well-formed database without
    such a blocked row, a valid new enrollment is stored whenever the jobs that
    survive the expiry leave room: the returned job is the given one, the
    timed-out jobs are expired and every other row is unchanged. *)
Theorem creation_available db now job m :
  db_wf db ->
  (forall id r, agent_enrollment_jobs db !! id = Some r -> due now (row_job r) = true ->
     expiry_violates (row_job r) = false) ->
  valid_job job = true -> storable_job job = true -> job_replace_agent_id job = None ->
  agent_enrollment_jobs db !! job_enrollment_id job = None ->
  (active_count (expired_db now db) < m)%Z ->
  create_with_capacity job now m db =
    (inr job, (expired_db now db) <| agent_enrollment_jobs :=
       <[job_enrollment_id job := mkJobRow job None]>
         (agent_enrollment_jobs (expired_db now db)) |>).
Proof.
  intros W Hfree Hv Hs Hrep Hnew Hm.
  assert (Hi : exists db', insert_job job (expired_db now db) = inr (tt, db')).
  { eexists. apply insert_job_inr. split_and!; [|unfold job_row_ok, job_fk; cbn|reflexivity].
    - cbn. rewrite lookup_fmap, Hnew. done.
    - rewrite Hrep, andb_true_r. by apply valid_job_check. }
  destruct Hi as [db' Hi]. pose proof Hi as (_ & _ & ->)%insert_job_inr.
  unfold create_with_capacity, checked, write.
  rewrite (proj2 (validate_job_inr job) Hv), (proj2 (Z.ltb_ge m 1)) by (unfold active_count in *; lia).
  unfold tx_bind at 1. rewrite (expire_due_free db now W Hfree).
  unfold tx_bind at 1. rewrite (proj2 (raise_if_full_inr m _ tt _) (conj Hm eq_refl)).
  unfold tx_bind. by rewrite Hi.
Qed.

Lemma creation_available_witness :
  create_with_capacity job_auto 10%Z 1%Z empty_db =
    (inr job_auto, (expired_db 10%Z empty_db) <| agent_enrollment_jobs :=
       <["job-1" := mkJobRow job_auto None]> (agent_enrollment_jobs (expired_db 10%Z empty_db)) |>).
Proof.
  apply (creation_available empty_db 10%Z job_auto 1%Z).
  - exact empty_db_wf.
  - intros id r. cbn. rewrite lookup_empty. discriminate.
  - vm_compute. reflexivity.
  - vm_compute. reflexivity.
  - reflexivity.
  - reflexivity.
  - vm_compute. reflexivity.
Defined.

(** ** Validation and the schema *)

(** C6: what the validation of a job guarantees to the database.  A job that
    [_validate_job] accepts satisfies every CHECK constraint of
    [agent_enrollment_jobs], provided its pinned addresses carry no IPv6 zone
    index and its captured registry revision is positive, the two facts that
    [_validate_job] does not test. *)
Theorem validated_job_storable j :
  valid_job j = true -> storable_job j = true -> jobs_check j = true.
Proof. exact (valid_job_check j). Qed.

Lemma validated_job_storable_witness : jobs_check job_cli = true.
Proof. apply validated_job_storable; vm_compute; reflexivity. Defined.

(** A verified job pinned to a link-local address with a zone index. *)
Definition job_scoped : EnrollmentJob :=
  job_verified <| job_validated_http_address := Some "fe80::1%eth0" |>.

(** The zone index matters.  [_validate_job] accepts a job pinned to
    [fe80::1%eth0], and the schema refuses it: storing it is a conflict in any
    database. *)
Theorem scoped_address_accepted_then_refused db :
  valid_job job_scoped = true /\
  journal_create job_scoped db =
    (inl (RegistryConflict "enrollment job conflicts with existing state"), db).
Proof.
  assert (Hv : valid_job job_scoped = true) by (vm_compute; reflexivity). split; [done|].
  assert (Hc : jobs_check job_scoped = false) by (vm_compute; reflexivity).
  unfold journal_create, checked, write, tx_bind, insert_job, guard_integrity, job_row_ok.
  rewrite (proj2 (validate_job_inr _) Hv). change (row_job (mkJobRow job_scoped None)) with job_scoped.
  rewrite Hc, andb_false_r. done.
Qed.
