(* ===== verification/SagaClaims.v ===== *)
(** * Which saga may change an Agent

    Removals and rotations are sagas that hold an Agent while they run.  The
    theorems about the mutation fence: a held Agent is protected, a rotation
    is saved only against the Agent it captured, and no Agent is ever held by
    two sagas. *)

From stdpp Require Import base tactics list gmap strings.
From Stdlib Require Import ZArith Lia.
From S2P Require Import Prelude Text Sql Models Schema JobValidation MutationFence.
From S2P Require Import EnrollmentJournal ManagerRegistry RemovalJournal Samples Lifecycle.
From S2P Require Import JournalProperties.

(** ** A held Agent is protected *)

(** Some saga other than the given owners holds the Agent. *)
Definition held (db : DB) (agent : string) (oe orm : option string) : Prop :=
  (exists k r, agent_removal_jobs db !! k = Some r /\ removal_blocks agent orm r = true) \/
  (exists k r, agent_enrollment_jobs db !! k = Some r /\ rotation_blocks agent oe r = true).

Lemma held_fence db agent oe orm :
  held db agent oe orm ->
  assert_agent_mutation_allowed agent oe orm db =
    inl (RegistryConflict "agent_mutation_in_progress").
Proof.
  intros Hh. destruct (assert_agent_mutation_allowed agent oe orm db) as [e|[u db']] eqn:E.
  - by rewrite (assert_agent_mutation_allowed_inl _ _ _ _ _ E).
  - apply assert_agent_mutation_allowed_inr in E as [_ [Hr He]].
    destruct Hh as [(k & r & Hk & Hb)|(k & r & Hk & Hb)]; [apply Hr in Hk|apply He in Hk]; congruence.
Qed.

Abbreviation in_progress := (RegistryConflict "agent_mutation_in_progress").

(** A transaction that starts with the fence is refused as a whole. *)
Lemma write_fence_held {A} h agent oe orm (k : TxDB A) db :
  held db agent oe orm -> h in_progress = in_progress ->
  write h (assert_agent_mutation_allowed agent oe orm ;;; k) db = (inl in_progress, db).
Proof. intros Hh Eh. unfold write, tx_bind. by rewrite (held_fence _ _ _ _ Hh), Eh. Qed.

(** C7: a held Agent is protected.  While a removal of the Agent is not
    completed, or a saved rotation of it is not terminal, every mutation that
    does not present that saga's identifier is refused with
    [agent_mutation_in_progress] and leaves the database as it is: edits,
    deletions, the swap of another rotation and the start of a new removal. *)
Theorem held_agent_protected `{UrlLib} db agent oe orm :
  db_wf db -> held db agent oe orm ->
  registry_delete agent oe orm db = (inl in_progress, db) /\
  (forall rev ref, delete_if_revision_and_credential agent rev ref oe orm db = (inl in_progress, db)) /\
  (forall record rev now, agent_id record = agent ->
     valid_record (record <| agent_revision := (rev + 1)%Z |>) = true -> (1 <= rev)%Z ->
     update_if_revision record rev oe orm db = (inl in_progress, db) /\
     update_and_reset_status record rev now oe orm db = (inl in_progress, db)) /\
  (forall a job now, agents db !! agent = Some a -> job_replace_agent_id job = Some agent ->
     oe = Some (job_enrollment_id job) -> orm = None -> state_is ACTIVATED job = true ->
     rotation_complete job = true -> swap_rotation job now db = (inl in_progress, db)) /\
  (forall a u e local now, agents db !! agent = Some a -> oe = None -> orm = None -> (1 <= e)%Z ->
     removal_audit_pending agent (control_plane_audit_events db !! e) = true ->
     create_for_agent u agent e local now db = (inl in_progress, db)).
Proof.
  intros W Hh. split_and!.
  - by apply write_fence_held.
  - intros. by apply write_fence_held.
  - intros record rev now Hid Hv Hrev. unfold update_if_revision, update_and_reset_status. cbv zeta.
    assert (Hr : require (negb (rev <? 1)%Z) = inr tt) by by rewrite (proj2 (Z.ltb_ge rev 1) Hrev).
    assert (Hu : validate_record (record <| agent_revision := (rev + 1)%Z |>) = inr tt)
      by (unfold validate_record; by rewrite Hv).
    rewrite (checked_ok _ _ _ Hr), !checked_ok, Hid by exact Hu. split; by apply write_fence_held.
  - intros a job now Ha Hrep -> -> Hact Hc. unfold swap_rotation. rewrite checked_ok, Hrep
      by by rewrite Hact, Hc.
    unfold write, tx_bind. rewrite (select_agent_hit _ _ _ _ Ha).
    destruct (wf_agents _ W _ _ Ha) as [-> _]. by rewrite (held_fence _ _ _ _ Hh).
  - intros a u e local now Ha -> -> He Haud. unfold create_for_agent.
    rewrite checked_ok by by rewrite (proj2 (Z.ltb_ge e 1) He).
    unfold write, tx_bind, reads at 1. rewrite Haud.
    unfold raise_if, tx_ret. cbn [negb]. rewrite (select_agent_hit _ _ _ _ Ha).
    destruct (wf_agents _ W _ _ Ha) as [-> _]. by rewrite (held_fence _ _ _ _ Hh).
Qed.

Lemma held_agent_protected_witness :
  registry_delete "agent-1" None None
    (run (Journal (CallConsumeRotation "job-1" "agent-1" "renamed" 20%Z)) fleet_db) =
  (inl in_progress, run (Journal (CallConsumeRotation "job-1" "agent-1" "renamed" 20%Z)) fleet_db).
Proof.
  refine (proj1 (held_agent_protected _ "agent-1" None None _ _)).
  - apply run_wf. exact fleet_db_wf.
  - right. exists "job-1". eexists. split; vm_compute; reflexivity.
Defined.

(** ** One saga per Agent *)

(** The job is a rotation of the Agent that was saved and has not ended. *)
Definition saved_rotation (agent : string) (j : EnrollmentJob) : bool :=
  sql_eq (job_replace_agent_id j) (Some agent) && job_save_requested j && live j.

Definition removal_excluded (db : DB) : Prop :=
  forall k r k' q, agent_removal_jobs db !! k = Some r -> removal_active r = true ->
    agent_enrollment_jobs db !! k' = Some q ->
    saved_rotation (removal_agent_id r) (row_job q) = false.

Definition rotation_unique (db : DB) : Prop :=
  forall agent k q k' q', agent_enrollment_jobs db !! k = Some q ->
    agent_enrollment_jobs db !! k' = Some q' -> saved_rotation agent (row_job q) = true ->
    saved_rotation agent (row_job q') = true -> k = k'.

Definition sagas_exclusive (db : DB) : Prop := removal_excluded db /\ rotation_unique db.

(** The update saves no rotation that was not saved before. *)
Definition shrinks (j j' : EnrollmentJob) : Prop :=
  forall agent, saved_rotation agent j' = true -> saved_rotation agent j = true.

Lemma set_jobs_exclusive db (t : gmap string JobRow) :
  (forall k q agent, t !! k = Some q -> saved_rotation agent (row_job q) = true ->
     exists q0, agent_enrollment_jobs db !! k = Some q0 /\
       saved_rotation agent (row_job q0) = true) ->
  sagas_exclusive db -> sagas_exclusive (db <| agent_enrollment_jobs := t |>).
Proof.
  intros Ht [Hr Hu]. split.
  - intros k r k' q Hk Ha Hq. cbn in *.
    destruct (saved_rotation (removal_agent_id r) (row_job q)) eqn:E; [|done].
    destruct (Ht _ _ _ Hq E) as (q0 & Hq0 & E0). by rewrite (Hr k r k' q0) in E0.
  - intros agent k q k' q' Hq Hq' Hs Hs'. cbn in *.
    destruct (Ht _ _ _ Hq Hs) as (q0 & ? & ?), (Ht _ _ _ Hq' Hs') as (q1 & ? & ?).
    by eapply (Hu agent k q0 k' q1).
Qed.

Lemma update_job_exclusive_at k cond f db n db' :
  (forall r, agent_enrollment_jobs db !! k = Some r -> cond (row_job r) = true ->
     shrinks (row_job r) (f (row_job r))) ->
  sagas_exclusive db -> update_job k cond f db = inr (n, db') -> sagas_exclusive db'.
Proof.
  intros Hf Hx (t & E & ->)%update_job_inr. apply set_jobs_exclusive; [|done].
  apply update_pk_Some in E as [(r & Hr & Hc & _ & -> & _)|(_ & -> & _)]; [|by eauto].
  intros k' q agent [[<- <-]|[? Hq]]%lookup_insert_Some Hs; [|by eauto].
  exists r. split; [done|]. by apply (Hf _ Hr Hc agent).
Qed.

Lemma update_job_exclusive k cond f :
  (forall j, cond j = true -> shrinks j (f j)) -> Preserves sagas_exclusive (update_job k cond f).
Proof. intros Hf db n db' Hx. apply update_job_exclusive_at; auto. Qed.

Lemma update_jobs_exclusive cond f :
  (forall r, cond (row_job r) = true -> shrinks (row_job r) (row_job (f r))) ->
  Preserves sagas_exclusive (update_jobs cond f).
Proof.
  intros Hf db u db' Hx (t & E & ->)%update_jobs_inr. apply set_jobs_exclusive; [|done].
  intros k q agent Hq Hs. rewrite (update_all_lookup _ _ _ _ _ k E) in Hq.
  destruct (agent_enrollment_jobs db !! k) as [q0|]; [|done]. cbn in Hq. simplify_eq.
  exists q0. split; [done|]. destruct (cond (row_job q0)) eqn:C; [|done]. by apply (Hf _ C agent).
Qed.

Lemma insert_job_exclusive j :
  job_save_requested j = false -> Preserves sagas_exclusive (insert_job j).
Proof.
  intros Hj db u db' Hx (_ & _ & ->)%insert_job_inr. apply set_jobs_exclusive; [|done].
  intros k q agent [[<- <-]|[? Hq]]%lookup_insert_Some Hs; [|by eauto].
  unfold saved_rotation in Hs. cbn in Hs. by rewrite Hj, andb_false_r in Hs.
Qed.

(** Statements on other tables. *)
Lemma same_sagas db db' :
  agent_removal_jobs db' = agent_removal_jobs db ->
  agent_enrollment_jobs db' = agent_enrollment_jobs db ->
  sagas_exclusive db -> sagas_exclusive db'.
Proof. unfold sagas_exclusive, removal_excluded, rotation_unique. by intros -> ->. Qed.

Lemma update_removal_exclusive k cond f :
  (forall r, cond r = true -> removal_agent_id (f r) = removal_agent_id r /\
     (removal_active (f r) = true -> removal_active r = true)) ->
  Preserves sagas_exclusive (update_removal k cond f).
Proof.
  intros Hf db n db' [Hr Hu] (t & E & ->)%update_removal_inr. split; [|exact Hu].
  apply update_pk_Some in E as [(r & Hk & Hc & _ & -> & _)|(_ & -> & _)]; [|done].
  intros k1 r1 k' q Hk1 Ha Hq. cbn in *.
  apply lookup_insert_Some in Hk1 as [[<- <-]|[? Hk1]]; [|by eapply Hr].
  destruct (Hf r Hc) as [-> Hact]. eapply Hr; eauto.
Qed.

Lemma insert_agent_exclusive a : Preserves sagas_exclusive (insert_agent a).
Proof. intros db u db' Hx (_ & _ & _ & ->)%insert_agent_inr. by apply (same_sagas db). Qed.

Lemma update_agent_exclusive k cond a : Preserves sagas_exclusive (update_agent k cond a).
Proof. intros db u db' Hx (t & _ & ->)%update_agent_inr. by apply (same_sagas db). Qed.

Lemma delete_agent_exclusive k cond : Preserves sagas_exclusive (delete_agent k cond).
Proof.
  intros db n db' Hx. unfold delete_agent. repeat case_match; intros; db_inv; simplify_eq; try done;
    by apply (same_sagas db).
Qed.

Lemma upsert_status_exclusive s : Preserves sagas_exclusive (upsert_status s).
Proof. intros db u db' Hx ?. unfold upsert_status in *. db_inv. by apply (same_sagas db). Qed.

Lemma insert_status_exclusive s : Preserves sagas_exclusive (insert_status_if_absent s).
Proof.
  intros db u db' Hx. unfold insert_status_if_absent. case_match; [by intros [= <- <-]|].
  by apply upsert_status_exclusive.
Qed.

Lemma upsert_all_exclusive os : Preserves sagas_exclusive (upsert_all os).
Proof.
  induction os; cbn; eauto using preserves_ret, preserves_bind, upsert_status_exclusive.
Qed.

Lemma link_result_exclusive k id : Preserves sagas_exclusive (link_result k id).
Proof. intros db n db' Hx ?. unfold link_result in *. db_inv. by apply (same_sagas db). Qed.

Lemma metadata_exclusive f :
  Preserves (E := exn) sagas_exclusive (modifies (fun db => db <| manager_metadata := f db |>)).
Proof. intros db u db' Hx ->%modifies_inr. by apply (same_sagas db). Qed.

Lemma update_audit_exclusive cond f : Preserves sagas_exclusive (update_audit cond f).
Proof. intros db n db' Hx [= <- <-]. by apply (same_sagas db). Qed.

#[export] Hint Resolve insert_job_exclusive insert_agent_exclusive update_agent_exclusive
  delete_agent_exclusive upsert_status_exclusive insert_status_exclusive upsert_all_exclusive
  link_result_exclusive metadata_exclusive update_audit_exclusive : preserves.

(** Updates that keep the rotation fields and do not bring a job back to life. *)
Lemma shrinks_same j j' :
  job_replace_agent_id j' = job_replace_agent_id j -> job_save_requested j' = job_save_requested j ->
  (live j' = true -> live j = true) -> shrinks j j'.
Proof.
  intros Ea Es Hl agent. unfold saved_rotation. rewrite Ea, Es, !andb_True_iff. naive_solver.
Qed.

Lemma shrinks_ended j j' : live j' = false -> shrinks j j'.
Proof. intros Hl agent. unfold saved_rotation. by rewrite Hl, andb_false_r. Qed.

Lemma shrinks_unreferenced j j' : job_replace_agent_id j' = None -> shrinks j j'.
Proof. intros Ha agent. unfold saved_rotation. by rewrite Ha. Qed.

Lemma allowed_from_live x s j :
  allowed_transition x s = true -> state_is x j = true -> live j = true.
Proof. unfold live. intros Ha ->%state_is_true. by destruct x. Qed.

Ltac shrink :=
  intros; prop_hyps;
  first [ by apply shrinks_ended | by apply shrinks_unreferenced
        | apply shrinks_same; [reflexivity|reflexivity|];
          first [ done | intros _; eapply allowed_from_live; eassumption
                | intros _; unfold live; by erewrite (proj1 (state_is_true _ _)) by eassumption ] ].

#[export] Hint Extern 2 (Preserves sagas_exclusive (update_job _ _ _)) =>
  apply update_job_exclusive; shrink : preserves.
#[export] Hint Extern 2 (Preserves sagas_exclusive (update_jobs _ _)) =>
  apply update_jobs_exclusive; shrink : preserves.

(** What the callers of the repositories respect: jobs are created unsaved
    ([EnrollmentJobs.create]); a job written back by [replace_if_state] is
    saved only if it is no rotation, or was the saved rotation of the same
    Agent already; a completed removal stays completed. *)
Definition saga_call (c : Call) (db : DB) : Prop :=
  match c with
  | Journal (CallCreate j | CallCreateWithCapacity j _ _ | CallCreateDiscovery j _ _ _ |
             CallCreateRotation j _ _) => job_save_requested j = false
  | Journal (CallReplace j _ _) =>
      job_save_requested j = true -> job_replace_agent_id j = None \/
      exists q, agent_enrollment_jobs db !! job_enrollment_id j = Some q /\
        job_save_requested (row_job q) = true /\
        job_replace_agent_id j = job_replace_agent_id (row_job q)
  | Removal (CallTransition r phase _ _) =>
      removal_phase r = "completed" -> phase = "completed"
  | _ => True
  end.

Lemma expire_due_exclusive now : Preserves sagas_exclusive (expire_due now).
Proof. unfold expire_due. preserves. Qed.

#[export] Hint Resolve expire_due_exclusive : preserves.

(** A guard before the transaction is a hypothesis of its body. *)
Lemma op_required {A} (P : DB -> Prop) b (op : Method A) :
  (b = true -> OpPreserves P op) -> OpPreserves P (checked (require b) op).
Proof. intros Ho db Hdb. destruct b; [by apply Ho|done]. Qed.

Lemma set_state_exclusive id s t x : OpPreserves sagas_exclusive (set_state id s t x).
Proof. unfold set_state. apply op_required. intros Ha. preserves. Qed.

Lemma replace_exclusive j x fence db :
  saga_call (Journal (CallReplace j x fence)) db -> sagas_exclusive db ->
  sagas_exclusive (replace_if_state j x fence db).2.
Proof.
  intros Hc Hx. unfold replace_if_state. cbn [saga_call] in Hc.
  apply checked_preserves; [done|]. intros _. apply checked_preserves; [done|]. intros Ha.
  apply checked_preserves; [done|]. intros _. apply write_preserves; [done|]. intros a db' E.
  tx_inv. clauses. match goal with H : update_job _ _ _ _ = _ |- _ => revert H end.
  apply update_job_exclusive_at; [|done]. intros r Hr Hg. prop_hyps.
  assert (Hl : live (row_job r) = true) by by eapply allowed_from_live.
  intros agent Hs. unfold saved_rotation in *. prop_hyps.
  destruct Hc as [Hn|(q & Hq & Hsq & Ea)]; [done|by rewrite Hn in *|]. simplify_eq.
  rewrite !andb_True_iff, <- Ea. auto.
Qed.

(** A saga that passed the fence may save its rotation. *)
Lemma insert_saved_exclusive db k q :
  db_wf db -> (forall agent, saved_rotation agent (row_job q) = true -> fence_open db agent (Some k) None) ->
  sagas_exclusive db ->
  sagas_exclusive (db <| agent_enrollment_jobs := <[k := q]> (agent_enrollment_jobs db) |>).
Proof.
  intros W Hf [Hr Hu].
  assert (Hother : forall agent k' q', saved_rotation agent (row_job q) = true ->
    agent_enrollment_jobs db !! k' = Some q' -> saved_rotation agent (row_job q') = true -> k' = k).
  { intros agent k' q' Hs Hq' Hs'. apply (proj2 (Hf agent Hs)) in Hq' as Hb.
    destruct (wf_jobs _ W _ _ Hq') as [<- _].
    change (saved_rotation agent (row_job q') &&
            bool_decide (job_enrollment_id (row_job q') <> k) = false) in Hb.
    rewrite Hs' in Hb. by apply bool_decide_eq_false, dec_stable in Hb. }
  split.
  - intros k1 r k' q' Hk1 Ha Hq'. cbn in *.
    apply lookup_insert_Some in Hq' as [[<- <-]|[? Hq']]; [|by eapply Hr].
    destruct (saved_rotation (removal_agent_id r) (row_job q)) eqn:E; [|done].
    apply (proj1 (Hf _ E)) in Hk1. unfold removal_blocks in Hk1.
    by rewrite bool_decide_true, Ha in Hk1.
  - intros agent k1 q1 k2 q2 Hq1 Hq2 Hs1 Hs2. cbn in *.
    apply lookup_insert_Some in Hq1 as [[<- <-]|[? Hq1]], Hq2 as [[<- <-]|[? Hq2]]; [done| | |].
    + symmetry. eauto.
    + eauto.
    + by eapply (Hu agent).
Qed.

(** What a saved rotation has been checked against. *)
Lemma consume_rotation_spec id agent name now db j db' :
  consume_rotation id agent name now db = (inr j, db') ->
  exists r a, agent_enrollment_jobs db !! id = Some r /\ agents db !! agent = Some a /\
    job_state (row_job r) = VERIFIED /\ (now < job_expires_at (row_job r))%Z /\
    job_replace_agent_id (row_job r) = Some agent /\
    job_old_registry_revision (row_job r) = Some (agent_revision a) /\
    job_old_credential_ref (row_job r) = Some (agent_credential_ref a) /\
    job_old_instance_id (row_job r) = agent_instance_id a /\
    fence_open db agent (Some id) None /\
    j = request_activation name now (row_job r) /\
    db' = db <| agent_enrollment_jobs :=
      <[id := on_job (fun _ => j) r]> (agent_enrollment_jobs db) |>.
Proof.
  unfold consume_rotation. intros Hm. tx_inv.
  match goal with H : require_job _ _ _ = _ |- _ => apply require_job_inr in H as (-> & t & Hr) end.
  match goal with H : select_agent _ _ _ = inr (?x, _) |- _ =>
    apply select_agent_inr in H as (-> & Ha); rename x into a end.
  match goal with H : assert_agent_mutation_allowed _ _ _ _ = _ |- _ =>
    apply assert_agent_mutation_allowed_inr in H as [-> Hf] end.
  match goal with H : update_job _ _ _ _ = _ |- _ =>
    eapply update_job_once in H as (_ & _ & ->); [|exact Hr|done] end.
  eexists (mkJobRow _ t), a. split; [exact Hr|]. clauses. cbn.
  repeat match goal with H : ~ _ <> _ |- _ => apply dec_stable in H end. split_and!; auto.
Qed.

Lemma consume_rotation_exclusive id agent name now db :
  db_wf db -> sagas_exclusive db -> sagas_exclusive (consume_rotation id agent name now db).2.
Proof.
  intros W Hx. destruct (consume_rotation id agent name now db) as [[e|j] db'] eqn:E; cbn.
  - by apply write_inl in E as ->.
  - apply consume_rotation_spec in E as (r & a & Hr & _ & _ & _ & Ha & _ & _ & _ & Hf & -> & ->).
    apply insert_saved_exclusive; [done| |done]. intros agent' Hs. unfold saved_rotation in Hs.
    prop_hyps. change (sql_eq (job_replace_agent_id (row_job r)) (Some agent') = true) in H.
    rewrite Ha, sql_eq_true in H. destruct H as (? & ? & ?). by simplify_eq.
Qed.

Lemma journal_exclusive c db :
  db_wf db -> saga_call (Journal c) db -> sagas_exclusive db -> sagas_exclusive (journal_run c db).
Proof.
  intros W Hc Hx. destruct c; cbn [journal_run] in *;
    try by (apply set_state_exclusive || apply consume_rotation_exclusive || apply replace_exclusive).
  all: clear W; unfold_methods; cbn [saga_call] in Hc; revert db Hx;
    match goal with |- forall db, _ -> sagas_exclusive (?m db).2 =>
      change (OpPreserves sagas_exclusive m) end.
  all: preserves.
Qed.

Lemma registry_exclusive `{UrlLib} c db :
  sagas_exclusive db -> sagas_exclusive (registry_run c db).
Proof.
  revert db. destruct c; cbn [registry_run]; [setoid_rewrite get_or_create_manager_id_db|..];
    unfold_methods.
  all: match goal with |- forall db, _ -> sagas_exclusive (?m db).2 =>
    change (OpPreserves sagas_exclusive m) end.
  all: preserves.
Qed.

(** A removal starts only on an Agent that no rotation holds. *)
Lemma insert_removal_exclusive r db u db' :
  fence_open db (removal_agent_id r) None None -> sagas_exclusive db ->
  insert_removal r db = inr (u, db') -> sagas_exclusive db'.
Proof.
  intros [_ Hf] [Hr Hu]. unfold insert_removal. intros. db_inv. split; [|exact Hu].
  intros k1 r1 k' q Hk1 Ha Hq. cbn in *.
  apply lookup_insert_Some in Hk1 as [[<- <-]|[? Hk1]]; [|by eapply Hr].
  apply Hf in Hq. change (saved_rotation (removal_agent_id r) (row_job q) && true = false) in Hq.
  by rewrite andb_true_r in Hq.
Qed.

Lemma create_for_agent_exclusive u agent e local now :
  OpPreserves sagas_exclusive (create_for_agent u agent e local now).
Proof.
  unfold create_for_agent. apply op_checked, op_write. intros db j db' Hx E. tx_inv.
  match goal with H : select_agent _ _ _ = _ |- _ => apply select_agent_inr in H as (-> & _) end.
  match goal with H : assert_agent_mutation_allowed _ _ _ _ = _ |- _ =>
    apply assert_agent_mutation_allowed_inr in H as [-> Hf] end.
  match goal with H : insert_removal _ _ = _ |- _ =>
    refine (insert_removal_exclusive _ _ _ _ _ Hx H); exact Hf end.
Qed.

Lemma transition_exclusive r phase now code :
  (removal_phase r = "completed" -> phase = "completed") ->
  OpPreserves sagas_exclusive (transition r phase now code).
Proof.
  intros Hc. unfold transition. apply op_checked, op_write, preserves_bind; [|preserves].
  apply update_removal_exclusive. intros q Hp. prop_hyps. split; [done|].
  unfold removal_active. cbn. rewrite !bool_decide_eq_true. intros Hne Ec. apply Hne, Hc. congruence.
Qed.

Lemma removal_exclusive c db :
  saga_call (Removal c) db -> sagas_exclusive db -> sagas_exclusive (removal_run c db).
Proof.
  intros Hc Hx. destruct c; cbn [removal_run saga_call] in *.
  - by apply create_for_agent_exclusive.
  - by apply transition_exclusive.
  - apply (op_write sagas_exclusive); [preserves|done].
  - apply (op_write sagas_exclusive); [|done]. intros db0 n db' Hx0. by apply update_audit_exclusive.
Qed.

(** The databases that callers reach; the discovery scanner and the audit log
    write their own tables. *)
Inductive saga_reachable `{UrlLib} : DB -> Prop :=
| reach_empty : saga_reachable empty_db
| reach_other db djobs results events :
    let db' := db <| discovery_jobs := djobs |> <| discovery_results := results |>
                  <| control_plane_audit_events := events |> in
    saga_reachable db -> db_wf db' -> saga_reachable db'
| reach_call db c : saga_reachable db -> saga_call c db -> saga_reachable (run c db).

Lemma saga_reachable_inv `{UrlLib} db : saga_reachable db -> db_wf db /\ sagas_exclusive db.
Proof.
  induction 1 as [|db djobs results events db' _ [W X] W'|db c _ [W X] Hc].
  - split; [exact empty_db_wf|]. split; intros ? **; cbn in *; by rewrite lookup_empty in *.
  - split; [done|]. by apply (same_sagas db).
  - split; [by apply run_wf|]. destruct c; cbn [run].
    + by apply journal_exclusive.
    + by apply registry_exclusive.
    + by apply removal_exclusive.
Qed.


(** An Agent is registered, its verified rotation stored and saved. *)
Definition saga_history : list Call :=
  [Registry (CallRegister agent_one); Journal (CallCreate job_rotation);
   Journal (CallConsumeRotation "job-1" "agent-1" "renamed" 20%Z)].


(** A rotation is saved against the Agent it captured.  When
    [consume_rotation] returns, the job was VERIFIED, in time and a rotation of
    the given Agent, which still has the revision, credential and instance the
    job captured and is held by no other saga; the job is stored as the
    requested activation, and nothing else changes. *)
Theorem saved_rotation_matches_agent id agent name now db j db' :
  consume_rotation id agent name now db = (inr j, db') ->
  exists r a, agent_enrollment_jobs db !! id = Some r /\ agents db !! agent = Some a /\
    job_state (row_job r) = VERIFIED /\ (now < job_expires_at (row_job r))%Z /\
    job_replace_agent_id (row_job r) = Some agent /\
    job_old_registry_revision (row_job r) = Some (agent_revision a) /\
    job_old_credential_ref (row_job r) = Some (agent_credential_ref a) /\
    job_old_instance_id (row_job r) = agent_instance_id a /\
    fence_open db agent (Some id) None /\
    j = request_activation name now (row_job r) /\
    db' = db <| agent_enrollment_jobs :=
      <[id := on_job (fun _ => j) r]> (agent_enrollment_jobs db) |>.
Proof. apply consume_rotation_spec. Qed.

Lemma saved_rotation_matches_agent_witness :
  exists r a, agent_enrollment_jobs fleet_db !! "job-1" = Some r /\ agents fleet_db !! "agent-1" = Some a /\
    job_old_registry_revision (row_job r) = Some (agent_revision a).
Proof.
  destruct (saved_rotation_matches_agent "job-1" "agent-1" "renamed" 20%Z fleet_db
    (request_activation "renamed" 20%Z job_rotation)
    (run (Journal (CallConsumeRotation "job-1" "agent-1" "renamed" 20%Z)) fleet_db))
    as (r & a & Hr & Ha & _ & _ & _ & Hv & _).
  - vm_compute. reflexivity.
  - exact (ex_intro _ r (ex_intro _ a (conj Hr (conj Ha Hv)))).
Defined.
