(* ===== verification/RegistryClaims.v ===== *)
(** * What the Agent registry guarantees

    The theorems about [ManagerRegistryRepository] and
    [AgentStatusRepository]: optimistic updates, the commit of an enrollment,
    the swap of a rotation, guarded deletion, status batches and paging. *)

From stdpp Require Import base tactics list gmap strings sorting.
From Stdlib Require Import ZArith Lia.
From S2P Require Import Prelude Text Sql Models Schema JobValidation MutationFence EnrollmentJournal.
From S2P Require Import ManagerRegistry RemovalJournal Samples Lifecycle JournalProperties.

(** ** Optimistic updates *)

Lemma update_agent_once k cond a db n db' :
  update_agent k cond a db = inr (n, db') -> negb (n =? 1) = false ->
  exists b, agents db !! k = Some b /\ cond b = true /\
    agents_check (a <| agent_id := agent_id b |>) = true /\
    agents_unique (agents db) k (a <| agent_id := agent_id b |>) = true /\
    db' = db <| agents := <[k := a <| agent_id := agent_id b |>]> (agents db) |>.
Proof.
  intros (t & E & ->)%update_agent_inr Hn.
  apply update_pk_Some in E as [(b & Hb & Hc & Hok & -> & _)|(_ & _ & ->)]; [|done].
  prop_hyps. eauto 10.
Qed.

Lemma update_agent_miss k cond a db :
  (forall b, agents db !! k = Some b -> cond b = false) -> update_agent k cond a db = inr (0, db).
Proof.
  intros Hc. unfold update_agent, update_pk, tx_bind.
  destruct (agents db !! k) as [b|]; [rewrite (Hc b) by done|]; done.
Qed.

Lemma require_inr b : require b = inr tt <-> b = true.
Proof. unfold require. destruct b; naive_solver. Qed.

Section Registry.
Context `{UrlLib}.

Lemma update_if_revision_spec record rev oe orm db a db' :
  update_if_revision record rev oe orm db = (inr a, db') ->
  exists b, agents db !! agent_id record = Some b /\ agent_revision b = rev /\
    a = record <| agent_revision := (rev + 1)%Z |> /\ valid_record a = true /\
    fence_open db (agent_id record) oe orm /\
    db' = db <| agents := <[agent_id record := a <| agent_id := agent_id b |>]> (agents db) |>.
Proof.
  unfold update_if_revision. cbv zeta. intros Hm. tx_inv.
  match goal with H : assert_agent_mutation_allowed _ _ _ _ = _ |- _ =>
    apply assert_agent_mutation_allowed_inr in H as [-> Hf] end.
  match goal with H : update_agent _ _ _ _ = _ |- _ =>
    apply update_agent_once in H as (b & Hb & Hc & _ & _ & ->); [|done] end.
  prop_hyps. apply require_inr in H1. exists b. split_and!; auto.
Qed.

(** No lost update.  Of two edits of the same Agent that expect the same
    revision, once one has been accepted the other is refused whatever happens
    to other Agents in between: as long as the Agent carries the revision the
    first edit stored, the second changes nothing and returns an error. *)
Theorem concurrent_edits_conflict r1 r2 rev oe orm oe2 orm2 db a db1 db2 :
  db_wf db -> update_if_revision r1 rev oe orm db = (inr a, db1) ->
  agent_id r2 = agent_id r1 ->
  agents db2 !! agent_id r1 = agents db1 !! agent_id r1 ->
  agents db1 !! agent_id r1 = Some a /\ agent_revision a = (rev + 1)%Z /\
  exists e, update_if_revision r2 rev oe2 orm2 db2 = (inl e, db2).
Proof.
  intros W (b & Hb & Hrev & -> & Hv & _ & ->)%update_if_revision_spec Hid Hsame.
  destruct (wf_agents _ W _ _ Hb) as [Eid _].
  change (agents (db <| agents := ?t |>)) with t in *. rewrite lookup_insert_eq in Hsame |- *.
  split_and!; [by rewrite Eid|done|].
  destruct (update_if_revision r2 rev oe2 orm2 db2) as [[e|a2] db3] eqn:E.
  - exists e. f_equal. unfold update_if_revision in E. cbv zeta in E. unchanged.
  - apply update_if_revision_spec in E as (b2 & Hb2 & Hrev2 & _). rewrite Hid, Hsame in Hb2.
    simplify_eq. cbn in Hrev2. lia.
Qed.
End Registry.

Lemma concurrent_edits_conflict_witness :
  exists e, update_if_revision (agent_one <| agent_display_name := "second" |>) 3%Z None None
    (update_if_revision (agent_one <| agent_display_name := "first" |>) 3%Z None None fleet_db).2 =
    (inl e, (update_if_revision (agent_one <| agent_display_name := "first" |>) 3%Z None None fleet_db).2).
Proof.
  refine (proj2 (proj2 (concurrent_edits_conflict (agent_one <| agent_display_name := "first" |>)
    (agent_one <| agent_display_name := "second" |>) 3%Z None None None None fleet_db
    (agent_one <| agent_display_name := "first" |> <| agent_revision := 4%Z |>) _ _
    fleet_db_wf _ _ eq_refl))); vm_compute; reflexivity.
Defined.

(** ** Committing an enrollment *)
Section Commit.
Context `{UrlLib}.

(** The Agent row a commit leaves. *)
Lemma commit_agent_inr record existing db u db' :
  existing = agents db !! agent_id record ->
  match existing with
  | None => insert_agent record
  | Some a => raise_if (bool_decide (a <> record))
                (RegistryConflict "agent ID, identity, or endpoint already exists")
  end db = inr (u, db') ->
  db' = db <| agents := <[agent_id record := record]> (agents db) |>.
Proof.
  intros E. destruct existing as [a|].
  - intros Hm. tx_inv. prop_hyps. apply dec_stable in H0 as ->.
    rewrite insert_id by done. by destruct db.
  - by intros (_ & _ & _ & ->)%insert_agent_inr.
Qed.

Lemma insert_status_if_absent_inr s db u db' :
  insert_status_if_absent s db = inr (u, db') ->
  db' = db <| agent_status :=
    <[status_agent_id s := default s (agent_status db !! status_agent_id s)]> (agent_status db) |>.
Proof.
  unfold insert_status_if_absent. destruct (agent_status db !! status_agent_id s) as [q|] eqn:E.
  - intros [= <- <-]. cbn. rewrite insert_id by done. by destruct db.
  - unfold upsert_status. intros. by db_inv.
Qed.

Lemma commit_spec job record now receipt db a db' :
  commit_activated_enrollment job record now receipt db = (inr a, db') ->
  exists r, agent_enrollment_jobs db !! job_enrollment_id job = Some r /\
    a = record /\ valid_record record = true /\ job_state (row_job r) = ACTIVATED /\
    is_Some (job_recovery_owner job) /\
    job_recovery_owner (row_job r) = job_recovery_owner job /\
    job_recovery_revision (row_job r) = job_recovery_revision job /\
    agents db' = <[agent_id record := record]> (agents db) /\
    agent_enrollment_jobs db' = <[job_enrollment_id job := on_job (consume_job receipt now) r]>
      (agent_enrollment_jobs db) /\
    is_Some (agent_status db' !! agent_id record) /\
    agent_removal_jobs db' = agent_removal_jobs db.
Proof.
  unfold commit_activated_enrollment. intros Hm. tx_inv.
  match goal with H : match _ with _ => _ end _ = inr _ |- _ =>
    apply commit_agent_inr in H as ->; [|done] end.
  match goal with H : insert_status_if_absent _ _ = _ |- _ =>
    apply insert_status_if_absent_inr in H as -> end.
  match goal with H : update_job _ _ _ _ = _ |- _ => rename H into E end.
  apply update_job_inr in E as (t & E & ->). cbn in E.
  apply update_pk_Some in E as [(r & Hr & Hc & _ & -> & _)|(_ & _ & ->)]; [|done].
  exists r. clauses. apply require_inr in H1.
  match goal with H : sql_eq _ _ = true |- _ => apply sql_eq_true in H as (o & Ho & Ho') end.
  rewrite Ho, Ho'. cbn. rewrite lookup_insert_is_Some. split_and!; eauto.
Qed.

(** C9: the commit of an enrollment is atomic and happens once.  When
    [commit_activated_enrollment] returns, the job was ACTIVATED under the
    caller's claim; the Agent and a status row exist, the job is CONSUMED with
    its claim, stored credential and CLI claim handed over; other rows are
    untouched.  When it raises, nothing changed.  And it does not commit the
    same job again: a second commit is refused. *)
Theorem enrollment_commits_once job record now receipt db a db' :
  commit_activated_enrollment job record now receipt db = (inr a, db') ->
  (exists r, agent_enrollment_jobs db !! job_enrollment_id job = Some r /\
    job_state (row_job r) = ACTIVATED /\
    job_recovery_owner (row_job r) = job_recovery_owner job /\
    job_recovery_revision (row_job r) = job_recovery_revision job /\
    agents db' = <[agent_id record := record]> (agents db) /\
    agent_enrollment_jobs db' = <[job_enrollment_id job := on_job (consume_job receipt now) r]>
      (agent_enrollment_jobs db) /\
    is_Some (agent_status db' !! agent_id record)) /\
  (forall record2 now2 receipt2, exists e,
    commit_activated_enrollment job record2 now2 receipt2 db' = (inl e, db')).
Proof.
  intros (r & Hr & -> & _ & Hs & _ & Ho & Hv & Ea & Ej & Est & _)%commit_spec.
  split; [eauto 10|]. intros record2 now2 receipt2.
  destruct (commit_activated_enrollment job record2 now2 receipt2 db') as [[e|a2] db2] eqn:E.
  - exists e. f_equal. unfold commit_activated_enrollment in E. unchanged.
  - apply commit_spec in E as (r2 & Hr2 & _ & _ & Hs2 & _).
    rewrite Ej, lookup_insert_eq in Hr2. by simplify_eq.
Qed.
End Commit.

Definition agent_new : AgentRecord :=
  agent_one <| agent_id := "agent-2" |> <| agent_instance_id := Some "inst-1" |>
    <| agent_credential_ref := ref_b |> <| agent_remote_credential_id := Some "cred-1" |>.

Lemma enrollment_commits_once_witness :
  exists e, commit_activated_enrollment job_activated agent_new 30%Z None
    (commit_activated_enrollment job_activated agent_new 30%Z None (jobs_db [job_activated])).2 =
    (inl e, (commit_activated_enrollment job_activated agent_new 30%Z None (jobs_db [job_activated])).2).
Proof.
  refine (proj2 (enrollment_commits_once job_activated agent_new 30%Z None (jobs_db [job_activated])
    agent_new _ _) agent_new 30%Z None). vm_compute. reflexivity.
Defined.

(** ** Swapping a rotation *)
Section Swap.
Context `{UrlLib}.

Lemma swap_spec job now db a db' :
  db_wf db -> swap_rotation job now db = (inr a, db') ->
  exists agent b i, job_replace_agent_id job = Some agent /\ agents db !! agent = Some b /\
    job_old_registry_revision job = Some (agent_revision b) /\
    job_old_credential_ref job = Some (agent_credential_ref b) /\
    job_old_instance_id job = Some i /\ agent_instance_id b = Some i /\
    fence_open db agent (Some (job_enrollment_id job)) None /\
    a = rotated_record job b now /\ valid_record a = true /\
    db' = db <| agents := <[agent := a]> (agents db) |>
             <| agent_status := <[agent := unknown_status agent (agent_revision a) "unknown" now]>
                  (agent_status db) |>.
Proof.
  intros W. unfold swap_rotation. intros Hm. tx_inv. apply require_inr in H0.
  match goal with H : select_agent _ _ _ = inr (?x, _) |- _ =>
    apply select_agent_inr in H as (-> & Ha); rename x into b end.
  match goal with H : assert_agent_mutation_allowed _ _ _ _ = _ |- _ =>
    apply assert_agent_mutation_allowed_inr in H as [-> Hf] end.
  match goal with H : update_agent _ _ _ _ = _ |- _ =>
    apply update_agent_once in H as (c & Hc & Hg & _ & _ & ->); [|done] end.
  unfold rotation_complete, is_some in H0. prop_hyps.
  destruct (job_replace_agent_id job) as [agent|]; [|done]. cbn [default from_option id] in Ha.
  destruct (wf_agents _ W _ _ Ha) as [Eid _]. cbn in Hc. rewrite Eid, Ha in Hc. simplify_eq.
  match goal with H : sql_eq (agent_instance_id _) _ = true |- _ =>
    apply sql_eq_true in H as (i & Hi & Hi') end.
  repeat match goal with H : ~ _ <> _ |- _ => apply dec_stable in H end.
  match goal with H : validate_record _ = _ |- _ => destruct x5; apply require_inr in H end.
  match goal with H : upsert_status _ _ = _ |- _ => unfold upsert_status in H; db_inv end.
  exists (agent_id c), c, i. split_and!; auto.
Qed.

Lemma rotated_credential job b now :
  is_credential_ref (agent_credential_ref (rotated_record job b now)) = true ->
  Some (agent_credential_ref (rotated_record job b now)) = job_credential_temp_ref job.
Proof.
  change (agent_credential_ref (rotated_record job b now)) with (or_else (job_credential_temp_ref job) "").
  unfold or_else, truthy. destruct (job_credential_temp_ref job) as [s|]; [|done].
  case_bool_decide; [done|]. destruct (decide (s = "")); [by subst|done].
Qed.

(** A rotation swaps exactly the Agent it captured.  When [swap_rotation]
    returns, the Agent still had the captured revision, credential and
    instance and no other saga held it; it now carries the rotated record (the
    new credential, the captured revision plus one, its name, creation time
    and enabled flag kept), its status restarts as unknown at the new revision,
    and no other row changes. *)
Theorem rotation_swaps_captured_agent job now db a db' :
  db_wf db -> swap_rotation job now db = (inr a, db') ->
  exists agent b, job_replace_agent_id job = Some agent /\ agents db !! agent = Some b /\
    job_old_registry_revision job = Some (agent_revision b) /\
    job_old_credential_ref job = Some (agent_credential_ref b) /\
    job_old_instance_id job = agent_instance_id b /\
    fence_open db agent (Some (job_enrollment_id job)) None /\
    agent_id a = agent /\ agent_revision a = (agent_revision b + 1)%Z /\
    Some (agent_credential_ref a) = job_credential_temp_ref job /\
    agent_created_at a = agent_created_at b /\
    db' = db <| agents := <[agent := a]> (agents db) |>
             <| agent_status := <[agent := unknown_status agent (agent_revision a) "unknown" now]>
                  (agent_status db) |>.
Proof.
  intros W E. destruct (swap_spec _ _ _ _ _ W E) as
    (agent & b & i & Ha & Hb & Hr & Hc & Hi & Hi' & Hf & -> & Hv & ->).
  destruct (wf_agents _ W _ _ Hb) as (Eid & Hck & _). exists agent, b.
  unfold agents_check in Hck. prop_hyps. split_and!; auto; [congruence| |].
  - cbn. rewrite Hr. case_match eqn:Ez; prop_hyps; lia.
  - apply rotated_credential. unfold valid_record in Hv. by prop_hyps.
Qed.

(** A rotation whose captured instance identity is missing never swaps.
    Such rotations are accepted for legacy Agents ([_validate_job] and
    [consume_rotation] allow a missing instance), but the final UPDATE compares
    [instance_id=?] with NULL, which matches no row: the swap always raises,
    with [RevisionConflict] when everything else agrees. *)
Theorem legacy_rotation_never_swaps job now db :
  db_wf db -> job_old_instance_id job = None ->
  (exists e, swap_rotation job now db = (inl e, db)) /\
  (forall agent b, job_replace_agent_id job = Some agent -> agents db !! agent = Some b ->
     state_is ACTIVATED job = true -> rotation_complete job = true ->
     job_old_registry_revision job = Some (agent_revision b) ->
     job_old_credential_ref job = Some (agent_credential_ref b) -> agent_instance_id b = None ->
     fence_open db agent (Some (job_enrollment_id job)) None ->
     valid_record (rotated_record job b now) = true ->
     swap_rotation job now db = (inl RevisionConflict, db)).
Proof.
  intros W Hn. split.
  - destruct (swap_rotation job now db) as [[e|a] db'] eqn:E.
    + exists e. f_equal. unfold swap_rotation in E. cbv zeta in E. unchanged.
    + destruct (swap_spec _ _ _ _ _ W E) as (? & ? & ? & _ & _ & _ & _ & Hi & _). congruence.
  - intros agent b Ha Hb Hact Hc Hr Hcr Hi Hf Hv. unfold swap_rotation. rewrite checked_ok
      by by rewrite Hact, Hc. rewrite Ha. cbn [default from_option id]. unfold write, tx_bind at 1.
    rewrite (select_agent_hit _ _ _ _ Hb). destruct (wf_agents _ W _ _ Hb) as [Eid _].
    rewrite Eid. unfold tx_bind at 1.
    rewrite (proj2 (assert_agent_mutation_allowed_inr _ _ _ _ tt _) (conj eq_refl Hf)).
    rewrite Hr, Hcr, Hi, Hn, !bool_decide_false by (intros Hx; by destruct Hx).
    unfold validate_record. rewrite Hv. unfold tx_bind, raise_if, tx_ret, lift, require. cbn [orb].
    rewrite update_agent_miss; [done|]. intros c _. cbn. destruct (agent_instance_id c); by rewrite andb_false_r.
Qed.
End Swap.

(** A saved rotation that is ready to swap, and one of a legacy Agent without
    an instance identity. *)
Definition job_swapping : EnrollmentJob :=
  job_rotation <| job_state := ACTIVATED |> <| job_save_requested := true |>.

Definition agent_legacy : AgentRecord :=
  agent_one <| agent_instance_id := None |> <| agent_remote_credential_id := None |>
    <| agent_enrollment_method := LEGACY_ADMIN_TOKEN |>.

Definition job_legacy_swap : EnrollmentJob :=
  (capture_rotation job_verified agent_legacy) <| job_replace_agent_id := Some "agent-1" |>
    <| job_state := ACTIVATED |> <| job_save_requested := true |>.

Definition swap_db (a : AgentRecord) (j : EnrollmentJob) : DB := with_agent a (jobs_db [j]).

Lemma swap_db_wf : db_wf (swap_db agent_one job_swapping) /\ db_wf (swap_db agent_legacy job_legacy_swap).
Proof.
  split; [pose (a := agent_one); pose (j := job_swapping)|pose (a := agent_legacy); pose (j := job_legacy_swap)];
  (assert (H1 : insert_agent a empty_db = inr (tt, with_agent a empty_db)) by (vm_compute; reflexivity);
   assert (H2 : insert_job j (with_agent a empty_db) = inr (tt, swap_db a j)) by (vm_compute; reflexivity);
   exact (insert_job_wf _ _ _ _ (insert_agent_wf _ _ _ _ empty_db_wf H1) H2)).
Qed.

Lemma rotation_swaps_captured_agent_witness :
  exists agent b, job_replace_agent_id job_swapping = Some agent /\
    agents (swap_db agent_one job_swapping) !! agent = Some b /\
    job_old_registry_revision job_swapping = Some (agent_revision b).
Proof.
  destruct (rotation_swaps_captured_agent job_swapping 30%Z (swap_db agent_one job_swapping)
    (rotated_record job_swapping agent_one 30%Z)
    (swap_rotation job_swapping 30%Z (swap_db agent_one job_swapping)).2 (proj1 swap_db_wf))
    as (agent & b & Ha & Hb & Hr & _).
  - vm_compute. reflexivity.
  - exact (ex_intro _ agent (ex_intro _ b (conj Ha (conj Hb Hr)))).
Defined.

Lemma legacy_rotation_never_swaps_witness :
  valid_job job_legacy_swap = true /\
  swap_rotation job_legacy_swap 30%Z (swap_db agent_legacy job_legacy_swap) =
    (inl RevisionConflict, swap_db agent_legacy job_legacy_swap).
Proof.
  split; [vm_compute; reflexivity|].
  refine (proj2 (legacy_rotation_never_swaps job_legacy_swap 30%Z (swap_db agent_legacy job_legacy_swap)
    (proj2 swap_db_wf) eq_refl) "agent-1" agent_legacy _ _ _ _ _ _ _ _ _); try (vm_compute; reflexivity).
  apply (assert_agent_mutation_allowed_inr "agent-1" (Some "job-1") None
    (swap_db agent_legacy job_legacy_swap) tt (swap_db agent_legacy job_legacy_swap)).
  vm_compute. reflexivity.
Defined.

(** ** Guarded deletion *)
Section Delete.
Context `{UrlLib}.

Lemma delete_agent_once k cond db n db' :
  delete_agent k cond db = inr (n, db') -> negb (n =? 1) = false ->
  (exists a, agents db !! k = Some a /\ cond a = true) /\
  (forall id r, agent_enrollment_jobs db !! id = Some r -> job_replace_agent_id (row_job r) <> Some k) /\
  db' = db <| agents := delete k (agents db) |> <| agent_status := delete k (agent_status db) |>.
Proof.
  unfold delete_agent. destruct (agents db !! k) as [a|] eqn:Ha; [destruct (cond a) eqn:Hc|];
    intros E Hn; [|by simplify_eq..].
  db_inv. prop_hyps. split_and!; [by eauto| |done]. intros id r Hr.
  match goal with Hx : exists_where _ _ = false |- _ => rewrite exists_where_false in Hx; apply Hx in Hr end.
  by prop_hyps.
Qed.

(** What a guarded deletion that answers [True] has done. *)
Lemma delete_if_spec id rev ref oe orm db db' :
  delete_if_revision_and_credential id rev ref oe orm db = (inr true, db') ->
  fence_open db id oe orm /\
  (exists a, agents db !! id = Some a /\ agent_revision a = rev /\ agent_credential_ref a = ref) /\
  (forall k r, agent_enrollment_jobs db !! k = Some r -> rotation_live id r = false) /\
  db' = db <| agent_enrollment_jobs :=
          (fun r => if sql_eq (job_replace_agent_id (row_job r)) (Some id) && terminal (job_state (row_job r))
                    then entomb r else r) <$> agent_enrollment_jobs db |>
           <| agents := delete id (agents db) |> <| agent_status := delete id (agent_status db) |>.
Proof.
  unfold delete_if_revision_and_credential. cbv zeta. intros Hm. tx_inv.
  match goal with Hx : assert_agent_mutation_allowed _ _ _ _ = _ |- _ =>
    apply assert_agent_mutation_allowed_inr in Hx as [-> Hf] end.
  destruct (agents db !! id) as [a|] eqn:Ha; [case_match eqn:Hc|]; tx_inv; try done.
  match goal with Hx : update_jobs _ _ _ = _ |- _ => apply update_jobs_inr in Hx as (t & Et & ->) end.
  apply update_all_Some in Et as [_ ->].
  match goal with Hx : delete_agent _ _ _ = _ |- _ =>
    apply delete_agent_once in Hx as (_ & _ & ->); [|done] end.
  prop_hyps. split_and!; eauto.
  by apply exists_where_false.
Qed.

(** A guarded deletion removes the Agent it names and nothing else.  When
    [delete_if_revision_and_credential] answers [True], the Agent had the given
    revision and credential, no saga held it and no rotation of it was live;
    it and its status row are gone, no job refers to it any more, and each
    ended rotation keeps its identity in the tombstone column.  When it answers
    [False], nothing changed. *)
Theorem guarded_delete_is_exact id rev ref oe orm db b db' :
  delete_if_revision_and_credential id rev ref oe orm db = (inr b, db') ->
  if b then
    (exists a, agents db !! id = Some a /\ agent_revision a = rev /\ agent_credential_ref a = ref) /\
    fence_open db id oe orm /\
    agents db' = delete id (agents db) /\ agent_status db' = delete id (agent_status db) /\
    agent_removal_jobs db' = agent_removal_jobs db /\
    forall k r', agent_enrollment_jobs db' !! k = Some r' ->
      job_replace_agent_id (row_job r') <> Some id /\
      exists r, agent_enrollment_jobs db !! k = Some r /\
        (r' = r \/ job_replace_agent_id (row_job r) = Some id /\ r' = entomb r /\
                   row_replace_agent_tombstone r' = Some id)
  else db' = db.
Proof.
  destruct b.
  - intros (Hf & Ha & Hlive & ->)%delete_if_spec. split_and!; try done.
    intros k r' Hr'. cbn in Hr'. apply lookup_fmap_Some in Hr' as (r & <- & Hr).
    specialize (Hlive k r Hr). unfold rotation_live, live in Hlive.
    destruct (sql_eq (job_replace_agent_id (row_job r)) (Some id)) eqn:E; cbn in *.
    + prop_hyps. rewrite Hlive. apply sql_eq_true in E as (? & E & [= <-]). split; [done|].
      exists r. split; [done|]. right. by rewrite <- E.
    + split; [|eauto]. intros Hc. rewrite Hc in E. cbn in E. by prop_hyps.
  - unfold delete_if_revision_and_credential. cbv zeta. intros Hm. tx_inv.
    match goal with Hx : assert_agent_mutation_allowed _ _ _ _ = _ |- _ =>
      apply assert_agent_mutation_allowed_inr in Hx as [-> _] end.
    destruct (agents db !! id) as [a|]; [case_match|]; by tx_inv.
Qed.
End Delete.

Lemma guarded_delete_is_exact_witness :
  agents (delete_if_revision_and_credential "agent-1" 3%Z ref_a None None
    (swap_db agent_one (consume_job None 20%Z job_swapping))).2 = ∅.
Proof.
  refine (eq_trans (proj1 (proj2 (proj2 (guarded_delete_is_exact "agent-1" 3%Z ref_a None None
    (swap_db agent_one (consume_job None 20%Z job_swapping)) true
    (delete_if_revision_and_credential "agent-1" 3%Z ref_a None None
      (swap_db agent_one (consume_job None 20%Z job_swapping))).2 _)))) _); vm_compute; reflexivity.
Defined.

(** ** Status batches *)

Lemma upsert_status_inr s db u db' :
  upsert_status s db = inr (u, db') ->
  db' = db <| agent_status := <[status_agent_id s := s]> (agent_status db) |>.
Proof. unfold upsert_status. intros. by db_inv. Qed.

Lemma upsert_all_spec os db u db' :
  NoDup (status_agent_id <$> os) -> upsert_all os db = inr (u, db') ->
  agents db' = agents db /\ agent_enrollment_jobs db' = agent_enrollment_jobs db /\
  agent_removal_jobs db' = agent_removal_jobs db /\
  (forall o, o ∈ os -> agent_status db' !! status_agent_id o = Some o) /\
  (forall k, k ∉ status_agent_id <$> os -> agent_status db' !! k = agent_status db !! k).
Proof.
  revert db. induction os as [|o os IH]; intros db Hnd; cbn [upsert_all]; intros E; tx_inv.
  - split_and!; try done. intros o Ho. by apply elem_of_nil in Ho.
  - cbn in Hnd. apply NoDup_cons in Hnd as [Hno Hnd].
    match goal with Hx : upsert_status _ _ = _ |- _ => apply upsert_status_inr in Hx as -> end.
    apply IH in E as (Ea & Ej & Er & Hin & Hout); [|done]. split_and!; try done.
    + intros p [->|Hp]%elem_of_cons; [|auto]. rewrite Hout by done. cbn. by rewrite lookup_insert_eq.
    + intros k Hk. cbn in Hk. apply not_elem_of_cons in Hk as [Hne Hk].
      rewrite Hout by done. cbn. by rewrite lookup_insert_ne.
Qed.

Lemma forallb_elem {A} (f : A -> bool) l x : forallb f l = true -> x ∈ l -> f x = true.
Proof. rewrite forallb_forall, list_elem_of_In. auto. Qed.

Lemma update_many_spec os db b db' :
  update_many_if_target_revisions os db = (inr b, db') ->
  NoDup (status_agent_id <$> os) /\ (forall o, o ∈ os -> valid_status o = true) /\
  if b then (forall o, o ∈ os -> observation_current db o = true) /\
            exists u, upsert_all os db = inr (u, db')
  else db' = db.
Proof.
  unfold update_many_if_target_revisions. intros Hm. tx_inv.
  repeat match goal with Hx : require _ = _ |- _ => apply require_inr in Hx end. prop_hyps.
  split_and!; [done|by intros; eapply forallb_elem|].
  destruct (forallb (observation_current db) os) eqn:E; tx_inv; [|done].
  split; [by intros; eapply forallb_elem|eauto].
Qed.

(** [a] is not later than [b], where a missing time is the earliest. *)
Definition time_le (a b : option time) : Prop :=
  match a, b with None, _ => True | Some _, None => False | Some x, Some y => (x <= y)%Z end.

Lemma stored_time_not_later a b : stored_time_is_later a b = false <-> time_le a b.
Proof. destruct a, b; cbn; try done. rewrite Z.ltb_ge. done. Qed.

Lemma observation_current_spec db o :
  observation_current db o = true ->
  (exists a, agents db !! status_agent_id o = Some a /\ agent_revision a = status_target_revision o) /\
  forall s, agent_status db !! status_agent_id o = Some s ->
    status_target_revision s = status_target_revision o ->
    time_le (status_observed_at s) (status_observed_at o) /\
    (status_updated_at s <= status_updated_at o)%Z.
Proof.
  unfold observation_current. intros Hc. repeat case_match; try done; prop_hyps; split; eauto;
    intros s Hs Er; simplify_eq.
  rewrite Er, Z.eqb_refl in *. cbn in *. prop_hyps. by rewrite <- stored_time_not_later.
Qed.

(** A status batch is all or nothing and never goes back in time.  When
    [update_many_if_target_revisions] answers [True], every observation of the
    batch is stored and was for the current revision of its Agent, every other
    status is unchanged, and the stored observation and update times of a
    status at one revision never decrease.  When it answers [False] (some
    observation is stale), nothing changed. *)
Theorem status_batch_atomic_monotone os db b db' :
  update_many_if_target_revisions os db = (inr b, db') ->
  if b then
    (forall o, o ∈ os -> agent_status db' !! status_agent_id o = Some o /\
       exists a, agents db !! status_agent_id o = Some a /\
         agent_revision a = status_target_revision o) /\
    (forall k, k ∉ status_agent_id <$> os -> agent_status db' !! k = agent_status db !! k) /\
    agents db' = agents db /\
    (forall k s s', agent_status db !! k = Some s -> agent_status db' !! k = Some s' ->
       status_target_revision s = status_target_revision s' ->
       time_le (status_observed_at s) (status_observed_at s') /\
       (status_updated_at s <= status_updated_at s')%Z)
  else db' = db.
Proof.
  intros (Hnd & _ & Hb)%update_many_spec. destruct b; [|done]. destruct Hb as [Hcur [u E]].
  apply upsert_all_spec in E as (Ea & _ & _ & Hin & Hout); [|done]. split_and!; auto.
  - intros o Ho. split; [auto|]. by apply observation_current_spec, Hcur.
  - intros k s s' Hs Hs' Er. destruct (decide (k ∈ status_agent_id <$> os)) as [Hk|Hk].
    + apply list_elem_of_fmap in Hk as (o & -> & Ho).
      assert (s' = o) as -> by (pose proof (Hin o Ho); congruence).
      by apply (observation_current_spec db o (Hcur o Ho)).
    + rewrite Hout, Hs in Hs' by done. injection Hs' as <-. split; [|apply Z.le_refl].
      by destruct (status_observed_at s); cbn.
Qed.

Definition status_one (t : time) : AgentStatus :=
  mkStatus "agent-1" 3%Z "ready" "healthy" (Some t) None None None [] (JDict []) None t.

Lemma status_batch_atomic_monotone_witness :
  agent_status (update_many_if_target_revisions [status_one 40%Z] fleet_db).2 !! "agent-1" =
    Some (status_one 40%Z).
Proof.
  refine (proj1 (proj1 (status_batch_atomic_monotone [status_one 40%Z] fleet_db true
    (update_many_if_target_revisions [status_one 40%Z] fleet_db).2 _) (status_one 40%Z) _)).
  - vm_compute. reflexivity.
  - apply list_elem_of_here.
Defined.

(** * What the removal journal guarantees

    The theorems about [AgentRemovalRepository]: a removal captures its Agent
    and blocks it, phases move by compare-and-swap, and the audit event of a
    removal is finalized once. *)

(** ** Starting a removal *)
Lemma insert_removal_inr r db u db' :
  insert_removal r db = inr (u, db') ->
  agent_removal_jobs db !! removal_id r = None /\
  db' = db <| agent_removal_jobs := <[removal_id r := r]> (agent_removal_jobs db) |>.
Proof. unfold insert_removal. intros. db_inv. by prop_hyps. Qed.

(** A removal starts from a snapshot of its Agent and blocks it.  When
    [create_for_agent] returns, the audit event it is recorded under is a
    pending removal of that Agent, no saga held the Agent, the stored job is
    the pending snapshot of the Agent, nothing else changed, and from then on
    [blocks_usage] answers [True] for the Agent. *)
Theorem removal_captures_and_blocks u agent e local now db j db' :
  db_wf db -> create_for_agent u agent e local now db = (inr j, db') ->
  exists a, agents db !! agent = Some a /\ fence_open db agent None None /\
    removal_audit_pending agent (control_plane_audit_events db !! e) = true /\
    j = new_removal u a e local now /\ removal_agent_id j = agent /\
    agent_removal_jobs db !! u = None /\
    db' = db <| agent_removal_jobs := <[u := j]> (agent_removal_jobs db) |> /\
    blocks_usage agent db' = (inr true, db').
Proof.
  intros W. unfold create_for_agent. intros Hm. tx_inv.
  match goal with Hx : select_agent _ _ _ = inr (?x, _) |- _ =>
    apply select_agent_inr in Hx as (-> & Ha); rename x into a end.
  match goal with Hx : assert_agent_mutation_allowed _ _ _ _ = _ |- _ =>
    apply assert_agent_mutation_allowed_inr in Hx as [-> Hf] end.
  match goal with Hx : insert_removal _ _ = _ |- _ => apply insert_removal_inr in Hx as [Hn ->] end.
  destruct (wf_agents _ W _ _ Ha) as [Eid _]. rewrite Eid in Hf. prop_hyps.
  exists a. split_and!; auto. unfold blocks_usage, query. do 2 f_equal.
  apply exists_where_true. exists u. eexists. split; [apply lookup_insert_eq|].
  apply andb_True_iff. split; by apply bool_decide_eq_true.
Qed.

(** The fleet with a pending audit event for the removal of its Agent. *)
Definition audited_db : DB :=
  fleet_db <| control_plane_audit_events :=
    {[ 7%Z := mkAudit (Some "agent-1") "agents.v2.remove" "agent:agent-1" "pending" "not_dispatched" None ]} |>.

Lemma audited_db_wf : db_wf audited_db.
Proof. destruct fleet_db_wf. by split. Qed.

Definition removal_one : AgentRemovalJob := new_removal uuid_q agent_one 7%Z false 50%Z.

Definition removing_db : DB := (create_for_agent uuid_q "agent-1" 7%Z false 50%Z audited_db).2.

Lemma removal_captures_and_blocks_witness : blocks_usage "agent-1" removing_db = (inr true, removing_db).
Proof.
  destruct (removal_captures_and_blocks uuid_q "agent-1" 7%Z false 50%Z audited_db removal_one
    removing_db audited_db_wf) as (a & _ & _ & _ & _ & _ & _ & _ & Hb).
  - vm_compute. reflexivity.
  - exact Hb.
Defined.

(** ** Phases *)
Lemma transition_spec r phase now code db j db' :
  transition r phase now code db = (inr j, db') ->
  exists q, agent_removal_jobs db !! removal_id r = Some q /\ removal_phase q = removal_phase r /\
    j = enter_phase phase code now r /\
    db' = db <| agent_removal_jobs :=
      <[removal_id r := enter_phase phase code now q]> (agent_removal_jobs db) |>.
Proof.
  unfold transition. cbv zeta. intros Hm. tx_inv.
  match goal with Hx : update_removal _ _ _ _ = _ |- _ => apply update_removal_inr in Hx as (t & E & ->) end.
  apply update_pk_Some in E as [(q & Hq & Hc & _ & -> & _)|(_ & _ & ->)]; [|done].
  prop_hyps. eauto 10.
Qed.

(** Phases move by compare-and-swap.  A transition that returns found the
    removal in the phase the caller had read and stored exactly the new phase,
    error code and time.  A second worker that still holds the old phase is
    then refused with an error and changes nothing, for any phase it wants. *)
Theorem phase_moves_once r phase now code db j db' :
  transition r phase now code db = (inr j, db') -> phase <> removal_phase r ->
  (exists q, agent_removal_jobs db !! removal_id r = Some q /\ removal_phase q = removal_phase r /\
    db' = db <| agent_removal_jobs :=
      <[removal_id r := enter_phase phase code now q]> (agent_removal_jobs db) |>) /\
  (forall phase2 now2 code2, exists e, transition r phase2 now2 code2 db' = (inl e, db')).
Proof.
  intros (q & Hq & Ep & _ & ->)%transition_spec Hne. split; [eauto|]. intros phase2 now2 code2.
  destruct (transition r phase2 now2 code2 _) as [[e|j2] db2] eqn:E.
  - exists e. f_equal. unfold transition in E. cbv zeta in E. unchanged.
  - apply transition_spec in E as (q2 & Hq2 & Ep2 & _).
    apply (f_equal (fmap removal_phase)) in Hq2. cbn in Hq2. rewrite lookup_insert_eq in Hq2.
    cbn in Hq2. injection Hq2 as Hq2. congruence.
Qed.

Lemma phase_moves_once_witness :
  exists e, transition removal_one "revoked" 70%Z None
    (transition removal_one "revoking" 60%Z None removing_db).2 =
    (inl e, (transition removal_one "revoking" 60%Z None removing_db).2).
Proof.
  refine (proj2 (phase_moves_once removal_one "revoking" 60%Z None removing_db
    (enter_phase "revoking" None 60%Z removal_one)
    (transition removal_one "revoking" 60%Z None removing_db).2 _ _) "revoked" 70%Z None).
  - vm_compute. reflexivity.
  - vm_compute. discriminate.
Defined.

(** ** Audit events *)
Lemma update_audit_at e p f db :
  update_audit (fun id a => (id =? e)%Z && p a) f db =
    match control_plane_audit_events db !! e with
    | Some a => if p a then
        inr (1, db <| control_plane_audit_events := <[e := f a]> (control_plane_audit_events db) |>)
        else inr (0, db)
    | None => inr (0, db)
    end.
Proof.
  unfold update_audit. set (t := control_plane_audit_events db).
  assert (Hfilter : filter (fun kr => (kr.1 =? e)%Z && p kr.2 = true) t =
    match t !! e with Some a => if p a then {[e := a]} else ∅ | None => ∅ end).
  { apply map_eq. intros k. apply option_eq. intros a. rewrite map_lookup_filter_Some. cbn.
    rewrite andb_True_iff, Z.eqb_eq. repeat case_match; rewrite ?lookup_singleton_Some, ?lookup_empty;
      naive_solver congruence. }
  assert (Himap : map_imap (fun k r => Some (if (k =? e)%Z && p r then f r else r)) t =
    match t !! e with Some a => if p a then <[e := f a]> t else t | None => t end).
  { apply map_eq. intros k. rewrite map_lookup_imap. destruct (decide (k = e)) as [->|Hne].
    - rewrite Z.eqb_refl. destruct (t !! e) as [a|] eqn:E; [|by rewrite E]. cbn.
      destruct (p a); [by rewrite lookup_insert_eq|by rewrite E].
    - rewrite (proj2 (Z.eqb_neq k e) Hne). cbn.
      destruct (t !! e); [case_match|]; rewrite ?lookup_insert_ne by done; by destruct (t !! k). }
  rewrite Hfilter, Himap. destruct (t !! e) as [a|]; [destruct (p a)|].
  - by rewrite map_size_singleton.
  - rewrite map_size_empty. by destruct db.
  - rewrite map_size_empty. by destruct db.
Qed.

(** The final record of a removal in the audit log. *)
Definition removal_outcome (job : AgentRemovalJob) (success : bool) (a : AuditRow) : AuditRow :=
  finish_audit (if success then "success" else "failed")
    (if removal_local_only job || is_legacy (removal_enrollment_method job)
     then "not_dispatched" else "dispatched")
    (if removal_local_only job then Some "remote_credential_residual" else None) a.

Lemma finalize_audit_cases job success db :
  finalize_audit_if_pending job success db =
    match control_plane_audit_events db !! removal_audit_event_id job with
    | Some a =>
        if bool_decide (audit_result a = "pending") then
          (inr true, db <| control_plane_audit_events :=
             <[removal_audit_event_id job := removal_outcome job success a]>
               (control_plane_audit_events db) |>)
        else (inr false, db)
    | None => (inr false, db)
    end.
Proof.
  unfold finalize_audit_if_pending, write, tx_bind.
  rewrite (update_audit_at (removal_audit_event_id job)
    (fun e => bool_decide (audit_result e = "pending")) (removal_outcome job success)).
  destruct (control_plane_audit_events db !! _) as [a|]; [|done]. by destruct (bool_decide _).
Qed.

(** The audit event of a removal is finalized once.
    [finalize_audit_if_pending] answers [True] exactly when the event is still
    pending; it then stores the outcome and touches no other row, and any later
    finalization, with either outcome, answers [False] and changes nothing. *)
Theorem removal_audit_finalized_once job success db :
  match control_plane_audit_events db !! removal_audit_event_id job with
  | Some a =>
      if bool_decide (audit_result a = "pending") then
        exists db', finalize_audit_if_pending job success db = (inr true, db') /\
          db' = db <| control_plane_audit_events :=
            <[removal_audit_event_id job := removal_outcome job success a]>
              (control_plane_audit_events db) |> /\
          forall success2, finalize_audit_if_pending job success2 db' = (inr false, db')
      else finalize_audit_if_pending job success db = (inr false, db)
  | None => finalize_audit_if_pending job success db = (inr false, db)
  end.
Proof.
  rewrite finalize_audit_cases.
  destruct (control_plane_audit_events db !! removal_audit_event_id job) as [a|]; [|done].
  destruct (bool_decide (audit_result a = "pending")) eqn:Hp; [|done].
  eexists. split_and!; [reflexivity|reflexivity|]. intros success2. rewrite finalize_audit_cases. cbn.
  rewrite lookup_insert_eq. cbn. by destruct success.
Qed.
