(* ===== verification/Paging.v ===== *)
(** * Paging through the registry

    [ManagerRegistryRepository.list] hands out pages in the order of the Agent
    identifiers; following the cursors visits every Agent exactly once. *)

From stdpp Require Import base tactics list gmap strings sorting.
From Stdlib Require Import ZArith Lia Ascii.
From S2P Require Import Prelude Text Sql Models Schema JobValidation MutationFence.
From S2P Require Import EnrollmentJournal ManagerRegistry Samples.

(** ** The bytewise order of texts *)
Lemma compare_ltb s t : String.ltb s t = true <-> String.compare s t = Lt.
Proof. unfold String.ltb. destruct (String.compare s t); naive_solver. Qed.

Lemma compare_refl s : String.compare s s = Eq.
Proof. pose proof (String.compare_antisym s s) as E. by destruct (String.compare s s). Qed.

Lemma ltb_irrefl s : String.ltb s s = false.
Proof. unfold String.ltb. by rewrite compare_refl. Qed.

Lemma ltb_asym s t : String.ltb s t = true -> String.ltb t s = false.
Proof. unfold String.ltb. rewrite (String.compare_antisym s t). by destruct (String.compare t s). Qed.

Lemma leb_cases s t : String.leb s t = true <-> s = t \/ String.ltb s t = true.
Proof.
  unfold String.leb, String.ltb. split.
  - destruct (String.compare s t) eqn:E; [left; by apply String.compare_eq_iff|auto|done].
  - intros [->|Hl]; [by rewrite compare_refl|]. by destruct (String.compare s t).
Qed.

Lemma ascii_compare_N a b : Ascii.compare a b = N.compare (N_of_ascii a) (N_of_ascii b).
Proof. done. Qed.

Lemma ltb_trans s t u : String.ltb s t = true -> String.ltb t u = true -> String.ltb s u = true.
Proof.
  rewrite !compare_ltb. revert t u. induction s as [|a s IH]; intros [|b t] [|c u]; cbn; try done.
  rewrite !ascii_compare_N.
  destruct (N.compare_spec (N_of_ascii a) (N_of_ascii b)) as [E1|L1|G1]; try done;
  destruct (N.compare_spec (N_of_ascii b) (N_of_ascii c)) as [E2|L2|G2]; try done; intros H1 H2.
  - rewrite E1, E2, N.compare_refl. eauto.
  - rewrite E1. by rewrite (proj2 (N.compare_lt_iff _ _) L2).
  - rewrite <- E2. by rewrite (proj2 (N.compare_lt_iff _ _) L1).
  - by rewrite (proj2 (N.compare_lt_iff (N_of_ascii a) (N_of_ascii c))) by lia.
Qed.

#[global] Instance agent_le_trans : Transitive agent_le.
Proof.
  intros a b c. unfold agent_le. rewrite !leb_cases.
  intros [E1|?] [E2|?]; rewrite ?E1, <- ?E2; eauto using ltb_trans.
Qed.

#[global] Instance agent_le_total : Total agent_le.
Proof. intros a b. unfold agent_le. destruct (String.leb_total (agent_id a) (agent_id b)); auto. Qed.

(** ** The order of the pages *)
Definition agent_lt (a b : AgentRecord) : Prop := String.ltb (agent_id a) (agent_id b) = true.

Lemma sorted_strict l :
  NoDup (agent_id <$> l) -> StronglySorted agent_le l -> StronglySorted agent_lt l.
Proof.
  intros Hnd Hs. induction Hs as [|a l Hs IH Hall]; [constructor|].
  cbn in Hnd. apply NoDup_cons in Hnd as [Hno Hnd]. constructor; [auto|].
  apply Forall_forall. intros b Hb. rewrite Forall_forall in Hall. specialize (Hall b Hb).
  unfold agent_le in Hall. apply leb_cases in Hall as [E|]; [|done].
  destruct Hno. apply list_elem_of_fmap. exists b. split; [exact E|done].
Qed.

Lemma agents_nodup db : db_wf db -> NoDup (agent_id <$> (map_to_list (agents db)).*2).
Proof.
  intros W. assert (Hk : agent_id <$> (map_to_list (agents db)).*2 = (map_to_list (agents db)).*1).
  { rewrite <- list_fmap_compose. apply list_fmap_ext. intros i [k a] Hi. cbn.
    apply list_elem_of_lookup_2, elem_of_map_to_list in Hi. by apply (wf_agents _ W) in Hi as [? _]. }
  rewrite Hk. apply NoDup_fst_map_to_list.
Qed.

Lemma sorted_agents_strict db : db_wf db -> StronglySorted agent_lt (sorted_agents db).
Proof.
  intros W. apply sorted_strict; [|apply (StronglySorted_merge_sort agent_le)].
  unfold sorted_agents. rewrite (merge_sort_Permutation agent_le). by apply agents_nodup.
Qed.

(** The rows after a row of the list are those behind it. *)
Lemma after_none (l : list AgentRecord) : filter (fun a => after_cursor None a = true) l = l.
Proof. induction l as [|a l IH]; [done|]. rewrite filter_cons_True by done. by rewrite IH. Qed.

Lemma after_some l1 x l2 :
  StronglySorted agent_lt (l1 ++ x :: l2) ->
  filter (fun a => after_cursor (Some (agent_id x)) a = true) (l1 ++ x :: l2) = l2.
Proof.
  intros Hs. rewrite filter_app. rewrite filter_cons_False by (cbn; by rewrite ltb_irrefl).
  assert (H1 : filter (fun a => after_cursor (Some (agent_id x)) a = true) l1 = []).
  { induction l1 as [|a l1 IH]; [done|]. inversion_clear Hs as [|? ? Hs' Hall].
    rewrite filter_cons_False; [auto|]. cbn. apply Forall_app in Hall as [_ Hall].
    inversion_clear Hall as [|? ? Hax _]. rewrite (ltb_asym _ _ Hax). done. }
  rewrite H1. cbn. clear H1. induction l1 as [|a l1 IH]; inversion_clear Hs as [|? ? Hs' Hall]; [|auto].
  clear Hs'. induction Hall as [|b l2 Hb Hall IH]; [done|].
  rewrite filter_cons_True by exact Hb. by rewrite IH.
Qed.

(** ** Following the cursors *)

(** A client that asks for pages until there is no next cursor. *)
Fixpoint walk (fuel : nat) (limit : Z) (cursor : option string) (db : DB)
    : option (list AgentRecord) :=
  match fuel with
  | 0 => None
  | S fuel =>
      match registry_list (mkQuery limit cursor) db with
      | (inr page, _) =>
          match page_next_cursor page with
          | None => Some (page_items page)
          | Some c => app (page_items page) <$> walk fuel limit (Some c) db
          end
      | (inl _, _) => None
      end
  end.

(** The page that starts the rest [l] of the registry. *)
Lemma registry_list_page limit cursor db l :
  (1 <= limit <= 1000)%Z -> filter (fun a => after_cursor cursor a = true) (sorted_agents db) = l ->
  registry_list (mkQuery limit cursor) db =
    (inr (mkPage (take (Z.to_nat limit) l)
           (if Z.to_nat limit <? length l then agent_id <$> last (take (Z.to_nat limit) l) else None)),
     db).
Proof.
  intros Hl Ef. unfold registry_list, checked, query, select_page. cbn [query_limit query_cursor].
  rewrite (proj2 (Z.leb_le 1 limit)), (proj2 (Z.leb_le limit 1000)), Ef by lia. cbn [require andb].
  rewrite take_take, Nat.min_l, length_take by lia. do 4 f_equal.
  destruct (Nat.ltb_spec (Z.to_nat limit) (length l)), (Nat.ltb_spec (Z.to_nat limit)
    ((Z.to_nat limit + 1) `min` length l)); done || lia.
Qed.

Lemma walk_rest fuel limit cursor db l1 l :
  db_wf db -> (1 <= limit <= 1000)%Z -> sorted_agents db = l1 ++ l ->
  filter (fun a => after_cursor cursor a = true) (sorted_agents db) = l -> length l < fuel ->
  walk fuel limit cursor db = Some l.
Proof.
  intros W Hl. revert cursor l1 l. induction fuel as [|fuel IH]; intros cursor l1 l El Ef Hf; [lia|].
  cbn [walk]. rewrite (registry_list_page limit cursor db l Hl Ef). cbn [page_next_cursor page_items].
  set (n := Z.to_nat limit). destruct (Nat.ltb_spec n (length l)) as [Hn|Hn].
  - destruct (last (take n l)) as [x|] eqn:Ex.
    + apply last_Some in Ex as [l0 Ex].
      assert (Hs : sorted_agents db = (l1 ++ l0) ++ x :: drop n l).
      { rewrite El, <- (take_drop n l) at 1. rewrite Ex. by rewrite <- !app_assoc. }
      change (app (take n l) <$> walk fuel limit (Some (agent_id x)) db = Some l).
      rewrite (IH (Some (agent_id x)) ((l1 ++ l0) ++ [x]) (drop n l)).
      * cbn. by rewrite take_drop.
      * by rewrite Hs, <- !app_assoc.
      * rewrite Hs, after_some; [done|]. rewrite <- Hs. by apply sorted_agents_strict.
      * rewrite length_drop. unfold n in *. lia.
    + apply last_None in Ex. apply (f_equal length) in Ex. rewrite length_take in Ex.
      cbn in Ex. unfold n in *. lia.
  - by rewrite take_ge.
Qed.

(** C19: paging is complete.  A client that follows the cursors from the start,
    with any page size the API accepts, terminates within one request per
    Agent plus one and has received every registered Agent exactly once, in
    the order of the identifiers. *)
Theorem paging_visits_every_agent_once db limit :
  db_wf db -> (1 <= limit <= 1000)%Z ->
  exists l, walk (S (size (agents db))) limit None db = Some l /\
    l ≡ₚ (map_to_list (agents db)).*2 /\ StronglySorted agent_lt l /\ NoDup (agent_id <$> l).
Proof.
  intros W Hl. exists (sorted_agents db).
  assert (Hp : sorted_agents db ≡ₚ (map_to_list (agents db)).*2) by exact (merge_sort_Permutation agent_le _).
  split_and!; [|done|by apply sorted_agents_strict|rewrite Hp; by apply agents_nodup].
  apply (walk_rest _ _ _ _ []); [done|done|done|apply after_none|].
  rewrite Hp, length_fmap, length_map_to_list. lia.
Qed.

Lemma paging_visits_every_agent_once_witness :
  exists l, walk 2 1%Z None fleet_db = Some l /\ l ≡ₚ (map_to_list (agents fleet_db)).*2 /\
    StronglySorted agent_lt l /\ NoDup (agent_id <$> l).
Proof. apply (paging_visits_every_agent_once fleet_db 1%Z fleet_db_wf). lia. Defined.
