(* ===== verification/JobsClaims.v ===== *)
(** * What the enrollment job service guarantees

    The theorems about [EnrollmentJobs]: creation, reading with expiry,
    cancellation, saving, and the interleaving in which saving undoes a
    concurrent claim. *)

From stdpp Require Import base tactics list gmap strings.
From Stdlib Require Import ZArith Lia.
From S2P Require Import Prelude Text Sql Digest Models Schema JobValidation MutationFence.
From S2P Require Import EnrollmentJournal ManagerRegistry EnrollmentJobs Samples Lifecycle.
From S2P Require Import JournalProperties.

(** ** Writing a job back *)
Lemma replace_unfenced_inr job x db j db' :
  replace_if_state job x no_fence db = (inr j, db') ->
  exists r, agent_enrollment_jobs db !! job_enrollment_id job = Some r /\
    job_state (row_job r) = x /\ j = job /\ valid_job job = true /\
    allowed_transition x (job_state job) = true /\
    db' = db <| agent_enrollment_jobs :=
      <[job_enrollment_id job := on_job (fun _ => job) r]> (agent_enrollment_jobs db) |>.
Proof.
  unfold replace_if_state. intros Hm. tx_inv.
  match goal with H : update_job _ _ _ _ = _ |- _ => apply update_job_inr in H as (t & E & ->) end.
  apply update_pk_Some in E as [(r & Hr & Hc & _ & -> & _)|(_ & _ & ->)]; [|done].
  match goal with H : validate_job _ = _ |- _ => apply validate_job_inr in H end.
  clauses. exists r. split_and!; auto.
Qed.

(** The converse: a valid job is stored when the row is in the expected state. *)
Lemma replace_unfenced_ok job x db r :
  agent_enrollment_jobs db !! job_enrollment_id job = Some r -> job_state (row_job r) = x ->
  valid_job job = true -> allowed_transition x (job_state job) = true ->
  job_row_ok (agents db) (on_job (fun _ => job) r) = true ->
  replace_if_state job x no_fence db =
    (inr job, db <| agent_enrollment_jobs :=
      <[job_enrollment_id job := on_job (fun _ => job) r]> (agent_enrollment_jobs db) |>).
Proof.
  intros Hr Hs Hv Ha Hok. unfold replace_if_state.
  rewrite (checked_ok _ _ _ (proj2 (validate_job_inr job) Hv)), Ha, !checked_ok by done.
  apply write_inr. unfold tx_bind, update_job, update_pk. rewrite Hr.
  unfold state_is, fence_clause, no_fence. cbn [fence_owner]. rewrite bool_decide_true by done.
  cbn [andb]. unfold tx_bind. rewrite Hok. done.
Qed.

Lemma replace_unfenced_conflict job x db db' q :
  replace_if_state job x no_fence db = (inl RevisionConflict, db') ->
  agent_enrollment_jobs db !! job_enrollment_id job = Some q -> job_state (row_job q) <> x.
Proof.
  unfold replace_if_state, checked, validate_job, require, write, tx_bind, update_job, update_pk.
  intros E Hq Hs. rewrite Hq in E. unfold state_is, fence_clause, no_fence in E. cbn [fence_owner] in E.
  rewrite bool_decide_true in E by done. cbn [andb] in E. unfold tx_bind in E.
  destruct (valid_job job); [|discriminate E].
  destruct (allowed_transition x (job_state job)); [|discriminate E]. cbn [fence_valid fence_owner] in E.
  destruct (job_row_ok _ _); discriminate E.
Qed.

(** ** Creation *)

(** A created enrollment starts clean.  A job returned by [create] is the
    request with the service's manager identity, expires after the configured
    TTL, holds no credential, claim or saved flag, is the stored row, and is
    within the configured capacity. *)
Theorem created_enrollment_starts_clean s request id uuid4 now state db j db' :
  request_discovery_result_id request = None ->
  jobs_create s request id uuid4 now state db = (inr j, db') ->
  j = new_job s request (default uuid4 id) None state now /\
  job_expires_at j = (now + seconds (jobs_pending_ttl_seconds s))%Z /\
  job_save_requested j = false /\ job_recovery_owner j = None /\ job_credential_temp_ref j = None /\
  agent_enrollment_jobs db !! job_enrollment_id j = None /\
  agent_enrollment_jobs db' !! job_enrollment_id j = Some (mkJobRow j None) /\
  (active_count db' <= jobs_max_active s)%Z.
Proof.
  intros Hd. unfold jobs_create, call. rewrite Hd. intros E. case_match eqn:Em. case_match; simplify_eq.
  apply create_with_capacity_spec in Em as (-> & _ & Hc & _ & Hn & Hl). split_and!; try done.
  rewrite Hl. by rewrite decide_True.
Qed.

Definition service : EnrollmentJobs := mkJobs uuid_m 600%Z 4%Z 86400%Z.

Definition request_auto : EnrollmentJobRequest :=
  mkRequest "http://agent-1:8765" "plain" (Some "agent one") (Some "root") (Some "10.0.0.7")
    (Some 22%Z) SSH_AUTO None None.

Lemma created_enrollment_starts_clean_witness :
  (active_count (jobs_create service request_auto (Some "job-9") uuid_q 5%Z PENDING empty_db).2 <= 4)%Z.
Proof.
  apply (created_enrollment_starts_clean service request_auto (Some "job-9") uuid_q 5%Z PENDING empty_db
    (new_job service request_auto "job-9" None PENDING 5%Z)); vm_compute; reflexivity.
Defined.

(** ** Reading *)

(** Reading a job expires it.  [get] answers the stored job as it is
    when it has not timed out.  When it has, the answer is the job expired with
    its claim and CLI columns released, and that is what is stored; only if
    another connection changed the job's state in between is the answer what
    that connection left. *)
Theorem reading_expires_timed_out_job other id now db j db' :
  db_wf db -> jobs_get other id now db = (inr j, db') ->
  exists r, agent_enrollment_jobs db !! id = Some r /\
    if due now (row_job r) then
      (j = end_job EXPIRED now (row_job r) /\ due now j = false /\
       row_job <$> agent_enrollment_jobs db' !! id = Some j) \/
      ((forall q, agent_enrollment_jobs (other 0 db) !! id = Some q ->
          job_state (row_job q) <> job_state (row_job r)) /\
       db' = other 1 (other 0 db) /\
       j = from_option row_job (row_job r) (agent_enrollment_jobs db' !! id))
    else j = row_job r /\ db' = db.
Proof.
  intros W. unfold jobs_get. destruct (agent_enrollment_jobs db !! id) as [r|] eqn:Hr; [|done].
  intros E. exists r. split; [done|]. destruct (due now (row_job r)) eqn:Hd; [|by simplify_eq].
  destruct (wf_jobs _ W _ _ Hr) as [Hid _].
  change (job_enrollment_id (end_job EXPIRED now (row_job r)) = id) in Hid.
  destruct (replace_if_state _ _ _ _) as [[e|j'] db1] eqn:Em.
  - right. destruct e; try discriminate E. injection E as <- <-.
    assert (Hu : db1 = other 0 db) by (unfold replace_if_state in Em; unchanged). subst db1.
    split_and!; [|done|done]. intros q Hq. eapply replace_unfenced_conflict; [exact Em|].
    by rewrite Hid.
  - left. injection E as <- <-. apply replace_unfenced_inr in Em as (q & Hq & _ & -> & _ & _ & ->).
    split_and!; [done|done|].
    rewrite Hid. cbn. by rewrite lookup_insert_eq.
Qed.

Definition stored_job (db : DB) (id : string) : option EnrollmentJob :=
  row_job <$> agent_enrollment_jobs db !! id.

Lemma reading_expires_timed_out_job_witness :
  exists r, agent_enrollment_jobs (jobs_db [job_cli]) !! "job-cli" = Some r /\
    due 2000%Z (row_job r) = true.
Proof.
  destruct (reading_expires_timed_out_job (fun _ db => db) "job-cli" 2000%Z (jobs_db [job_cli])
    (end_job EXPIRED 2000%Z job_cli) (jobs_db [end_job EXPIRED 2000%Z job_cli])) as (r & Hr & Hd).
  - exact jobs_db_wf_cli.
  - vm_compute. reflexivity.
  - exists r. split; [exact Hr|]. vm_compute in Hr. injection Hr as <-. reflexivity.
Defined.

(** ** Cancelling and saving *)

(** Whatever [get] answers is a job stored under its identifier or the job
    that was read first. *)
Lemma call_inr {A} h (m : Method A) db a db' :
  call h m db = (inr a, db') -> m db = (inr a, db').
Proof. unfold call. destruct (m db) as [[e|b] db1]; naive_solver. Qed.

(** Cancellation is a guarded, fencing write.  When [cancel] returns, the
    job it had read could still be cancelled, the stored row was still in that
    state, and the row now is that job cancelled, without claim or CLI columns
    and with the revision above the one that was read, so that a holder of the
    old claim is fenced off. *)
Theorem cancel_ends_and_fences other id now db j db' :
  jobs_cancel other id now db = (inr j, db') ->
  exists job db1 r, jobs_get other id now db = (inr job, db1) /\ expirable (job_state job) = true /\
    agent_enrollment_jobs (other 2 db1) !! job_enrollment_id job = Some r /\
    job_state (row_job r) = job_state job /\
    j = end_job CANCELLED now job /\ job_recovery_owner j = None /\
    job_cli_resume_nonce j = None /\ job_recovery_revision j = (job_recovery_revision job + 1)%Z /\
    stored_job db' (job_enrollment_id job) = Some j.
Proof.
  unfold jobs_cancel. destruct (jobs_get other id now db) as [[e|job] db1]; [done|].
  case_match; [done|]. case_match eqn:He; [done|]. intros E%call_inr.
  apply replace_unfenced_inr in E as (r & Hr & Hs & -> & _ & _ & ->).
  apply negb_false_iff in He. exists job, db1, r. split_and!; try done.
  unfold stored_job. cbn. by rewrite lookup_insert_eq.
Qed.

Lemma cancel_ends_and_fences_witness :
  exists j, stored_job (jobs_cancel (fun _ db => db) "job-cli" 500%Z (jobs_db [job_cli])).2 "job-cli" = Some j /\
    job_recovery_owner j = None.
Proof.
  destruct (cancel_ends_and_fences (fun _ db => db) "job-cli" 500%Z (jobs_db [job_cli])
    (end_job CANCELLED 500%Z job_cli)
    (jobs_cancel (fun _ db => db) "job-cli" 500%Z (jobs_db [job_cli])).2)
    as (job & db1 & r & Hg & _ & _ & _ & Hj & Ho & _ & _ & Hst).
  - vm_compute. reflexivity.
  - exists (end_job CANCELLED 500%Z job_cli). split; [vm_compute; reflexivity|exact Ho].
Defined.

(** What saving has checked.  When [consume] returns and nobody else wrote
    in between, the job was VERIFIED and in time, the caller's fingerprint is
    the fingerprint of the job's inputs, and the row now is the job with the
    activation requested under the given name. *)
Theorem consume_checks_inputs id name fp now db j db' :
  db_wf db -> jobs_consume (fun _ db => db) id name fp now db = (inr j, db') ->
  exists r, agent_enrollment_jobs db !! id = Some r /\ job_state (row_job r) = VERIFIED /\
    (now < job_expires_at (row_job r))%Z /\ fp = job_input_fingerprint (row_job r) /\
    j = request_activation name now (row_job r) /\ stored_job db' id = Some j.
Proof.
  intros W. unfold jobs_consume, jobs_get.
  destruct (agent_enrollment_jobs db !! id) as [r|] eqn:Hr; [|done].
  destruct (wf_jobs _ W _ _ Hr) as [Hid _]. destruct (due now (row_job r)) eqn:Hd.
  - destruct (replace_if_state _ _ _ _) as [[e|j1] db1] eqn:Em.
    + destruct e; try done. assert (Hs : job_state (row_job r) <> job_state (row_job r)); [|done].
      eapply replace_unfenced_conflict; [exact Em|]. by rewrite <- Hr, <- Hid.
    + apply replace_unfenced_inr in Em as (_ & _ & _ & -> & _). done.
  - do 2 (case_match; [done|]). case_match eqn:Hv; [done|]. case_match eqn:Hfp; [done|].
    intros E%call_inr. apply replace_unfenced_inr in E as (q & Hq & _ & -> & _ & _ & ->).
    prop_hyps. apply dec_stable in Hv, Hfp. unfold due in Hd. rewrite Hv in Hd. cbn in Hd. prop_hyps.
    exists r. split_and!; try done. unfold stored_job. cbn.
    change (row_job <$> <[job_enrollment_id (row_job r) :=
      on_job (fun _ => request_activation name now (row_job r)) q]> (agent_enrollment_jobs db) !! id =
      Some (request_activation name now (row_job r))). rewrite Hid. by rewrite lookup_insert_eq.
Qed.

Lemma jobs_db_wf_verified : db_wf (jobs_db [job_verified]).
Proof.
  assert (Hi : insert_job job_verified empty_db = inr (tt, jobs_db [job_verified]))
    by (vm_compute; reflexivity).
  exact (insert_job_wf job_verified empty_db tt _ empty_db_wf Hi).
Qed.

Definition fp_verified : string := job_input_fingerprint job_verified.

Lemma consume_checks_inputs_witness :
  stored_job (jobs_consume (fun _ db => db) "job-1" "agent one" fp_verified 20%Z
    (jobs_db [job_verified])).2 "job-1" = Some (request_activation "agent one" 20%Z job_verified).
Proof.
  destruct (consume_checks_inputs "job-1" "agent one" fp_verified 20%Z (jobs_db [job_verified])
    (request_activation "agent one" 20%Z job_verified)
    (jobs_consume (fun _ db => db) "job-1" "agent one" fp_verified 20%Z (jobs_db [job_verified])).2
    jobs_db_wf_verified) as (r & _ & _ & _ & _ & _ & Hs).
  - vm_compute. reflexivity.
  - exact Hs.
Defined.

(** ** Saving undoes a concurrent claim *)

(** Another process claims the job between the read and the write of
    [consume]. *)
Definition claim_between (id owner : string) (now : time) (lease : Z) (n : nat) (db : DB) : DB :=
  if n =? 2 then (claim_recovery id owner now lease db).2 else db.

(** [consume] writes back the claim columns it has read.  If a recovery
    process claims the job between the two transactions of [consume], the save
    still succeeds, the claim and its revision are overwritten with the older
    ones, and the next claim is given the same token as the lost one: two
    holders then present the same token. *)
Theorem consume_reuses_fence_token id owner now lease name fp db c db1 j db2 owner2 now2 lease2 c2 db3 :
  db_wf db -> claim_recovery id owner now lease db = (inr (Some c), db1) ->
  jobs_consume (claim_between id owner now lease) id name fp now db = (inr j, db2) ->
  claim_recovery id owner2 now2 lease2 db2 = (inr (Some c2), db3) ->
  stored_job db1 id = Some c /\ job_recovery_owner c = Some owner /\
  (exists r, agent_enrollment_jobs db !! id = Some r /\
     job_recovery_owner j = job_recovery_owner (row_job r)) /\
  (job_recovery_revision j < job_recovery_revision c)%Z /\
  job_recovery_revision c2 = job_recovery_revision c.
Proof.
  intros W Hc Hj Hc2.
  destruct (claim_recovery_spec _ _ _ _ _ _ _ Hc) as (r & Hr & Hd & _ & _ & -> & ->).
  destruct (wf_jobs _ W _ _ Hr) as [Hid _].
  unfold jobs_consume, jobs_get in Hj. rewrite Hr, Hd in Hj.
  do 4 (case_match; [done|]). apply call_inr in Hj. unfold claim_between in Hj. cbn [Nat.eqb] in Hj.
  rewrite Hc in Hj. apply replace_unfenced_inr in Hj as (q & Hq & _ & -> & _ & _ & ->).
  destruct (claim_recovery_spec _ _ _ _ _ _ _ Hc2) as (r2 & Hr2 & _ & _ & _ & -> & _).
  change (agent_enrollment_jobs (?d <| agent_enrollment_jobs := ?t |>)) with t in Hr2.
  change (job_enrollment_id (request_activation name now (row_job r)))
    with (job_enrollment_id (row_job r)) in Hr2.
  rewrite Hid, lookup_insert_eq in Hr2. simplify_eq.
  split_and!; [|done|by eauto| |done].
  2: { change (job_recovery_revision (row_job r) < job_recovery_revision (row_job r) + 1)%Z. lia. }
  unfold stored_job. cbn. by rewrite lookup_insert_eq.
Qed.

Definition consumed_over_claim : DB :=
  (jobs_consume (claim_between "job-1" uuid_p 20%Z 60%Z) "job-1" "agent one" fp_verified 20%Z
    (jobs_db [job_verified])).2.

Lemma consume_reuses_fence_token_witness :
  job_recovery_revision (take_claim uuid_q 30%Z 60%Z (request_activation "agent one" 20%Z job_verified)) =
  job_recovery_revision (take_claim uuid_p 20%Z 60%Z job_verified).
Proof.
  refine (proj2 (proj2 (proj2 (proj2 (consume_reuses_fence_token "job-1" uuid_p 20%Z 60%Z "agent one"
    fp_verified (jobs_db [job_verified]) (take_claim uuid_p 20%Z 60%Z job_verified)
    (claim_recovery "job-1" uuid_p 20%Z 60%Z (jobs_db [job_verified])).2
    (request_activation "agent one" 20%Z job_verified) consumed_over_claim uuid_q 30%Z 60%Z
    (take_claim uuid_q 30%Z 60%Z (request_activation "agent one" 20%Z job_verified))
    (claim_recovery "job-1" uuid_q 30%Z 60%Z consumed_over_claim).2 jobs_db_wf_verified _ _ _)))));
    vm_compute; reflexivity.
Defined.
