(* ===== verification/DiscoveryClaims.v ===== *)
(** * What the discovery repository guarantees

    The theorems about [DiscoveryRepository]: consistent tables under every
    history of calls, recovery after a restart, and clean-up that spares what
    an enrollment still needs. *)

From stdpp Require Import base tactics list gmap strings sorting.
From Stdlib Require Import ZArith Lia.
From S2P Require Import Prelude Text Sql Models Schema JobValidation MutationFence.
From S2P Require Import EnrollmentJournal ManagerRegistry RemovalJournal Discovery Samples Lifecycle.
From S2P Require Import DiscoveryInvariant.

(** Two audit events of starts, and scans that were started and claimed. *)
Definition scan_audit (result : string) : AuditRow :=
  mkAudit None "discovery.start" "discovery:lab" result "not_dispatched" None.

Definition target_a : DiscoveryTarget := mkTarget "10.0.0.7" 8765%Z "plain" "http".

Definition audits_db : DB :=
  empty_db <| control_plane_audit_events :=
    {[ 1%Z := scan_audit "failed"; 2%Z := scan_audit "pending" ]} |>.

Lemma audits_db_wf : db_wf audits_db /\ discovery_wf audits_db.
Proof. split; [split; cbn; intros *; rewrite lookup_empty; done|by apply empty_discovery_wf]. Qed.

Definition scans_db : DB :=
  discovery_run (CallClaim "scan-1" 1%Z)
    (discovery_run (CallStart "scan-2" "lab" 2 2 0%Z 60 4)
      (discovery_run (CallStart "scan-1" "lab" 2 1 0%Z 60 4) audits_db)).

Lemma scans_db_wf : discovery_wf scans_db.
Proof. repeat apply discovery_run_dw. apply audits_db_wf. Qed.

(** ** Invariant *)

(** C22: the discovery tables stay consistent.  Whatever calls of the discovery
    repository and of the three other repositories commit, in whatever order:
    the counters of every discovery job are exactly the numbers of its stored
    results and of those found, within its number of targets; a target has one
    result per job; every result belongs to a stored job and every job to its
    own audit event; a job that has ended has its time of completion; and the
    rest of the manager database stays well formed. *)
Theorem discovery_tables_invariant `{UrlLib} cs db :
  db_wf db -> discovery_wf db ->
  db_wf (system_run cs db) /\ discovery_wf (system_run cs db).
Proof.
  revert db. induction cs as [|c cs IH]; intros db W D; [done|]. apply IH; destruct c.
  - by apply run_wf.
  - by apply discovery_run_wf.
  - by apply run_dw.
  - by apply discovery_run_dw.
Qed.

Lemma discovery_tables_invariant_witness :
  let db := system_run
    [Discover (CallStart "scan-1" "lab" 2 1 0%Z 60 4); Discover (CallClaim "scan-1" 1%Z);
     Discover (CallRecord "res-1" "scan-1" target_a (Some "v1") None 2%Z);
     Discover (CallFinish "scan-1" D_COMPLETED 3%Z None)] audits_db in
  discovery_wf db /\
  (discovery_found_targets <$> discovery_jobs db !! "scan-1") = Some 1%Z.
Proof.
  split; [|vm_compute; reflexivity].
  apply discovery_tables_invariant; apply audits_db_wf.
Defined.

(** ** Recovery *)

(** What [recover] does to one job. *)
Definition recovered (now : time) (d : DiscoveryJob) : DiscoveryJob :=
  if discovery_active d then
    if discovery_cancel_requested d then end_discovery D_CANCELLED now d
    else if overdue now d then time_out now d
    else if discovery_is D_RUNNING d then enter_discovery D_QUEUED now d else d
  else d.

Lemma elem_select cond db d :
  discovery_wf db ->
  d ∈ select_discoveries cond db <->
  discovery_jobs db !! discovery_job_id d = Some d /\ cond d = true.
Proof.
  intros W. unfold select_discoveries. rewrite list_elem_of_filter, list_elem_of_fmap. split.
  - intros [Hc ([k d'] & -> & Hd)]. apply elem_of_map_to_list in Hd. cbn in *.
    by destruct (dw_job _ W k d' Hd) as (-> & _).
  - intros [Hd Hc]. split; [done|]. exists (discovery_job_id d, d).
    by rewrite elem_of_map_to_list.
Qed.

Lemma update_discoveries_ok db cond f :
  discovery_wf db -> keeps_identity f ->
  update_discoveries cond f db =
  inr (tt, db <| discovery_jobs := (fun d => if cond d then f d else d) <$> discovery_jobs db |>).
Proof.
  intros W Hf. unfold update_discoveries, tx_bind, update_all. rewrite bool_decide_true; [done|].
  intros k d Hd _. rewrite keeps_check by done. by destruct (dw_job _ W k d Hd) as (_ & ? & _).
Qed.

Definition stored (db : DB) (d : DiscoveryJob) : Prop :=
  discovery_jobs db !! discovery_job_id d = Some d.

(** The table after an UPDATE of the whole table. *)
Definition mapped (f : DiscoveryJob -> DiscoveryJob) (db : DB) : DB :=
  db <| discovery_jobs := fmap f (discovery_jobs db) |>.

Lemma mapped_wf (cond : DiscoveryJob -> bool) f db :
  discovery_wf db -> keeps_identity f ->
  discovery_wf (mapped (fun d => if cond d then f d else d) db).
Proof.
  intros W Hf. apply (update_discoveries_dw cond f Hf db tt); [done|]. by apply update_discoveries_ok.
Qed.

Lemma enter_queued_keeps now : keeps_identity (enter_discovery D_QUEUED now).
Proof. intros d. split_and!; done. Qed.

Lemma stored_mapped (f : DiscoveryJob -> DiscoveryJob) db d :
  (forall d, discovery_job_id (f d) = discovery_job_id d) ->
  discovery_wf db ->
  stored (mapped f db) d <-> exists d0, stored db d0 /\ d = f d0.
Proof.
  intros Hf W. unfold stored, mapped. cbn. rewrite lookup_fmap, fmap_Some. split.
  - intros (d0 & Hd0 & E). exists d0. split; [|done].
    by destruct (dw_job _ W _ _ Hd0) as (-> & _).
  - intros (d0 & Hd0 & ->). exists d0. by rewrite Hf.
Qed.

Lemma recovered_id now d : discovery_job_id (recovered now d) = discovery_job_id d.
Proof.
  unfold recovered. destruct (discovery_active d); [|done].
  destruct (discovery_cancel_requested d); [done|].
  destruct (overdue now d); [done|]. by destruct (discovery_is D_RUNNING d).
Qed.

(** The three UPDATEs of [recover], one after the other. *)
Lemma recovered_steps now d :
  let cancel d := if discovery_active d && discovery_cancel_requested d
                  then end_discovery D_CANCELLED now d else d in
  let requeue d := if discovery_is D_RUNNING d && negb (discovery_cancel_requested d) && negb (overdue now d)
                   then enter_discovery D_QUEUED now d else d in
  let expire d := if discovery_active d && negb (discovery_cancel_requested d) && overdue now d
                  then time_out now d else d in
  expire (requeue (cancel d)) = recovered now d.
Proof.
  cbv zeta beta. unfold recovered, discovery_is, overdue, discovery_active.
  destruct d as [? ? s ? ? ? c ? ? dl ? ? ? ?]; destruct s, c; cbn; try done;
    rewrite ?(bool_decide_true (D_RUNNING = D_RUNNING)) by done;
    destruct (dl <=? now)%Z eqn:E; cbn; rewrite ?E; done.
Qed.

Lemma recover_runs now db :
  discovery_wf db ->
  let db' := mapped (recovered now) db in
  exists cancelled expired,
  recover now db =
    (inr (merge_sort created_le (select_discoveries
            (fun d => discovery_is D_QUEUED d && negb (discovery_cancel_requested d)) db'),
          (end_discovery D_CANCELLED now <$> cancelled) ++ (time_out now <$> expired)), db') /\
  discovery_wf db' /\
  (forall d, d ∈ cancelled <->
     stored db d /\ discovery_active d && discovery_cancel_requested d = true) /\
  (forall d, d ∈ expired <->
     stored db d /\ discovery_active d && negb (discovery_cancel_requested d) && overdue now d = true).
Proof.
  intros W db'. unfold recover, write, tx_bind, reads.
  rewrite update_discoveries_ok by (done || apply end_discovery_keeps).
  set (cancel := fun d => if discovery_active d && discovery_cancel_requested d then _ else d).
  change (db <| discovery_jobs := _ |>) with (mapped cancel db).
  assert (W1 : discovery_wf (mapped cancel db)) by (apply mapped_wf; [done|apply end_discovery_keeps]).
  rewrite update_discoveries_ok by (done || apply enter_queued_keeps).
  set (requeue := fun d => if discovery_is D_RUNNING d && _ && _ then _ else d).
  change ((mapped cancel db) <| discovery_jobs := _ |>) with (mapped requeue (mapped cancel db)).
  assert (W2 : discovery_wf (mapped requeue (mapped cancel db)))
    by (apply mapped_wf; [done|apply enter_queued_keeps]).
  rewrite update_discoveries_ok by (done || apply time_out_keeps).
  set (expire := fun d => if discovery_active d && _ && _ then _ else d).
  change ((mapped requeue (mapped cancel db)) <| discovery_jobs := _ |>)
    with (mapped expire (mapped requeue (mapped cancel db))).
  assert (E : mapped expire (mapped requeue (mapped cancel db)) = db').
  { refine (f_equal (fun t => db <| discovery_jobs := t |>)
      (_ : expire <$> (requeue <$> (cancel <$> discovery_jobs db)) = recovered now <$> discovery_jobs db)).
    rewrite <- !map_fmap_compose. apply map_fmap_ext. intros k d _. apply recovered_steps. }
  assert (W3 : discovery_wf db') by (rewrite <- E; apply mapped_wf; [done|apply time_out_keeps]).
  rewrite E. do 2 eexists. split_and!; [done|done|intros d; by apply elem_select|].
  intros d. rewrite elem_select by done. fold (stored (mapped cancel db) d).
  rewrite stored_mapped; [|intros d0; unfold cancel; by destruct (_ && _)|done].
  split.
  - intros [(d0 & Hd0 & ->) Hc]. revert Hc. unfold cancel. destruct (discovery_active d0 && _) eqn:Ec; [|by auto].
    cbn. discriminate.
  - intros [Hd Hc]. split; [|done]. exists d. split; [done|]. unfold cancel.
    destruct (discovery_active d && discovery_cancel_requested d) eqn:Ec; [|done]. prop_hyps. congruence.
Qed.

Lemma recovered_not_running now d : discovery_state (recovered now d) <> D_RUNNING.
Proof.
  unfold recovered. destruct (discovery_active d) eqn:Ea.
  - destruct (discovery_cancel_requested d); [done|]. destruct (overdue now d); [done|].
    destruct (discovery_is D_RUNNING d) eqn:Er; [done|]. unfold discovery_is in Er. by prop_hyps.
  - intros Er. unfold discovery_active in Ea. by rewrite Er in Ea.
Qed.

(** A job that is still active has no cancellation request and time left. *)
Lemma recovered_active now d :
  discovery_active (recovered now d) = true ->
  discovery_active d = true /\ discovery_cancel_requested (recovered now d) = false /\
  (now < discovery_deadline_at (recovered now d))%Z.
Proof.
  unfold recovered. destruct (discovery_active d) eqn:Ea; [|congruence].
  destruct (discovery_cancel_requested d) eqn:Ec; [done|].
  destruct (overdue now d) eqn:Eo; [done|]. unfold overdue in Eo. apply Z.leb_gt in Eo.
  destruct (discovery_is D_RUNNING d); cbn; auto.
Qed.

(** The jobs that [recover] ends. *)
Lemma recovered_cancels now d :
  discovery_active d && discovery_cancel_requested d = true ->
  recovered now d = end_discovery D_CANCELLED now d.
Proof. unfold recovered. intros ?. prop_hyps. by repeat match goal with H : _ = true |- _ => rewrite H end. Qed.

Lemma recovered_expires now d :
  discovery_active d && negb (discovery_cancel_requested d) && overdue now d = true ->
  recovered now d = time_out now d.
Proof.
  unfold recovered. intros H. apply andb_True_iff in H as [[Ha Hc%negb_true_iff]%andb_True_iff Ho].
  by rewrite Ha, Hc, Ho.
Qed.

Lemma recovered_ends now d :
  discovery_active d = true -> discovery_active (recovered now d) = false ->
  discovery_active d && discovery_cancel_requested d = true \/
  discovery_active d && negb (discovery_cancel_requested d) && overdue now d = true.
Proof.
  unfold recovered. intros Ea. rewrite Ea.
  destruct (discovery_cancel_requested d); [by left|].
  destruct (overdue now d); [by right|]. destruct (discovery_is D_RUNNING d); cbn; congruence.
Qed.

Lemma claim_queued db d t :
  discovery_wf db -> stored db d -> discovery_state d = D_QUEUED ->
  discovery_cancel_requested d = false ->
  let db1 := db <| discovery_jobs :=
    <[discovery_job_id d := enter_discovery D_RUNNING t d]> (discovery_jobs db) |> in
  claim id_other (discovery_job_id d) t db = (inr (Some (enter_discovery D_RUNNING t d)), db1) /\
  forall other t', claim other (discovery_job_id d) t' db1 = (inr None, db1).
Proof.
  intros W Hd Hq Hc db1. destruct (dw_job _ W _ _ Hd) as (_ & Hchk & _).
  unfold claim, write, update_discovery, tx_bind, update_pk, with_rows. split.
  - rewrite Hd. unfold discovery_is. rewrite Hq, Hc, bool_decide_true by done. cbn.
    change (discovery_check (enter_discovery D_RUNNING t d)) with (discovery_check d).
    rewrite Hchk. cbn. unfold id_other. cbn. by rewrite lookup_insert_eq.
  - intros other t'. unfold db1. cbn. by rewrite lookup_insert_eq.
Qed.

(** The jobs offered for resumption are the active ones. *)
Lemma recover_resumable now db :
  let db' := mapped (recovered now) db in
  discovery_wf db -> discovery_wf db' -> forall d,
  d ∈ merge_sort created_le (select_discoveries
    (fun d => discovery_is D_QUEUED d && negb (discovery_cancel_requested d)) db') <->
  stored db' d /\ discovery_active d = true.
Proof.
  intros db' W W' d. rewrite (merge_sort_Permutation created_le), elem_select by done.
  split; intros [Hd Ha]; (split; [done|]).
  - prop_hyps. unfold discovery_is in *. prop_hyps. unfold discovery_active.
    by match goal with H : discovery_state d = _ |- _ => rewrite H end.
  - apply stored_mapped in Hd as (d0 & _ & ->); [|apply recovered_id|done].
    pose proof (recovered_not_running now d0).
    destruct (recovered_active _ _ Ha) as (_ & -> & _). unfold discovery_is, discovery_active in *.
    destruct (discovery_state (recovered now d0)); try done.
Qed.

(** Recovery after a restart decides about every unfinished scan.
    [recover] always returns; afterwards no job is left running, the resumable
    jobs it returns are exactly the unfinished ones, oldest first, none of them
    cancelled or past its deadline, and each can be claimed by exactly one
    worker; the ended jobs it returns, for which audit outcomes are recorded,
    are exactly the ones it ended, as stored; finished jobs do not change. *)
Theorem recovery_decides_every_scan now db :
  discovery_wf db ->
  exists resumable ended db', recover now db = (inr (resumable, ended), db') /\
  (forall k d, discovery_jobs db' !! k = Some d -> discovery_state d <> D_RUNNING) /\
  (forall d, d ∈ resumable <-> stored db' d /\ discovery_active d = true) /\
  (forall d, d ∈ resumable -> discovery_cancel_requested d = false /\
     (now < discovery_deadline_at d)%Z) /\
  Sorted created_le resumable /\
  (forall d t, d ∈ resumable -> exists db1,
     claim id_other (discovery_job_id d) t db' = (inr (Some (enter_discovery D_RUNNING t d)), db1) /\
     forall other t', claim other (discovery_job_id d) t' db1 = (inr None, db1)) /\
  (forall d, d ∈ ended <-> stored db' d /\ discovery_active d = false /\
     exists d0, stored db d0 /\ discovery_job_id d0 = discovery_job_id d /\
       discovery_active d0 = true) /\
  (forall d, stored db d -> discovery_active d = false -> stored db' d).
Proof.
  intros W. destruct (recover_runs now db W) as (cancelled & expired & Hrun & W' & Hc & He).
  set (db' := mapped (recovered now) db) in *.
  assert (Hst : forall d, stored db' d <-> exists d0, stored db d0 /\ d = recovered now d0).
  { intros d. apply stored_mapped; [apply recovered_id|done]. }
  pose proof (recover_resumable now db W W') as Hrs. cbv zeta in Hrs. fold db' in Hrs.
  do 3 eexists. split; [exact Hrun|]. split_and!.
  - intros k d Hd. unfold db', mapped in Hd. cbn in Hd. rewrite lookup_fmap, fmap_Some in Hd.
    destruct Hd as (d0 & _ & ->). apply recovered_not_running.
  - exact Hrs.
  - intros d [(d0 & _ & ->)%Hst Ha]%Hrs. by apply recovered_active in Ha as (_ & ? & ?).
  - apply Sorted_merge_sort. intros a b. unfold created_le. lia.
  - intros d t [Hd Ha]%Hrs. eexists.
    apply (claim_queued db' d t W' Hd); apply Hst in Hd as (d0 & _ & ->).
    + pose proof (recovered_not_running now d0). unfold discovery_active in Ha.
      by destruct (discovery_state (recovered now d0)).
    + by apply recovered_active in Ha as (_ & ? & _).
  - intros d. rewrite elem_of_app, !list_elem_of_fmap. setoid_rewrite Hc. setoid_rewrite He.
    rewrite Hst. split.
    + intros [(d0 & -> & Hd0 & Hcond)|(d0 & -> & Hd0 & Hcond)];
        (split_and!; [exists d0; split; [done|]|done|exists d0; prop_hyps; done]).
      * by rewrite recovered_cancels.
      * by rewrite recovered_expires.
    + intros ((d0 & Hd0 & ->) & Ha & d1 & Hd1 & E & Ha1). rewrite recovered_id in E.
      assert (d1 = d0) as -> by (unfold stored in *; congruence).
      destruct (recovered_ends _ _ Ha1 Ha) as [Hcond|Hcond]; [left|right]; exists d0.
      * by rewrite recovered_cancels.
      * by rewrite recovered_expires.
  - intros d Hd Ha. apply Hst. exists d. split; [done|]. unfold recovered. by rewrite Ha.
Qed.

Lemma recovery_decides_every_scan_witness :
  exists resumable ended db',
  recover 10%Z scans_db = (inr (resumable, ended), db') /\
  length resumable = 2 /\ Sorted created_le resumable.
Proof.
  destruct (recovery_decides_every_scan 10%Z _ scans_db_wf) as (r & e & db' & Hrun & H).
  exists r, e, db'. split_and!; [exact Hrun| |apply H].
  apply (f_equal (fun x => match x.1 with inr (r, _) => length r | inl _ => 0 end)) in Hrun.
  refine (eq_trans (eq_sym Hrun) _). vm_compute. reflexivity.
Defined.

(** ** Clean-up *)

(** A result of the job that an unfinished enrollment is linked to. *)
Definition in_use (db : DB) (d : DiscoveryJob) : Prop :=
  exists k r id e, discovery_results db !! k = Some r /\ result_job_id r = discovery_job_id d /\
    result_linked_enrollment_id r = Some id /\ agent_enrollment_jobs db !! id = Some e /\
    terminal (job_state (row_job e)) = false.

(** Finished before the retention period, with a final audit event. *)
Definition finished_before (t : time) (db : DB) (d : DiscoveryJob) : Prop :=
  discovery_active d = false /\
  (exists t', discovery_completed_at d = Some t' /\ (t' < t)%Z) /\
  exists e, control_plane_audit_events db !! discovery_start_audit_event_id d = Some e /\
    audit_operation e = "discovery.start" /\
    audit_target e = "discovery:" +:+ discovery_scope_id d /\
    (audit_result e = "success" \/ audit_result e = "failed").

Lemma enrolling_iff db d : enrolling db d = true <-> in_use db d.
Proof.
  unfold enrolling, in_use. rewrite exists_where_true. split.
  - intros (k & r & Hr & [Hj Hl]%andb_True_iff). apply bool_decide_eq_true in Hj.
    destruct (result_linked_enrollment_id r) as [id|] eqn:El; cbn in Hl; [|done].
    destruct (agent_enrollment_jobs db !! id) as [e|] eqn:Ee; [|done].
    unfold live in Hl. apply negb_true_iff in Hl. eauto 10.
  - intros (k & r & id & e & Hr & Hj & Hl & He & Ht). exists k, r. split; [done|].
    rewrite bool_decide_true by done. cbn. rewrite Hl. cbn. rewrite He. unfold live. by rewrite Ht.
Qed.

Lemma disposable_iff t db d :
  disposable t db d = true <-> finished_before t db d /\ ~ in_use db d.
Proof.
  unfold disposable. rewrite !andb_True_iff, !negb_true_iff, <- enrolling_iff, not_true_iff_false.
  unfold finished_before, start_audit, audit_final.
  destruct (discovery_completed_at d) as [t'|];
    [rewrite Z.ltb_lt|naive_solver].
  destruct (control_plane_audit_events db !! _) as [e|]; [|naive_solver].
  destruct (bool_decide (audit_operation e = _) && _) eqn:Eo.
  - apply andb_True_iff in Eo as [Eo1%bool_decide_eq_true Eo2%bool_decide_eq_true].
    rewrite bool_decide_eq_true, !elem_of_cons, elem_of_nil. naive_solver.
  - apply andb_false_iff in Eo as [Eo%bool_decide_eq_false|Eo%bool_decide_eq_false]; naive_solver.
Qed.

(** The database that [cleanup] leaves. *)
Definition gone (t : time) (db : DB) (k : string) : bool :=
  match discovery_jobs db !! k with Some d => disposable t db d | None => false end.

Definition cleaned (t : time) (db : DB) : DB :=
  db <| discovery_jobs := filter (fun kd => gone t db kd.1 = false) (discovery_jobs db) |>
     <| discovery_results :=
          filter (fun kr => gone t db (result_job_id kr.2) = false) (discovery_results db) |>.

Lemma stored_cleaned t db d :
  stored (cleaned t db) d <-> stored db d /\ ~ (finished_before t db d /\ ~ in_use db d).
Proof.
  unfold stored at 1. cbn. rewrite map_lookup_filter_Some. cbn. fold (stored db d).
  rewrite <- disposable_iff, not_true_iff_false. unfold gone, stored.
  split; intros [Hd Hg]; rewrite Hd in *; done.
Qed.

Lemma results_cleaned t db k r :
  discovery_wf db ->
  discovery_results (cleaned t db) !! k = Some r <->
  discovery_results db !! k = Some r /\
  exists d, stored (cleaned t db) d /\ discovery_job_id d = result_job_id r.
Proof.
  intros W. cbn. rewrite map_lookup_filter_Some. cbn. unfold stored. cbn.
  setoid_rewrite map_lookup_filter_Some. cbn. split; intros [Hr H]; (split; [done|]).
  - destruct (dw_result _ W k r Hr) as (_ & _ & [d Hd]). destruct (dw_job _ W _ _ Hd) as (Hid & _).
    exists d. by rewrite Hid.
  - by destruct H as (d & [_ Hg] & <-).
Qed.

Lemma cleaned_size t db :
  (size (discovery_jobs (cleaned t db)) + count_where (disposable t db) (discovery_jobs db) =
   size (discovery_jobs db))%nat.
Proof.
  cbn. unfold count_where.
  replace (filter (fun kd => gone t db kd.1 = false) (discovery_jobs db))
    with (filter (fun kd => ~ disposable t db kd.2 = true) (discovery_jobs db)).
  - rewrite Nat.add_comm, <- map_size_disj_union by apply map_disjoint_filter_complement.
    by rewrite map_filter_union_complement.
  - apply map_filter_ext. intros k d Hd. cbn. unfold gone. by rewrite Hd, not_true_iff_false.
Qed.

(** Clean-up deletes exactly what nobody needs.  [cleanup] always
    returns; it deletes the jobs that finished before the retention period,
    whose audit event is final, and none of whose results an unfinished
    enrollment is linked to, each with all its results, and nothing else.  So a
    result that an unfinished enrollment was created from outlives every
    clean-up, and so does its job. *)
Theorem cleanup_is_exact t db :
  discovery_wf db ->
  exists n db', cleanup t db = (inr n, db') /\
  (forall d, stored db' d <-> stored db d /\ ~ (finished_before t db d /\ ~ in_use db d)) /\
  (forall k r, discovery_results db' !! k = Some r <->
     discovery_results db !! k = Some r /\
     exists d, stored db' d /\ discovery_job_id d = result_job_id r) /\
  (size (discovery_jobs db') + n = size (discovery_jobs db))%nat /\
  (forall k r id e, discovery_results db !! k = Some r ->
     result_linked_enrollment_id r = Some id -> agent_enrollment_jobs db !! id = Some e ->
     terminal (job_state (row_job e)) = false ->
     discovery_results db' !! k = Some r /\ is_Some (discovery_jobs db' !! result_job_id r)).
Proof.
  intros W. exists (count_where (disposable t db) (discovery_jobs db)), (cleaned t db).
  pose proof (stored_cleaned t db) as Hst.
  assert (Hres := fun k r => results_cleaned t db k r W).
  assert (Hkept : forall k r, discovery_results db !! k = Some r -> exists d, stored db d /\
    discovery_job_id d = result_job_id r).
  { intros k r Hr. destruct (dw_result _ W k r Hr) as (_ & _ & [d Hd]).
    destruct (dw_job _ W _ _ Hd) as (Hid & _). exists d. unfold stored. by rewrite Hid. }
  split_and!; [reflexivity|done|done|apply cleaned_size|].
  intros k r id e Hr Hl He Ht. destruct (Hkept k r Hr) as (d & Hd & Hid).
  assert (Hd' : stored (cleaned t db) d).
  { apply Hst. split; [done|]. intros [_ Hn]. apply Hn. exists k, r, id, e. by rewrite Hid. }
  rewrite Hres, <- Hid. split; [by eauto|]. eexists. exact Hd'.
Qed.

Lemma cleanup_is_exact_witness :
  exists n db',
  cleanup 9%Z (discovery_run (CallFinish "scan-1" D_COMPLETED 3%Z None) scans_db) = (inr n, db') /\
  (size (discovery_jobs db') + n = 2)%nat /\ n = 1.
Proof.
  destruct (cleanup_is_exact 9%Z (discovery_run (CallFinish "scan-1" D_COMPLETED 3%Z None) scans_db)
    (discovery_run_dw _ _ scans_db_wf)) as (n & db' & Hrun & _ & _ & Hsize & _).
  exists n, db'. split; [exact Hrun|]. split; [exact Hsize|].
  apply (f_equal (fun x => match x.1 with inr n => n | inl _ => 0 end)) in Hrun.
  refine (eq_trans (eq_sym Hrun) _). vm_compute. reflexivity.
Defined.
