(* ===== verification/ManagerCredentials.v ===== *)
(** * Manager credentials on the Agent

    [SQLiteManagerCredentialRepository] of
    [src/backend/ic_env_guard/storage/manager_credentials.py] and the records
    of [src/backend/ic_env_guard/enrollment/models.py].  The table is a finite
    map from the credential identifier to its row; the interface the service
    uses ([ManagerCredentialRepository] of [enrollment/ports.py]) is the class
    [CredentialRepository], and its contract the class [CredentialContract]. *)

From stdpp Require Import base tactics list gmap strings sorting.
From Stdlib Require Import ZArith Lia Ascii.
From S2P Require Import Prelude Text Sql Digest Models.

(** ** Records *)
Inductive CredentialState := CRED_PENDING | CRED_ACTIVE | CRED_REVOKED.

#[global] Instance CredentialState_eq : EqDecision CredentialState.
Proof. solve_decision. Defined.

Inductive cred_exn :=
| DuplicateEnrollment
| EnrollmentCapacityExceeded
| EnrollmentForbidden
| CredentialNotFound
| CredentialStorageError
| AuditError
| CredValueError
| CredIntegrityError.

#[local] Set Primitive Projections.
Record ManagerCredential := mkCredential {
  cred_id : string;
  cred_manager_id : string;
  cred_enrollment_id : string;
  cred_token_hash : string;
  cred_state : CredentialState;
  cred_pending_expires_at : option time;
  cred_created_at : time;
  cred_activated_at : option time;
  cred_last_used_at : option time;
  cred_revoked_at : option time
}.

Record ManagerCredentialContext := mkContext {
  context_credential_id : string;
  context_manager_id : string;
  context_state : CredentialState
}.
#[local] Unset Primitive Projections.

(** [ManagerCredentialContext.actor_id], [ManagerCredential.actor_id] *)
Definition actor_id (state : CredentialState) (manager_id : string) : string :=
  match state with
  | CRED_ACTIVE | CRED_REVOKED => "manager:" +:+ manager_id
  | CRED_PENDING => "pending-manager:" +:+ manager_id
  end.

(** ** Decoding a row *)

(** [int(value, 16)] raises no [ValueError] (ASCII): blanks, a sign, [0x], hexadecimal
    digits with single underscores between them. *)
Definition is_hex_any (c : ascii) : bool := is_hex_lower c || in_range "A" "F" c.

Definition py_space (c : ascii) : bool :=
  let n := Ascii.nat_of_ascii c in
  ((9 <=? n) && (n <=? 13))%nat || ((28 <=? n) && (n <=? 32))%nat.

Fixpoint hex_digits (after_digit : bool) (s : string) : bool :=
  match s with
  | EmptyString => after_digit
  | String c rest =>
      if is_hex_any c then hex_digits true rest
      else if is_char "_" c then after_digit && hex_digits false rest
      else after_digit && py_space c && all_chars py_space rest
  end.

Definition hex_unsigned (s : string) : bool :=
  match s with
  | String "0" (String x (String c rest)) =>
      if is_char "x" x || is_char "X" x then
        if is_char "_" c then hex_digits false rest else hex_digits false (String c rest)
      else hex_digits false s
  | _ => hex_digits false s
  end.

Fixpoint int16 (s : string) : bool :=
  match s with
  | EmptyString => false
  | String c rest =>
      if py_space c then int16 rest
      else if is_char "+" c || is_char "-" c then hex_unsigned rest
      else hex_unsigned s
  end.

(** [_record] returns instead of raising. *)
Definition decodes (c : ManagerCredential) : bool :=
  is_canonical_uuid (cred_id c) && is_canonical_uuid (cred_manager_id c) &&
  is_enrollment_id (cred_enrollment_id c) &&
  (String.length (cred_token_hash c) =? 64) && int16 (cred_token_hash c) &&
  match cred_state c with
  | CRED_PENDING => is_some (cred_pending_expires_at c)
  | CRED_ACTIVE => is_some (cred_activated_at c)
  | CRED_REVOKED => is_some (cred_revoked_at c)
  end.

Abbreviation Store := (gmap string ManagerCredential).
Abbreviation TxCred := (Tx Store cred_exn).
Abbreviation CredMethod A := (Store -> (cred_exn + A) * Store).

Definition decode (c : ManagerCredential) : TxCred ManagerCredential :=
  raise_if (negb (decodes c)) CredValueError ;;; tx_ret c.

Definition decode_row (row : option ManagerCredential) : TxCred (option ManagerCredential) :=
  match row with
  | None => tx_ret None
  | Some c => let* r := decode c in tx_ret (Some r)
  end.

(** [except (DuplicateEnrollment, EnrollmentCapacityExceeded): raise] and
    [except (SQLAlchemyError, sqlite3.Error, TypeError, ValueError)]. *)
Definition cred_handler (e : cred_exn) : cred_exn :=
  match e with CredValueError | CredIntegrityError => CredentialStorageError | _ => e end.

(** ** The table *)

(** [enrollment_id TEXT NOT NULL UNIQUE], [token_hash TEXT NOT NULL UNIQUE] *)
Definition cred_unique (t : Store) (k : string) (c : ManagerCredential) : bool :=
  bool_decide (map_Forall (fun k' b => k' <> k ->
    cred_enrollment_id b <> cred_enrollment_id c /\ cred_token_hash b <> cred_token_hash c) t).

Definition insert_cred (c : ManagerCredential) : TxCred unit := fun t =>
  (raise_if (negb (bool_decide (t !! cred_id c = None) && cred_unique t (cred_id c) c)) CredIntegrityError ;;;
   modifies (fun t => <[cred_id c := c]> t)) t.

(** [SELECT ... WHERE enrollment_id = ?] *)
Definition find_enrollment (id : string) (t : Store) : option ManagerCredential :=
  head (filter (fun c => cred_enrollment_id c = id) (map_to_list t).*2).

(** [SELECT COUNT( * ) ... WHERE state = 'pending' AND pending_expires_at > ?] *)
Definition live_pending (now : time) (c : ManagerCredential) : bool :=
  bool_decide (cred_state c = CRED_PENDING) && sql_gt (cred_pending_expires_at c) now.

Definition pending_count (now : time) (t : Store) : Z := Z.of_nat (count_where (live_pending now) t).

Definition raise_if_pending_full (now : time) (max_pending : Z) : TxCred unit :=
  let* pending := reads (pending_count now) in
  raise_if (max_pending <=? pending)%Z EnrollmentCapacityExceeded.

(** ** Operations *)
Definition cred_issue (record : ManagerCredential) (now : time) (max_pending : Z) : CredMethod unit :=
  write cred_handler
    (let* duplicate := reads (find_enrollment (cred_enrollment_id record)) in
     raise_if (is_some duplicate) DuplicateEnrollment ;;;
     raise_if_pending_full now max_pending ;;;
     insert_cred record).

Definition retryable (record existing : ManagerCredential) (now : time) : bool :=
  bool_decide (cred_manager_id existing = cred_manager_id record) &&
  (bool_decide (cred_state existing = CRED_REVOKED) ||
   (bool_decide (cred_state existing = CRED_PENDING) && sql_le (cred_pending_expires_at existing) now)).

(** The row a retry leaves: the new credential in the pending state. *)
Definition reissued (record existing : ManagerCredential) : ManagerCredential :=
  mkCredential (cred_id record) (cred_manager_id record) (cred_enrollment_id existing)
    (cred_token_hash record) CRED_PENDING (cred_pending_expires_at record) (cred_created_at record)
    None None None.

(** [UPDATE ... SET credential_id=?, ... WHERE enrollment_id=? AND
    credential_id=?]: the primary key changes. *)
Definition rekey_cred (existing : ManagerCredential) (c : ManagerCredential) : TxCred unit := fun t =>
  let rest := delete (cred_id existing) t in
  (raise_if (negb (bool_decide (rest !! cred_id c = None) && cred_unique rest (cred_id c) c))
     CredIntegrityError ;;;
   modifies (fun _ => <[cred_id c := c]> rest)) t.

Definition cred_reissue_expired (record : ManagerCredential) (now : time) (max_pending : Z)
    : CredMethod unit :=
  write cred_handler
    (let* row := reads (find_enrollment (cred_enrollment_id record)) in
     let* existing := decode_row row in
     raise_if (match existing with Some e => negb (retryable record e now) | None => false end)
       DuplicateEnrollment ;;;
     raise_if_pending_full now max_pending ;;;
     match existing with
     | None => insert_cred record
     | Some e => rekey_cred e (reissued record e)
     end).

Definition cred_get (id : string) : CredMethod (option ManagerCredential) :=
  write cred_handler (let* row := reads (fun t : Store => t !! id) in decode_row row).

(** [ORDER BY credential_id] *)
Definition cred_le (a b : ManagerCredential) : Prop := String.leb (cred_id a) (cred_id b) = true.

#[global] Instance cred_le_dec a b : Decision (cred_le a b).
Proof. unfold cred_le. apply _. Defined.

Fixpoint decode_all (cs : list ManagerCredential) : TxCred (list ManagerCredential) :=
  match cs with
  | [] => tx_ret []
  | c :: rest => let* r := decode c in let* rs := decode_all rest in tx_ret (r :: rs)
  end.

Definition cred_list (cond : ManagerCredential -> bool) : CredMethod (list ManagerCredential) :=
  write cred_handler
    (let* rows := reads (fun t : Store =>
       merge_sort cred_le (filter (fun c => cond c = true) (map_to_list t).*2)) in
     decode_all rows).

Definition cred_list_all : CredMethod (list ManagerCredential) := cred_list (fun _ => true).

Definition authenticates (c : ManagerCredential) : bool :=
  match cred_state c with CRED_PENDING | CRED_ACTIVE => true | CRED_REVOKED => false end.

Definition cred_authenticatable : CredMethod (list ManagerCredential) := cred_list authenticates.

(** The row of a credential, changed where the clause holds. *)
Definition update_cred (id : string) (cond : ManagerCredential -> bool)
    (f : ManagerCredential -> ManagerCredential) : TxCred unit :=
  modifies (fun t => alter (fun c => if cond c then f c else c) id t).

Definition activated (now : time) (c : ManagerCredential) : ManagerCredential :=
  c <| cred_state := CRED_ACTIVE |> <| cred_pending_expires_at := None |>
    <| cred_activated_at := Some now |>.

Definition revoked (now : time) (c : ManagerCredential) : ManagerCredential :=
  c <| cred_state := CRED_REVOKED |> <| cred_pending_expires_at := None |>
    <| cred_revoked_at := Some now |>.

(** [hmac.compare_digest] on texts is equality. *)
Definition cred_activate (id enrollment_id token_hash : string) (now : time)
    : CredMethod (option ManagerCredential) :=
  write cred_handler
    (let* row := reads (fun t : Store => t !! id) in
     match row with
     | None => tx_ret None
     | Some c =>
         let* record := decode c in
         if bool_decide (cred_enrollment_id record <> enrollment_id) ||
            bool_decide (cred_token_hash record <> token_hash)
         then tx_ret None
         else if bool_decide (cred_state record = CRED_ACTIVE) then tx_ret (Some record)
         else if bool_decide (cred_state record <> CRED_PENDING) ||
                 is_none (cred_pending_expires_at record) ||
                 sql_le (cred_pending_expires_at record) now
         then tx_ret None
         else
           update_cred id (fun c => bool_decide (cred_state c = CRED_PENDING)) (activated now) ;;;
           let* updated := reads (fun t : Store => t !! id) in
           decode_row updated
     end).

Definition cred_revoke (id : string) (now : time) : CredMethod (option ManagerCredential) :=
  write cred_handler
    (let* row := reads (fun t : Store => t !! id) in
     match row with
     | None => tx_ret None
     | Some c =>
         let* record := decode c in
         if bool_decide (cred_state record <> CRED_REVOKED) then
           update_cred id (fun c => bool_decide (cred_state c <> CRED_REVOKED)) (revoked now) ;;;
           let* updated := reads (fun t : Store => t !! id) in
           decode_row updated
         else tx_ret (Some record)
     end).

(** ** The interface of the service *)
Class CredentialRepository (S : Type) := {
  repo_issue : ManagerCredential -> time -> Z -> S -> (cred_exn + unit) * S;
  repo_reissue_expired : ManagerCredential -> time -> Z -> S -> (cred_exn + unit) * S;
  repo_get : string -> S -> (cred_exn + option ManagerCredential) * S;
  repo_list_all : S -> (cred_exn + list ManagerCredential) * S;
  repo_authenticatable : S -> (cred_exn + list ManagerCredential) * S;
  repo_activate : string -> string -> string -> time -> S -> (cred_exn + option ManagerCredential) * S;
  repo_revoke : string -> time -> S -> (cred_exn + option ManagerCredential) * S
}.

#[global] Instance sqlite_credentials : CredentialRepository Store := {|
  repo_issue := cred_issue;
  repo_reissue_expired := cred_reissue_expired;
  repo_get := cred_get;
  repo_list_all := cred_list_all;
  repo_authenticatable := cred_authenticatable;
  repo_activate := cred_activate;
  repo_revoke := cred_revoke
|}.

(** The credentials as the service thinks of them: each under its identifier,
    every enrollment and every token at most once, every row readable. *)
Definition credentials_wf (v : Store) : Prop :=
  forall k c, v !! k = Some c -> cred_id c = k /\ decodes c = true /\ cred_unique v k c = true.

(** What the repository promises: how each operation that returns changes
    the credentials, and that an operation that raises does not. *)
Class CredentialContract (S : Type) `{CredentialRepository S} := {
  view : S -> Store;
  issue_contract record now m s r s' :
    repo_issue record now m s = (r, s') -> credentials_wf (view s) ->
    match r with
    | inl _ => view s' = view s
    | inr _ => view s' = <[cred_id record := record]> (view s) /\
        view s !! cred_id record = None /\ cred_unique (view s) (cred_id record) record = true /\
        (pending_count now (view s) < m)%Z
    end;
  reissue_contract record now m s r s' :
    repo_reissue_expired record now m s = (r, s') -> credentials_wf (view s) ->
    match r with
    | inl _ => view s' = view s
    | inr _ =>
        (pending_count now (view s) < m)%Z /\
        ((view s' = <[cred_id record := record]> (view s) /\ view s !! cred_id record = None /\
          cred_unique (view s) (cred_id record) record = true) \/
         exists e, view s !! cred_id e = Some e /\ cred_enrollment_id e = cred_enrollment_id record /\
           retryable record e now = true /\
           delete (cred_id e) (view s) !! cred_id record = None /\
           cred_unique (delete (cred_id e) (view s)) (cred_id record) (reissued record e) = true /\
           view s' = <[cred_id record := reissued record e]> (delete (cred_id e) (view s)))
    end;
  get_contract id s :
    credentials_wf (view s) -> repo_get id s = (inr (view s !! id), s);
  list_contract s :
    credentials_wf (view s) -> exists l, repo_list_all s = (inr l, s) /\
      forall c, c ∈ l <-> view s !! cred_id c = Some c;
  authenticatable_contract s :
    credentials_wf (view s) -> exists l, repo_authenticatable s = (inr l, s) /\
      forall c, c ∈ l <-> view s !! cred_id c = Some c /\ authenticates c = true;
  activate_contract id enrollment hash now s r s' :
    repo_activate id enrollment hash now s = (r, s') -> credentials_wf (view s) ->
    match r with
    | inr (Some c) => exists c0, view s !! id = Some c0 /\ cred_enrollment_id c0 = enrollment /\
        cred_token_hash c0 = hash /\ view s' = <[id := c]> (view s) /\
        (cred_state c0 = CRED_ACTIVE /\ c = c0 \/
         live_pending now c0 = true /\ c = activated now c0)
    | _ => view s' = view s
    end;
  revoke_contract id now s r s' :
    repo_revoke id now s = (r, s') -> credentials_wf (view s) ->
    match r with
    | inr (Some c) => exists c0, view s !! id = Some c0 /\ view s' = <[id := c]> (view s) /\
        c = if bool_decide (cred_state c0 = CRED_REVOKED) then c0 else revoked now c0
    | inr None => view s' = view s /\ view s !! id = None
    | inl _ => False
    end
}.
