(* ===== verification/CredentialStore.v ===== *)
(** * The credential table meets its contract

    The SQLite repository implements the interface of the enrollment service:
    an instance of [CredentialContract]. *)

From stdpp Require Import base tactics list gmap strings sorting.
From Stdlib Require Import ZArith Lia Ascii.
From S2P Require Import Prelude Text Sql Digest Models ManagerCredentials.

(** ** Statements *)
Lemma insert_cred_inr c t u t' :
  insert_cred c t = inr (u, t') <->
  t !! cred_id c = None /\ cred_unique t (cred_id c) c = true /\ t' = <[cred_id c := c]> t.
Proof.
  unfold insert_cred. split.
  - intros. tx_inv. by prop_hyps.
  - intros (Hn & Hu & ->). unfold tx_bind, raise_if, modifies. rewrite Hu, bool_decide_true by done.
    by destruct u.
Qed.

Lemma rekey_cred_inr e c t u t' :
  rekey_cred e c t = inr (u, t') ->
  delete (cred_id e) t !! cred_id c = None /\ cred_unique (delete (cred_id e) t) (cred_id c) c = true /\
  t' = <[cred_id c := c]> (delete (cred_id e) t).
Proof. unfold rekey_cred. intros. tx_inv. by prop_hyps. Qed.

Lemma raise_if_pending_full_inr now m t u t' :
  raise_if_pending_full now m t = inr (u, t') <-> (pending_count now t < m)%Z /\ t' = t.
Proof.
  unfold raise_if_pending_full. rewrite tx_bind_inr. setoid_rewrite reads_inr.
  setoid_rewrite raise_if_inr. setoid_rewrite Z.leb_gt. naive_solver.
Qed.

Lemma find_enrollment_Some id t c :
  find_enrollment id t = Some c -> exists k, t !! k = Some c /\ cred_enrollment_id c = id.
Proof.
  unfold find_enrollment. intros Hh. apply head_Some_elem_of in Hh.
  apply list_elem_of_filter in Hh as [He Hh]. apply list_elem_of_fmap in Hh as ([k c'] & -> & Hh).
  apply elem_of_map_to_list in Hh. eauto.
Qed.

Lemma cred_unique_true t k c :
  cred_unique t k c = true <->
  forall k' b, t !! k' = Some b -> k' <> k ->
    cred_enrollment_id b <> cred_enrollment_id c /\ cred_token_hash b <> cred_token_hash c.
Proof. unfold cred_unique. rewrite bool_decide_eq_true. unfold map_Forall. naive_solver. Qed.

(** ** Decoding *)
Lemma decode_inr c t r t' : decode c t = inr (r, t') <-> decodes c = true /\ r = c /\ t' = t.
Proof.
  unfold decode. rewrite tx_bind_inr. setoid_rewrite raise_if_inr. setoid_rewrite tx_ret_inr.
  rewrite negb_false_iff || setoid_rewrite negb_false_iff.
  split; [intros (? & ? & (? & ->) & -> & ->)|intros (? & -> & ->)]; eauto.
  exists tt, t. done.
Qed.

Lemma decode_ok c t : decodes c = true -> decode c t = inr (c, t).
Proof. intros. by apply decode_inr. Qed.

Lemma decode_all_ok cs t : (forall c, c ∈ cs -> decodes c = true) -> decode_all cs t = inr (cs, t).
Proof.
  induction cs as [|c cs IH]; intros Hc; [done|]. cbn [decode_all]. unfold tx_bind.
  rewrite decode_ok by (apply Hc, list_elem_of_here).
  rewrite IH; [done|]. intros. apply Hc. by apply list_elem_of_further.
Qed.

(** ** Rows of a well-formed table *)
Section Rows.
Context (t : Store) (W : credentials_wf t).

Lemma row_id k c : t !! k = Some c -> cred_id c = k.
Proof. intros Hk. by destruct (W k c Hk). Qed.

Lemma row_decodes k c : t !! k = Some c -> decodes c = true.
Proof. intros Hk. by destruct (W k c Hk) as (_ & ? & _). Qed.

Lemma elem_rows c : c ∈ (map_to_list t).*2 <-> t !! cred_id c = Some c.
Proof.
  rewrite list_elem_of_fmap. split.
  - intros ([k c'] & -> & Hc). apply elem_of_map_to_list in Hc. cbn. by rewrite (row_id k c').
  - intros Hc. exists (cred_id c, c). split; [done|]. by apply elem_of_map_to_list.
Qed.

Lemma cred_list_spec cond :
  exists l, cred_list cond t = (inr l, t) /\ forall c, c ∈ l <-> t !! cred_id c = Some c /\ cond c = true.
Proof.
  set (rows := merge_sort cred_le (filter (fun c => cond c = true) (map_to_list t).*2)).
  assert (Hr : forall c, c ∈ rows <-> t !! cred_id c = Some c /\ cond c = true).
  { intros c. unfold rows. rewrite merge_sort_Permutation, list_elem_of_filter, elem_rows. naive_solver. }
  exists rows. split; [|done]. unfold cred_list, write, tx_bind, reads. fold rows.
  rewrite decode_all_ok; [done|]. intros c [Hc _]%Hr. by eapply row_decodes.
Qed.
End Rows.

(** ** The operations *)
Lemma sqlite_issue record now m t r t' :
  cred_issue record now m t = (r, t') ->
  match r with
  | inl _ => t' = t
  | inr _ => t' = <[cred_id record := record]> t /\ t !! cred_id record = None /\
      cred_unique t (cred_id record) record = true /\ (pending_count now t < m)%Z
  end.
Proof.
  unfold cred_issue. destruct r as [e|u]; intros E; [unchanged|]. tx_inv.
  match goal with H : raise_if_pending_full _ _ _ = _ |- _ =>
    apply raise_if_pending_full_inr in H as [? ->] end.
  by apply insert_cred_inr in E as (? & ? & ->).
Qed.

Lemma sqlite_reissue record now m t r t' :
  cred_reissue_expired record now m t = (r, t') -> credentials_wf t ->
  match r with
  | inl _ => t' = t
  | inr _ =>
      (pending_count now t < m)%Z /\
      ((t' = <[cred_id record := record]> t /\ t !! cred_id record = None /\
        cred_unique t (cred_id record) record = true) \/
       exists e, t !! cred_id e = Some e /\ cred_enrollment_id e = cred_enrollment_id record /\
         retryable record e now = true /\
         delete (cred_id e) t !! cred_id record = None /\
         cred_unique (delete (cred_id e) t) (cred_id record) (reissued record e) = true /\
         t' = <[cred_id record := reissued record e]> (delete (cred_id e) t))
  end.
Proof.
  unfold cred_reissue_expired. intros E W. destruct r as [e|u]; [unchanged|]. tx_inv.
  match goal with H : raise_if_pending_full _ _ _ = _ |- _ =>
    apply raise_if_pending_full_inr in H as [? ->] end.
  match goal with H : decode_row _ _ = _ |- _ => rename H into Hd end. unfold decode_row in Hd.
  destruct (find_enrollment (cred_enrollment_id record) t) as [c|] eqn:Hf; tx_inv.
  - match goal with H : decode _ _ = _ |- _ => apply decode_inr in H as (_ & -> & ->) end.
    apply find_enrollment_Some in Hf as (k & Hk & He). prop_hyps.
    apply rekey_cred_inr in E as (? & ? & ->). split; [done|]. right. exists c.
    rewrite (row_id t W k c Hk) in *. split_and!; auto.
  - apply insert_cred_inr in E as (? & ? & ->). auto.
Qed.

Lemma sqlite_activate id enrollment hash now t r t' :
  cred_activate id enrollment hash now t = (r, t') -> credentials_wf t ->
  match r with
  | inr (Some c) => exists c0, t !! id = Some c0 /\ cred_enrollment_id c0 = enrollment /\
      cred_token_hash c0 = hash /\ t' = <[id := c]> t /\
      (cred_state c0 = CRED_ACTIVE /\ c = c0 \/ live_pending now c0 = true /\ c = activated now c0)
  | _ => t' = t
  end.
Proof.
  unfold cred_activate. intros E W. destruct r as [e|o]; [unchanged|]. tx_inv.
  destruct (t !! id) as [c0|] eqn:Hid; [|by tx_inv]. tx_inv.
  match goal with H : decode _ _ = _ |- _ => apply decode_inr in H as (Hd & -> & ->) end.
  case_match eqn:H1; [by tx_inv|]. prop_hyps.
  repeat match goal with H : ~ _ <> _ |- _ => apply dec_stable in H end.
  case_match eqn:H2.
  - tx_inv. prop_hyps. exists c0. rewrite insert_id by done. split_and!; auto.
  - case_match eqn:H3; [by tx_inv|]. tx_inv. unfold update_cred in *. tx_inv. prop_hyps.
    repeat match goal with H : ~ _ <> _ |- _ => apply dec_stable in H end.
    rewrite lookup_alter_eq, Hid in E. cbn [fmap option_fmap option_map decode_row] in E.
    rewrite bool_decide_true in E by done. unfold decode_row in E. tx_inv.
    match goal with H : decode _ _ = _ |- _ => apply decode_inr in H as (_ & -> & ->) end.
    exists c0. split_and!; auto.
    + apply map_eq. intros k. destruct (decide (k = id)) as [->|].
      * rewrite lookup_alter_eq, Hid, lookup_insert_eq. cbn. by rewrite bool_decide_true.
      * by rewrite lookup_alter_ne, lookup_insert_ne.
    + right. split; [|done]. unfold live_pending, sql_gt, sql_le in *. rewrite bool_decide_true by done.
      destruct (cred_pending_expires_at c0); [|done]. prop_hyps. by apply Z.ltb_lt.
Qed.

Lemma sqlite_revoke id now t r t' :
  cred_revoke id now t = (r, t') -> credentials_wf t ->
  match r with
  | inr (Some c) => exists c0, t !! id = Some c0 /\ t' = <[id := c]> t /\
      c = if bool_decide (cred_state c0 = CRED_REVOKED) then c0 else revoked now c0
  | inr None => t' = t /\ t !! id = None
  | inl _ => False
  end.
Proof.
  unfold cred_revoke, write, tx_bind, reads. intros E W.
  destruct (t !! id) as [c0|] eqn:Hid; [|by injection E as <- <-].
  pose proof (row_decodes t W id c0 Hid) as Hd. rewrite decode_ok in E by done.
  destruct (bool_decide (cred_state c0 <> CRED_REVOKED)) eqn:Hs.
  - unfold update_cred, modifies in E. rewrite lookup_alter_eq, Hid in E. cbn [fmap option_fmap option_map] in E.
    rewrite Hs in E. unfold decode_row, tx_bind in E. rewrite decode_ok in E.
    2: { unfold decodes in *. prop_hyps. rewrite !andb_True_iff. by split_and!. }
    injection E as <- <-. exists c0. prop_hyps. rewrite bool_decide_false by done. split_and!; [done| |done].
    apply map_eq. intros k. destruct (decide (k = id)) as [->|].
    + rewrite lookup_alter_eq, Hid, lookup_insert_eq. cbn. by rewrite bool_decide_true.
    + by rewrite lookup_alter_ne, lookup_insert_ne.
  - injection E as <- <-. prop_hyps. apply dec_stable in Hs. exists c0.
    rewrite insert_id, bool_decide_true by done. done.
Qed.

#[global] Instance sqlite_contract : CredentialContract Store.
Proof.
  refine {| view := fun t => t |}.
  - intros record now m s r s' E _. by apply sqlite_issue in E.
  - intros record now m s r s' E W. by apply sqlite_reissue in E.
  - intros id s W. cbn. unfold cred_get, write, tx_bind, reads, decode_row.
    destruct (s !! id) as [c|] eqn:Hid; [|done]. unfold tx_bind.
    by rewrite decode_ok by by eapply row_decodes.
  - intros s W. destruct (cred_list_spec s W (fun _ => true)) as (l & El & Hl). exists l.
    split; [exact El|]. intros c. rewrite Hl. naive_solver.
  - intros s W. exact (cred_list_spec s W authenticates).
  - intros id en hash now s r s' E W. by apply sqlite_activate in E.
  - intros id now s r s' E W. by apply sqlite_revoke in E.
Defined.
