(* ===== verification/EnrollmentService.v ===== *)
(** * The credential service of the Agent

    [EnrollmentService] of [src/backend/ic_env_guard/enrollment/service.py],
    written against its two ports: the credential repository
    ([CredentialRepository]) and the audit log ([EnrollmentAudit]).  The random
    token and identifier are arguments; [other] is what other connections do
    to the repository between two of its operations. *)

From stdpp Require Import base tactics list gmap strings sorting.
From Stdlib Require Import ZArith Lia Ascii.
From S2P Require Import Prelude Text Sql Digest Models ManagerCredentials CredentialStore.

(** [EnrollmentAudit]: recording an intent may raise; the service swallows
    what recording an outcome raises, so only the log it leaves matters. *)
Class EnrollmentAudit (A : Type) := {
  record_intent : string -> string -> option string -> A -> (cred_exn + unit) * A;
  record_outcome : string -> string -> option string -> string -> A -> A
}.

(** [_token_hash] *)
Definition token_hash (token : string) : string := sha256_hex (bytes_of token).

(** [canonical_uuid] and [valid_enrollment_id] raise [ValueError]. *)
Definition require_value (b : bool) : cred_exn + unit := if b then inr tt else inl CredValueError.

Section Service.
Context {S A : Type} `{CredentialRepository S} `{EnrollmentAudit A}.

Abbreviation ServiceOp R := (S * A -> (cred_exn + R) * (S * A)).

Record ServiceConfig := mkConfig {
  pending_ttl_seconds : Z;
  max_pending : Z
}.

Definition pending_record (cfg : ServiceConfig) (manager enrollment token uuid4 : string)
    (now : time) : ManagerCredential :=
  mkCredential uuid4 manager enrollment (token_hash token) CRED_PENDING
    (Some (now + seconds (pending_ttl_seconds cfg))%Z) now None None None.

Definition issue (cfg : ServiceConfig) (manager enrollment token uuid4 : string) (now : time)
    (expired_retry : bool) : ServiceOp ManagerCredential := fun '(s, a) =>
  match require_value (is_canonical_uuid manager && is_enrollment_id enrollment) with
  | inl e => (inl e, (s, a))
  | inr _ =>
      match record_intent "credential.issue" "local-admin" None a with
      | (inl e, a1) => (inl e, (s, a1))
      | (inr _, a1) =>
          let record := pending_record cfg manager enrollment token uuid4 now in
          let '(r, s1) := if expired_retry
                          then repo_reissue_expired record now (max_pending cfg) s
                          else repo_issue record now (max_pending cfg) s in
          match r with
          | inl e =>
              (inl e, (s1, record_outcome "credential.issue" "local-admin" None "failed" a1))
          | inr _ =>
              (inr record,
               (s1, record_outcome "credential.issue" "local-admin" (Some (cred_id record)) "success" a1))
          end
      end
  end.

(** The last record whose hash matches; the loop always runs to its end. *)
Definition match_hash (candidate : string) (records : list ManagerCredential)
    : option ManagerCredential :=
  foldl (fun matched record =>
    if bool_decide (candidate = cred_token_hash record) then Some record else matched) None records.

Definition context_of (c : ManagerCredential) : ManagerCredentialContext :=
  mkContext (cred_id c) (cred_manager_id c) (cred_state c).

Definition authenticate (token : string) (now : time)
    : ServiceOp (option ManagerCredentialContext) := fun '(s, a) =>
  match repo_authenticatable s with
  | (inl e, s1) => (inl e, (s1, a))
  | (inr records, s1) =>
      (inr (matched ← match_hash (token_hash token) records;
            if bool_decide (cred_state matched = CRED_PENDING) &&
               (is_none (cred_pending_expires_at matched) || sql_le (cred_pending_expires_at matched) now)
            then None else Some (context_of matched)), (s1, a))
  end.

Definition authenticate_revoked_for_revoke (token credential_id : string)
    : ServiceOp (option ManagerCredentialContext) := fun '(s, a) =>
  if negb (is_canonical_uuid credential_id) then (inr None, (s, a))
  else match repo_list_all s with
  | (inl e, s1) => (inl e, (s1, a))
  | (inr records, s1) =>
      (inr (matched ← match_hash (token_hash token) records;
            if bool_decide (cred_state matched <> CRED_REVOKED) ||
               bool_decide (cred_id matched <> credential_id)
            then None else Some (context_of matched)), (s1, a))
  end.

(** The context allows the activation of the credential. *)
Definition may_activate (credential_id : string) (context : option ManagerCredentialContext) : bool :=
  match context with
  | None => false
  | Some c => bool_decide (context_credential_id c = credential_id) &&
              match context_state c with CRED_PENDING | CRED_ACTIVE => true | CRED_REVOKED => false end
  end.

Definition context_actor (context : option ManagerCredentialContext) : string :=
  from_option (fun c => actor_id (context_state c) (context_manager_id c)) "unknown" context.

Definition activate (other : S -> S) (credential_id enrollment token : string) (now : time)
    : ServiceOp ManagerCredential := fun '(s, a) =>
  match require_value (is_canonical_uuid credential_id && is_enrollment_id enrollment) with
  | inl e => (inl e, (s, a))
  | inr _ =>
      match authenticate token now (s, a) with
      | (inl e, sa) => (inl e, sa)
      | (inr context, (s1, a1)) =>
          let actor := context_actor context in
          match record_intent "credential.activate" actor (Some credential_id) a1 with
          | (inl e, a2) => (inl e, (s1, a2))
          | (inr _, a2) =>
              let denied := record_outcome "credential.activate" actor (Some credential_id) "denied" a2 in
              if negb (may_activate credential_id context)
              then (inl EnrollmentForbidden, (s1, denied))
              else match repo_activate credential_id enrollment (token_hash token) now (other s1) with
              | (inl e, s2) => (inl e, (s2, a2))
              | (inr None, s2) => (inl EnrollmentForbidden, (s2, denied))
              | (inr (Some record), s2) =>
                  (inr record,
                   (s2, record_outcome "credential.activate"
                          (actor_id (cred_state record) (cred_manager_id record))
                          (Some credential_id) "success" a2))
              end
          end
      end
  end.

Definition revoke (other : S -> S) (credential_id actor : string) (manager : option string) (now : time)
    : ServiceOp ManagerCredential := fun '(s, a) =>
  match require_value (is_canonical_uuid credential_id &&
                       from_option is_canonical_uuid true manager) with
  | inl e => (inl e, (s, a))
  | inr _ =>
      match record_intent "credential.revoke" actor (Some credential_id) a with
      | (inl e, a1) => (inl e, (s, a1))
      | (inr _, a1) =>
          let outcome result := record_outcome "credential.revoke" actor (Some credential_id) result a1 in
          match repo_get credential_id s with
          | (inl e, s1) => (inl e, (s1, a1))
          | (inr None, s1) => (inl CredentialNotFound, (s1, outcome "failed"))
          | (inr (Some record), s1) =>
              if bool_decide (actor <> "local-admin") &&
                 negb (bool_decide (manager = Some (cred_manager_id record)))
              then (inl EnrollmentForbidden, (s1, outcome "denied"))
              else match repo_revoke credential_id now (other s1) with
              | (inl e, s2) => (inl e, (s2, a1))
              | (inr None, s2) => (inl CredentialNotFound, (s2, outcome "failed"))
              | (inr (Some revoked), s2) => (inr revoked, (s2, outcome "success"))
              end
          end
      end
  end.

Definition list_credentials (actor : string) : ServiceOp (list ManagerCredential) := fun '(s, a) =>
  if bool_decide (actor <> "local-admin") then (inl EnrollmentForbidden, (s, a))
  else let '(r, s1) := repo_list_all s in (r, (s1, a)).
End Service.
