(* ===== verification/ServiceClaims.v ===== *)
(** * The credential service, and the shape of its digests

    Theorems about [EnrollmentService].  First the hashes it stores: a
    SHA-256 hex digest has 64 lower-case hexadecimal characters, so the
    credential table can always decode the hash of a token. *)

From stdpp Require Import base tactics list strings gmap sorting.
From Stdlib Require Import ZArith Lia Ascii.
From S2P Require Import Prelude Text Sql Digest Models ManagerCredentials CredentialStore EnrollmentService.

Lemma land_15_range n : (0 <= Z.land n 15 < 16)%Z.
Proof. change 15%Z with (Z.ones 4). rewrite Z.land_ones by lia. apply Z.mod_pos_bound. lia. Qed.

Lemma hex_char_lower n : (0 <= n < 16)%Z -> is_hex_lower (hex_char n) = true.
Proof.
  intros Hn. assert (Hall : Forall (fun d => is_hex_lower (hex_char d) = true) (Z.of_nat <$> seq 0 16))
    by repeat constructor.
  rewrite Forall_fmap, Forall_forall in Hall. specialize (Hall (Z.to_nat n)).
  unfold compose in Hall. rewrite Z2Nat.id in Hall by lia. apply Hall, elem_of_seq. lia.
Qed.

Lemma hex_shape d n : all_chars is_hex_lower (hex d n) = true /\ String.length (hex d n) = d.
Proof.
  revert n. induction d as [|d IH]; intros n; [done|]. cbn [hex].
  rewrite all_chars_app, string_length_app. destruct (IH (Z.shiftr n 4)) as [-> ->].
  cbn [all_chars String.length]. rewrite hex_char_lower by apply land_15_range. split; [done|lia].
Qed.

Lemma hex_words_shape ws :
  let s := foldr (fun w acc => hex 8 w +:+ acc) "" ws in
  all_chars is_hex_lower s = true /\ String.length s = 8 * length ws.
Proof.
  induction ws as [|w ws [IHa IHl]]; [done|]. cbn [foldr length] in *.
  rewrite all_chars_app, string_length_app, IHa, IHl. destruct (hex_shape 8 w) as [-> ->]. split; [done|lia].
Qed.

Lemma sha_round_length st kw : length st = 8 -> length (sha_round st kw) = 8.
Proof. do 9 (destruct st as [|? st]; try done). Qed.

Lemma sha_rounds_length l st : length st = 8 -> length (foldl sha_round st l) = 8.
Proof. revert st. induction l; intros st Hst; cbn; [done|]. by apply IHl, sha_round_length. Qed.

Lemma sha_blocks_length n st ws : length st = 8 -> length (sha_blocks n st ws) = 8.
Proof.
  revert st ws. induction n; intros st ws Hst; cbn [sha_blocks]; [done|]. apply IHn.
  unfold sha_block. rewrite length_zip_with, sha_rounds_length by done. lia.
Qed.

Lemma sha256_hex_shape bytes : is_sha256_hex (sha256_hex bytes) = true.
Proof.
  unfold is_sha256_hex, sha256_hex. cbv zeta.
  destruct (hex_words_shape (sha_blocks (length (sha_pad bytes) / 64) sha_init (words (sha_pad bytes))))
    as [-> ->]. by rewrite sha_blocks_length.
Qed.

(** A lower-case hexadecimal text is a number in base 16. *)
Lemma hex_digits_lower b s :
  all_chars is_hex_lower s = true -> b = true \/ s <> "" -> hex_digits b s = true.
Proof.
  revert b. induction s as [|c s IH]; intros b Hs Hb; cbn in *; [by destruct Hb|]. prop_hyps.
  unfold is_hex_any. rewrite H. cbn. auto.
Qed.

Lemma hex_lower_plain c :
  is_hex_lower c = true ->
  py_space c = false /\ is_char "+" c = false /\ is_char "-" c = false /\
  is_char "x" c = false /\ is_char "X" c = false.
Proof. by destruct c as [[] [] [] [] [] [] [] []]. Qed.

Lemma int16_hex s : all_chars is_hex_lower s = true -> s <> "" -> int16 s = true.
Proof.
  destruct s as [|c s]; intros Hs Hne; [done|]. cbn [all_chars] in Hs. prop_hyps.
  destruct (hex_lower_plain c H) as (E1 & E2 & E3 & _). cbn [int16]. rewrite E1, E2, E3. cbn [orb].
  assert (Hd : hex_digits false (String c s) = true).
  { apply hex_digits_lower; [cbn; by rewrite H|by right]. }
  destruct s as [|x [|y s]]; try (by destruct c as [[] [] [] [] [] [] [] []]).
  unfold hex_unsigned. cbn [all_chars] in H0. prop_hyps.
  destruct (hex_lower_plain x) as (_ & _ & _ & E4 & E5); [done|]. rewrite E4, E5. cbn [orb].
  by destruct c as [[] [] [] [] [] [] [] []].
Qed.

(** * What the credential service guarantees

    The theorems about [EnrollmentService], proved against the contract of the
    repository ([CredentialContract]) for any audit log; the SQLite repository
    is an instance. *)

(** ** Well-formed credentials *)
Lemma cred_unique_insert t k c k' b :
  (forall k b, t !! k = Some b -> cred_unique t k b = true) -> cred_unique t k c = true ->
  <[k := c]> t !! k' = Some b -> cred_unique (<[k := c]> t) k' b = true.
Proof.
  setoid_rewrite cred_unique_true. intros Hall Hc Hb k1 d Hd Hne.
  apply lookup_insert_Some in Hb as [[<- <-]|[Hk' Hb]];
    apply lookup_insert_Some in Hd as [[<- <-]|[Hk1 Hd]]; [done|by eapply Hc| |by eapply (Hall k' b Hb)].
  destruct (Hc k' b Hb) as [? ?]; auto.
Qed.

Lemma wf_insert t c :
  credentials_wf t -> decodes c = true -> cred_unique t (cred_id c) c = true ->
  credentials_wf (<[cred_id c := c]> t).
Proof.
  intros W Hd Hu k b Hb.
  assert (cred_unique (<[cred_id c := c]> t) k b = true).
  { eapply cred_unique_insert; eauto. intros. by eapply W. }
  apply lookup_insert_Some in Hb as [[<- <-]|[? Hb]]; [done|]. by destruct (W k b Hb) as (? & ? & ?).
Qed.

Lemma wf_delete t k : credentials_wf t -> credentials_wf (delete k t).
Proof.
  intros W k' b [_ Hb]%lookup_delete_Some. destruct (W k' b Hb) as (? & ? & Hu).
  split_and!; auto. rewrite cred_unique_true in *. intros k1 d [_ Hd]%lookup_delete_Some. by apply Hu.
Qed.

(** A change that keeps the identity of the row. *)
Lemma wf_update t k c c0 :
  credentials_wf t -> t !! k = Some c0 -> cred_id c = cred_id c0 ->
  cred_enrollment_id c = cred_enrollment_id c0 -> cred_token_hash c = cred_token_hash c0 ->
  decodes c = true -> credentials_wf (<[k := c]> t).
Proof.
  intros W Hk Hi He Hh Hd. destruct (W k c0 Hk) as (Hid & _ & Hu).
  rewrite <- Hid, <- Hi. apply wf_insert; [done|done|]. rewrite Hi, Hid.
  rewrite cred_unique_true in *. by rewrite He, Hh.
Qed.

Lemma token_hash_shape token :
  String.length (token_hash token) = 64 /\ int16 (token_hash token) = true.
Proof.
  pose proof (sha256_hex_shape (bytes_of token)) as Hs. unfold token_hash, is_sha256_hex in *. prop_hyps.
  apply Nat.eqb_eq in H0. split; [done|]. apply int16_hex; [done|]. intros E. by rewrite E in H0.
Qed.

Lemma pending_record_decodes cfg manager enrollment token uuid4 now :
  is_canonical_uuid uuid4 = true -> is_canonical_uuid manager = true ->
  is_enrollment_id enrollment = true ->
  decodes (pending_record cfg manager enrollment token uuid4 now) = true.
Proof.
  intros Hu Hm He. destruct (token_hash_shape token) as [Hl Hi]. unfold decodes.
  change (is_canonical_uuid uuid4 && is_canonical_uuid manager && is_enrollment_id enrollment &&
    (String.length (token_hash token) =? 64) && int16 (token_hash token) && true = true).
  by rewrite Hu, Hm, He, Hl, Hi.
Qed.

Section Claims.
Context {S A : Type} `{CredentialContract S} `{EnrollmentAudit A}.
Implicit Types (s : S) (a : A).

Lemma require_value_inr b u : require_value b = inr u -> b = true.
Proof. by destruct b. Qed.

(** ** Issuing *)

(** What a successful issue or retry has done to the credentials. *)
Lemma issue_spec cfg manager enrollment token uuid4 now retry s a c s' a' :
  credentials_wf (view s) ->
  issue cfg manager enrollment token uuid4 now retry (s, a) = (inr c, (s', a')) ->
  c = pending_record cfg manager enrollment token uuid4 now /\
  is_canonical_uuid manager = true /\ is_enrollment_id enrollment = true /\
  (pending_count now (view s) < max_pending cfg)%Z /\
  exists rest, (rest = view s \/ exists e, view s !! cred_id e = Some e /\
      cred_enrollment_id e = enrollment /\ retryable c e now = true /\ rest = delete (cred_id e) (view s)) /\
    rest !! uuid4 = None /\ cred_unique rest uuid4 c = true /\ view s' = <[uuid4 := c]> rest.
Proof.
  intros W. unfold issue. destruct (require_value _) as [e|u] eqn:Ev; [done|].
  apply require_value_inr in Ev. prop_hyps.
  destruct (record_intent _ _ _ a) as [[e|?] a1]; [done|]. cbv zeta.
  set (record := pending_record cfg manager enrollment token uuid4 now).
  destruct retry.
  - destruct (repo_reissue_expired record now (max_pending cfg) s) as [[e|?] s1] eqn:Er; [done|].
    intros [= <- <- <-]. apply reissue_contract in Er as (Hp & Hcase); [|done]. split_and!; auto.
    destruct Hcase as [(Ev & Hn & Hu)|(e & He & Hen & Hr & Hn & Hu & Ev)].
    + exists (view s). by split_and!; auto.
    + assert (Eq : reissued record e = record).
      { unfold reissued. rewrite Hen. reflexivity. }
      rewrite Eq in *. exists (delete (cred_id e) (view s)). split_and!; auto. right. exists e. auto.
  - destruct (repo_issue record now (max_pending cfg) s) as [[e|?] s1] eqn:Er; [done|].
    intros [= <- <- <-]. apply issue_contract in Er as (Ev & Hn & Hu & Hp); [|done].
    split_and!; auto. exists (view s). by split_and!; auto.
Qed.

(** ** Authentication *)
Lemma match_hash_app h l c :
  match_hash h (l ++ [c]) = if bool_decide (h = cred_token_hash c) then Some c else match_hash h l.
Proof. unfold match_hash. by rewrite foldl_snoc. Qed.

Lemma match_hash_spec h l :
  match match_hash h l with
  | Some c => c ∈ l /\ cred_token_hash c = h
  | None => forall c, c ∈ l -> cred_token_hash c <> h
  end.
Proof.
  induction l as [|c l IH] using rev_ind; [intros c Hc; by apply elem_of_nil in Hc|].
  rewrite match_hash_app. case_bool_decide as Hh.
  - split; [apply elem_of_app; right; by apply list_elem_of_singleton|done].
  - destruct (match_hash h l) as [d|].
    + destruct IH as [Hd Ed]. split; [apply elem_of_app; by left|done].
    + intros d [Hd|Hd]%elem_of_app; [by apply IH|]. apply list_elem_of_singleton in Hd as ->. congruence.
Qed.

Lemma same_hash_same_row s c d :
  credentials_wf (view s) -> view s !! cred_id c = Some c -> view s !! cred_id d = Some d ->
  cred_token_hash c = cred_token_hash d -> c = d.
Proof.
  intros W Hc Hd Eh. destruct (decide (cred_id c = cred_id d)) as [E|Hne]; [rewrite E in *; congruence|].
  destruct (W _ _ Hd) as (_ & _ & Hu). rewrite cred_unique_true in Hu.
  by destruct (Hu (cred_id c) c Hc Hne).
Qed.

(** The credential may be used at [now]. *)
Definition usable (now : time) (c : ManagerCredential) : bool :=
  bool_decide (cred_state c = CRED_ACTIVE) || live_pending now c.

Lemma usable_cases now c :
  (authenticates c = true /\
   bool_decide (cred_state c = CRED_PENDING) &&
   (is_none (cred_pending_expires_at c) || sql_le (cred_pending_expires_at c) now) = false) <->
  usable now c = true.
Proof.
  unfold usable, live_pending, authenticates.
  destruct (cred_state c); cbn; try naive_solver.
  destruct (cred_pending_expires_at c) as [t|]; cbn; [|naive_solver].
  change (true = true /\ (t <=? now)%Z = false <-> (now <? t)%Z = true).
  rewrite Z.ltb_antisym, negb_true_iff. naive_solver.
Qed.

(** The service reads the credentials, and answers the context of the one
    usable credential with the token's hash. *)
Lemma authenticate_exact token now s a :
  credentials_wf (view s) ->
  exists r, authenticate token now (s, a) = (inr r, (s, a)) /\
    forall context, r = Some context <->
      exists c, view s !! cred_id c = Some c /\ cred_token_hash c = token_hash token /\
        usable now c = true /\ context = context_of c.
Proof.
  intros W. destruct (authenticatable_contract s W) as (l & El & Hl).
  unfold authenticate. rewrite El. eexists. split; [reflexivity|]. intros context.
  pose proof (match_hash_spec (token_hash token) l) as Hm.
  destruct (match_hash (token_hash token) l) as [m|]; cbn.
  - destruct Hm as [[Hin Hau]%Hl Hh]. split.
    + case_match eqn:Hx; [done|]. intros [= <-]. exists m. split_and!; auto. by apply usable_cases.
    + intros (c & Hc & Ec & Hu & ->). assert (c = m) as ->
        by exact (same_hash_same_row s c m W Hc Hin (eq_trans Ec (eq_sym Hh))).
      apply usable_cases in Hu as [_ Hu]. by rewrite Hu.
  - split; [done|]. intros (c & Hc & Ec & Hu & ->). apply usable_cases in Hu as [Hau _].
    destruct (Hm c); [by apply Hl|done].
Qed.

(** Authentication is exact.  With a well-formed credential table the
    service never fails, changes nothing, and accepts a token exactly when some
    stored credential has its hash and is active, or pending and not expired;
    the context is that credential's.  In particular an expired or revoked
    credential is never accepted. *)
Theorem authentication_is_exact token now s a :
  credentials_wf (view s) ->
  exists r, authenticate token now (s, a) = (inr r, (s, a)) /\
    forall context, r = Some context <->
      exists c, view s !! cred_id c = Some c /\ cred_token_hash c = token_hash token /\
        usable now c = true /\ context = context_of c.
Proof. apply authenticate_exact. Qed.

(** ** Round trips *)
Lemma authenticate_row token now s a c :
  credentials_wf (view s) -> view s !! cred_id c = Some c -> cred_token_hash c = token_hash token ->
  authenticate token now (s, a) =
    (inr (if usable now c then Some (context_of c) else None), (s, a)).
Proof.
  intros W Hc Hh. destruct (authenticate_exact token now s a W) as (r & -> & Hr). do 2 f_equal.
  destruct (usable now c) eqn:Hu; [apply Hr; eauto|].
  destruct r as [context|]; [|done]. destruct (proj1 (Hr context) eq_refl) as (d & Hd & Ed & Hud & ->).
  assert (d = c) as ->
    by exact (same_hash_same_row s d c W Hd Hc (eq_trans Ed (eq_sym Hh))). congruence.
Qed.

Lemma issue_wf cfg manager enrollment token uuid4 now retry s a c s' a' :
  credentials_wf (view s) -> is_canonical_uuid uuid4 = true ->
  issue cfg manager enrollment token uuid4 now retry (s, a) = (inr c, (s', a')) ->
  credentials_wf (view s') /\ view s' !! uuid4 = Some c.
Proof.
  intros W Hu E. destruct (issue_spec _ _ _ _ _ _ _ _ _ _ _ _ W E) as
    (-> & Hm & He & _ & rest & Hrest & Hn & Hun & Ev).
  rewrite Ev. split; [|by rewrite lookup_insert_eq].
  apply (wf_insert rest (pending_record cfg manager enrollment token uuid4 now)).
  - destruct Hrest as [->|(e & _ & _ & _ & ->)]; [done|by apply wf_delete].
  - by apply pending_record_decodes.
  - exact Hun.
Qed.

(** An issued token works until it expires.  After a successful issue or
    retry the table is well formed, the capacity was not exceeded, and the
    token authenticates as the pending credential of its manager exactly until
    the configured TTL has passed. *)
Theorem issued_token_authenticates cfg manager enrollment token uuid4 now retry s a c s' a' now2 :
  credentials_wf (view s) -> is_canonical_uuid uuid4 = true ->
  issue cfg manager enrollment token uuid4 now retry (s, a) = (inr c, (s', a')) ->
  credentials_wf (view s') /\ (pending_count now (view s) < max_pending cfg)%Z /\
  authenticate token now2 (s', a') =
    (inr (if (now2 <? now + seconds (pending_ttl_seconds cfg))%Z
          then Some (mkContext uuid4 manager CRED_PENDING) else None), (s', a')).
Proof.
  intros W Hu E. destruct (issue_wf _ _ _ _ _ _ _ _ _ _ _ _ W Hu E) as [W' Hc].
  destruct (issue_spec _ _ _ _ _ _ _ _ _ _ _ _ W E) as (-> & _ & _ & Hp & _).
  split_and!; [done|done|]. rewrite (authenticate_row token now2 s' a'
    (pending_record cfg manager enrollment token uuid4 now) W' Hc eq_refl). done.
Qed.

(** ** Activation *)
Lemma activated_decodes now c : decodes c = true -> decodes (activated now c) = true.
Proof. unfold decodes. intros. prop_hyps. rewrite !andb_True_iff. by split_and!. Qed.

Lemma revoked_decodes now c : decodes c = true -> decodes (revoked now c) = true.
Proof. unfold decodes. intros. prop_hyps. rewrite !andb_True_iff. by split_and!. Qed.

(** Other connections keep the table well formed. *)
Definition keeps_wf (other : S -> S) : Prop :=
  forall s, credentials_wf (view s) -> credentials_wf (view (other s)).

Lemma keeps_wf_id : keeps_wf (fun s => s).
Proof. by intros s W. Qed.

Lemma activate_spec other id enrollment token now s a c s' a' :
  credentials_wf (view s) -> keeps_wf other ->
  activate other id enrollment token now (s, a) = (inr c, (s', a')) ->
  (exists context, authenticate token now (s, a) = (inr (Some context), (s, a)) /\
     context_credential_id context = id) /\
  exists c0, view (other s) !! id = Some c0 /\ cred_enrollment_id c0 = enrollment /\
    cred_token_hash c0 = token_hash token /\
    (cred_state c0 = CRED_ACTIVE /\ c = c0 \/ live_pending now c0 = true /\ c = activated now c0) /\
    view s' = <[id := c]> (view (other s)) /\ credentials_wf (view s').
Proof.
  intros W Ho. unfold activate. destruct (require_value _) as [e|u] eqn:Ev; [done|].
  destruct (authenticate_exact token now s a W) as (r & -> & _).
  destruct (record_intent _ _ _ a) as [[e|?] a2]; [done|]. cbv zeta.
  destruct (may_activate id r) eqn:Hmay; [|done]. cbn [negb].
  destruct (repo_activate _ _ _ _ _) as [[e|[c'|]] s2] eqn:Ea; [done| |done].
  intros [= -> <- <-]. apply activate_contract in Ea as (c0 & Hc0 & He & Hh & Evs & Hcase); [|by apply Ho].
  split.
  { destruct r as [context|]; [|done]. cbn in Hmay. prop_hyps. eauto. }
  exists c0. split_and!; auto. rewrite Evs. destruct (Ho s W _ _ Hc0) as (_ & Hd & _).
  destruct Hcase as [[_ ->]|[_ ->]]; apply (wf_update _ _ _ c0); auto. by apply activated_decodes.
Qed.

(** Activation needs the token in time, and is lasting.  A successful
    [activate] presented the token of that very credential and its enrollment
    identifier, and the credential was active already or pending and not
    expired; afterwards the token authenticates as the active credential at
    every time, whatever other connections had done in between. *)
Theorem activated_token_authenticates other id enrollment token now s a c s' a' now2 :
  credentials_wf (view s) -> keeps_wf other ->
  activate other id enrollment token now (s, a) = (inr c, (s', a')) ->
  (exists c0, view (other s) !! id = Some c0 /\ cred_enrollment_id c0 = enrollment /\
     cred_token_hash c0 = token_hash token /\ usable now c0 = true) /\
  authenticate token now2 (s', a') = (inr (Some (mkContext id (cred_manager_id c) CRED_ACTIVE)), (s', a')).
Proof.
  intros W Ho E. destruct (activate_spec _ _ _ _ _ _ _ _ _ _ W Ho E) as
    (_ & c0 & Hc0 & He & Hh & Hcase & Evs & W'). split.
  - exists c0. split_and!; auto. unfold usable. destruct Hcase as [[Hs _]|[Hl _]].
    + by rewrite bool_decide_true.
    + by rewrite Hl, orb_true_r.
  - assert (Hid : cred_id c = id /\ cred_token_hash c = token_hash token /\ cred_state c = CRED_ACTIVE).
    { destruct (Ho s W _ _ Hc0) as (Hid & _). by destruct Hcase as [[? ->]|[_ ->]]. }
    destruct Hid as (Hid & Hhash & Hst).
    rewrite (authenticate_row token now2 s' a' c W'); [|by rewrite Evs, Hid, lookup_insert_eq|exact Hhash].
    unfold usable, context_of. rewrite Hst, Hid. done.
Qed.

(** ** Revocation *)
Lemma revoke_spec other id actor manager now s a c s' a' :
  credentials_wf (view s) -> keeps_wf other ->
  revoke other id actor manager now (s, a) = (inr c, (s', a')) ->
  (exists c1, view s !! id = Some c1 /\ (actor = "local-admin" \/ manager = Some (cred_manager_id c1))) /\
  exists c0, view (other s) !! id = Some c0 /\
    c = (if bool_decide (cred_state c0 = CRED_REVOKED) then c0 else revoked now c0) /\
    view s' = <[id := c]> (view (other s)) /\ credentials_wf (view s').
Proof.
  intros W Ho. unfold revoke. destruct (require_value _) as [e|u]; [done|].
  destruct (record_intent _ _ _ a) as [[e|?] a1]; [done|]. cbv zeta.
  rewrite (get_contract id s W). destruct (view s !! id) as [c1|] eqn:Hc1; [|done].
  destruct (bool_decide (actor <> "local-admin") && _) eqn:Hauth; [done|].
  destruct (repo_revoke _ _ _) as [[e|[c'|]] s2] eqn:Er; [done| |done].
  intros [= -> <- <-]. apply revoke_contract in Er as (c0 & Hc0 & Evs & Hc); [|by apply Ho]. split.
  - exists c1. split; [done|]. apply andb_false_iff in Hauth as [?|?]; prop_hyps; [|by right].
    left. by apply dec_stable.
  - exists c0. split_and!; auto. rewrite Evs. destruct (Ho s W _ _ Hc0) as (_ & Hd & _).
    subst c. case_bool_decide; apply (wf_update _ _ _ c0); auto. by apply revoked_decodes.
Qed.

(** The operations of the service that change credentials. *)
Inductive ServiceCall :=
| CallIssue (cfg : ServiceConfig) (manager enrollment token uuid4 : string) (now : time) (retry : bool)
| CallActivate (id enrollment token : string) (now : time)
| CallRevoke (id actor : string) (manager : option string) (now : time).

Definition service_run (c : ServiceCall) (sa : S * A) : S * A :=
  match c with
  | CallIssue cfg m e t u now retry => (issue cfg m e t u now retry sa).2
  | CallActivate id e t now => (activate (fun s => s) id e t now sa).2
  | CallRevoke id actor m now => (revoke (fun s => s) id actor m now sa).2
  end.

(** New credentials get fresh canonical identifiers and never the token. *)
Definition avoids (hash : string) (c : ServiceCall) : Prop :=
  match c with
  | CallIssue _ _ _ t u _ _ => is_canonical_uuid u = true /\ token_hash t <> hash
  | _ => True
  end.

(** No usable credential has the hash. *)
Definition dead (hash : string) (v : Store) : Prop :=
  forall k c, v !! k = Some c -> cred_token_hash c = hash -> cred_state c = CRED_REVOKED.

(** A raised operation leaves the credentials. *)
Lemma issue_inl cfg m e t u now retry s a x s' a' :
  credentials_wf (view s) -> issue cfg m e t u now retry (s, a) = (inl x, (s', a')) -> view s' = view s.
Proof.
  intros W. unfold issue. destruct (require_value _); [by intros [= <- <- <-]|].
  destruct (record_intent _ _ _ a) as [[?|?] a1]; [by intros [= <- <- <-]|]. cbv zeta.
  destruct retry; [destruct (repo_reissue_expired _ _ _ s) as [[?|?] s1] eqn:E|
    destruct (repo_issue _ _ _ s) as [[?|?] s1] eqn:E]; intros [= <- <- <-].
  - by apply reissue_contract in E.
  - by apply issue_contract in E.
Qed.

Lemma activate_inl id e t now s a x s' a' :
  credentials_wf (view s) -> activate (fun s => s) id e t now (s, a) = (inl x, (s', a')) ->
  view s' = view s.
Proof.
  intros W. unfold activate. destruct (require_value _); [by intros [= <- <- <-]|].
  destruct (authenticate_exact t now s a W) as (r & -> & _).
  destruct (record_intent _ _ _ a) as [[?|?] a1]; [by intros [= <- <- <-]|]. cbv zeta.
  destruct (negb _); [by intros [= <- <- <-]|].
  destruct (repo_activate _ _ _ _ s) as [[?|[?|]] s1] eqn:E; intros [= <- <- <-];
    by apply activate_contract in E.
Qed.

Lemma revoke_inl id actor m now s a x s' a' :
  credentials_wf (view s) -> revoke (fun s => s) id actor m now (s, a) = (inl x, (s', a')) ->
  view s' = view s.
Proof.
  intros W. unfold revoke. destruct (require_value _); [by intros [= <- <- <-]|].
  destruct (record_intent _ _ _ a) as [[?|?] a1]; [by intros [= <- <- <-]|]. cbv zeta.
  rewrite (get_contract id s W). destruct (view s !! id); [|by intros [= <- <- <-]].
  destruct (bool_decide _ && _); [by intros [= <- <- <-]|].
  destruct (repo_revoke _ _ s) as [[?|[?|]] s1] eqn:E; intros [= <- <- <-];
    apply revoke_contract in E; tauto.
Qed.

Lemma dead_insert hash t k c :
  dead hash t -> (cred_token_hash c = hash -> cred_state c = CRED_REVOKED) -> dead hash (<[k := c]> t).
Proof. intros Hd Hc k' b [[<- <-]|[_ Hb]]%lookup_insert_Some; [done|by eapply Hd]. Qed.

Lemma service_run_dead hash c s a :
  avoids hash c -> credentials_wf (view s) -> dead hash (view s) ->
  credentials_wf (view (service_run c (s, a)).1) /\ dead hash (view (service_run c (s, a)).1).
Proof.
  intros Hav W Hd. destruct c; cbn [service_run avoids] in *.
  - destruct Hav as [Hu Hne].
    destruct (issue _ _ _ _ _ _ _ (s, a)) as [[x|c] [s' a']] eqn:E; cbn [fst snd].
    + rewrite (issue_inl _ _ _ _ _ _ _ _ _ _ _ _ W E). done.
    + split; [by apply (issue_wf _ _ _ _ _ _ _ _ _ _ _ _ W Hu E)|].
      destruct (issue_spec _ _ _ _ _ _ _ _ _ _ _ _ W E) as (-> & _ & _ & _ & rest & Hrest & _ & _ & ->).
      apply dead_insert; [|done]. destruct Hrest as [->|(e & _ & _ & _ & ->)]; [done|].
      intros k b [_ Hb]%lookup_delete_Some. by eapply Hd.
  - destruct (activate _ _ _ _ _ (s, a)) as [[x|c] [s' a']] eqn:E; cbn [fst snd].
    + rewrite (activate_inl _ _ _ _ _ _ _ _ _ W E). done.
    + destruct (activate_spec _ _ _ _ _ _ _ _ _ _ W keeps_wf_id E) as
        (_ & c0 & Hc0 & _ & Hh & Hcase & Evs & W'). split; [done|]. rewrite Evs.
      apply dead_insert; [done|]. intros Eh. destruct Hcase as [[Hs ->]|[Hl ->]].
      * by apply (Hd _ _ Hc0).
      * unfold live_pending in Hl. prop_hyps. pose proof (Hd _ _ Hc0 Eh). congruence.
  - destruct (revoke _ _ _ _ _ (s, a)) as [[x|c] [s' a']] eqn:E; cbn [fst snd].
    + rewrite (revoke_inl _ _ _ _ _ _ _ _ _ W E). done.
    + destruct (revoke_spec _ _ _ _ _ _ _ _ _ _ W keeps_wf_id E) as
        (_ & c0 & Hc0 & -> & Evs & W'). split; [done|]. rewrite Evs.
      apply dead_insert; [done|]. by case_bool_decide.
Qed.

Definition service_run_all (cs : list ServiceCall) (sa : S * A) : S * A :=
  foldl (fun sa c => service_run c sa) sa cs.

Lemma service_run_all_dead hash cs s a :
  Forall (avoids hash) cs -> credentials_wf (view s) -> dead hash (view s) ->
  credentials_wf (view (service_run_all cs (s, a)).1) /\ dead hash (view (service_run_all cs (s, a)).1).
Proof.
  intros Hcs. revert s a. induction Hcs as [|c cs Hc Hcs IH]; intros s a W Hd; [done|].
  unfold service_run_all in *. cbn [foldl].
  destruct (service_run_dead hash c s a Hc W Hd) as [W1 Hd1].
  destruct (service_run c (s, a)) as [s1 a1]. by apply IH.
Qed.

Lemma dead_unauthenticated token now s a :
  credentials_wf (view s) -> dead (token_hash token) (view s) ->
  authenticate token now (s, a) = (inr None, (s, a)).
Proof.
  intros W Hd. destruct (authenticate_exact token now s a W) as ([context|] & -> & Hr); [|done].
  destruct (proj1 (Hr context) eq_refl) as (c & Hc & Hh & Hu & _).
  pose proof (Hd _ _ Hc Hh) as Hs. unfold usable, live_pending in Hu. by rewrite Hs in Hu.
Qed.

(** C21: a revoked token is rejected for good.  After a successful [revoke] the
    stored credential is revoked; and whatever the service is asked afterwards
    (issues, retries, activations and revocations, in any order and at any
    times), a token with its hash never authenticates again, as long as no new
    credential is given that very token. *)
Theorem revoked_token_rejected_forever other id actor manager now s a c s' a' cs token now2 :
  credentials_wf (view s) -> keeps_wf other ->
  revoke other id actor manager now (s, a) = (inr c, (s', a')) ->
  cred_token_hash c = token_hash token -> Forall (avoids (token_hash token)) cs ->
  cred_state c = CRED_REVOKED /\ view s' !! id = Some c /\
  exists sa, service_run_all cs (s', a') = sa /\ authenticate token now2 sa = (inr None, sa).
Proof.
  intros W Ho E Hh Hcs. destruct (revoke_spec _ _ _ _ _ _ _ _ _ _ W Ho E) as
    (_ & c0 & Hc0 & Hc & Evs & W').
  assert (Hst : cred_state c = CRED_REVOKED) by (subst c; by case_bool_decide).
  assert (Hid : view s' !! id = Some c) by by rewrite Evs, lookup_insert_eq.
  split_and!; [done|done|]. eexists. split; [reflexivity|].
  assert (Hd : dead (token_hash token) (view s')).
  { intros k d Hk Hdh. destruct (W' _ _ Hid) as (Ei & _), (W' _ _ Hk) as (Ek & _).
    assert (d = c) as ->; [|done]. apply (same_hash_same_row s'); [done|by rewrite Ek|by rewrite Ei|].
    exact (eq_trans Hdh (eq_sym Hh)). }
  destruct (service_run_all_dead _ cs s' a' Hcs W' Hd) as [W2 Hd2].
  destruct (service_run_all cs (s', a')) as [s2 a2]. by apply dead_unauthenticated.
Qed.

(** Revocation is authorised and recorded.  A [revoke] that returns was
    asked by the local administrator or by the manager that owns the
    credential; and if recording its intent in the audit log fails, the
    credentials are untouched and that failure is raised (likewise when
    issuing). *)
Theorem revocation_authorised_and_recorded other id actor manager now s a :
  credentials_wf (view s) -> keeps_wf other ->
  (forall c s' a', revoke other id actor manager now (s, a) = (inr c, (s', a')) ->
     exists c1, view s !! id = Some c1 /\
       (actor = "local-admin" \/ manager = Some (cred_manager_id c1))) /\
  (forall e a1, is_canonical_uuid id = true -> from_option is_canonical_uuid true manager = true ->
     record_intent "credential.revoke" actor (Some id) a = (inl e, a1) ->
     revoke other id actor manager now (s, a) = (inl e, (s, a1))) /\
  (forall cfg enrollment token uuid4 retry m e a1, is_canonical_uuid m = true ->
     is_enrollment_id enrollment = true ->
     record_intent "credential.issue" "local-admin" None a = (inl e, a1) ->
     issue cfg m enrollment token uuid4 now retry (s, a) = (inl e, (s, a1))).
Proof.
  intros W Ho. split_and!.
  - intros c s' a' E. by destruct (revoke_spec _ _ _ _ _ _ _ _ _ _ W Ho E) as (? & _).
  - intros e a1 Hid Hm Hi. unfold revoke. rewrite Hid, Hm. cbn [require_value andb]. by rewrite Hi.
  - intros cfg enrollment token uuid4 retry m e a1 Hm He Hi. unfold issue. rewrite Hm, He.
    cbn [require_value andb]. by rewrite Hi.
Qed.
End Claims.

(** ** The SQLite repository with a log of events *)
Definition AuditLog : Type := list (string * string * string).

#[global] Instance list_audit : EnrollmentAudit AuditLog := {|
  record_intent op actor _ log := (inr tt, (op, actor, "intent") :: log);
  record_outcome op actor _ result log := (op, actor, result) :: log
|}.

Definition config : ServiceConfig := mkConfig 600%Z 4%Z.
Definition cred_uuid : string := "00000000-0000-4000-8000-0000000000c1".
Definition manager_uuid : string := "00000000-0000-4000-8000-000000000001".

(** One issued credential. *)
Definition issued_state : Store * AuditLog :=
  (issue config manager_uuid "job-1" "secret" cred_uuid 5%Z false (∅, [])).2.

Definition issued_cred : ManagerCredential :=
  pending_record config manager_uuid "job-1" "secret" cred_uuid 5%Z.

Lemma empty_wf : credentials_wf ∅.
Proof. intros k c. by rewrite lookup_empty. Qed.

Lemma issued_ok :
  issue config manager_uuid "job-1" "secret" cred_uuid 5%Z false (∅, []) = (inr issued_cred, issued_state).
Proof. vm_compute. reflexivity. Qed.

Lemma issued_wf : credentials_wf issued_state.1.
Proof.
  refine (proj1 (issue_wf config manager_uuid "job-1" "secret" cred_uuid 5%Z false
    (∅ : Store) ([] : AuditLog) issued_cred issued_state.1 issued_state.2 empty_wf eq_refl _)).
  exact issued_ok.
Qed.

Lemma authentication_is_exact_witness :
  exists r, authenticate "secret" 6%Z issued_state = (inr r, issued_state) /\
    forall context, r = Some context <->
      exists c, issued_state.1 !! cred_id c = Some c /\ cred_token_hash c = token_hash "secret" /\
        usable 6%Z c = true /\ context = context_of c.
Proof. exact (authentication_is_exact "secret" 6%Z issued_state.1 issued_state.2 issued_wf). Defined.

Lemma issued_token_authenticates_witness :
  authenticate "secret" 6%Z issued_state =
    (inr (Some (mkContext cred_uuid manager_uuid CRED_PENDING)), issued_state).
Proof.
  refine (proj2 (proj2 (issued_token_authenticates config manager_uuid "job-1" "secret" cred_uuid 5%Z false
    (∅ : Store) ([] : AuditLog) issued_cred issued_state.1 issued_state.2 6%Z empty_wf eq_refl _))).
  exact issued_ok.
Defined.

Definition same_store : Store -> Store := fun t => t.

Definition activated_state : Store * AuditLog :=
  (activate same_store cred_uuid "job-1" "secret" 7%Z issued_state).2.

Lemma activated_token_authenticates_witness :
  authenticate "secret" 999999999999%Z activated_state =
    (inr (Some (mkContext cred_uuid manager_uuid CRED_ACTIVE)), activated_state).
Proof.
  refine (proj2 (activated_token_authenticates same_store cred_uuid "job-1" "secret" 7%Z
    issued_state.1 issued_state.2 (activated 7%Z issued_cred) activated_state.1 activated_state.2
    999999999999%Z issued_wf (fun s W => W) _)).
  vm_compute. reflexivity.
Defined.

Definition revoked_state : Store * AuditLog :=
  (revoke same_store cred_uuid "local-admin" None 8%Z issued_state).2.

(** Later calls: a retry under the same enrollment with a new token, and an
    attempt to activate with the old one. *)
Definition later_calls : list ServiceCall :=
  [CallIssue config manager_uuid "job-1" "fresh" "00000000-0000-4000-8000-0000000000c2" 9%Z true;
   CallActivate cred_uuid "job-1" "secret" 10%Z].

Lemma revoked_token_rejected_forever_witness :
  exists sa, service_run_all later_calls revoked_state = sa /\
    authenticate "secret" 11%Z sa = (inr None, sa).
Proof.
  refine (proj2 (proj2 (revoked_token_rejected_forever same_store cred_uuid "local-admin" None 8%Z
    issued_state.1 issued_state.2 (revoked 8%Z issued_cred) revoked_state.1 revoked_state.2
    later_calls "secret" 11%Z issued_wf (fun s W => W) _ _ _))).
  - vm_compute. reflexivity.
  - reflexivity.
  - constructor; [split; [reflexivity|vm_compute; discriminate]|]. constructor; [exact I|constructor].
Defined.

Lemma revocation_authorised_and_recorded_witness :
  exists c1, issued_state.1 !! cred_uuid = Some c1 /\
    ("local-admin" = "local-admin" \/ @None string = Some (cred_manager_id c1)).
Proof.
  refine (proj1 (revocation_authorised_and_recorded same_store cred_uuid "local-admin" None 8%Z
    issued_state.1 issued_state.2 issued_wf (fun s W => W)) (revoked 8%Z issued_cred)
    revoked_state.1 revoked_state.2 _).
  vm_compute. reflexivity.
Defined.
