(* ===== verification/Terminal.v ===== *)
(** * Terminal replay and tickets

    [ReplayBuffer] of [src/backend/ic_env_guard/terminal/replay_buffer.py] and
    [TerminalTicketManager] of [src/backend/ic_env_guard/terminal/tickets.py].
    A text is the list of its UTF-8 bytes. *)

From stdpp Require Import base tactics list gmap strings.
From Stdlib Require Import ZArith Lia.
From S2P Require Import Prelude Models.

Module Replay.

Abbreviation bytes := (list Z).

(** ** [bytes.decode("utf-8", errors="ignore")], encoded again

    The bytes of well-formed sequences are kept, every other byte is dropped. *)
Definition between (lo hi b : Z) : bool := (lo <=? b)%Z && (b <=? hi)%Z.
Definition continuation (b : Z) : bool := between 0x80 0xbf b.

(** The number of bytes of the well-formed sequence at the front, 0 if none. *)
Definition sequence_length (l : bytes) : nat :=
  match l with
  | a :: rest =>
      if between 0 0x7f a then 1
      else match rest with
      | b :: rest2 =>
          if between 0xc2 0xdf a && continuation b then 2
          else match rest2 with
          | c :: rest3 =>
              if ((between 0xe0 0xe0 a && between 0xa0 0xbf b) ||
                  (between 0xe1 0xec a && continuation b) ||
                  (between 0xed 0xed a && between 0x80 0x9f b) ||
                  (between 0xee 0xef a && continuation b)) && continuation c then 3
              else match rest3 with
              | d :: _ =>
                  if ((between 0xf0 0xf0 a && between 0x90 0xbf b) ||
                      (between 0xf1 0xf3 a && continuation b) ||
                      (between 0xf4 0xf4 a && between 0x80 0x8f b)) &&
                     continuation c && continuation d then 4
                  else 0
              | [] => 0
              end
          | [] => 0
          end
      | [] => 0
      end
  | [] => 0
  end.

(** One step drops or keeps at least one byte, so the length is enough fuel. *)
Fixpoint decode_ignore_fuel (fuel : nat) (l : bytes) : bytes :=
  match fuel with
  | 0 => []
  | S fuel =>
      match l with
      | [] => []
      | _ :: rest =>
          match sequence_length l with
          | 0 => decode_ignore_fuel fuel rest
          | n => take n l ++ decode_ignore_fuel fuel (drop n l)
          end
      end
  end.

Definition decode_ignore (l : bytes) : bytes := decode_ignore_fuel (length l) l.

(** [encoded[-n:]] *)
Definition py_tail (n : Z) (l : bytes) : bytes :=
  if (0 <? n)%Z then drop (length l - Z.to_nat n) l
  else drop (Z.to_nat (- n)) l.

(** ** The buffer *)
Record ReplayBuffer := mkBuffer {
  max_bytes : Z;
  chunks : list (Z * bytes);
  start_cursor : Z;
  cursor : Z
}.

Definition new_buffer (max : Z) : ReplayBuffer := mkBuffer max [] 0 0.

Definition len (l : bytes) : Z := Z.of_nat (length l).

Definition size_of (cs : list (Z * bytes)) : Z := foldr (fun c acc => len c.2 + acc)%Z 0%Z cs.

Definition size_bytes (b : ReplayBuffer) : Z := size_of (chunks b).

(** The loop of [_trim]: drop whole chunks while more than one is left. *)
Fixpoint trim_chunks (max : Z) (cs : list (Z * bytes)) (start : Z) : list (Z * bytes) * Z :=
  match cs with
  | c :: ((_ :: _) as rest) =>
      if (max <? size_of cs)%Z then trim_chunks max rest (c.1 + len c.2) else (cs, start)
  | _ => (cs, start)
  end.

Definition trim (b : ReplayBuffer) : ReplayBuffer :=
  let '(cs, start) := trim_chunks (max_bytes b) (chunks b) (start_cursor b) in
  match cs with
  | c :: rest =>
      if (max_bytes b <? size_of cs)%Z then
        let tail := py_tail (max_bytes b) c.2 in
        let start := (c.1 + len c.2 - len tail)%Z in
        mkBuffer (max_bytes b) ((start, decode_ignore tail) :: rest) start (cursor b)
      else mkBuffer (max_bytes b) cs start (cursor b)
  | [] => mkBuffer (max_bytes b) cs start (cursor b)
  end.

Definition append (text : bytes) (b : ReplayBuffer) : ReplayBuffer :=
  match text with
  | [] => b
  | _ => trim (mkBuffer (max_bytes b) (chunks b ++ [(cursor b, text)]) (start_cursor b)
                 (cursor b + len text))
  end.

(** The part of a chunk from the cursor on. *)
Definition chunk_from (effective : Z) (c : Z * bytes) : bytes :=
  if (c.1 + len c.2 <=? effective)%Z then []
  else if (effective <=? c.1)%Z then c.2
  else decode_ignore (drop (Z.to_nat (effective - c.1)) c.2).

Definition read_from (at_ : Z) (b : ReplayBuffer) : bytes * Z * bool :=
  if (cursor b <? at_)%Z then ([], cursor b, false)
  else
    let effective := Z.max at_ (start_cursor b) in
    (concat (map (chunk_from effective) (chunks b)), effective, (at_ <? start_cursor b)%Z).

(** All the output of a terminal, appended piece by piece. *)
Definition append_all (texts : list bytes) (b : ReplayBuffer) : ReplayBuffer :=
  foldl (fun b t => append t b) b texts.
End Replay.

Module Tickets.

Record TerminalTicket := mkTicket {
  ticket_terminal_id : string;
  ticket_expires_at : time;
  ticket_consumed : bool
}.

Record TicketManager := mkTickets {
  ttl_seconds : Z;
  tickets : gmap string TerminalTicket
}.

Definition new_tickets (ttl : Z) : TicketManager := mkTickets (Z.min ttl 60) ∅.

(** [token]: the random ticket text; [now]: the clock. *)
Definition issue (token terminal : string) (now : time) (m : TicketManager)
    : TerminalTicket * TicketManager :=
  let record := mkTicket terminal (now + seconds (ttl_seconds m))%Z false in
  (record, mkTickets (ttl_seconds m) (<[token := record]> (tickets m))).

Definition consume (token terminal : string) (now : time) (m : TicketManager)
    : bool * TicketManager :=
  match tickets m !! token with
  | None => (false, m)
  | Some r =>
      if ticket_consumed r || bool_decide (ticket_terminal_id r <> terminal) ||
         (ticket_expires_at r <? now)%Z
      then (false, m)
      else (true, mkTickets (ttl_seconds m)
                    (<[token := mkTicket (ticket_terminal_id r) (ticket_expires_at r) true]> (tickets m)))
  end.

(** What clients do to the tickets. *)
Inductive TicketCall :=
| CallIssue (token terminal : string) (now : time)
| CallConsume (token terminal : string) (now : time).

Definition run (c : TicketCall) (m : TicketManager) : TicketManager :=
  match c with
  | CallIssue t x now => (issue t x now m).2
  | CallConsume t x now => (consume t x now m).2
  end.

Definition run_all (cs : list TicketCall) (m : TicketManager) : TicketManager :=
  foldl (fun m c => run c m) m cs.
End Tickets.

(** * What terminal replay and tickets guarantee *)

Module ReplayFacts.
Import Replay.

(** ** Bounds *)
Lemma sequence_length_le l : sequence_length l <= length l.
Proof. unfold sequence_length. repeat case_match; cbn in *; lia. Qed.

Lemma decode_ignore_fuel_length fuel l : length (decode_ignore_fuel fuel l) <= length l.
Proof.
  revert l. induction fuel as [|fuel IH]; intros l; cbn [decode_ignore_fuel]; [cbn; lia|].
  destruct l as [|a l]; [done|]. destruct (sequence_length (a :: l)) as [|n] eqn:E.
  - specialize (IH l). cbn. lia.
  - rewrite length_app, length_take. specialize (IH (drop (S n) (a :: l))). rewrite length_drop in IH.
    pose proof (sequence_length_le (a :: l)). lia.
Qed.

Lemma decode_ignore_length l : (len (decode_ignore l) <= len l)%Z.
Proof. unfold len. pose proof (decode_ignore_fuel_length (length l) l). unfold decode_ignore. lia. Qed.

Lemma size_of_app a b : size_of (a ++ b) = (size_of a + size_of b)%Z.
Proof.
  induction a as [|c a IH]; [done|].
  change (len c.2 + size_of (a ++ b) = len c.2 + size_of a + size_of b)%Z. lia.
Qed.

Lemma size_of_nonneg cs : (0 <= size_of cs)%Z.
Proof.
  induction cs as [|c cs IH]; [done|]. change (0 <= len c.2 + size_of cs)%Z. unfold len. lia.
Qed.

Lemma trim_chunks_cons max c d cs start :
  trim_chunks max (c :: d :: cs) start =
    if (max <? size_of (c :: d :: cs))%Z then trim_chunks max (d :: cs) (c.1 + len c.2)
    else (c :: d :: cs, start).
Proof. done. Qed.

Lemma trim_chunks_stops max cs start :
  let '(cs', _) := trim_chunks max cs start in (size_of cs' <= max)%Z \/ length cs' <= 1.
Proof.
  revert start. induction cs as [|c cs IH]; intros start; [cbn; right; lia|].
  destruct cs as [|d cs]; [cbn; right; lia|]. rewrite trim_chunks_cons.
  destruct (Z.ltb_spec max (size_of (c :: d :: cs))); [apply IH|by left].
Qed.

Lemma py_tail_length n l : (1 <= n)%Z -> len (py_tail n l) = Z.min n (len l).
Proof.
  intros Hn. unfold py_tail, len. rewrite (proj2 (Z.ltb_lt 0 n)) by lia. rewrite length_drop. lia.
Qed.

Lemma trim_size b : (1 <= max_bytes b)%Z -> (size_bytes (trim b) <= max_bytes b)%Z.
Proof.
  intros Hm. unfold trim, size_bytes. pose proof (trim_chunks_stops (max_bytes b) (chunks b) (start_cursor b)) as Hs.
  destruct (trim_chunks _ _ _) as [[|c rest] start]; [cbn; lia|].
  destruct (Z.ltb_spec (max_bytes b) (size_of (c :: rest))) as [Hlt|Hge]; [|done].
  destruct Hs as [?|Hl]; [lia|]. destruct rest; [|cbn in Hl; lia]. cbn [chunks size_of foldr snd].
  pose proof (decode_ignore_length (py_tail (max_bytes b) c.2)).
  rewrite (py_tail_length _ _ Hm) in *. cbn in *. lia.
Qed.

Lemma trim_fields b : max_bytes (trim b) = max_bytes b /\ cursor (trim b) = cursor b.
Proof. unfold trim. by repeat case_match. Qed.

(** The chunks lie in order between [s] and [e]; a gap may follow a chunk
    whose first character was cut. *)
Fixpoint covers (s : Z) (cs : list (Z * bytes)) (e : Z) : Prop :=
  match cs with
  | [] => (s <= e)%Z
  | c :: rest => (s <= c.1)%Z /\ covers (c.1 + len c.2) rest e
  end.

Lemma covers_le s cs e : covers s cs e -> (s <= e)%Z.
Proof.
  revert s. induction cs as [|c cs IH]; cbn; intros s; [lia|]. intros (Hs & Hc%IH). unfold len in *. lia.
Qed.

Lemma covers_snoc s cs e t : covers s cs e -> covers s (cs ++ [(e, t)]) (e + len t).
Proof.
  revert s. induction cs as [|c cs IH]; cbn; intros s; [lia|]. intros [? ?]. auto.
Qed.

Lemma trim_chunks_covers max cs s e :
  covers s cs e -> let '(cs', s') := trim_chunks max cs s in covers s' cs' e /\ (s <= s')%Z.
Proof.
  revert s. induction cs as [|c cs IH]; intros s Hc; [cbn; split; [done|lia]|].
  destruct cs as [|d cs]; [cbn [trim_chunks]; split; [done|lia]|]. rewrite trim_chunks_cons.
  destruct (max <? size_of (c :: d :: cs))%Z; [|split; [done|lia]].
  destruct Hc as [Hs Hc]. specialize (IH _ Hc). destruct (trim_chunks _ _ _) as [cs' s'].
  destruct IH as [? ?]. unfold len in *. split; [done|lia].
Qed.

Lemma covers_weaken s s' cs e : covers s cs e -> (s' <= s)%Z -> covers s' cs e.
Proof. destruct cs; cbn; [lia|]. intros [? ?] ?. split; [lia|done]. Qed.

Lemma trim_covers b :
  (1 <= max_bytes b)%Z -> covers (start_cursor b) (chunks b) (cursor b) ->
  covers (start_cursor (trim b)) (chunks (trim b)) (cursor (trim b)) /\
  (start_cursor b <= start_cursor (trim b))%Z.
Proof.
  intros Hm Hc. unfold trim. pose proof (trim_chunks_covers (max_bytes b) _ _ _ Hc) as Ht.
  destruct (trim_chunks _ _ _) as [[|c rest] s']; [done|]. destruct (max_bytes b <? _)%Z; [|done].
  cbn [start_cursor chunks cursor]. destruct Ht as [[Hs Hr] Hle].
  pose proof (py_tail_length (max_bytes b) c.2 Hm).
  pose proof (decode_ignore_length (py_tail (max_bytes b) c.2)).
  split; [|unfold len in *; lia]. cbn. split; [lia|].
  apply (covers_weaken _ _ _ _ Hr). lia.
Qed.

(** What every operation keeps. *)
Definition bounded (max : Z) (b : ReplayBuffer) : Prop :=
  max_bytes b = max /\ (1 <= max)%Z /\ (size_bytes b <= max)%Z /\ (0 <= start_cursor b)%Z /\
  covers (start_cursor b) (chunks b) (cursor b).

Lemma append_bounded max t b : bounded max b -> bounded max (append t b).
Proof.
  intros (<- & Hm & Hs & H0 & Hc). destruct t as [|x t]; [done|]. unfold append.
  set (b1 := mkBuffer _ _ _ _).
  assert (Hc1 : covers (start_cursor b1) (chunks b1) (cursor b1)) by by apply covers_snoc.
  destruct (trim_covers b1 Hm Hc1) as [Hc2 Hle]. destruct (trim_fields b1) as [Em Ec].
  split_and!; [done|done|exact (trim_size b1 Hm)| |done].
  change (start_cursor b1) with (start_cursor b) in Hle. lia.
Qed.

Lemma append_all_bounded max ts b : bounded max b -> bounded max (append_all ts b).
Proof. revert b. induction ts; intros b Hb; [done|]. by apply IHts, append_bounded. Qed.

Lemma append_cursor t b : cursor (append t b) = (cursor b + len t)%Z.
Proof.
  destruct t as [|x t]; [unfold len; cbn; lia|]. unfold append. by destruct (trim_fields (mkBuffer (max_bytes b)
    (chunks b ++ [(cursor b, x :: t)]) (start_cursor b) (cursor b + len (x :: t)))) as [_ ->].
Qed.

Lemma append_all_cursor ts b : cursor (append_all ts b) = (cursor b + len (concat ts))%Z.
Proof.
  revert b. induction ts as [|t ts IH]; intros b; [unfold len; cbn; lia|].
  change (append_all (t :: ts) b) with (append_all ts (append t b)).
  rewrite IH, append_cursor. unfold len. cbn. rewrite length_app. lia.
Qed.

(** The replay buffer is bounded.  After any sequence of outputs it holds
    at most [max_bytes] bytes (for any positive bound), its end cursor counts
    every byte of output ever appended, and its start cursor lies between 0 and
    the end. *)
Theorem replay_buffer_bounded max texts :
  (1 <= max)%Z ->
  let b := append_all texts (new_buffer max) in
  (size_bytes b <= max)%Z /\ cursor b = len (concat texts) /\ (0 <= start_cursor b <= cursor b)%Z.
Proof.
  intros Hm b. assert (Hn : bounded max (new_buffer max)) by (split_and!; cbn; lia || done).
  destruct (append_all_bounded max texts _ Hn) as (_ & _ & H2 & H3 & H4%covers_le). fold b in H2, H3, H4.
  split_and!; auto. unfold b. rewrite append_all_cursor. cbn. lia.
Qed.

Lemma replay_buffer_bounded_witness :
  (size_bytes (append_all [[104; 105]; [33]; [10; 10]] (new_buffer 3)) <= 3)%Z.
Proof. apply (replay_buffer_bounded 3 [[104; 105]; [33]; [10; 10]]%Z). lia. Defined.

(** ** ASCII output *)
Definition ascii_bytes (l : bytes) : Prop := Forall (fun b => (0 <= b <= 127)%Z) l.

Lemma decode_ignore_fuel_ascii fuel l :
  ascii_bytes l -> length l <= fuel -> decode_ignore_fuel fuel l = l.
Proof.
  intros Ha. revert fuel. induction Ha as [|b l Hb Ha IH]; intros [|fuel] Hf; cbn in *; try done; try lia.
  unfold between. rewrite (proj2 (Z.leb_le 0 b)), (proj2 (Z.leb_le b 127)) by lia. cbn.
  f_equal. rewrite drop_0. apply IH. lia.
Qed.

Lemma decode_ignore_ascii l : ascii_bytes l -> decode_ignore l = l.
Proof. intros. by apply decode_ignore_fuel_ascii. Qed.

Lemma ascii_drop n l : ascii_bytes l -> ascii_bytes (drop n l).
Proof. apply Forall_drop. Qed.

(** The chunks follow one another without a gap from [s] to [e]. *)
Fixpoint contiguous (s : Z) (cs : list (Z * bytes)) (e : Z) : Prop :=
  match cs with
  | [] => s = e
  | c :: rest => c.1 = s /\ contiguous (s + len c.2) rest e
  end.

Definition text_of (cs : list (Z * bytes)) : bytes := concat (map snd cs).

Lemma contiguous_end s cs e : contiguous s cs e -> e = (s + len (text_of cs))%Z.
Proof.
  revert s. induction cs as [|c cs IH]; cbn; intros s; [unfold len; cbn; lia|].
  intros [_ ->%IH]. unfold len, text_of. cbn. rewrite length_app. lia.
Qed.

Lemma contiguous_snoc s cs e t : contiguous s cs e -> contiguous s (cs ++ [(e, t)]) (e + len t).
Proof.
  revert s. induction cs as [|c cs IH]; cbn; intros s; [intros ->; done|]. intros [? ?]. auto.
Qed.

Lemma text_of_app a b : text_of (a ++ b) = text_of a ++ text_of b.
Proof. unfold text_of. by rewrite map_app, concat_app. Qed.

(** Dropping whole chunks drops that much text. *)
Lemma trim_chunks_contiguous max cs s e :
  contiguous s cs e ->
  let '(cs', s') := trim_chunks max cs s in
  contiguous s' cs' e /\ (s <= s')%Z /\ text_of cs' = drop (Z.to_nat (s' - s)) (text_of cs).
Proof.
  revert s. induction cs as [|c cs IH]; intros s Hc; [cbn; by rewrite Z.sub_diag|].
  destruct cs as [|d cs].
  { cbn [trim_chunks]. split_and!; [done|lia|]. by rewrite Z.sub_diag. }
  rewrite trim_chunks_cons. destruct (max <? size_of (c :: d :: cs))%Z.
  - destruct Hc as [-> Hc]. specialize (IH _ Hc). destruct (trim_chunks _ _ _) as [cs' s'].
    destruct IH as (? & Hs & ->). unfold len in *. split_and!; [done|lia|].
    change (text_of (c :: d :: cs)) with (c.2 ++ text_of (d :: cs)).
    rewrite drop_app_ge by lia. f_equal. lia.
  - split_and!; [done|lia|]. by rewrite Z.sub_diag.
Qed.

Lemma text_of_cons c cs : text_of (c :: cs) = c.2 ++ text_of cs.
Proof. done. Qed.

Lemma py_tail_drop n l : (1 <= n)%Z -> py_tail n l = drop (length l - Z.to_nat n) l.
Proof. intros. unfold py_tail. by rewrite (proj2 (Z.ltb_lt 0 n)) by lia. Qed.

(** The buffer holds the output from its start cursor on. *)
Definition holds (hist : bytes) (b : ReplayBuffer) : Prop :=
  (0 <= start_cursor b)%Z /\ contiguous (start_cursor b) (chunks b) (cursor b) /\
  cursor b = len hist /\ text_of (chunks b) = drop (Z.to_nat (start_cursor b)) hist.

Lemma trim_holds hist b :
  (1 <= max_bytes b)%Z -> ascii_bytes hist -> holds hist b -> holds hist (trim b).
Proof.
  intros Hm Ha (H0 & Hc & He & Ht). unfold trim.
  pose proof (trim_chunks_contiguous (max_bytes b) _ _ _ Hc) as Hk.
  pose proof (trim_chunks_stops (max_bytes b) (chunks b) (start_cursor b)) as Hstop.
  destruct (trim_chunks _ _ _) as [cs s']. destruct Hk as (Hc' & Hle & Ht').
  rewrite Ht, drop_drop in Ht'. replace (Z.to_nat (start_cursor b) + Z.to_nat (s' - start_cursor b))
    with (Z.to_nat s') in Ht' by lia.
  destruct cs as [|c rest]; [by split_and!; cbn; auto; lia|].
  destruct (Z.ltb_spec (max_bytes b) (size_of (c :: rest))) as [Hlt|_]; [|by split_and!; cbn; auto; lia].
  destruct Hstop as [?|Hl]; [lia|]. destruct rest; [|cbn in Hl; lia].
  rewrite text_of_cons, app_nil_r in Ht'. destruct Hc' as [Hs' He']. cbn in He'.
  cbn [size_of foldr] in Hlt. unfold holds. cbn [start_cursor chunks cursor].
  assert (Hca : ascii_bytes c.2) by (rewrite Ht'; by apply ascii_drop).
  rewrite decode_ignore_ascii by (rewrite py_tail_drop by done; by apply ascii_drop).
  pose proof (py_tail_length (max_bytes b) c.2 Hm) as Hpl. unfold len in *.
  split; [lia|]. split; [split; [done|cbn; unfold len; lia]|]. split; [lia|].
  rewrite text_of_cons, app_nil_r, Hpl. replace (Z.to_nat (_ - _)) with
    (Z.to_nat s' + (length c.2 - Z.to_nat (max_bytes b))) by lia.
  rewrite <- drop_drop, <- Ht'. by apply py_tail_drop.
Qed.

Lemma append_holds hist t b :
  (1 <= max_bytes b)%Z -> ascii_bytes (hist ++ t) -> holds hist b -> holds (hist ++ t) (append t b).
Proof.
  intros Hm Ha Hh. destruct t as [|x t]; [by rewrite app_nil_r|]. unfold append.
  apply trim_holds; [done|done|]. destruct Hh as (H0 & Hc & He & Ht).
  pose proof (contiguous_end _ _ _ Hc) as Hend. split_and!; cbn [start_cursor chunks cursor].
  - done.
  - by apply contiguous_snoc.
  - unfold len in *. rewrite length_app. lia.
  - rewrite text_of_app, Ht. unfold text_of. cbn. rewrite app_nil_r.
    rewrite drop_app_le; [done|]. unfold len in *. lia.
Qed.

Lemma append_all_holds ts hist b :
  (1 <= max_bytes b)%Z -> ascii_bytes (hist ++ concat ts) -> holds hist b ->
  holds (hist ++ concat ts) (append_all ts b).
Proof.
  revert hist b. induction ts as [|t ts IH]; intros hist b Hm Ha Hh; cbn; [by rewrite app_nil_r|].
  cbn in Ha. rewrite app_assoc in *. apply IH; [|done|].
  - destruct t; [done|]. unfold append. by destruct (trim_fields (mkBuffer (max_bytes b)
      (chunks b ++ [(cursor b, z :: t)]) (start_cursor b) (cursor b + len (z :: t)))) as [-> _].
  - apply append_holds; [done| |done]. by apply Forall_app in Ha as [? _].
Qed.

(** Reading skips exactly the text before the cursor. *)
Lemma read_chunks s cs e at_ :
  contiguous s cs e -> ascii_bytes (text_of cs) -> (s <= at_)%Z ->
  concat (map (chunk_from at_) cs) = drop (Z.to_nat (at_ - s)) (text_of cs).
Proof.
  revert s. induction cs as [|c cs IH]; intros s Hc Ha Hs; [symmetry; apply drop_nil|].
  rewrite text_of_cons in *. apply Forall_app in Ha as [Hca Ha]. destruct Hc as [<- Hc].
  cbn [map concat]. unfold chunk_from at 1.
  destruct (Z.leb_spec (c.1 + len c.2) at_) as [Hx|Hx].
  - unfold len in *. rewrite (IH _ Hc Ha) by lia. rewrite drop_app_ge by lia. cbn. f_equal. lia.
  - assert (Hrest : concat (map (chunk_from at_) cs) = text_of cs).
    { clear -Hc Hx. assert (Hle : (at_ <= c.1 + len c.2)%Z) by lia. clear Hx. revert Hc Hle.
      generalize (c.1 + len c.2)%Z as m. induction cs as [|d cs IH]; intros m Hc Hm; [done|].
      destruct Hc as [<- Hc]. cbn [map concat]. rewrite text_of_cons. unfold chunk_from at 1.
      unfold len in *. destruct (Z.leb_spec (d.1 + Z.of_nat (length d.2)) at_).
      - destruct (d.2) eqn:Ed; [|cbn in *; lia]. rewrite (IH _ Hc); [done|lia].
      - rewrite (proj2 (Z.leb_le at_ d.1)) by lia. rewrite (IH _ Hc); [done|lia]. }
    rewrite Hrest. unfold len in *. destruct (Z.leb_spec at_ c.1).
    + replace (at_ - c.1)%Z with 0%Z by lia. done.
    + rewrite decode_ignore_ascii by by apply ascii_drop. rewrite drop_app_le by lia. done.
Qed.

(** Replay of ASCII output is exact.  After any sequence of ASCII
    outputs, a client that resumes at a cursor it has seen gets exactly the
    output from there on, or from the start of what is retained, with the
    truncation flag telling which; a cursor beyond the end gets nothing and the
    current end. *)
Theorem ascii_replay_exact max texts at_ :
  (1 <= max)%Z -> ascii_bytes (concat texts) -> (0 <= at_)%Z ->
  let b := append_all texts (new_buffer max) in
  read_from at_ b =
    if (len (concat texts) <? at_)%Z then ([], len (concat texts), false)
    else (drop (Z.to_nat (Z.max at_ (start_cursor b))) (concat texts),
          Z.max at_ (start_cursor b), (at_ <? start_cursor b)%Z).
Proof.
  intros Hm Ha Hat b.
  destruct (append_all_holds texts [] (new_buffer max) Hm Ha) as (H0 & Hc & He & Ht); [by split_and!|].
  cbn [app] in *. fold b in H0, Hc, He, Ht. unfold read_from. rewrite He.
  destruct (len (concat texts) <? at_)%Z; [done|]. do 2 f_equal.
  rewrite (read_chunks _ _ _ _ Hc) by (rewrite ?Ht; try apply ascii_drop; done || lia).
  rewrite Ht, drop_drop. f_equal. lia.
Qed.

Lemma ascii_replay_exact_witness :
  read_from 1 (append_all [[104; 105]; [33]]%Z (new_buffer 3)) = ([105; 33]%Z, 1%Z, false).
Proof.
  refine (eq_trans (ascii_replay_exact 3 [[104; 105]; [33]]%Z 1 _ _ _) _).
  - lia.
  - repeat constructor; lia.
  - lia.
  - vm_compute. reflexivity.
Defined.

(** A cut character loses output.  When the bound falls inside a
    character, [_trim] drops the broken character but keeps counting its
    bytes: the remaining text is stored at too small a cursor.  Here the
    output "é", "b", "c" in a buffer of 3 bytes leaves the last byte at cursor
    3, yet a client that resumes at cursor 3 gets nothing, and is told that
    nothing was truncated. *)
Theorem cut_character_loses_output :
  let b := append_all [[0xc3; 0xa9; 98; 99]]%Z (new_buffer 3) in
  cursor b = 4%Z /\ drop 3 (concat [[0xc3; 0xa9; 98; 99]]%Z) = [99]%Z /\
  read_from 3 b = ([], 3%Z, false).
Proof. vm_compute. done. Qed.
End ReplayFacts.

Module TicketFacts.
Import Tickets.

(** The ticket is spent: absent or consumed. *)
Definition spent (token : string) (m : TicketManager) : Prop :=
  forall r, tickets m !! token = Some r -> ticket_consumed r = true.

Definition reissues (token : string) (c : TicketCall) : Prop :=
  match c with CallIssue t _ _ => t = token | CallConsume _ _ _ => False end.

Lemma consume_spec token terminal now m m' :
  consume token terminal now m = (true, m') ->
  exists r, tickets m !! token = Some r /\ ticket_consumed r = false /\
    ticket_terminal_id r = terminal /\ (now <= ticket_expires_at r)%Z /\ spent token m'.
Proof.
  unfold consume. destruct (tickets m !! token) as [r|] eqn:Hr; [|done].
  destruct (ticket_consumed r || _ || _) eqn:E; [done|]. intros [= <-]. prop_hyps. exists r.
  match goal with H : ~ _ <> _ |- _ => apply dec_stable in H end. split_and!; auto.
  intros q Hq. cbn in Hq. rewrite lookup_insert_eq in Hq. by injection Hq as <-.
Qed.

Lemma run_spent token c m : ~ reissues token c -> spent token m -> spent token (run c m).
Proof.
  intros Hc Hs. destruct c as [t x now|t x now]; cbn [run reissues] in *.
  - intros r Hr. cbn in Hr. rewrite lookup_insert_ne in Hr by done. by apply Hs.
  - unfold consume. destruct (tickets m !! t) as [q|] eqn:Hq; [|done]. case_match; [done|].
    intros r Hr. cbn in Hr. apply lookup_insert_Some in Hr as [[-> <-]|[_ Hr]]; [done|by apply Hs].
Qed.

Lemma run_all_spent token cs m :
  Forall (fun c => ~ reissues token c) cs -> spent token m -> spent token (run_all cs m).
Proof.
  intros Hcs. revert m. induction Hcs as [|c cs Hc Hcs IH]; intros m Hs; [done|].
  by apply IH, run_spent.
Qed.

Lemma spent_refused token terminal now m : spent token m -> consume token terminal now m = (false, m).
Proof.
  intros Hs. unfold consume. destruct (tickets m !! token) as [r|] eqn:Hr; [|done].
  by rewrite (Hs r Hr).
Qed.

(** A ticket opens one terminal once.  A ticket is accepted only if it was
    issued, for that very terminal, not accepted before and not expired; once
    accepted it is refused for any terminal at any later time, whatever other
    tickets are issued and consumed in between. *)
Theorem ticket_single_use token terminal now m m' cs :
  consume token terminal now m = (true, m') -> Forall (fun c => ~ reissues token c) cs ->
  (exists r, tickets m !! token = Some r /\ ticket_consumed r = false /\
     ticket_terminal_id r = terminal /\ (now <= ticket_expires_at r)%Z) /\
  forall terminal2 now2,
    consume token terminal2 now2 (run_all cs m') = (false, run_all cs m').
Proof.
  intros (r & Hr & Hc & Ht & Hn & Hs)%consume_spec Hcs. split; [eauto 10|].
  intros. by apply spent_refused, run_all_spent.
Qed.

Lemma ticket_single_use_witness :
  exists m', consume "t" "term" 10%Z (run (CallIssue "t" "term" 5%Z) (new_tickets 60)) = (true, m') /\
    consume "t" "term" 11%Z (run (CallIssue "u" "term" 10%Z) m') =
      (false, run (CallIssue "u" "term" 10%Z) m').
Proof.
  eexists. split; [vm_compute; reflexivity|].
  refine (proj2 (ticket_single_use "t" "term" 10%Z (run (CallIssue "t" "term" 5%Z) (new_tickets 60)) _
    [CallIssue "u" "term" 10%Z] _ _) "term" 11%Z).
  - vm_compute. reflexivity.
  - constructor; [cbn; discriminate|constructor].
Defined.
End TicketFacts.
