(* ===== verification/SecretFiles.v ===== *)
(** * The credential directory

    [CredentialStore] of [src/backend/ic_env_guard/enrollment/credential_store.py]:
    one file per credential, published by a hard link, under a lock file.  The
    directory is a map from names to inodes.  Every system call may work, fail
    with [OSError], or be the point at which the process dies; [faults] says
    which, call by call (no more entries: the calls work).  Once the process
    is dead nothing changes the directory any more. *)

From stdpp Require Import base tactics list gmap strings sorting.
From Stdlib Require Import ZArith Lia Ascii.
From S2P Require Import Prelude Text.

Inductive fault := Works | Fails | Crashes.

(** [FileNotFoundError] and [FileExistsError] are subclasses of [OSError]. *)
Inductive os_exn :=
| FileNotFoundError
| FileExistsError
| OSError
| CredentialStoreError
| Crashed.

#[local] Set Primitive Projections.
(** What [stat] tells of a file: a regular file (not a link or directory), its
    owner is the process, its permission bits; and its bytes. *)
Record Inode := mkInode {
  inode_regular : bool;
  inode_owned : bool;
  inode_mode : Z;
  inode_data : string
}.

Record Dir := mkDir {
  entries : gmap string positive;
  inodes : gmap positive Inode;
  next_inode : positive;
  faults : list fault;
  sizes : list nat;
  dead : bool;
  depth : nat
}.
#[local] Unset Primitive Projections.

(** ** System calls *)
Definition FS (A : Type) : Type := Dir -> (os_exn + A) * Dir.

Definition fs_ret {A} (a : A) : FS A := fun d => (inr a, d).
Definition fs_raise {A} (e : os_exn) : FS A := fun d => (inl e, d).

Definition fs_bind {A B} (m : FS A) (k : A -> FS B) : FS B := fun d =>
  match m d with
  | (inl e, d') => (inl e, d')
  | (inr a, d') => k a d'
  end.

Notation "'let?' x ':=' m 'in' k" := (fs_bind m (fun x => k))
  (at level 10, x pattern, m at level 100, k at level 200) : guard_scope.
Notation "m ';;?' k" := (fs_bind m (fun _ => k))
  (at level 199, right associativity) : guard_scope.

Definition fs_assert (b : bool) (e : os_exn) : FS unit := if b then fs_ret tt else fs_raise e.

(** [try: m except ...: handler]; a crash is not caught. *)
Definition fs_try {A} (m : FS A) (handler : os_exn -> FS A) : FS A := fun d =>
  match m d with
  | (inl Crashed, d') => (inl Crashed, d')
  | (inl e, d') => handler e d'
  | (inr a, d') => (inr a, d')
  end.

(** [try: m finally: f] *)
Definition fs_finally {A} (m : FS A) (f : FS unit) : FS A := fun d =>
  match m d with
  | (r, d') => match f d' with
               | (inl e, d2) => (inl e, d2)
               | (inr _, d2) => (r, d2)
               end
  end.

(** [except OSError: raise CredentialStoreError] *)
Definition os_error (e : os_exn) : os_exn :=
  match e with Crashed => Crashed | _ => CredentialStoreError end.

Definition translate {A} (m : FS A) : FS A := fs_try m (fun e => fs_raise (os_error e)).

(** The next system call. *)
Definition sys : FS unit := fun d =>
  if dead d then (inl Crashed, d)
  else match faults d with
       | [] => (inr tt, d)
       | Works :: rest => (inr tt, d <| faults := rest |>)
       | Fails :: rest => (inl OSError, d <| faults := rest |>)
       | Crashes :: rest => (inl Crashed, d <| faults := rest |> <| dead := true |>)
       end.

Definition lstat (name : string) : FS positive :=
  sys ;;? fun d => match entries d !! name with
                    | Some i => (inr i, d)
                    | None => (inl FileNotFoundError, d)
                    end.

(** [os.open(path, O_RDONLY | O_NOFOLLOW)]: the descriptor is the inode. *)
Definition os_open (name : string) : FS positive := lstat name.

Definition metadata (i : positive) : FS Inode :=
  fun d => match inodes d !! i with
           | Some f => (inr f, d)
           | None => (inl FileNotFoundError, d)
           end.

Definition fstat (i : positive) : FS Inode := sys ;;? metadata i.

Definition unlink (name : string) : FS unit :=
  sys ;;? fun d => match entries d !! name with
                    | Some _ => (inr tt, d <| entries := delete name (entries d) |>)
                    | None => (inl FileNotFoundError, d)
                    end.

(** [os.link(old, new)] *)
Definition link (old new : string) : FS unit :=
  sys ;;? fun d => match entries d !! old, entries d !! new with
                    | None, _ => (inl FileNotFoundError, d)
                    | _, Some _ => (inl FileExistsError, d)
                    | Some i, None => (inr tt, d <| entries := <[new := i]> (entries d) |>)
                    end.

(** [os.replace(old, new)] *)
Definition os_replace (old new : string) : FS unit :=
  sys ;;? fun d => match entries d !! old with
                    | None => (inl FileNotFoundError, d)
                    | Some i => (inr tt, d <| entries := <[new := i]> (delete old (entries d)) |>)
                    end.

(** [os.open(path, O_CREAT | O_EXCL, 0o600)] *)
Definition os_create (name : string) : FS positive :=
  sys ;;? fun d => match entries d !! name with
                    | Some _ => (inl FileExistsError, d)
                    | None =>
                        let i := next_inode d in
                        (inr i, d <| entries := <[name := i]> (entries d) |>
                                  <| inodes := <[i := mkInode true true 384 ""]> (inodes d) |>
                                  <| next_inode := Pos.succ i |>)
                    end.

Definition set_inode (i : positive) (f : Inode -> Inode) : FS unit :=
  fun d => (inr tt, d <| inodes := alter f i (inodes d) |>).

Definition fchmod (i : positive) (mode : Z) : FS unit :=
  sys ;;? set_inode i (fun f => f <| inode_mode := mode |>).

(** One [os.write] of [data]: the number of bytes the system took. *)
Definition os_write (i : positive) (data : string) : FS nat :=
  sys ;;? fun d =>
  let '(n, rest) := match sizes d with [] => (String.length data, []) | n :: rest => (n, rest) end in
  let n := Nat.min n (String.length data) in
  (inr n, d <| sizes := rest |>
            <| inodes := alter (fun f => f <| inode_data := inode_data f +:+ String.substring 0 n data |>) i
                 (inodes d) |>).

(** [while view: written = os.write(fd, view); ...]: every round takes at
    least one byte or raises. *)
Fixpoint write_loop (fuel : nat) (i : positive) (view : string) : FS unit :=
  match fuel with
  | 0 => fs_ret tt
  | S fuel =>
      match view with
      | EmptyString => fs_ret tt
      | _ =>
          let? written := os_write i view in
          fs_assert (negb (written =? 0)) OSError ;;?
          write_loop fuel i (String.substring written (String.length view - written) view)
      end
  end.

Definition write_all (i : positive) (secret : string) : FS unit :=
  write_loop (S (String.length secret)) i secret.

(** [directory.iterdir()], sorted by name. *)
Definition name_le (a b : string) : Prop := String.leb a b = true.

#[global] Instance name_le_dec a b : Decision (name_le a b).
Proof. unfold name_le. apply _. Defined.

Definition names (d : Dir) : list string := merge_sort name_le (map_to_list (entries d)).*1.

Definition iterdir : FS (list string) := sys ;;? fun d => (inr (names d), d).

Definition nlink (i : positive) : FS nat :=
  fun d => (inr (size (filter (fun ki => ki.2 = i) (entries d))), d).

(** ** The lock *)
Definition LOCK_FILE : string := ".credential-store.lock".

Definition fsync_directory : FS unit := translate (sys ;;? sys).

(** A regular file of the process with permissions 0600. *)
Definition private (f : Inode) : bool := inode_regular f && inode_owned f && (inode_mode f =? 384)%Z.

(** [except OSError as exc: raise CredentialStoreError], with the case of a
    missing file apart. *)
Definition fs_or {A} (m : FS A) (missing : FS A) : FS A :=
  fs_try m (fun e => match e with
                     | FileNotFoundError => missing
                     | _ => fs_raise CredentialStoreError
                     end).

Definition lstat_opt (name : string) : FS (option positive) :=
  fs_or (let? i := lstat name in fs_ret (Some i)) (fs_ret None).

(** [os.open(path, O_CREAT | O_RDWR | O_NOFOLLOW, 0o600)] *)
Definition open_or_create (name : string) : FS positive :=
  translate (fun d => match entries d !! name with
                      | Some _ => os_open name d
                      | None => os_create name d
                      end).

Definition open_lock : FS unit :=
  let? before := lstat_opt LOCK_FILE in
  let? fd := open_or_create LOCK_FILE in
  let? f := fstat fd in
  fs_assert (private f && match before with Some i => bool_decide (i = fd) | None => true end)
       CredentialStoreError ;;?
  match before with
  | None => sys ;;? fsync_directory
  | Some _ => fs_ret tt
  end.

Definition set_depth (n : nat) : FS unit := fun d => (inr tt, d <| depth := n |>).

(** [CredentialLifecycleCoordinator.exclusive_lease]: reentrant; the outermost
    lease locks the file and translates [OSError]. *)
Definition lease {A} (body : FS A) : FS A := fun d =>
  match depth d with
  | S n => fs_finally (set_depth (S (S n)) ;;? body) (set_depth (S n)) d
  | 0 =>
      (open_lock ;;?
       translate (sys ;;? fs_finally (set_depth 1 ;;? body) (set_depth 0 ;;? sys))) d
  end.

(** ** Operations *)
Definition is_temporary (name : string) : bool :=
  String.prefix ".tmp-" name && is_credential_ref (String.substring 5 48 name) &&
  (String.length name =? 53).

Definition path (reference : string) : FS string :=
  fs_assert (is_credential_ref reference) CredentialStoreError ;;? fs_ret reference.

(** [_open_validated]: the file that is opened is the private regular file
    that was looked at. *)
Definition open_validated (name : string) : FS positive :=
  let? fd := fs_try
    (let? before := lstat name in
     let? f := metadata before in
     fs_assert (inode_regular f) CredentialStoreError ;;?
     let? fd := os_open name in
     fs_ret (before, fd)) (fun e => fs_raise (os_error e)) in
  let? f := fstat fd.2 in
  fs_assert (inode_regular f) CredentialStoreError ;;?
  fs_assert (bool_decide (fd.2 = fd.1)) CredentialStoreError ;;?
  fs_assert (inode_owned f) CredentialStoreError ;;?
  fs_assert (inode_mode f =? 384)%Z CredentialStoreError ;;?
  fs_ret fd.2.

Definition unlink_missing_ok (name : string) : FS unit :=
  fs_try (unlink name) (fun e => match e with
                                 | FileNotFoundError => fs_ret tt
                                 | _ => fs_raise e
                                 end).

(** [_write_temporary]: the temporary is removed again when writing fails. *)
Definition write_temporary (temporary secret : string) : FS unit :=
  fs_try
    (let? fd := os_create temporary in
     fchmod fd 384 ;;?
     write_all fd secret ;;?
     sys)
    (fun _ => unlink_missing_ok temporary ;;? fs_raise CredentialStoreError).

Definition publish_new (target temporary secret : string) : FS bool :=
  write_temporary temporary secret ;;?
  fs_finally
    (translate
       (let? linked := fs_try (link temporary target ;;? fs_ret true)
                         (fun e => match e with
                                   | FileExistsError => fs_ret false
                                   | _ => fs_raise e
                                   end) in
        if linked : bool then
          unlink temporary ;;? fsync_directory ;;? fs_ret true
        else fs_ret false))
    (unlink_missing_ok temporary).

Definition publish_replace (target temporary secret : string) : FS unit :=
  write_temporary temporary secret ;;?
  fs_finally (translate (os_replace temporary target ;;? fsync_directory))
    (unlink_missing_ok temporary).

Definition validate_secret (secret : string) : FS unit :=
  fs_assert (negb (bool_decide (secret = ""))) CredentialStoreError.

(** The random names: the [n]-th reference and the [n]-th temporary. *)
Definition Tokens : Type := nat -> string * string.

(** [for _ in range(8)] *)
Fixpoint put_loop (tokens : Tokens) (n rounds : nat) (secret : string) : FS (option string) :=
  match rounds with
  | 0 => fs_ret None
  | S rounds =>
      let reference := (tokens n).1 in
      let? published := publish_new reference (".tmp-" +:+ (tokens n).2) secret in
      if published : bool then fs_ret (Some reference)
      else put_loop tokens (S n) rounds secret
  end.

Definition put (tokens : Tokens) (secret : string) : FS string :=
  validate_secret secret ;;?
  let? r := lease (put_loop tokens 0 8 secret) in
  match r with
  | Some reference => fs_ret reference
  | None => fs_raise CredentialStoreError
  end.

(** The reads of the chunks are one call that returns the whole file. *)
Definition read (reference : string) : FS string :=
  lease (let? name := path reference in
         let? fd := open_validated name in
         translate (sys ;;? let? f := metadata fd in fs_ret (inode_data f))).

Definition replace (tokens : Tokens) (reference secret : string) : FS unit :=
  validate_secret secret ;;?
  lease (let? name := path reference in
         open_validated name ;;?
         publish_replace name (".tmp-" +:+ (tokens 0).2) secret).

Definition delete_file (reference : string) : FS unit :=
  lease (let? name := path reference in
         open_validated name ;;?
         translate (unlink name ;;? fsync_directory)).

Definition delete_if_exists (reference : string) : FS bool :=
  lease (let? name := path reference in
         let? found := lstat_opt name in
         match found with
         | None => fs_ret false
         | Some _ => delete_file reference ;;? fs_ret true
         end).

(** ** Sweeps *)
Inductive finding := TemporaryRetained | TemporaryDeleted | EntryRetained | CredentialDeleted.

(** The loop of [cleanup_orphans]. *)
Fixpoint sweep_entries (retained : gset string) (entries : list string) : FS (list finding) :=
  match entries with
  | [] => fs_ret []
  | e :: rest =>
      if bool_decide (e = LOCK_FILE) then sweep_entries retained rest
      else if negb (is_credential_ref e) then
        let? found := sweep_entries retained rest in fs_ret (EntryRetained :: found)
      else if bool_decide (e ∈ retained) then sweep_entries retained rest
      else
        delete_file e ;;?
        let? found := sweep_entries retained rest in fs_ret (CredentialDeleted :: found)
  end.

(** [registry.credential_references()] and
    [journal.recovery_credential_references()] are the two arguments. *)
Definition cleanup_orphans (registry journal : gset string) : FS (list finding) :=
  lease (let? entries := iterdir in sweep_entries (registry ∪ journal) entries).

(** [_validate_temporary] *)
Definition validate_temporary (name : string) : FS positive :=
  let? fd := fs_try
    (let? before := lstat name in
     let? f := metadata before in
     fs_assert (inode_regular f) CredentialStoreError ;;?
     let? fd := os_open name in
     fs_ret (before, fd)) (fun e => fs_raise (os_error e)) in
  let? f := fstat fd.2 in
  fs_assert (private f && bool_decide (fd.2 = fd.1)) CredentialStoreError ;;?
  fs_ret fd.2.

(** [_matching_published_targets]: the references that name the inode. *)
Fixpoint matching_targets (temporary : string) (i : positive) (candidates : list string)
    : FS (list string) :=
  match candidates with
  | [] => fs_ret []
  | c :: rest =>
      if bool_decide (c = temporary) || negb (is_credential_ref c)
      then matching_targets temporary i rest
      else
        let? j := translate (lstat c) in
        if bool_decide (j <> i) then matching_targets temporary i rest
        else
          open_validated c ;;?
          let? found := matching_targets temporary i rest in fs_ret (c :: found)
  end.

Fixpoint recover_entries (entries : list string) : FS (list finding) :=
  match entries with
  | [] => fs_ret []
  | t :: rest =>
      if negb (String.prefix ".tmp-" t) then recover_entries rest
      else if negb (is_temporary t) then
        let? found := recover_entries rest in fs_ret (TemporaryRetained :: found)
      else
        let? i := validate_temporary t in
        let? links := nlink i in
        (if links =? 2 then
           let? candidates := iterdir in
           let? matches := matching_targets t i candidates in
           fs_assert (length matches =? 1) CredentialStoreError
         else fs_assert (links =? 1) CredentialStoreError) ;;?
        translate (unlink t ;;? fsync_directory) ;;?
        let? found := recover_entries rest in fs_ret (TemporaryDeleted :: found)
  end.

Definition recover_temporary_files : FS (list finding) :=
  lease (let? entries := iterdir in recover_entries entries).
