(* ===== verification/SecretFacts.v ===== *)
(** * What survives a crash of the credential directory

    A small program logic for the file operations of [SecretFiles], and the
    stages a publication goes through: nothing, a temporary file, the
    temporary and the published name of one inode, the published name alone. *)

From stdpp Require Import base tactics list gmap strings sorting.
From Stdlib Require Import ZArith Lia Ascii.
From S2P Require Import Prelude Text SecretFiles.

(** ** Weakest preconditions *)
Definition wp {A} (m : FS A) (Q : os_exn + A -> Dir -> Prop) (d : Dir) : Prop :=
  Q (m d).1 (m d).2.

Lemma wp_mono {A} (m : FS A) (P Q : os_exn + A -> Dir -> Prop) d :
  wp m P d -> (forall r d', P r d' -> Q r d') -> wp m Q d.
Proof. unfold wp. auto. Qed.

Lemma wp_bind {A B} (m : FS A) (k : A -> FS B) Q d :
  wp m (fun r d' => match r with inl e => Q (inl e) d' | inr a => wp (k a) Q d' end) d ->
  wp (fs_bind m k) Q d.
Proof. unfold wp, fs_bind. by destruct (m d) as [[e|a] d']. Qed.

Lemma wp_ret {A} (a : A) Q d : Q (inr a) d -> wp (fs_ret a) Q d.
Proof. done. Qed.

Lemma wp_raise {A} e (Q : os_exn + A -> Dir -> Prop) d : Q (inl e) d -> wp (fs_raise e) Q d.
Proof. done. Qed.

Lemma wp_try {A} (m : FS A) h Q d :
  wp m (fun r d' => match r with
                    | inl Crashed => Q (inl Crashed) d'
                    | inl e => wp (h e) Q d'
                    | inr a => Q (inr a) d'
                    end) d ->
  wp (fs_try m h) Q d.
Proof. unfold wp, fs_try. by destruct (m d) as [[[]|a] d']. Qed.

Lemma wp_finally {A} (m : FS A) f Q d :
  wp m (fun r d' => wp f (fun r' d2 => match r' with inl e => Q (inl e) d2 | inr _ => Q r d2 end) d') d ->
  wp (fs_finally m f) Q d.
Proof. unfold wp, fs_finally. destruct (m d) as [r d']. cbn. by destruct (f d') as [[e|[]] d2]. Qed.

Lemma wp_translate {A} (m : FS A) Q d :
  wp m (fun r d' => match r with inl e => Q (inl (os_error e)) d' | inr a => Q (inr a) d' end) d ->
  wp (translate m) Q d.
Proof. intros H. apply wp_try. eapply wp_mono; [exact H|]. intros [[]|a] d' HQ; exact HQ. Qed.

(** ** What the directory looks like *)
Definition core (d : Dir) := (entries d, inodes d, next_inode d).

Lemma core_eq d d' : core d = core d' ->
  entries d = entries d' /\ inodes d = inodes d' /\ next_inode d = next_inode d'.
Proof. by intros [= -> -> ->]. Qed.

(** [sys] and the calls that only look do not change the directory. *)
Definition Looks {A} (m : FS A) : Prop := forall d, core (m d).2 = core d.

Lemma sys_looks : Looks sys.
Proof. intros d. unfold sys. destruct (dead d); [done|]. by destruct (faults d) as [|[] ?]. Qed.

Lemma looks_bind {A B} (m : FS A) (k : A -> FS B) :
  Looks m -> (forall a, Looks (k a)) -> Looks (fs_bind m k).
Proof.
  intros Hm Hk d. unfold fs_bind. specialize (Hm d). destruct (m d) as [[e|a] d']; [done|].
  by rewrite Hk.
Qed.

Lemma looks_try {A} (m : FS A) h : Looks m -> (forall e, Looks (h e)) -> Looks (fs_try m h).
Proof.
  intros Hm Hh d. unfold fs_try. specialize (Hm d). destruct (m d) as [[e|a] d']; [|done].
  destruct e; try (by rewrite Hh). done.
Qed.

Lemma looks_finally {A} (m : FS A) f : Looks m -> Looks f -> Looks (fs_finally m f).
Proof.
  intros Hm Hf d. unfold fs_finally. specialize (Hm d). destruct (m d) as [r d']. cbn in Hm.
  specialize (Hf d'). destruct (f d') as [[e|u] d2]; cbn in *; congruence.
Qed.

Lemma looks_ret {A} (a : A) : Looks (fs_ret a).
Proof. done. Qed.

Lemma looks_raise {A} e : Looks (fs_raise (A := A) e).
Proof. done. Qed.

Lemma looks_assert b e : Looks (fs_assert b e).
Proof. by destruct b. Qed.

Lemma lstat_looks n : Looks (lstat n).
Proof. apply looks_bind; [apply sys_looks|]. intros _ d. by destruct (entries d !! n). Qed.

Lemma metadata_looks i : Looks (metadata i).
Proof. intros d. unfold metadata. by destruct (inodes d !! i). Qed.

Lemma iterdir_looks : Looks iterdir.
Proof. apply looks_bind; [apply sys_looks|done]. Qed.

Lemma set_depth_looks n : Looks (set_depth n).
Proof. done. Qed.

Create HintDb looks.
#[export] Hint Resolve sys_looks looks_bind looks_try looks_finally looks_ret looks_raise
  looks_assert lstat_looks metadata_looks iterdir_looks set_depth_looks : looks.

Ltac looks :=
  repeat first
  [ progress intros
  | solve [auto 2 with looks]
  | apply looks_bind | apply looks_try | apply looks_finally
  | match goal with
    | |- Looks (match ?x with _ => _ end) => destruct x
    | |- Looks (let? _ := _ in _) => apply looks_bind
    end ].

Lemma fstat_looks i : Looks (fstat i).
Proof. unfold fstat. looks. Qed.

Lemma fsync_directory_looks : Looks fsync_directory.
Proof. unfold fsync_directory, translate. looks. Qed.

Lemma open_validated_looks n : Looks (open_validated n).
Proof. unfold open_validated, os_open, fstat. looks. Qed.

Lemma lstat_opt_looks n : Looks (lstat_opt n).
Proof. unfold lstat_opt, fs_or. looks. Qed.

Lemma path_looks r : Looks (path r).
Proof. unfold path. looks. Qed.

#[export] Hint Resolve fstat_looks fsync_directory_looks open_validated_looks lstat_opt_looks
  path_looks : looks.

Lemma wp_looks {A} (m : FS A) Q d :
  Looks m -> (forall r d', core d' = core d -> Q r d') -> wp m Q d.
Proof. intros Hm HQ. apply HQ, Hm. Qed.

Lemma lstat_missing n d : entries d !! n = None -> exists e, (lstat n d).1 = inl e.
Proof.
  intros H. unfold lstat, fs_bind. pose proof (sys_looks d) as Hs.
  destruct (sys d) as [[e|u] d']; [by exists e|]. apply core_eq in Hs as (E & _). cbn in E.
  rewrite E, H. by exists FileNotFoundError.
Qed.

Lemma open_validated_missing n d : entries d !! n = None -> exists e, (open_validated n d).1 = inl e.
Proof.
  intros [e He]%lstat_missing. unfold open_validated, fs_bind, fs_try.
  destruct (lstat n d) as [[e'|i] d']; [|done]. destruct e'; by eexists.
Qed.

(** ** The lease *)
Lemma open_or_create_core n d :
  is_Some (entries d !! n) -> core (open_or_create n d).2 = core d.
Proof.
  intros [i Hi]. unfold open_or_create, translate, fs_try. rewrite Hi.
  pose proof (lstat_looks n d) as H. unfold os_open. by destruct (lstat n d) as [[[]|j] d'].
Qed.

Lemma open_lock_core d : is_Some (entries d !! LOCK_FILE) -> core (open_lock d).2 = core d.
Proof.
  intros Hl. unfold open_lock, fs_bind at 1.
  pose proof (lstat_opt_looks LOCK_FILE d) as H1. destruct (lstat_opt LOCK_FILE d) as [[e|b] d1]; [done|].
  cbn in H1. apply core_eq in H1 as (E & I & N). rewrite <- E in Hl. unfold fs_bind at 1.
  pose proof (open_or_create_core LOCK_FILE d1 Hl) as H2.
  destruct (open_or_create LOCK_FILE d1) as [[e|fd] d2]; [unfold core in *; cbn in *; congruence|].
  transitivity (core d2); [|unfold core in *; cbn in *; congruence].
  match goal with |- core (?m d2).2 = _ => assert (Looks m) as Hm; [|apply Hm] end.
  looks.
Qed.

(** The lease runs its body on the same files, once, and may fail before or
    after it. *)
Lemma wp_lease {A} (body : FS A) Q d :
  is_Some (entries d !! LOCK_FILE) ->
  (forall d', core d' = core d -> wp body Q d') ->
  (forall r d1 d2, core d1 = core d2 -> Q r d2 -> Q r d1) ->
  wp (lease body) (fun r d' => match r with
     | inr a => Q (inr a) d'
     | inl _ => core d' = core d \/ exists r', Q r' d'
     end) d.
Proof.
  intros Hl Hb Hstable. unfold wp at 1, lease. destruct (depth d) as [|n].
  - apply wp_bind. apply wp_mono with (P := fun _ d' => core d' = core d); [by apply open_lock_core|].
    intros [e|u] d1 H1; [by left|]. apply wp_translate, wp_bind.
    apply wp_looks; [apply sys_looks|]. intros [e|u1] d2 H2; [left; congruence|].
    apply wp_finally. apply wp_bind. apply wp_looks; [apply set_depth_looks|].
    intros [e|u2] d3 H3.
    + apply wp_bind. apply wp_looks; [apply set_depth_looks|]. intros [e'|?] d4 H4; [left; congruence|].
      apply wp_looks; [apply sys_looks|]. intros [e'|?] d5 H5; left; congruence.
    + eapply wp_mono; [apply Hb; congruence|]. intros r d4 H4.
      apply wp_bind. apply wp_looks; [apply set_depth_looks|]. intros [e|u3] d5 H5; [right; by eauto|].
      apply wp_looks; [apply sys_looks|]. intros x d6 H6.
      assert (Q r d6) by (by eapply Hstable; [|exact H4]; congruence).
      destruct x; [by eauto|]. destruct r; [by eauto|done].
  - apply wp_finally, wp_bind. apply wp_looks; [apply set_depth_looks|]. intros [e|u] d1 H1.
    + apply wp_looks; [apply set_depth_looks|]. intros [e'|?] d2 H2; left; congruence.
    + eapply wp_mono; [by apply Hb|]. intros r d2 H2. apply wp_looks; [apply set_depth_looks|].
      intros x d3 H3. assert (Q r d3) by (by eapply Hstable). destruct x; [by eauto|]. destruct r; eauto.
Qed.

(** ** Substrings *)
Lemma substring_all (s : string) : String.substring 0 (String.length s) s = s.
Proof. induction s as [|c s IH]; cbn; [done|by rewrite IH]. Qed.

Lemma substring_split (n : nat) (s : string) :
  n <= String.length s ->
  String.substring 0 n s +:+ String.substring n (String.length s - n) s = s.
Proof.
  revert s. induction n as [|n IH]; intros s Hn.
  - rewrite Nat.sub_0_r, substring_all. by destruct s.
  - destruct s as [|c s]; cbn in Hn; [lia|].
    change (String c (String.substring 0 n s +:+ String.substring n (String.length s - n) s) = String c s).
    rewrite IH by lia. done.
Qed.

Lemma substring_length (n : nat) (s : string) :
  n <= String.length s -> String.length (String.substring n (String.length s - n) s) = String.length s - n.
Proof.
  intros Hn. pose proof (f_equal String.length (substring_split n s Hn)) as H.
  rewrite string_length_app in H.
  assert (E : String.length (String.substring 0 n s) = n); [|lia].
  clear H. revert s Hn. induction n as [|n IH]; intros [|c s] Hn; cbn in *; try lia. rewrite IH; lia.
Qed.

(** ** Stages of a publication *)

(** A directory as the store leaves it between two operations: every name has
    its inode, there is no temporary, and the lock is the store's. *)
Record settled (d : Dir) : Prop := {
  settled_entry n i : entries d !! n = Some i -> (i < next_inode d)%positive /\ is_Some (inodes d !! i);
  settled_temporary n i : entries d !! n = Some i -> String.prefix ".tmp-" n = false;
  settled_lock : exists i f, entries d !! LOCK_FILE = Some i /\ inodes d !! i = Some f /\ private f = true
}.

Inductive stage :=
| Base
| Temporary (t data : string)
| Linked (t r : string)
| Published (r : string)
| Replaced (r : string).

Lemma is_temporary_prefix t : is_temporary t = true -> String.prefix ".tmp-" t = true.
Proof. unfold is_temporary. intros H. by prop_hyps. Qed.

Lemma reference_not_temporary r : is_credential_ref r = true -> String.prefix ".tmp-" r = false.
Proof. by destruct r as [|[[] [] [] [] [] [] [] []] r]. Qed.

Section Publication.
(** [replacing]: the reference that is being replaced, if any. *)
Context (d0 : Dir) (secret : string) (replacing : option string) (Hd0 : settled d0).

Definition stage_data (s : stage) : string :=
  match s with Temporary _ data => data | _ => secret end.

Definition stage_entries (s : stage) (i : positive) : gmap string positive :=
  match s with
  | Base => entries d0
  | Temporary t _ => <[t := i]> (entries d0)
  | Linked t r => <[r := i]> (<[t := i]> (entries d0))
  | Published r | Replaced r => <[r := i]> (entries d0)
  end.

Definition stage_names (s : stage) : Prop :=
  match s with
  | Base => True
  | Temporary t _ => is_temporary t = true
  | Linked t r => is_temporary t = true /\ is_credential_ref r = true /\ entries d0 !! r = None /\ replacing = None
  | Published r => is_credential_ref r = true /\ entries d0 !! r = None /\ replacing = None
  | Replaced r => is_credential_ref r = true /\ is_Some (entries d0 !! r) /\ replacing = Some r
  end.

(** [d] is at stage [s], [i] being the inode of the new file; the files that
    were there before are untouched. *)
Definition at_stage (s : stage) (i : positive) (d : Dir) : Prop :=
  (next_inode d0 <= next_inode d)%positive /\
  (forall j, (j < next_inode d0)%positive -> inodes d !! j = inodes d0 !! j) /\
  stage_names s /\ entries d = stage_entries s i /\
  match s with
  | Base => True
  | _ => (next_inode d0 <= i)%positive /\ (i < next_inode d)%positive /\
         inodes d !! i = Some (mkInode true true 384 (stage_data s))
  end.

Lemma at_stage_core s i d d' : core d' = core d -> at_stage s i d -> at_stage s i d'.
Proof. intros (E & I & N)%core_eq. unfold at_stage. by rewrite E, I, N. Qed.

Lemma no_old_temporary t : is_temporary t = true -> entries d0 !! t = None.
Proof.
  intros Ht%is_temporary_prefix. destruct (entries d0 !! t) as [i|] eqn:E; [|done].
  by rewrite (settled_temporary _ Hd0 _ _ E) in Ht.
Qed.

Lemma old_not_new n i j : entries d0 !! n = Some j -> (next_inode d0 <= i)%positive -> j <> i.
Proof. intros Hn Hi ->. destruct (settled_entry _ Hd0 _ _ Hn) as [? _]. lia. Qed.

Lemma lock_stage s i : stage_names s -> stage_entries s i !! LOCK_FILE = entries d0 !! LOCK_FILE.
Proof.
  assert (is_temporary LOCK_FILE = false /\ is_credential_ref LOCK_FILE = false) as [Ht Hr] by done.
  intros Hs. destruct s as [|t data|t r|r|r]; cbn [stage_entries stage_names] in *; [done|..];
    rewrite !lookup_insert_ne by (intros ->; destruct_and?; congruence); done.
Qed.

Lemma lock_at_stage s i d : at_stage s i d -> is_Some (entries d !! LOCK_FILE).
Proof.
  intros (_ & _ & _ & -> & _). destruct (settled_lock _ Hd0) as (j & f & Hl & _).
  destruct s; cbn; rewrite ?lookup_insert_is_Some'; eauto.
Qed.

Lemma sys_stage s i d : at_stage s i d ->
  wp sys (fun r d' => at_stage s i d' /\ (r = inr tt \/ r = inl OSError \/ r = inl Crashed)) d.
Proof.
  intros H. split; [by eapply at_stage_core; [apply sys_looks|]|].
  unfold sys. destruct (dead d); [by auto|]. destruct (faults d) as [|[] ?]; auto.
Qed.

Lemma looks_stage {A} (m : FS A) s i d : Looks m -> at_stage s i d ->
  wp m (fun _ d' => at_stage s i d') d.
Proof. intros Hm H. apply wp_looks; [done|]. intros r d' E. by eapply at_stage_core. Qed.

Lemma os_create_stage t i d :
  is_temporary t = true -> at_stage Base i d ->
  wp (os_create t) (fun r d' => match r with
                                | inr j => at_stage (Temporary t "") j d'
                                | inl _ => at_stage Base i d'
                                end) d.
Proof.
  intros Ht H. apply wp_bind. eapply wp_mono; [by apply sys_stage|].
  intros [e|u] d' [H' _]; [done|]. destruct H' as (Hn & Hold & _ & He & _).
  assert (Et : entries d' !! t = None) by (rewrite He; by apply no_old_temporary).
  unfold wp. cbv beta. rewrite Et. cbn.
  unfold at_stage. cbn. split_and!; [lia| |done|by rewrite He|lia|lia|apply lookup_insert_eq].
  intros j Hj. rewrite lookup_insert_ne by lia. auto.
Qed.

Lemma set_inode_stage t data data' i d d' f :
  at_stage (Temporary t data) i d ->
  core d' = (entries d, alter f i (inodes d), next_inode d) ->
  f (mkInode true true 384 data) = mkInode true true 384 data' ->
  at_stage (Temporary t data') i d'.
Proof.
  intros (Hn & Hold & Hs & He & Hi & Hi' & Hf) [= E I N] Ef.
  unfold at_stage. rewrite E, I, N. split_and!; try done.
  - intros j Hj. rewrite lookup_alter_ne by lia. auto.
  - rewrite lookup_alter_eq, Hf. cbn. by rewrite Ef.
Qed.

Lemma fchmod_stage t data i d :
  at_stage (Temporary t data) i d ->
  wp (fchmod i 384) (fun _ d' => at_stage (Temporary t data) i d') d.
Proof.
  intros H. apply wp_bind. eapply wp_mono; [by apply sys_stage|]. intros [e|u] d' [H' _]; [done|].
  eapply set_inode_stage; [exact H'|reflexivity|done].
Qed.

Lemma os_write_stage t data i d v :
  at_stage (Temporary t data) i d ->
  wp (os_write i v) (fun r d' => match r with
     | inr n => n <= String.length v /\
                at_stage (Temporary t (data +:+ String.substring 0 n v)) i d'
     | inl _ => at_stage (Temporary t data) i d'
     end) d.
Proof.
  intros H. apply wp_bind. eapply wp_mono; [by apply sys_stage|]. intros [e|u] d' [H' _]; [done|].
  unfold wp. cbv beta zeta.
  destruct (sizes d') as [|n rest]; cbn; (split; [lia|]);
    (eapply set_inode_stage; [exact H'|reflexivity|done]).
Qed.

(** Whatever the sizes of the partial writes, the file ends with all bytes. *)
Lemma write_loop_stage fuel t data i v d :
  String.length v < fuel -> at_stage (Temporary t data) i d ->
  wp (write_loop fuel i v) (fun r d' => match r with
     | inr _ => at_stage (Temporary t (data +:+ v)) i d'
     | inl _ => exists data', at_stage (Temporary t data') i d'
     end) d.
Proof.
  revert data v d. induction fuel as [|fuel IH]; intros data v d Hf H; [lia|].
  destruct v as [|c v]; cbn [write_loop]; [by rewrite string_app_nil|].
  apply wp_bind. eapply wp_mono; [by apply os_write_stage|]. intros [e|n] d' Hw; [by eauto|].
  destruct Hw as [Hn Hw]. apply wp_bind. destruct (Nat.eqb_spec n 0) as [->|Hn0]; cbn [negb fs_assert].
  { apply wp_raise. eauto. }
  apply wp_ret. eapply wp_mono; [apply IH, Hw|].
  - rewrite substring_length by done. cbn [String.length] in *. lia.
  - intros [e|u] d2 H2; [done|]. by rewrite <- string_app_assoc, substring_split in H2.
Qed.

(** The stages of one publication, and what removing the temporary does. *)
Definition of_temporary (t : string) (s : stage) : Prop :=
  match s with Temporary t' _ | Linked t' _ => t' = t | _ => True end.

Definition unlinked (s : stage) : stage :=
  match s with Temporary _ _ => Base | Linked _ r => Published r | _ => s end.

Definition has_temporary (s : stage) : bool :=
  match s with Temporary _ _ | Linked _ _ => true | _ => false end.

Lemma reference_ne_temporary r t : is_credential_ref r = true -> is_temporary t = true -> r <> t.
Proof. intros Hr Ht ->. apply reference_not_temporary in Hr. by rewrite is_temporary_prefix in Hr. Qed.

Lemma stage_lookup_temporary s t i :
  is_temporary t = true -> of_temporary t s -> stage_names s ->
  stage_entries s i !! t = if has_temporary s then Some i else None.
Proof.
  intros Ht Hs Hn. destruct s as [|t' data|t' r|r|r]; cbn [of_temporary stage_names stage_entries has_temporary unlinked] in *; subst.
  - by apply no_old_temporary.
  - by rewrite lookup_insert_eq.
  - destruct Hn as (_ & Hr & _). rewrite lookup_insert_ne by (by apply reference_ne_temporary).
    by rewrite lookup_insert_eq.
  - destruct Hn as (Hr & _). rewrite lookup_insert_ne by (by apply reference_ne_temporary).
    by apply no_old_temporary.
  - destruct Hn as (Hr & _). rewrite lookup_insert_ne by (by apply reference_ne_temporary).
    by apply no_old_temporary.
Qed.

Lemma stage_delete_temporary s t i :
  is_temporary t = true -> of_temporary t s -> stage_names s ->
  delete t (stage_entries s i) = stage_entries (unlinked s) i.
Proof.
  intros Ht Hs Hn. pose proof (no_old_temporary t Ht) as Hnone.
  destruct s as [|t' data|t' r|r|r]; cbn [of_temporary stage_names stage_entries has_temporary unlinked] in *; subst.
  - by apply delete_id.
  - by apply delete_insert_id.
  - destruct Hn as (_ & Hr & _). rewrite delete_insert_ne by (by apply not_eq_sym, reference_ne_temporary).
    by rewrite delete_insert_id.
  - destruct Hn as (Hr & _). rewrite delete_insert_ne by (by apply not_eq_sym, reference_ne_temporary).
    by rewrite delete_id.
  - destruct Hn as (Hr & _). rewrite delete_insert_ne by (by apply not_eq_sym, reference_ne_temporary).
    by rewrite delete_id.
Qed.

Lemma unlinked_stage s t i d d' :
  is_temporary t = true -> of_temporary t s -> at_stage s i d ->
  core d' = (delete t (entries d), inodes d, next_inode d) -> at_stage (unlinked s) i d'.
Proof.
  intros Ht Hs (Hn & Hold & Hs' & He & Hm) [= E I N]. unfold at_stage. rewrite E, I, N, He.
  rewrite stage_delete_temporary by done. destruct s; cbn in *; naive_solver.
Qed.

Lemma unlink_stage s t i d :
  is_temporary t = true -> of_temporary t s -> at_stage s i d ->
  wp (unlink t) (fun r d' => match r with
     | inr _ => at_stage (unlinked s) i d'
     | inl FileNotFoundError => has_temporary s = false /\ at_stage s i d'
     | inl _ => at_stage s i d'
     end) d.
Proof.
  intros Ht Hs H. apply wp_bind. eapply wp_mono; [by apply sys_stage|].
  intros [e|u] d' [H' Hr].
  { destruct Hr as [?|[[= ->]|[= ->]]]; done. }
  destruct (entries d' !! t) as [j|] eqn:Et; unfold wp; cbv beta; rewrite Et; cbn.
  - by eapply unlinked_stage.
  - split; [|done]. destruct H' as (_ & _ & Hn & He & _). rewrite He in Et.
    rewrite (stage_lookup_temporary s t i) in Et by done. by destruct (has_temporary s).
Qed.

Lemma unlink_missing_ok_stage s t i d :
  is_temporary t = true -> of_temporary t s -> at_stage s i d ->
  wp (unlink_missing_ok t) (fun r d' => match r with
     | inr _ => at_stage (unlinked s) i d'
     | inl _ => at_stage s i d'
     end) d.
Proof.
  intros Ht Hs H. apply wp_try. eapply wp_mono; [by apply unlink_stage|].
  intros [[]|u] d'; try done. intros [Hh H']. by destruct s.
Qed.

(** Some stage of the publication of the temporary [t]. *)
Definition staged (t : string) (d : Dir) : Prop := exists s i, of_temporary t s /\ at_stage s i d.

Lemma staged_at t s i d : at_stage s i d -> of_temporary t s -> staged t d.
Proof. by exists s, i. Qed.

Lemma unlink_missing_ok_staged t d :
  is_temporary t = true -> staged t d -> wp (unlink_missing_ok t) (fun _ d' => staged t d') d.
Proof.
  intros Ht (s & i & Hs & H). eapply wp_mono; [by apply unlink_missing_ok_stage|].
  intros [e|u] d' H'; [by exists s, i|]. exists (unlinked s), i. split; [|done]. by destruct s.
Qed.

Lemma looks_staged {A} (m : FS A) t d : Looks m -> staged t d -> wp m (fun _ d' => staged t d') d.
Proof. intros Hm (s & i & Hs & H). eapply wp_mono; [by apply looks_stage|]. by exists s, i. Qed.

(** The body of [_write_temporary] leaves a temporary with the whole secret
    and the owner's permissions, or raises. *)
Lemma write_temporary_stage t i d :
  is_temporary t = true -> at_stage Base i d ->
  wp (write_temporary t secret) (fun r d' => match r with
     | inr _ => exists j, at_stage (Temporary t secret) j d'
     | inl _ => staged t d'
     end) d.
Proof.
  intros Ht H. apply wp_try.
  assert (Hbody : wp (let? fd := os_create t in fchmod fd 384 ;;? write_all fd secret ;;? sys)
    (fun r d' => match r with
       | inr _ => exists j, at_stage (Temporary t secret) j d' | inl _ => staged t d' end) d).
  { apply wp_bind. eapply wp_mono; [by apply os_create_stage|].
    intros [e|j] d1 H1; [by exists Base, i|].
    apply wp_bind. eapply wp_mono; [by apply fchmod_stage|]. intros [e|u] d2 H2; [by eapply staged_at|].
    apply wp_bind. eapply wp_mono; [apply write_loop_stage, H2; lia|].
    intros [e|u'] d3 H3; [destruct H3; by eapply staged_at|].
    eapply wp_mono; [by apply sys_stage|]. intros [e|u2] d4 [H4 _]; [by eapply staged_at|by exists j]. }
  eapply wp_mono; [exact Hbody|].
  intros [e|u] d' H'; [|done]. destruct e; try done;
    (apply wp_bind; eapply wp_mono; [by apply unlink_missing_ok_staged|]; intros [?|?] ??; done).
Qed.

Lemma link_stage t r i d :
  replacing = None -> is_temporary t = true -> is_credential_ref r = true ->
  at_stage (Temporary t secret) i d ->
  wp (link t r) (fun x d' => match x with
     | inr _ => at_stage (Linked t r) i d'
     | inl _ => at_stage (Temporary t secret) i d'
     end) d.
Proof.
  intros Hnew Ht Hr H. apply wp_bind. eapply wp_mono; [by apply sys_stage|].
  intros [e|u] d' [H' _]; [done|]. pose proof H' as (Hn & Hold & Hs & He & Hi).
  unfold wp. cbv beta. rewrite He. cbn [stage_entries].
  rewrite lookup_insert_eq, lookup_insert_ne by (by apply not_eq_sym, reference_ne_temporary).
  destruct (entries d0 !! r) as [j|] eqn:Er; cbn; [done|].
  split_and!; (done || apply Hi).
Qed.

Lemma replace_stage t r i d :
  is_temporary t = true -> is_credential_ref r = true -> is_Some (entries d0 !! r) ->
  replacing = Some r -> at_stage (Temporary t secret) i d ->
  wp (os_replace t r) (fun x d' => match x with
     | inr _ => at_stage (Replaced r) i d'
     | inl _ => at_stage (Temporary t secret) i d'
     end) d.
Proof.
  intros Ht Hr Hold Hrep H. apply wp_bind. eapply wp_mono; [by apply sys_stage|].
  intros [e|u] d' [H' _]; [done|]. pose proof H' as (Hn & Ho & Hs & He & Hi).
  unfold wp. cbv beta. rewrite He. cbn [stage_entries]. rewrite lookup_insert_eq. cbn.
  split_and!; try (done || apply Hi). cbn. by rewrite delete_insert_id by (by apply no_old_temporary).
Qed.

(** Either a new file is published, whole, or nothing is; an error or a crash
    leaves one of the stages. *)
Lemma publish_new_stage r t i d :
  replacing = None -> is_temporary t = true -> is_credential_ref r = true -> at_stage Base i d ->
  wp (publish_new r t secret) (fun x d' => match x with
     | inr true => exists j, at_stage (Published r) j d'
     | inr false => exists j, at_stage Base j d'
     | inl _ => staged t d'
     end) d.
Proof.
  intros Hnew Ht Hr H. apply wp_bind. eapply wp_mono; [by eapply write_temporary_stage|].
  intros [e|u] d1 H1; [done|]. destruct H1 as [j H1].
  apply wp_finally, wp_translate, wp_bind, wp_try, wp_bind.
  eapply wp_mono; [by apply link_stage|]. intros [e|u1] d2 H2.
  - assert (Hfin : forall x : os_exn + bool, x <> inr true ->
      wp (unlink_missing_ok t) (fun r' d2 => match r' with
       | inl e => staged t d2
       | inr _ => match x with inr false => exists j, at_stage Base j d2
                  | inr true => exists j, at_stage (Published r) j d2 | inl _ => staged t d2 end
       end) d2).
    { intros x Hx. eapply wp_mono; [by apply (unlink_missing_ok_stage (Temporary t secret) t j)|].
      intros [e'|u'] d3 H3; [by eapply staged_at|]. destruct x as [|[]]; [by eapply staged_at|done|by exists j]. }
    destruct e; repeat apply wp_ret || apply wp_raise || apply wp_bind;
      first [by apply (Hfin (inr false)) | by apply (Hfin (inl OSError))].
  - apply wp_ret. cbv iota. apply wp_bind.
    eapply wp_mono; [by apply (unlink_stage (Linked t r) t j)|].
    intros [e|u2] d3 H3.
    + eapply wp_mono; [apply (unlink_missing_ok_staged t); [done|]|by intros [?|?] ?].
      destruct e; try destruct H3 as [? H3]; by apply (staged_at t (Linked t r) j).
    + apply wp_bind. eapply wp_mono; [apply (looks_stage _ (Published r) j); [apply fsync_directory_looks|done]|].
      intros [e|u3] d4 H4; [|apply wp_ret];
        (eapply wp_mono; [by apply (unlink_missing_ok_stage (Published r) t j)|];
         intros [?|?] d5 H5; first [by eapply staged_at | by exists j]).
Qed.

Lemma publish_replace_stage r t i d :
  is_temporary t = true -> is_credential_ref r = true -> is_Some (entries d0 !! r) ->
  replacing = Some r -> at_stage Base i d ->
  wp (publish_replace r t secret) (fun x d' => match x with
     | inr _ => exists j, at_stage (Replaced r) j d'
     | inl _ => staged t d'
     end) d.
Proof.
  intros Ht Hr Hold Hrep H. apply wp_bind. eapply wp_mono; [by eapply write_temporary_stage|].
  intros [e|u] d1 H1; [done|]. destruct H1 as [j H1].
  apply wp_finally, wp_translate, wp_bind. eapply wp_mono; [by apply replace_stage|].
  intros [e|u1] d2 H2.
  { eapply wp_mono; [apply (unlink_missing_ok_staged t); [done|by eapply staged_at]|by intros [?|?] ?]. }
  eapply wp_mono; [apply (looks_stage _ (Replaced r) j); [apply fsync_directory_looks|done]|].
  intros [e|u2] d3 H3; (eapply wp_mono; [by apply (unlink_missing_ok_stage (Replaced r) t j)|]);
    (intros [?|?] d4 H4; first [by eapply staged_at | by exists j]).
Qed.

(** ** The names a round draws *)
Class WellFormedTokens (tokens : Tokens) : Prop := {
  token_reference n : is_credential_ref (tokens n).1 = true;
  token_temporary n : is_temporary (".tmp-" +:+ (tokens n).2) = true
}.

Context (tokens : Tokens) `{!WellFormedTokens tokens}.

Definition some_stage (d : Dir) : Prop := exists s i, at_stage s i d.

Lemma staged_some t d : staged t d -> some_stage d.
Proof. intros (s & i & _ & H). by exists s, i. Qed.

Lemma some_stage_core d d' : core d' = core d -> some_stage d -> some_stage d'.
Proof. intros E (s & i & H). exists s, i. by eapply at_stage_core. Qed.

Definition put_post (x : os_exn + option string) (d : Dir) : Prop :=
  match x with
  | inr (Some r) => exists j, at_stage (Published r) j d
  | _ => some_stage d
  end.

Lemma put_loop_stage rounds n i d :
  replacing = None -> at_stage Base i d -> wp (put_loop tokens n rounds secret) put_post d.
Proof.
  intros Hnew. revert n i d. induction rounds as [|rounds IH]; intros n i d H; [by exists Base, i|].
  cbn [put_loop]. apply wp_bind.
  eapply wp_mono; [apply (publish_new_stage _ _ i); [done|apply token_temporary|apply token_reference|done]|].
  intros [e|[]] d' H'; [by eapply staged_some| |].
  - exact H'.
  - destruct H' as [j H']. by apply (IH _ j).
Qed.

Lemma put_post_core r d1 d2 : core d1 = core d2 -> put_post r d2 -> put_post r d1.
Proof.
  intros E. destruct r as [e|[r|]]; cbn; try by apply some_stage_core.
  intros [j H]. exists j. by eapply at_stage_core.
Qed.

Lemma put_post_some r d : put_post r d -> some_stage d.
Proof. destruct r as [e|[r|]]; cbn; try done. intros [j H]. by exists (Published r), j. Qed.

Lemma settled_base : at_stage Base 1%positive d0.
Proof. unfold at_stage. cbn. split_and!; auto. lia. Qed.

Lemma settled_lock_some : is_Some (entries d0 !! LOCK_FILE).
Proof. destruct (settled_lock _ Hd0) as (i & f & H & _). by exists i. Qed.

Lemma put_stage :
  replacing = None ->
  wp (put tokens secret) (fun r d' => match r with
     | inr r => exists j, at_stage (Published r) j d'
     | inl _ => some_stage d'
     end) d0.
Proof.
  intros Hnew. pose proof settled_base as Hb.
  apply wp_bind. apply wp_looks; [apply looks_assert|]. intros [e|u] d1 H1.
  { exists Base, 1%positive. by eapply at_stage_core. }
  apply wp_bind. eapply wp_mono; [apply wp_lease with (Q := put_post)|].
  - apply core_eq in H1 as (-> & _). apply settled_lock_some.
  - intros d2 H2. apply (put_loop_stage _ _ 1%positive); [done|]. eapply at_stage_core; [|exact Hb]. congruence.
  - apply put_post_core.
  - intros [e|[r|]] d2; cbn.
    + intros [H2|[r' H2]]; [|by eapply put_post_some].
      exists Base, 1%positive. eapply at_stage_core; [|exact Hb]. congruence.
    + done.
    + done.
Qed.

(** [replace] leaves the old file, or the new one. *)
Lemma replace_stages r :
  replacing = Some r ->
  wp (replace tokens r secret) (fun x d' => match x with
     | inr _ => exists j, at_stage (Replaced r) j d'
     | inl _ => some_stage d'
     end) d0.
Proof.
  intros Hrep.
  pose proof settled_base as Hb.
  apply wp_bind. apply wp_looks; [apply looks_assert|]. intros [e|u] d1 H1.
  { exists Base, 1%positive. by eapply at_stage_core. }
  eapply wp_mono; [apply wp_lease with (Q := fun x d' => match x with
     | inr _ => exists j, at_stage (Replaced r) j d' | inl _ => some_stage d' end)|].
  - apply core_eq in H1 as (-> & _). apply settled_lock_some.
  - intros d2 H2.
    assert (at_stage Base 1%positive d2) as Hb2 by (eapply at_stage_core; [|exact Hb]; congruence).
    unfold path. destruct (is_credential_ref r) eqn:Hr; [|by exists Base, 1%positive].
    change (wp (open_validated r ;;? publish_replace r (".tmp-" +:+ (tokens 0).2) secret) (fun x d' =>
      match x with inr _ => exists j, at_stage (Replaced r) j d' | inl _ => some_stage d' end) d2).
    destruct (entries d0 !! r) as [j|] eqn:Er.
    + apply wp_bind. eapply wp_mono; [by apply (looks_stage _ Base 1%positive); [apply open_validated_looks|]|].
      intros [e|i] d3 H3; [by exists Base, 1%positive|].
      eapply wp_mono; [eapply publish_replace_stage; [apply token_temporary|done|by eauto|done|done]|].
      intros [e|u'] d4 H4; [by eapply staged_some|done].
    + apply wp_bind. destruct (open_validated_missing r d2) as [e He].
      { destruct Hb2 as (_ & _ & _ & -> & _). done. }
      unfold wp at 1. rewrite He. exists Base, 1%positive.
      by eapply at_stage_core; [apply open_validated_looks|].
  - intros [e|x] d2 d3 E; [by apply some_stage_core|]. intros [j H]. exists j. by eapply at_stage_core.
  - intros [e|x] d2; [|done]. intros [H2|[[e'|x] H2]]; [|done|].
    + exists Base, 1%positive. eapply at_stage_core; [|exact Hb]. congruence.
    + destruct H2 as [j H2]. by exists (Replaced r), j.
Qed.
End Publication.
