(* ===== verification/SecretRecovery.v ===== *)
(** * Recovery of the credential directory

    Without faults the file operations of [SecretFiles] are computed by
    rewriting.  [recover_temporary_files] then takes a directory that a crash
    left at any stage of a publication to a settled one. *)

From stdpp Require Import base tactics list gmap strings sorting.
From Stdlib Require Import ZArith Lia Ascii.
From S2P Require Import Prelude Text SecretFiles SecretFacts.

(** ** Runs without faults *)
Definition calm (d : Dir) : Prop := faults d = [] /\ dead d = false.

(** A new process finds the directory as the last one left it. *)
Definition restart (d : Dir) : Dir := d <| dead := false |> <| depth := 0 |> <| faults := [] |>.

Definition file (d : Dir) (n : string) : option Inode := entries d !! n ≫= fun i => inodes d !! i.

Lemma restart_calm d : calm (restart d).
Proof. done. Qed.

Lemma bind_run {A B} (m : FS A) (k : A -> FS B) d a d1 x :
  m d = (inr a, d1) -> k a d1 = x -> fs_bind m k d = x.
Proof. unfold fs_bind. by intros ->. Qed.

Lemma try_run {A} (m : FS A) h d a d1 : m d = (inr a, d1) -> fs_try m h d = (inr a, d1).
Proof. unfold fs_try. by intros ->. Qed.

Lemma finally_run {A} (m : FS A) f d a d1 d2 :
  m d = (inr a, d1) -> f d1 = (inr tt, d2) -> fs_finally m f d = (inr a, d2).
Proof. unfold fs_finally. by intros -> ->. Qed.

Lemma sys_run d : calm d -> sys d = (inr tt, d).
Proof. intros [Hf Hd]. unfold sys. by rewrite Hf, Hd. Qed.

Lemma lstat_run n i d : calm d -> entries d !! n = Some i -> lstat n d = (inr i, d).
Proof. intros Hc Hn. eapply bind_run; [by apply sys_run|]. cbv beta. by rewrite Hn. Qed.

Lemma metadata_run i f d : inodes d !! i = Some f -> metadata i d = (inr f, d).
Proof. unfold metadata. by intros ->. Qed.

Lemma fstat_run i f d : calm d -> inodes d !! i = Some f -> fstat i d = (inr f, d).
Proof. intros Hc Hi. eapply bind_run; [by apply sys_run|]. by apply metadata_run. Qed.

Lemma assert_run b e d : b = true -> fs_assert b e d = (inr tt, d).
Proof. by intros ->. Qed.

Lemma iterdir_run d : calm d -> iterdir d = (inr (names d), d).
Proof. intros Hc. by eapply bind_run; [apply sys_run|]. Qed.

Lemma unlink_run n i d : calm d -> entries d !! n = Some i ->
  unlink n d = (inr tt, d <| entries := delete n (entries d) |>).
Proof. intros Hc Hn. eapply bind_run; [by apply sys_run|]. cbv beta. by rewrite Hn. Qed.

Lemma fsync_directory_run d : calm d -> fsync_directory d = (inr tt, d).
Proof. intros Hc. eapply try_run, bind_run; by apply sys_run. Qed.

Lemma lstat_opt_run n i d : calm d -> entries d !! n = Some i -> lstat_opt n d = (inr (Some i), d).
Proof. intros Hc Hn. eapply try_run, bind_run; [by apply lstat_run|done]. Qed.

Lemma private_fields f : private f = true ->
  inode_regular f = true /\ inode_owned f = true /\ (inode_mode f =? 384)%Z = true.
Proof. unfold private. by intros [[H1 H2]%andb_prop H3]%andb_prop. Qed.

(** The look, the open and the second look find one private file. *)
Lemma double_look_run n i f d :
  calm d -> entries d !! n = Some i -> inodes d !! i = Some f -> private f = true ->
  fs_try (let? before := lstat n in
          let? f := metadata before in
          fs_assert (inode_regular f) CredentialStoreError ;;?
          let? fd := os_open n in fs_ret (before, fd)) (fun e => fs_raise (os_error e)) d
  = (inr (i, i), d).
Proof.
  intros Hc Hn Hi (H1 & _)%private_fields.
  eapply try_run, bind_run; [by apply lstat_run|].
  eapply bind_run; [by apply metadata_run|].
  eapply bind_run; [by apply assert_run|].
  by eapply bind_run; [apply lstat_run|].
Qed.

Lemma open_validated_run n i f d :
  calm d -> entries d !! n = Some i -> inodes d !! i = Some f -> private f = true ->
  open_validated n d = (inr i, d).
Proof.
  intros Hc Hn Hi Hf. eapply bind_run; [by eapply double_look_run|].
  pose proof (private_fields f Hf) as (H1 & H2 & H3).
  eapply bind_run; [by apply fstat_run|]. cbn [snd fst].
  do 4 (eapply bind_run; [apply assert_run; first [done | by apply bool_decide_true]|]). done.
Qed.

Lemma validate_temporary_run n i f d :
  calm d -> entries d !! n = Some i -> inodes d !! i = Some f -> private f = true ->
  validate_temporary n d = (inr i, d).
Proof.
  intros Hc Hn Hi Hf. eapply bind_run; [by eapply double_look_run|].
  eapply bind_run; [by apply fstat_run|]. cbn [snd fst].
  eapply bind_run; [apply assert_run|done]. rewrite Hf. by apply bool_decide_true.
Qed.

Lemma open_lock_run i f d :
  calm d -> entries d !! LOCK_FILE = Some i -> inodes d !! i = Some f -> private f = true ->
  open_lock d = (inr tt, d).
Proof.
  intros Hc Hn Hi Hf. eapply bind_run; [by apply lstat_opt_run|].
  eapply bind_run. { eapply try_run. cbv beta. rewrite Hn. by apply lstat_run. }
  eapply bind_run; [by apply fstat_run|].
  eapply bind_run; [apply assert_run|done]. rewrite Hf. by apply bool_decide_true.
Qed.

Definition lock_ready (d : Dir) : Prop :=
  exists i f, entries d !! LOCK_FILE = Some i /\ inodes d !! i = Some f /\ private f = true.

Lemma lease_run {A} (body : FS A) a d d1 :
  calm d -> depth d = 0 -> lock_ready d ->
  body (d <| depth := 1 |>) = (inr a, d1) -> calm d1 ->
  lease body d = (inr a, d1 <| depth := 0 |>).
Proof.
  intros Hc H0 (i & f & Hl & Hi & Hf) Hb Hc1. unfold lease. rewrite H0.
  eapply bind_run; [by eapply open_lock_run|].
  eapply try_run, bind_run; [by apply sys_run|].
  eapply finally_run. { eapply bind_run; [reflexivity|exact Hb]. }
  eapply bind_run; [reflexivity|]. by apply sys_run.
Qed.

Lemma lease_nested_run {A} (body : FS A) a n d d1 :
  depth d = S n -> body (d <| depth := S (S n) |>) = (inr a, d1) ->
  lease body d = (inr a, d1 <| depth := S n |>).
Proof.
  intros Hd Hb. unfold lease. rewrite Hd. eapply finally_run; [|reflexivity].
  eapply bind_run; [reflexivity|exact Hb].
Qed.

Lemma depth_released d : depth d = 0 -> d <| depth := 1 |> <| depth := 0 |> = d.
Proof. destruct d. cbn. by intros ->. Qed.

Lemma read_run r f d :
  calm d -> depth d = 0 -> lock_ready d -> is_credential_ref r = true ->
  file d r = Some f -> private f = true ->
  read r d = (inr (inode_data f), d).
Proof.
  intros Hc H0 Hl Hr Hfile Hf. unfold file in Hfile.
  destruct (entries d !! r) as [i|] eqn:Hn; [cbn in Hfile|done].
  rewrite <- (depth_released d H0) at 2. eapply lease_run; [done..| |done].
  eapply bind_run. { eapply bind_run; [by apply assert_run|reflexivity]. }
  eapply bind_run; [by eapply open_validated_run|].
  eapply try_run, bind_run; [by apply sys_run|]. eapply bind_run; [by apply metadata_run|done].
Qed.

Lemma delete_file_run n r i f d :
  calm d -> depth d = S n -> is_credential_ref r = true ->
  entries d !! r = Some i -> inodes d !! i = Some f -> private f = true ->
  delete_file r d = (inr tt, d <| entries := delete r (entries d) |>).
Proof.
  intros Hc H1 Hr Hn Hi Hf. eapply eq_trans.
  - eapply (lease_nested_run _ tt n d (d <| depth := S (S n) |> <| entries := delete r (entries d) |>)); [done|].
    eapply bind_run. { eapply bind_run; [by apply assert_run|reflexivity]. }
    eapply bind_run; [by eapply open_validated_run|].
    eapply try_run, bind_run; [by eapply unlink_run|]. by apply fsync_directory_run.
  - destruct d. cbn in *. by rewrite H1.
Qed.

Lemma lstat_opt_none_run n d : calm d -> entries d !! n = None -> lstat_opt n d = (inr None, d).
Proof.
  intros Hc Hn. unfold lstat_opt, fs_or, fs_try, lstat, fs_bind. rewrite sys_run by done. cbv beta.
  by rewrite Hn.
Qed.

(** In a lease, [delete_if_exists] leaves no file of that name. *)
Lemma delete_if_exists_run n r d :
  calm d -> depth d = S n -> is_credential_ref r = true ->
  (forall i, entries d !! r = Some i -> exists f, inodes d !! i = Some f /\ private f = true) ->
  exists b, delete_if_exists r d = (inr b, d <| entries := delete r (entries d) |>).
Proof.
  intros Hc Hd Hr Hf.
  assert (Hpath : path r = fs_ret r) by (unfold path; by rewrite Hr).
  destruct (entries d !! r) as [i|] eqn:Hn.
  - destruct (Hf i eq_refl) as (f & Hi & Hp). exists true. eapply eq_trans.
    + eapply (lease_nested_run _ true n d (d <| depth := S (S n) |> <| entries := delete r (entries d) |>)); [done|].
      rewrite Hpath. eapply bind_run; [reflexivity|]. eapply bind_run; [by apply lstat_opt_run|].
      eapply bind_run; [by eapply (delete_file_run (S n))|done].
    + destruct d. cbn in *. by rewrite Hd.
  - exists false. eapply eq_trans.
    + eapply (lease_nested_run _ false n d (d <| depth := S (S n) |>)); [done|].
      rewrite Hpath. eapply bind_run; [reflexivity|]. eapply bind_run; [by apply lstat_opt_none_run|done].
    + destruct d. cbn in *. by rewrite Hd, delete_id.
Qed.

(** ** Recovery *)
Lemma recover_skip l rest d :
  Forall (fun n => String.prefix ".tmp-" n = false) l ->
  recover_entries (l ++ rest) d = recover_entries rest d.
Proof. induction 1 as [|n l Hn _ IH]; [done|]. cbn [app recover_entries]. by rewrite Hn. Qed.

Lemma recover_none l d :
  Forall (fun n => String.prefix ".tmp-" n = false) l -> recover_entries l d = (inr [], d).
Proof. intros H. rewrite <- (app_nil_r l). by rewrite recover_skip. Qed.

Lemma names_NoDup d : NoDup (names d).
Proof. unfold names. rewrite merge_sort_Permutation. apply NoDup_fst_map_to_list. Qed.

Lemma elem_of_names n d : n ∈ names d <-> is_Some (entries d !! n).
Proof.
  unfold names. rewrite merge_sort_Permutation, list_elem_of_fmap. split.
  - intros ([m i] & -> & H%elem_of_map_to_list). by exists i.
  - intros [i H%elem_of_map_to_list]. by exists (n, i).
Qed.

(** The references that name the inode [i], as a filter of the listing. *)
Definition names_inode (t : string) (i : positive) (d : Dir) (c : string) : Prop :=
  c <> t /\ is_credential_ref c = true /\ entries d !! c = Some i.

#[global] Instance names_inode_dec t i d c : Decision (names_inode t i d c).
Proof. unfold names_inode. apply _. Defined.

Lemma matching_targets_run t i f d cs :
  calm d -> inodes d !! i = Some f -> private f = true ->
  (forall c, c ∈ cs -> is_Some (entries d !! c)) ->
  matching_targets t i cs d = (inr (filter (names_inode t i d) cs), d).
Proof.
  intros Hc Hi Hf. induction cs as [|c cs IH]; intros Hcs; [done|].
  specialize (IH (fun c' Hc' => Hcs c' (list_elem_of_further _ _ _ Hc'))).
  cbn [matching_targets]. destruct (bool_decide_reflect (c = t)) as [->|Hne]; cbn [orb].
  { rewrite filter_cons_False by (unfold names_inode; naive_solver). done. }
  destruct (is_credential_ref c) eqn:Hr; cbn [negb].
  2: { rewrite filter_cons_False by (unfold names_inode; naive_solver congruence). done. }
  destruct (Hcs c) as [j Hj]; [by apply list_elem_of_here|].
  eapply bind_run; [by apply try_run, lstat_run|]. cbv beta.
  destruct (bool_decide_reflect (j <> i)) as [Hji|<-%dec_stable].
  { rewrite filter_cons_False by (unfold names_inode; naive_solver congruence). done. }
  rewrite filter_cons_True by done.
  eapply bind_run; [by eapply open_validated_run|]. by eapply bind_run.
Qed.

Section Recovery.
Context (d0 : Dir) (secret : string) (replacing : option string) (Hd0 : settled d0).

Definition stage_temporary (s : stage) : option string :=
  match s with Temporary t _ | Linked t _ => Some t | _ => None end.

(** The only temporary of a stage is its own. *)
Lemma stage_prefix s i n j :
  stage_names d0 replacing s -> stage_entries d0 s i !! n = Some j ->
  String.prefix ".tmp-" n = true -> stage_temporary s = Some n.
Proof.
  intros Hs Hn Hp. assert (Hold : entries d0 !! n = None).
  { destruct (entries d0 !! n) as [k|] eqn:E; [|done]. by rewrite (settled_temporary _ Hd0 _ _ E) in Hp. }
  assert (Href : forall r, is_credential_ref r = true -> r <> n).
  { intros r Hr ->. apply reference_not_temporary in Hr. congruence. }
  destruct s as [|t data|t r|r|r]; cbn [stage_names stage_entries stage_temporary] in *;
    rewrite ?lookup_insert_Some, ?Hold in Hn; naive_solver.
Qed.

Lemma at_stage_private s i d t : at_stage d0 secret replacing s i d -> stage_temporary s = Some t ->
  entries d !! t = Some i /\ is_temporary t = true /\
  exists f, inodes d !! i = Some f /\ private f = true.
Proof.
  intros (Hn & Ho & Hs & He & Hi) Ht. assert (Htmp : is_temporary t = true).
  { destruct s; simplify_eq/=; naive_solver. }
  split_and!; [|done|].
  - rewrite He. erewrite (stage_lookup_temporary d0 replacing Hd0 s t); [by destruct s|done|by destruct s; simplify_eq/=|done].
  - destruct s; simplify_eq/=; destruct Hi as (_ & _ & Hi); eexists; split; [exact Hi|done|exact Hi|done].
Qed.

Lemma old_links i : (next_inode d0 <= i)%positive -> filter (fun ki : string * positive => ki.2 = i) (entries d0) = ∅.
Proof.
  intros Hi. apply map_empty_filter_2. intros n j Hn. cbn. by eapply (old_not_new d0).
Qed.

Lemma stage_links s i d :
  at_stage d0 secret replacing s i d ->
  (nlink i d).1 = inr (match s with Linked _ _ => 2 | Temporary _ _ | Published _ | Replaced _ => 1
                       | Base => size (filter (fun ki : string * positive => ki.2 = i) (entries d0)) end).
Proof.
  intros (Hn & Ho & Hs & He & Hi). unfold nlink. rewrite He. cbn [fst]. f_equal.
  destruct s as [|t data|t r|r|r]; cbn [stage_entries]; [done|..];
    destruct Hi as (Hi & _); rewrite !map_filter_insert_True, (old_links i Hi) by done.
  2: { rewrite map_size_insert_None.
       { by rewrite map_size_insert_None. }
       destruct Hs as (Ht & Hr & _). rewrite lookup_insert_ne by (by apply not_eq_sym, reference_ne_temporary).
       done. }
  all: by rewrite map_size_insert_None.
Qed.

Lemma linked_targets t r i d :
  at_stage d0 secret replacing (Linked t r) i d -> length (filter (names_inode t i d) (names d)) = 1.
Proof.
  intros (Hn & Ho & (Ht & Hr & Hnone & _) & He & Hi & _).
  transitivity (length [r]); [apply Permutation_length|done].
  apply NoDup_Permutation; [apply NoDup_filter, names_NoDup|apply NoDup_singleton|].
  intros c. rewrite list_elem_of_filter, elem_of_names, list_elem_of_singleton.
  unfold names_inode. rewrite He. cbn [stage_entries]. split.
  - intros [(Hct & Hc & Hci) _]. rewrite !lookup_insert_Some in Hci.
    destruct Hci as [[-> _]|[_ [[-> _]|[_ Hold]]]]; [done|done|].
    by apply (old_not_new d0 Hd0 c i i) in Hold.
  - intros ->. rewrite lookup_insert_eq. split_and!; [by apply reference_ne_temporary|done|done|by eauto].
Qed.

Lemma recover_stage s i d :
  at_stage d0 secret replacing s i d -> calm d ->
  exists found d', recover_entries (names d) d = (inr found, d') /\
    at_stage d0 secret replacing (unlinked s) i d' /\ calm d' /\ depth d' = depth d.
Proof.
  intros H Hc. pose proof H as (Hn & Ho & Hs & He & Hi).
  assert (Hpre : forall n, n ∈ names d -> String.prefix ".tmp-" n = true -> stage_temporary s = Some n).
  { intros n [j Hj]%elem_of_names. rewrite He in Hj. by eapply stage_prefix. }
  destruct (stage_temporary s) as [t|] eqn:Ht.
  2: { exists [], d. rewrite recover_none.
       - split_and!; [done| |done|done]. by destruct s.
       - apply Forall_forall. intros n Hin. apply not_true_is_false. intros Hp. by specialize (Hpre n Hin Hp). }
  destruct (at_stage_private _ _ _ _ H Ht) as (Hte & Htmp & f & Hif & Hf).
  assert (Hin : t ∈ names d) by (apply elem_of_names; eauto).
  apply list_elem_of_split in Hin as (l1 & l2 & El).
  pose proof (names_NoDup d) as Hnd. rewrite El in Hnd.
  apply NoDup_app in Hnd as (_ & Hl1 & (Hl2 & _)%NoDup_cons).
  assert (Hclean : forall l, (forall n, n ∈ l -> n ∈ names d) -> t ∉ l ->
    Forall (fun n => String.prefix ".tmp-" n = false) l).
  { intros l Hsub Htl. apply Forall_forall. intros n Hn'. apply not_true_is_false. intros Hp.
    apply Hpre in Hp; [|by apply Hsub]. simplify_eq. done. }
  rewrite El, recover_skip.
  2: { apply Hclean; [rewrite El; set_solver|]. intros Hin. specialize (Hl1 t Hin). set_solver. }
  cbn [recover_entries]. rewrite (is_temporary_prefix t Htmp), Htmp. cbn [negb].
  eexists _, (d <| entries := delete t (entries d) |>).
  split; [|split; [eapply (unlinked_stage d0 secret replacing Hd0 s t i d); [done| |done|reflexivity]|split]].
  - eapply bind_run; [by eapply validate_temporary_run|].
    eapply (bind_run (nlink i) _ d _ d); [exact (f_equal (fun x => (x, d)) (stage_links s i d H))|].
    eapply bind_run with (d1 := d) (a := tt).
    + destruct s as [|t' data|t' r|r|r]; simplify_eq/=; [done|].
      eapply bind_run; [by apply iterdir_run|].
      eapply bind_run; [eapply matching_targets_run; [done|done|done|intros c; apply elem_of_names]|].
      apply assert_run. by rewrite (linked_targets t r i d H).
    + eapply bind_run. { eapply try_run, bind_run; [by eapply unlink_run|]. by apply fsync_directory_run. }
      eapply bind_run; [|reflexivity]. apply recover_none. apply Hclean; [rewrite El; set_solver|done].
  - by destruct s; simplify_eq/=.
  - done.
  - done.
Qed.
End Recovery.
