(* ===== verification/Gateway.v ===== *)
(** * Terminal use of an Agent through the gateway

    [GatewayTicketStore] and [GatewayProxyLimiter] of
    [src/backend/ic_env_guard/agents/terminal_proxy.py]: what holds an Agent
    while somebody uses one of its terminals, and what a removal of the Agent
    has to wait for.  Both classes live in memory behind a lock, so a method is
    one step.  Random tokens and the readings of the clock are arguments. *)

From stdpp Require Import base tactics list gmap strings.
From Stdlib Require Import ZArith Lia.
From S2P Require Import Prelude Sql Models.

#[local] Set Primitive Projections.

(** What the ticket remembers of the Agent it was issued for. *)
Record Binding := mkBinding {
  bound_revision : option Z;
  bound_credential_ref : option string;
  bound_transport_profile_id : option string;
  bound_normalized_endpoint : option string;
  bound_enrollment_method : option EnrollmentMethod;
  bound_source : option string
}.

Record GatewayTicketReservation := mkReservation {
  reservation_id : string;
  reservation_agent_id : string;
  reservation_expires_at : time;
  reservation_binding : Binding;
  reservation_slot : option string
}.

Record GatewayTicket := mkGatewayTicket {
  ticket_ticket : string;
  ticket_actor_id : string;
  ticket_agent_id : string;
  ticket_terminal_id : string;
  ticket_intended_ws_path : string;
  ticket_upstream_ticket : string;
  ticket_expires_at : time;
  ticket_binding : Binding;
  ticket_slot : option string
}.

(** A slot is known by its identifier. *)
Record GatewayProxyLimiter := mkLimiter {
  limiter_slots : gset string;
  limiter_legacy : list string
}.

Record Gateway := mkGateway {
  gate_reservations : gmap string GatewayTicketReservation;
  gate_tickets : gmap string GatewayTicket;
  gate_active : gmap string GatewayTicket;
  gate_removing : gset string;
  gate_limiter : GatewayProxyLimiter
}.

(** The limits the constructors are given. *)
Record GatewayConfig := mkGatewayConfig {
  gate_max_outstanding : nat;
  gate_reservation_ttl : Z;
  gate_max_active : nat
}.
#[local] Unset Primitive Projections.

(** ** The limiter *)
Definition limiter_reserve (c : GatewayConfig) (token : string) (l : GatewayProxyLimiter)
    : option string * GatewayProxyLimiter :=
  if gate_max_active c <=? size (limiter_slots l) then (None, l)
  else (Some token, l <| limiter_slots := {[token]} ∪ limiter_slots l |>).

Definition try_acquire (c : GatewayConfig) (token : string) (l : GatewayProxyLimiter)
    : bool * GatewayProxyLimiter :=
  match limiter_reserve c token l with
  | (None, l) => (false, l)
  | (Some slot, l) => (true, l <| limiter_legacy := limiter_legacy l ++ [slot] |>)
  end.

(** [list.remove]: the first occurrence. *)
Fixpoint remove_first (x : string) (l : list string) : list string :=
  match l with
  | [] => []
  | y :: l => if bool_decide (y = x) then l else y :: remove_first x l
  end.

Definition limiter_release (slot : option string) (l : GatewayProxyLimiter) : GatewayProxyLimiter :=
  let '(slot, legacy) :=
    match slot with
    | None => (last (limiter_legacy l), take (pred (length (limiter_legacy l))) (limiter_legacy l))
    | Some s => (Some s, if bool_decide (s ∈ limiter_legacy l) then remove_first s (limiter_legacy l)
                         else limiter_legacy l)
    end in
  match slot with
  | None => l <| limiter_legacy := legacy |>
  | Some s => l <| limiter_legacy := legacy |> <| limiter_slots := limiter_slots l ∖ {[s]} |>
  end.

(** [_release_slot]: an object without a [release] method is left alone. *)
Definition release_slot (slot : option string) (g : Gateway) : Gateway :=
  match slot with
  | None => g
  | Some s => g <| gate_limiter := limiter_release (Some s) (gate_limiter g) |>
  end.

Definition release_slots (slots : list (option string)) (g : Gateway) : Gateway :=
  foldl (fun g s => release_slot s g) g slots.

(** ** The ticket store *)
Definition reservation_expired (now : time) (kr : string * GatewayTicketReservation) : Prop :=
  (reservation_expires_at kr.2 <= now)%Z.

Definition ticket_expired (now : time) (kt : string * GatewayTicket) : Prop :=
  (ticket_expires_at kt.2 <= now)%Z.

#[global] Instance reservation_expired_dec now kr : Decision (reservation_expired now kr).
Proof. unfold reservation_expired. apply _. Defined.

#[global] Instance ticket_expired_dec now kt : Decision (ticket_expired now kt).
Proof. unfold ticket_expired. apply _. Defined.

Definition prune_expired (now : time) (g : Gateway) : Gateway :=
  let reservations := filter (reservation_expired now) (gate_reservations g) in
  let g := release_slots (reservation_slot <$> (map_to_list reservations).*2)
             (g <| gate_reservations := filter (fun kr => ~ reservation_expired now kr) (gate_reservations g) |>) in
  let tickets := filter (ticket_expired now) (gate_tickets g) in
  release_slots (ticket_slot <$> (map_to_list tickets).*2)
    (g <| gate_tickets := filter (fun kt => ~ ticket_expired now kt) (gate_tickets g) |>).

(** [blocker] is [_durable_removal_blocker], where there is one; it returns
    [None] when it raises. *)
Definition durably_blocked (blocker : option (string -> option bool)) (agent : string) : bool :=
  match blocker with
  | None => false
  | Some f => if bool_decide (agent = "") then false else default true (f agent)
  end.

Definition has_usage_unlocked (agent : string) (g : Gateway) : bool :=
  exists_where (fun r => bool_decide (reservation_agent_id r = agent)) (gate_reservations g) ||
  exists_where (fun t => bool_decide (ticket_agent_id t = agent)) (gate_tickets g) ||
  exists_where (fun t => bool_decide (ticket_agent_id t = agent)) (gate_active g).

Definition reserve (c : GatewayConfig) (blocker : option (string -> option bool)) (token agent : string)
    (binding : Binding) (slot : option string) (now now' : time) (g : Gateway)
    : option GatewayTicketReservation * Gateway :=
  let g := prune_expired now g in
  if bool_decide (agent ∈ gate_removing g) || durably_blocked blocker agent then (None, g)
  else if gate_max_outstanding c <=? size (gate_reservations g) + size (gate_tickets g) then (None, g)
  else
    let r := mkReservation token agent (now' + seconds (gate_reservation_ttl c))%Z binding slot in
    (Some r, g <| gate_reservations := <[token := r]> (gate_reservations g) |>).

Definition release_reservation (reservation : option GatewayTicketReservation) (g : Gateway) : Gateway :=
  match reservation with
  | None => g
  | Some r =>
      match gate_reservations g !! reservation_id r with
      | None => g
      | Some removed =>
          release_slot (reservation_slot removed)
            (g <| gate_reservations := delete (reservation_id r) (gate_reservations g) |>)
      end
  end.

(** [ValueError] is [None]. *)
Definition commit (blocker : option (string -> option bool)) (reservation : GatewayTicketReservation)
    (token actor agent terminal ws_path upstream : string) (expires_at now : time) (g : Gateway)
    : option GatewayTicket * Gateway :=
  let g := prune_expired now g in
  match gate_reservations g !! reservation_id reservation with
  | None => (None, g)
  | Some stored =>
      if negb (bool_decide (reservation_agent_id stored = "")) &&
         negb (bool_decide (reservation_agent_id stored = agent)) then (None, g)
      else if bool_decide (agent ∈ gate_removing g) || durably_blocked blocker agent then (None, g)
      else
        let record := mkGatewayTicket token actor agent terminal ws_path upstream expires_at
                        (reservation_binding stored) (reservation_slot stored) in
        (Some record,
         g <| gate_reservations := delete (reservation_id reservation) (gate_reservations g) |>
           <| gate_tickets := <[token := record]> (gate_tickets g) |>)
  end.

Inductive consume_status := C_OK | C_INVALID | C_ACTOR_MISMATCH.

Definition consume_for_websocket (ticket agent terminal ws_path : string) (actor : option string)
    (now : time) (g : Gateway) : (consume_status * option GatewayTicket) * Gateway :=
  match gate_tickets g !! ticket with
  | None => ((C_INVALID, None), g)
  | Some record =>
      if (ticket_expires_at record <=? now)%Z then
        ((C_INVALID, None),
         release_slot (ticket_slot record) (g <| gate_tickets := delete ticket (gate_tickets g) |>))
      else if match actor with Some a => negb (bool_decide (ticket_actor_id record = a)) | None => false end
      then ((C_ACTOR_MISMATCH, Some record), g)
      else if negb (bool_decide (ticket_agent_id record = agent)) ||
              negb (bool_decide (ticket_terminal_id record = terminal)) ||
              negb (bool_decide (ticket_intended_ws_path record = ws_path))
      then ((C_INVALID, None), g)
      else
        ((C_OK, Some record),
         g <| gate_tickets := delete ticket (gate_tickets g) |>
           <| gate_active := <[ticket_ticket record := record]> (gate_active g) |>)
  end.

Definition consume (ticket actor agent terminal ws_path : string) (now : time) (g : Gateway)
    : option GatewayTicket * Gateway :=
  match consume_for_websocket ticket agent terminal ws_path (Some actor) now g with
  | ((C_OK, record), g) => (record, g)
  | (_, g) => (None, g)
  end.

Definition release_active (ticket : GatewayTicket) (g : Gateway) : Gateway :=
  match gate_active g !! ticket_ticket ticket with
  | None => g
  | Some removed =>
      release_slot (ticket_slot removed) (g <| gate_active := delete (ticket_ticket ticket) (gate_active g) |>)
  end.

Definition begin_removal (agent : string) (now : time) (g : Gateway) : bool * Gateway :=
  let g := prune_expired now g in
  if bool_decide (agent ∈ gate_removing g) || has_usage_unlocked agent g then (false, g)
  else (true, g <| gate_removing := {[agent]} ∪ gate_removing g |>).

Definition abort_removal (agent : string) (g : Gateway) : Gateway :=
  g <| gate_removing := gate_removing g ∖ {[agent]} |>.

Definition finish_removal (agent : string) (g : Gateway) : Gateway := abort_removal agent g.

Definition has_usage (agent : string) (now : time) (g : Gateway) : bool * Gateway :=
  let g := prune_expired now g in (has_usage_unlocked agent g, g).
