(* ===== verification/GatewayClaims.v ===== *)
(** * Theorems about terminal use through the gateway

    An invariant of every sequence of calls: an Agent that is being removed is
    not in use, and the stores stay within their limits.  Tickets are consumed
    once, by the holder they were issued to. *)

From stdpp Require Import base tactics list gmap strings.
From Stdlib Require Import ZArith Lia.
From S2P Require Import Prelude Sql Models Gateway.

(** ** Calls *)
Inductive GatewayCall :=
| GTryAcquire (token : string)
| GLimiterReserve (token : string)
| GLimiterRelease (slot : option string)
| GReserve (blocker : option (string -> option bool)) (token agent : string) (binding : Binding)
    (slot : option string) (now now' : time)
| GReleaseReservation (r : option GatewayTicketReservation)
| GCommit (blocker : option (string -> option bool)) (r : GatewayTicketReservation)
    (token actor agent terminal ws_path upstream : string) (expires_at now : time)
| GConsume (ticket agent terminal ws_path : string) (actor : option string) (now : time)
| GReleaseActive (t : GatewayTicket)
| GBeginRemoval (agent : string) (now : time)
| GAbortRemoval (agent : string)
| GHasUsage (agent : string) (now : time).

Definition on_limiter (f : GatewayProxyLimiter -> GatewayProxyLimiter) (g : Gateway) : Gateway :=
  g <| gate_limiter := f (gate_limiter g) |>.

Definition gateway_run (c : GatewayConfig) (op : GatewayCall) (g : Gateway) : Gateway :=
  match op with
  | GTryAcquire token => on_limiter (fun l => (try_acquire c token l).2) g
  | GLimiterReserve token => on_limiter (fun l => (limiter_reserve c token l).2) g
  | GLimiterRelease slot => on_limiter (limiter_release slot) g
  | GReserve b token agent binding slot now now' => (reserve c b token agent binding slot now now' g).2
  | GReleaseReservation r => release_reservation r g
  | GCommit b r token actor agent terminal ws up e now => (commit b r token actor agent terminal ws up e now g).2
  | GConsume ticket agent terminal ws actor now => (consume_for_websocket ticket agent terminal ws actor now g).2
  | GReleaseActive t => release_active t g
  | GBeginRemoval agent now => (begin_removal agent now g).2
  | GAbortRemoval agent => abort_removal agent g
  | GHasUsage agent now => (has_usage agent now g).2
  end.

Definition empty_gateway : Gateway := mkGateway ∅ ∅ ∅ ∅ (mkLimiter ∅ []).

Definition gateway_history (c : GatewayConfig) (ops : list GatewayCall) : Gateway :=
  foldl (fun g op => gateway_run c op g) empty_gateway ops.

(** ** Invariant *)
Definition used_by (agent : string) (g : Gateway) : Prop :=
  (exists k r, gate_reservations g !! k = Some r /\ reservation_agent_id r = agent) \/
  (exists k t, gate_tickets g !! k = Some t /\ ticket_agent_id t = agent) \/
  (exists k t, gate_active g !! k = Some t /\ ticket_agent_id t = agent).

Record gateway_ok (c : GatewayConfig) (g : Gateway) : Prop := {
  ok_exclusive agent : agent ∈ gate_removing g -> ~ used_by agent g;
  ok_outstanding : size (gate_reservations g) + size (gate_tickets g) <= gate_max_outstanding c;
  ok_slots : size (limiter_slots (gate_limiter g)) <= gate_max_active c;
  ok_ticket k t : gate_tickets g !! k = Some t -> ticket_ticket t = k
}.

Lemma has_usage_unlocked_true agent g : has_usage_unlocked agent g = true <-> used_by agent g.
Proof.
  unfold has_usage_unlocked, used_by. rewrite !orb_true_iff, !exists_where_true.
  setoid_rewrite bool_decide_eq_true. tauto.
Qed.

(** [g'] has no records that [g] has not, and no more slots. *)
Record shrinks (g g' : Gateway) : Prop := {
  shrinks_reservations : gate_reservations g' ⊆ gate_reservations g;
  shrinks_tickets : gate_tickets g' ⊆ gate_tickets g;
  shrinks_active : gate_active g' ⊆ gate_active g;
  shrinks_removing : gate_removing g' ⊆ gate_removing g;
  shrinks_slots : limiter_slots (gate_limiter g') ⊆ limiter_slots (gate_limiter g)
}.

#[local] Instance shrinks_preorder : PreOrder shrinks.
Proof. split; [by split|]. intros g1 g2 g3 [] []. split; by etrans. Qed.

Lemma shrinks_used agent g g' : shrinks g g' -> used_by agent g' -> used_by agent g.
Proof.
  intros [Hr Ht Ha _ _] [(k & r & H & <-)|[(k & t & H & <-)|(k & t & H & <-)]];
    [left|right; left|right; right]; eexists k, _; (split; [by eapply lookup_weaken|done]).
Qed.

Lemma shrinks_ok c g g' : shrinks g g' -> gateway_ok c g -> gateway_ok c g'.
Proof.
  intros Hs [He Ho Hl Hk]. pose proof Hs as [Hr Ht Ha Hrm Hsl]. split.
  - intros agent Hin Hu. apply (He agent); [by apply Hrm|]. by eapply shrinks_used.
  - apply map_subseteq_size in Hr, Ht. lia.
  - apply subseteq_size in Hsl. lia.
  - intros k t H. by eapply Hk, lookup_weaken.
Qed.

Lemma limiter_release_slots slot l : limiter_slots (limiter_release slot l) ⊆ limiter_slots l.
Proof. unfold limiter_release. destruct slot as [s|]; [|destruct (last _)]; cbn; set_solver. Qed.

Lemma release_slot_shrinks slot g : shrinks g (release_slot slot g).
Proof. destruct slot as [s|]; [|done]. split; try done. apply limiter_release_slots. Qed.

Lemma release_slots_shrinks slots g : shrinks g (release_slots slots g).
Proof.
  revert g. induction slots as [|s slots IH]; intros g; [done|].
  cbn. etrans; [apply release_slot_shrinks|apply IH].
Qed.

Lemma keep_reservations_shrinks m g :
  m ⊆ gate_reservations g -> shrinks g (g <| gate_reservations := m |>).
Proof. by split. Qed.

Lemma keep_tickets_shrinks m g : m ⊆ gate_tickets g -> shrinks g (g <| gate_tickets := m |>).
Proof. by split. Qed.

Lemma prune_expired_shrinks now g : shrinks g (prune_expired now g).
Proof.
  unfold prune_expired.
  etrans; [apply keep_reservations_shrinks, (map_filter_subseteq (fun kr => ~ reservation_expired now kr))|].
  etrans; [apply release_slots_shrinks|].
  etrans; [apply keep_tickets_shrinks, (map_filter_subseteq (fun kt => ~ ticket_expired now kt))|].
  apply release_slots_shrinks.
Qed.

Lemma release_reservation_shrinks r g : shrinks g (release_reservation r g).
Proof.
  unfold release_reservation. destruct r as [r|]; [|done]. destruct (_ !! _); [|done].
  etrans; [apply keep_reservations_shrinks, delete_subseteq|apply release_slot_shrinks].
Qed.

Lemma release_active_shrinks t g : shrinks g (release_active t g).
Proof.
  unfold release_active. destruct (_ !! _); [|done].
  etrans; [|apply release_slot_shrinks]. split; try done. apply delete_subseteq.
Qed.

Lemma map_size_insert_le {A} (k : string) (x : A) (m : gmap string A) : size (<[k := x]> m) <= S (size m).
Proof. rewrite map_size_insert. destruct (m !! k); cbn; lia. Qed.

(** ** Steps *)
Lemma reserve_ok c b token agent binding slot now now' g :
  gateway_ok c g -> gateway_ok c (reserve c b token agent binding slot now now' g).2.
Proof.
  intros Hg. unfold reserve. eapply shrinks_ok in Hg; [|apply (prune_expired_shrinks now)].
  revert Hg. generalize (prune_expired now g). clear g. intros g Hg.
  destruct (bool_decide _ || _) eqn:Hb; [done|]. destruct (Nat.leb_spec (gate_max_outstanding c)
    (size (gate_reservations g) + size (gate_tickets g))) as [|Hroom]; [done|].
  prop_hyps. destruct Hg as [He Ho Hl Hk]. split; try done.
  - intros a Ha [(k & r & Hr & <-)|Hu]; [|by eapply He; [exact Ha|right]].
    cbn in Hr. apply lookup_insert_Some in Hr as [[_ <-]|[_ Hr]]; [done|].
    eapply He; [exact Ha|]. left. eauto.
  - refine (Nat.le_trans _ _ _ (proj1 (Nat.add_le_mono_r _ _ _) (map_size_insert_le token _ _)) Hroom).
Qed.

Lemma commit_ok c b r token actor agent terminal ws up e now g :
  gateway_ok c g -> gateway_ok c (commit b r token actor agent terminal ws up e now g).2.
Proof.
  intros Hg. unfold commit. eapply shrinks_ok in Hg; [|apply (prune_expired_shrinks now)].
  revert Hg. generalize (prune_expired now g). clear g. intros g Hg.
  destruct (gate_reservations _ !! _) as [stored|] eqn:Es; [|done].
  case_match; [done|]. case_match eqn:Hb; [done|]. prop_hyps. destruct Hg as [He Ho Hl Hk]. split; try done.
  - intros a Ha [(k & x & Hr & <-)|[(k & t & Ht & <-)|Hu]].
    + cbn in Hr. apply lookup_delete_Some in Hr as [_ Hr]. eapply He; [exact Ha|]. left. eauto.
    + cbn in Ht. apply lookup_insert_Some in Ht as [[_ <-]|[_ Ht]]; [done|].
      eapply He; [exact Ha|]. right. left. eauto.
    + eapply He; [exact Ha|]. right. by right.
  - pose proof (map_size_delete (reservation_id r) (gate_reservations g)) as Hd. rewrite Es in Hd.
    assert (size (gate_reservations g) <> 0) by (intros Hz%map_size_empty_inv; by rewrite Hz in Es).
    refine (Nat.le_trans _ _ _ (proj1 (Nat.add_le_mono_l _ _ _) (map_size_insert_le token _ _)) _).
    assert (forall a b n m : nat, a = Nat.pred n -> n <> 0 -> n + b <= m -> a + S b <= m) as Har by lia.
    exact (Har _ _ _ _ Hd H2 Ho).
  - intros k t Ht. cbn in Ht. apply lookup_insert_Some in Ht as [[<- <-]|[_ Ht]]; [done|by apply Hk].
Qed.

Lemma consume_ok c ticket agent terminal ws actor now g :
  gateway_ok c g -> gateway_ok c (consume_for_websocket ticket agent terminal ws actor now g).2.
Proof.
  intros Hg. unfold consume_for_websocket. destruct (gate_tickets g !! ticket) as [t|] eqn:Et; [|done].
  case_match.
  { eapply shrinks_ok; [|exact Hg]. etrans; [apply keep_tickets_shrinks, delete_subseteq|apply release_slot_shrinks]. }
  do 2 (match goal with |- gateway_ok _ (if ?b then _ else _).2 => destruct b end; [done|]).
  destruct Hg as [He Ho Hl Hk]. split; try done.
  - intros a Ha [Hu|[(k & x & Hx & <-)|(k & x & Hx & <-)]]; cbn in *.
    + eapply He; [exact Ha|by left].
    + apply lookup_delete_Some in Hx as [_ Hx]. eapply He; [exact Ha|]. right. left. eauto.
    + apply lookup_insert_Some in Hx as [[_ <-]|[_ Hx]]; (eapply He; [exact Ha|]); right;
      [left; by eauto|right; by eauto].
  - pose proof (map_size_delete ticket (gate_tickets g)) as Hd. rewrite Et in Hd.
    assert (forall a b n m : nat, b = Nat.pred n -> a + n <= m -> a + b <= m) as Har by lia.
    exact (Har _ _ _ _ Hd Ho).
  - intros k x Hx. cbn in Hx. apply lookup_delete_Some in Hx as [_ Hx]. by apply Hk.
Qed.

Lemma begin_removal_ok c agent now g : gateway_ok c g -> gateway_ok c (begin_removal agent now g).2.
Proof.
  intros Hg. unfold begin_removal. eapply shrinks_ok in Hg; [|apply (prune_expired_shrinks now)].
  revert Hg. generalize (prune_expired now g). clear g. intros g Hg.
  destruct (_ || _) eqn:Hb; [done|]. apply orb_false_iff in Hb as [_ Hu]. destruct Hg as [He Ho Hl Hk].
  split; try done. intros a Ha Hused. cbn in Ha. apply elem_of_union in Ha as [->%elem_of_singleton|Ha].
  - assert (has_usage_unlocked agent g = true); [|congruence].
    by apply has_usage_unlocked_true.
  - by apply (He a).
Qed.

Lemma limiter_reserve_slots c token l :
  size (limiter_slots l) <= gate_max_active c ->
  size (limiter_slots (limiter_reserve c token l).2) <= gate_max_active c.
Proof.
  intros Hl. unfold limiter_reserve. destruct (Nat.leb_spec (gate_max_active c) (size (limiter_slots l))); [done|].
  cbn. rewrite size_union_alt, size_singleton.
  assert (size (limiter_slots l ∖ {[token]}) <= size (limiter_slots l)) by (apply subseteq_size; set_solver). lia.
Qed.

Lemma gateway_run_ok c op g : gateway_ok c g -> gateway_ok c (gateway_run c op g).
Proof.
  intros Hg. destruct op; cbn [gateway_run].
  - destruct Hg as [He Ho Hl Hk]. split; try done. cbn. unfold try_acquire.
    pose proof (limiter_reserve_slots c token _ Hl) as Hs. by destruct (limiter_reserve _ _ _) as [[]].
  - destruct Hg as [He Ho Hl Hk]. split; try done. by apply limiter_reserve_slots.
  - eapply shrinks_ok; [|exact Hg]. split; try done. apply limiter_release_slots.
  - by apply reserve_ok.
  - eapply shrinks_ok; [apply release_reservation_shrinks|done].
  - by apply commit_ok.
  - by apply consume_ok.
  - eapply shrinks_ok; [apply release_active_shrinks|done].
  - by apply begin_removal_ok.
  - eapply shrinks_ok; [|exact Hg]. split; try done. cbn. set_solver.
  - eapply shrinks_ok; [apply prune_expired_shrinks|done].
Qed.

Lemma empty_gateway_ok c : gateway_ok c empty_gateway.
Proof. split; [set_solver|cbn; rewrite !map_size_empty; lia|cbn; rewrite size_empty; lia|done]. Qed.

(** C18: In every history of gateway calls, with any clocks, tokens and durable
    blocker: while an Agent is being removed nobody holds a reservation, a
    ticket or a connection for it; reservations and tickets together, and the
    proxy slots, stay within their limits. *)
Theorem gateway_exclusive (c : GatewayConfig) (ops : list GatewayCall) :
  let g := gateway_history c ops in
  (forall agent, agent ∈ gate_removing g -> has_usage_unlocked agent g = false) /\
  size (gate_reservations g) + size (gate_tickets g) <= gate_max_outstanding c /\
  size (limiter_slots (gate_limiter g)) <= gate_max_active c.
Proof.
  cbv zeta. assert (gateway_ok c (gateway_history c ops)) as [He Ho Hl _].
  { unfold gateway_history. pose proof (empty_gateway_ok c) as H. revert H. generalize empty_gateway.
    induction ops as [|op ops IH]; intros g Hg; [done|]. by apply IH, gateway_run_ok. }
  split_and!; [|done|done]. intros agent Ha. apply not_true_is_false. rewrite has_usage_unlocked_true.
  by apply He.
Qed.

(** A ticket opens a connection exactly when it is known, not expired, and
    asked for by its actor on the Agent, terminal and path it was issued for;
    the connection holds the Agent from then on, and the ticket never opens a
    second one. *)
Theorem gateway_ticket_exact (c : GatewayConfig) (g : Gateway)
    (ticket actor agent terminal ws_path : string) (now : time) :
  gateway_ok c g ->
  let r := consume ticket actor agent terminal ws_path now g in
  (forall record, r.1 = Some record <->
     gate_tickets g !! ticket = Some record /\ (now < ticket_expires_at record)%Z /\
     ticket_actor_id record = actor /\ ticket_agent_id record = agent /\
     ticket_terminal_id record = terminal /\ ticket_intended_ws_path record = ws_path) /\
  (is_Some r.1 -> has_usage_unlocked agent r.2 = true /\
     forall actor' agent' terminal' ws_path' now',
       (consume ticket actor' agent' terminal' ws_path' now' r.2).1 = None).
Proof.
  intros Hg. cbv zeta.
  assert (Hexact : forall record, (consume ticket actor agent terminal ws_path now g).1 = Some record <->
     gate_tickets g !! ticket = Some record /\ (now < ticket_expires_at record)%Z /\
     ticket_actor_id record = actor /\ ticket_agent_id record = agent /\
     ticket_terminal_id record = terminal /\ ticket_intended_ws_path record = ws_path).
  { intros record. unfold consume, consume_for_websocket.
    destruct (gate_tickets g !! ticket) as [t|] eqn:Et; [|naive_solver].
    destruct (Z.leb_spec (ticket_expires_at t) now); [naive_solver lia|].
    repeat case_bool_decide; cbn; naive_solver. }
  split; [exact Hexact|]. intros [record Hr]. pose proof (proj1 (Hexact record) Hr) as (Et & Hx & Ha & Hag & Hte & Hws).
  assert (E : (consume ticket actor agent terminal ws_path now g).2 =
    g <| gate_tickets := delete ticket (gate_tickets g) |>
      <| gate_active := <[ticket_ticket record := record]> (gate_active g) |>).
  { unfold consume, consume_for_websocket. rewrite Et, (proj2 (Z.leb_gt _ _) Hx).
    by rewrite !bool_decide_true by done. }
  rewrite E. split.
  - apply has_usage_unlocked_true. right. right. exists (ticket_ticket record), record.
    split; [apply lookup_insert_eq|done].
  - intros. unfold consume, consume_for_websocket. cbn [gate_tickets].
    change (gate_tickets _) with (delete ticket (gate_tickets g)) at 1. by rewrite lookup_delete_eq.
Qed.

Definition sample_gateway_config : GatewayConfig := mkGatewayConfig 8 30%Z 4.

Definition no_binding : Binding := mkBinding None None None None None None.

Definition sample_gateway : Gateway :=
  gateway_history sample_gateway_config
    [GLimiterReserve "slot-1";
     GReserve None "res-1" "agent-1" no_binding (Some "slot-1") 0%Z 0%Z;
     GCommit None (mkReservation "res-1" "agent-1" 0%Z no_binding None) "tick-1" "root" "agent-1" "term-1"
       "/ws" "up" 500%Z 1%Z].

Lemma gateway_ticket_exact_witness :
  is_Some (consume "tick-1" "root" "agent-1" "term-1" "/ws" 10%Z sample_gateway).1 /\
  has_usage_unlocked "agent-1" (consume "tick-1" "root" "agent-1" "term-1" "/ws" 10%Z sample_gateway).2 = true.
Proof.
  assert (Hok : gateway_ok sample_gateway_config sample_gateway).
  { unfold sample_gateway, gateway_history. cbn [foldl]. repeat apply gateway_run_ok. apply empty_gateway_ok. }
  assert (Hs : is_Some (consume "tick-1" "root" "agent-1" "term-1" "/ws" 10%Z sample_gateway).1)
    by (vm_compute; by eexists).
  split; [exact Hs|].
  destruct (gateway_ticket_exact sample_gateway_config sample_gateway "tick-1" "root" "agent-1" "term-1" "/ws" 10%Z Hok)
    as [_ H]. apply (H Hs).
Defined.
