(* ===== verification/TargetPolicy.v ===== *)
(** * Which addresses the Manager talks to

    [src/backend/ic_env_guard/fleet/target_policy.py],
    [fleet/transport.py] and [fleet/registered_target.py]: the parsing of an
    Agent URL, its resolution, and the policy that every resolved address has
    to pass before a connection is pinned to one of them.  The resolver is an
    argument; [None] is [OSError]. *)

From stdpp Require Import base tactics list gmap strings pretty.
From Stdlib Require Import ZArith Lia Ascii.
From S2P Require Import Prelude Text Models Schema JobValidation ManagerRegistry.

(** ** Addresses, as in Python's [ipaddress] *)
Inductive IPAddress :=
| V4 (octets : list Z)
| V6 (hextets : list Z) (scope : option string).

#[global] Instance IPAddress_eq : EqDecision IPAddress.
Proof. solve_decision. Defined.

(** [ip_address(s)]; [None] is [ValueError]. *)
Definition ip_address (s : string) : option IPAddress :=
  match parse_ipv4 s with
  | Some octets => Some (V4 octets)
  | None =>
      if has_char "/" s then None
      else match split_scope s with
           | None => None
           | Some (a, scope) => (fun hs => V6 hs scope) <$> parse_hextets a
           end
  end.

(** [str(address)] *)
Definition ip_text (a : IPAddress) : string :=
  match a with
  | V4 octets => join "." (pretty <$> octets)
  | V6 hextets None => ipv6_text hextets
  | V6 hextets (Some zone) => ipv6_text hextets +:+ "%" +:+ zone
  end.

Definition digits_value (base : Z) (ds : list Z) : Z := foldl (fun acc d => base * acc + d)%Z 0%Z ds.

Definition ip_value (a : IPAddress) : Z :=
  match a with V4 octets => digits_value 256 octets | V6 hextets _ => digits_value 65536 hextets end.

Definition is_v6 (a : IPAddress) : bool := match a with V4 _ => false | V6 _ _ => true end.

(** [IPv4Network] and [IPv6Network], by the network address and the number of
    host bits. *)
#[local] Set Primitive Projections.
Record IPNetwork := mkNetwork {
  network_v6 : bool;
  network_address : Z;
  network_host_bits : Z
}.
#[local] Unset Primitive Projections.

(** [address in network], for two values of one version: the zone of an
    address plays no part. *)
Definition in_network (a : IPAddress) (n : IPNetwork) : bool :=
  (Z.shiftl (Z.shiftr (ip_value a) (network_host_bits n)) (network_host_bits n) =? network_address n)%Z.

Definition v4_network (a b c d prefix : Z) : IPNetwork :=
  mkNetwork false (digits_value 256 [a; b; c; d]) (32 - prefix).

(** A network given by its first hextet. *)
Definition v6_network (top prefix : Z) : IPNetwork :=
  mkNetwork true (Z.shiftl top 112) (128 - prefix).

(** The IPv4 address in [::ffff:0:0/96]. *)
Definition ipv4_mapped (a : IPAddress) : option IPAddress :=
  match a with
  | V6 [0; 0; 0; 0; 0; 65535; x; y]%Z _ => Some (V4 [x / 256; x mod 256; y / 256; y mod 256]%Z)
  | _ => None
  end.

(** Since Python 3.13 (and its backports) the properties of a mapped address
    are those of the IPv4 address in it. *)
Class PythonIp := { judges_mapped : bool }.

Section Properties.
Context `{PythonIp}.

Definition judged (a : IPAddress) : IPAddress :=
  if judges_mapped then default a (ipv4_mapped a) else a.

Definition is_loopback (a : IPAddress) : bool :=
  match judged a with
  | V4 _ as a => in_network a (v4_network 127 0 0 0 8)
  | a => (ip_value a =? 1)%Z
  end.

Definition is_link_local (a : IPAddress) : bool :=
  match judged a with
  | V4 _ as a => in_network a (v4_network 169 254 0 0 16)
  | a => in_network a (v6_network 65152 10)
  end.

Definition is_multicast (a : IPAddress) : bool :=
  match judged a with
  | V4 _ as a => in_network a (v4_network 224 0 0 0 4)
  | a => in_network a (v6_network 65280 8)
  end.

Definition is_unspecified (a : IPAddress) : bool := (ip_value (judged a) =? 0)%Z.

(** [_IPv6Constants._reserved_networks] *)
Definition reserved_v6 : list IPNetwork :=
  [v6_network 0 8; v6_network 256 8; v6_network 512 7; v6_network 1024 6; v6_network 2048 5;
   v6_network 4096 4; v6_network 16384 3; v6_network 24576 3; v6_network 32768 3; v6_network 40960 3;
   v6_network 49152 3; v6_network 57344 4; v6_network 61440 5; v6_network 63488 6; v6_network 65024 9].

Definition is_reserved (a : IPAddress) : bool :=
  match judged a with
  | V4 _ as a => in_network a (v4_network 240 0 0 0 4)
  | a => existsb (in_network a) reserved_v6
  end.

(** ** The policy *)
Definition METADATA_ADDRESSES : list IPAddress :=
  [V4 [169; 254; 169; 254]%Z; V6 [64768; 3778; 0; 0; 0; 0; 0; 596]%Z None].

Definition LOCAL_BOOTSTRAP_ADDRESS : IPAddress := V4 [127; 0; 0; 1]%Z.

Definition is_forbidden (a : IPAddress) : bool :=
  bool_decide (a ∈ METADATA_ADDRESSES) || is_loopback a || is_link_local a || is_multicast a ||
  is_unspecified a || is_reserved a.

Definition in_any (a : IPAddress) (networks : list IPNetwork) : bool :=
  existsb (fun n => Bool.eqb (is_v6 a) (network_v6 n) && in_network a n) networks.

Inductive TransportProfile :=
| VerifiedTlsProfile (profile_id : string) (ca_bundle : option string)
| TrustedLanHttpProfile (profile_id : string) (allowed_cidrs : list IPNetwork).

Definition profile_id (p : TransportProfile) : string :=
  match p with VerifiedTlsProfile id _ | TrustedLanHttpProfile id _ => id end.

Definition is_trusted_lan (p : TransportProfile) : bool :=
  match p with TrustedLanHttpProfile _ _ => true | VerifiedTlsProfile _ _ => false end.

#[local] Set Primitive Projections.
Record AgentTargetPolicy := mkPolicy {
  policy_allowed : list IPNetwork;
  policy_self_targets : list (IPAddress * Z)
}.

Record SafetyValidatedTarget := mkSafetyTarget {
  st_normalized_endpoint : string;
  st_scheme : string;
  st_hostname : string;
  st_port : Z;
  st_resolved_addresses : list IPAddress;
  st_pinned_address : IPAddress;
  st_host_header : string;
  st_sni_hostname : option string
}.

Record ValidatedTarget := mkValidatedTarget {
  vt_normalized_endpoint : string;
  vt_scheme : string;
  vt_hostname : string;
  vt_port : Z;
  vt_resolved_addresses : list IPAddress;
  vt_pinned_address : IPAddress;
  vt_host_header : string;
  vt_sni_hostname : option string;
  vt_warning_code : option string;
  vt_profile : TransportProfile
}.
#[local] Unset Primitive Projections.

(** [TargetPolicyError], by its code. *)
Definition Checked (A : Type) : Type := string + A.

Definition p_bind {A B} (m : Checked A) (k : A -> Checked B) : Checked B :=
  match m with inl e => inl e | inr a => k a end.

Notation "'let^' x ':=' m 'in' k" := (p_bind m (fun x => k))
  (at level 10, x pattern, m at level 100, k at level 200) : guard_scope.
Notation "m ';;^' k" := (p_bind m (fun _ => k)) (at level 199, right associativity) : guard_scope.

Definition p_require (b : bool) (code : string) : Checked unit := if b then inr tt else inl code.

Definition new_policy (allowed : list IPNetwork) (self_targets : list (IPAddress * Z)) : Checked AgentTargetPolicy :=
  p_require (negb (bool_decide (self_targets = []) ||
                   existsb (fun t => (t.2 <? 1)%Z || (65535 <? t.2)%Z) self_targets))
    "target_policy_invalid" ;;^
  inr (mkPolicy allowed self_targets).

Context `{UrlLib}.

Definition url_host (hostname : string) : string :=
  if has_char ":" hostname then "[" +:+ hostname +:+ "]" else hostname.

Definition control_char (c : ascii) : bool := (Ascii.nat_of_ascii c <? 32).

Definition parse_endpoint (endpoint : string) : Checked (string * string * Z) :=
  match urlsplit endpoint with
  | None => inl "target_url_invalid"
  | Some parsed =>
      let hostname := default "" (split_hostname parsed) in
      if bool_decide (split_scheme parsed ∉ ["http"; "https"]) || bool_decide (hostname = "") ||
         is_some (split_username parsed) || is_some (split_password parsed) ||
         nonempty (split_path parsed) || nonempty (split_query parsed) || nonempty (split_fragment parsed) ||
         has_char "?" endpoint || has_char "#" endpoint || has_char "\" endpoint ||
         negb (all_chars (fun c => negb (control_char c)) endpoint) ||
         bool_decide (split_port parsed = Some 0%Z)
      then inl "target_url_invalid"
      else match idna hostname with
           | None => inl "target_url_invalid"
           | Some encoded =>
               inr (split_scheme parsed, lower encoded,
                    default (if bool_decide (split_scheme parsed = "https") then 443 else 80)%Z (split_port parsed))
           end
  end.

Definition validate_profile_scheme (scheme : string) (profile : TransportProfile) : Checked unit :=
  p_require (match profile with
             | VerifiedTlsProfile _ _ => bool_decide (scheme = "https")
             | TrustedLanHttpProfile _ _ => bool_decide (scheme = "http")
             end) "transport_profile_mismatch".

(** [dict.fromkeys]: the first of equal values stays. *)
Fixpoint distinct (l : list IPAddress) : list IPAddress :=
  match l with
  | [] => []
  | a :: l => a :: filter (fun b => b <> a) (distinct l)
  end.

Definition Resolver : Type := string -> Z -> option (list string).

Definition resolve_once (resolver : Resolver) (hostname : string) (port : Z) : Checked (list IPAddress) :=
  match ip_address hostname with
  | Some literal => inr [literal]
  | None =>
      match resolver hostname port ≫= mapM ip_address with
      | None => inl "agent_network_error"
      | Some raw => match distinct raw with [] => inl "agent_network_error" | addresses => inr addresses end
      end
  end.

Definition endpoint_text (scheme hostname : string) (port : Z) : string :=
  scheme +:+ "://" +:+ url_host hostname +:+ ":" +:+ pretty port.

Definition host_header (scheme hostname : string) (port : Z) : string :=
  if (port =? (if bool_decide (scheme = "https") then 443 else 80))%Z then url_host hostname
  else url_host hostname +:+ ":" +:+ pretty port.

Definition sni (scheme hostname : string) : option string :=
  if bool_decide (scheme = "https") then Some hostname else None.

Definition warning (profile : TransportProfile) : option string :=
  if is_trusted_lan profile then Some "trusted_lan_http_unencrypted" else None.

Section Policy.
Context (self : AgentTargetPolicy) (resolver : Resolver).

Definition is_self_target (a : IPAddress) (port : Z) : bool := bool_decide ((a, port) ∈ policy_self_targets self).

Definition validate_safety_of (endpoint : string) (allow_loopback_http : bool) : Checked SafetyValidatedTarget :=
  let^ (scheme, hostname, port) := parse_endpoint endpoint in
  p_require (negb (allow_loopback_http && negb (bool_decide (scheme = "http")))) "transport_profile_mismatch" ;;^
  let^ addresses := resolve_once resolver hostname port in
  p_require (negb (allow_loopback_http && existsb (fun a => negb (is_loopback a)) addresses))
    "target_address_forbidden" ;;^
  p_require (negb (existsb (fun a => is_forbidden a && negb (allow_loopback_http && is_loopback a)) addresses))
    "target_address_forbidden" ;;^
  p_require (negb (existsb (fun a => is_self_target a port) addresses)) "target_is_manager" ;;^
  match addresses with
  | [] => inl "agent_network_error"
  | pinned :: _ =>
      inr (mkSafetyTarget (endpoint_text scheme hostname port) scheme hostname port addresses pinned
             (host_header scheme hostname port) (sni scheme hostname))
  end.

Definition validate_safety (endpoint : string) : Checked SafetyValidatedTarget := validate_safety_of endpoint false.

Definition validate_legacy_import_http_safety (endpoint : string) : Checked SafetyValidatedTarget :=
  validate_safety_of endpoint true.

Definition profile_allowlist (profile : TransportProfile) : list IPNetwork :=
  match profile with TrustedLanHttpProfile _ cidrs => cidrs | VerifiedTlsProfile _ _ => policy_allowed self end.

Definition is_allowed (a : IPAddress) (profile : TransportProfile) : bool :=
  in_any a (policy_allowed self) && in_any a (profile_allowlist profile).

Definition resolve_validated (safety : SafetyValidatedTarget) (profile : TransportProfile) : Checked ValidatedTarget :=
  validate_profile_scheme (st_scheme safety) profile ;;^
  p_require (forallb (fun a => is_allowed a profile) (st_resolved_addresses safety)) "target_address_not_allowed" ;;^
  inr (mkValidatedTarget (st_normalized_endpoint safety) (st_scheme safety) (st_hostname safety) (st_port safety)
         (st_resolved_addresses safety) (st_pinned_address safety) (st_host_header safety) (st_sni_hostname safety)
         (warning profile) profile).

Definition resolve (endpoint : string) (profile : TransportProfile) : Checked ValidatedTarget :=
  let^ safety := validate_safety endpoint in resolve_validated safety profile.

Definition revalidate_local_socket_target (endpoint : string) (profile : TransportProfile) (stored_ip : string)
    : Checked ValidatedTarget :=
  let^ (scheme, hostname, port) := parse_endpoint endpoint in
  p_require (bool_decide (scheme = "http") && is_trusted_lan profile) "transport_profile_mismatch" ;;^
  match ip_address hostname with
  | None => inl "target_url_invalid"
  | Some endpoint_address =>
      p_require (bool_decide (ip_text endpoint_address = hostname)) "target_url_invalid" ;;^
      match ip_address stored_ip with
      | None => inl "target_address_forbidden"
      | Some address =>
          p_require (bool_decide (ip_text address = stored_ip) && bool_decide (address = LOCAL_BOOTSTRAP_ADDRESS) &&
                     bool_decide (address = endpoint_address)) "target_address_forbidden" ;;^
          p_require (negb (is_self_target address port)) "target_is_manager" ;;^
          p_require (is_allowed address profile) "target_address_not_allowed" ;;^
          inr (mkValidatedTarget (endpoint_text scheme hostname port) scheme hostname port [address] address
                 (host_header scheme hostname port) None (Some "trusted_lan_http_unencrypted") profile)
      end
  end.

Definition resolve_local_socket (endpoint : string) (profile : TransportProfile) : Checked ValidatedTarget :=
  let^ (scheme, hostname, port) := parse_endpoint endpoint in
  match ip_address hostname with
  | None => inl "target_url_invalid"
  | Some address => revalidate_local_socket_target endpoint profile (ip_text address)
  end.

Definition revalidate_pinned_target (endpoint : string) (profile : TransportProfile) (stored_ip : string)
    : Checked ValidatedTarget :=
  let^ (scheme, hostname, port) := parse_endpoint endpoint in
  validate_profile_scheme scheme profile ;;^
  match ip_address stored_ip with
  | None => inl "target_address_forbidden"
  | Some address =>
      p_require (bool_decide (ip_text address = stored_ip) && negb (is_forbidden address)) "target_address_forbidden" ;;^
      p_require (negb (is_self_target address port)) "target_is_manager" ;;^
      p_require (is_allowed address profile) "target_address_not_allowed" ;;^
      inr (mkValidatedTarget (endpoint_text scheme hostname port) scheme hostname port [address] address
             (host_header scheme hostname port) (sni scheme hostname) (warning profile) profile)
  end.

Definition LOCAL_BOOTSTRAP_PROFILE_ID : string := "local-loopback-http".

(** The target of a registered Agent. *)
Definition resolve_registered_target (record : AgentRecord) (profile : TransportProfile)
    (local_bootstrap_enabled : bool) : Checked ValidatedTarget :=
  if negb (bool_decide (agent_enrollment_method record = LOCAL_SOCKET))
  then resolve (agent_normalized_endpoint record) profile
  else if negb local_bootstrap_enabled || negb (bool_decide (agent_source record = LOCAL_BOOTSTRAP_SOURCE)) ||
          negb (bool_decide (agent_transport_profile_id record = LOCAL_BOOTSTRAP_PROFILE_ID)) ||
          negb (bool_decide (profile_id profile = LOCAL_BOOTSTRAP_PROFILE_ID))
  then inl "target_address_forbidden"
  else resolve_local_socket (agent_normalized_endpoint record) profile.
End Policy.

Definition pinned_url (t : ValidatedTarget) : string :=
  vt_scheme t +:+ "://" +:+ url_host (ip_text (vt_pinned_address t)) +:+ ":" +:+ pretty (vt_port t).
End Properties.

Notation "'let^' x ':=' m 'in' k" := (p_bind m (fun x => k))
  (at level 10, x pattern, m at level 100, k at level 200) : guard_scope.
Notation "m ';;^' k" := (p_bind m (fun _ => k)) (at level 199, right associativity) : guard_scope.
