(* ===== verification/AgentClient.v ===== *)
(** * The client of remote Agents

    [EnrollmentAgentClient] of
    [src/backend/ic_env_guard/enrollment/agent_client.py]: the preparation of
    targets under the policy, the requests of an enrollment and the checks of
    their answers.  The HTTP client is an argument: what it returns or raises
    for a request. *)

From stdpp Require Import base tactics list gmap strings pretty.
From Stdlib Require Import ZArith Lia Ascii.
From S2P Require Import Prelude Text Models Schema JobValidation ManagerRegistry TargetPolicy.

#[local] Set Primitive Projections.
Record EnrollmentValidation := mkValidation {
  validation_normalized_endpoint : string;
  validation_api_version : string;
  validation_agent_version : string;
  validation_capabilities : list string;
  validation_instance_id : option string;
  validation_summary : option json;
  validation_readiness_warning : option string;
  validation_name : option string
}.

Record AgentClient := mkAgentClient {
  client_policy : AgentTargetPolicy;
  client_profiles : gmap string TransportProfile
}.
#[local] Unset Primitive Projections.

(** [EnrollmentValidationError]: a code and the dispatch state. *)
Definition Refusal : Type := string * string.

(** ** Targets *)
Inductive Preparation :=
| Prepare (endpoint profile : string)
| PreparePinned (endpoint profile stored_ip : string)
| PrepareLocal (endpoint profile : string)
| PrepareLocalPinned (endpoint profile stored_ip : string)
| PrepareCli (endpoint profile ssh_host : string) (ssh_port : Z) (pinned_address : string).

Section Targets.
Context `{PythonIp} `{UrlLib} (self : AgentClient).

(** Every policy error is one before anything was dispatched. *)
Definition with_profile (id : string) (f : TransportProfile -> Checked ValidatedTarget) : Refusal + ValidatedTarget :=
  match client_profiles self !! id with
  | None => inl ("transport_profile_invalid", "not_dispatched")
  | Some profile => match f profile with inl code => inl (code, "not_dispatched") | inr t => inr t end
  end.

(** [resolver 0] resolves the endpoint, [resolver 1] the SSH host. *)
Definition cli_target (resolver : nat -> Resolver) (endpoint ssh_host : string) (ssh_port : Z) (pinned_address : string)
    (profile : TransportProfile) : Checked ValidatedTarget :=
  let^ http_target := resolve (client_policy self) (resolver 0) endpoint profile in
  let scheme := if is_trusted_lan profile then "http" else "https" in
  let^ ssh_target := resolve (client_policy self) (resolver 1)
                       (scheme +:+ "://" +:+ url_host ssh_host +:+ ":" +:+ pretty ssh_port) profile in
  match ip_address pinned_address with
  | None => inl "target_address_forbidden"
  | Some pinned =>
      p_require (bool_decide (ip_text pinned = pinned_address) &&
                 bool_decide (pinned ∈ vt_resolved_addresses http_target) &&
                 bool_decide (pinned ∈ vt_resolved_addresses ssh_target)) "agent_identity_mismatch" ;;^
      inr (http_target <| vt_pinned_address := pinned |>)
  end.

Definition prepare_target (resolver : nat -> Resolver) (p : Preparation) : Refusal + ValidatedTarget :=
  match p with
  | Prepare endpoint id => with_profile id (resolve (client_policy self) (resolver 0) endpoint)
  | PreparePinned endpoint id stored =>
      with_profile id (fun profile => revalidate_pinned_target (client_policy self) endpoint profile stored)
  | PrepareLocal endpoint id => with_profile id (resolve_local_socket (client_policy self) endpoint)
  | PrepareLocalPinned endpoint id stored =>
      with_profile id (fun profile => revalidate_local_socket_target (client_policy self) endpoint profile stored)
  | PrepareCli endpoint id ssh_host ssh_port pinned =>
      with_profile id (cli_target resolver endpoint ssh_host ssh_port pinned)
  end.
End Targets.

(** ** Requests *)
Inductive Request :=
| ValidateLegacy (target : ValidatedTarget) (token : string)
| ValidatePending (target : ValidatedTarget) (token : string) (helper_instance_id : option string)
| Activate (target : ValidatedTarget) (token enrollment_id : string) (credential_id : option string)
| Revoke (target : ValidatedTarget) (token : string) (credential_id : option string).

Inductive Outcome (A : Type) :=
| Value (a : A)
| Refused (code dispatch_state : string)
| Broken
| Cancelled.
Arguments Value {A} a.
Arguments Refused {A} code dispatch_state.
Arguments Broken {A}.
Arguments Cancelled {A}.

(** What [AgentHttpClient.request] returns or raises: a response, whose body
    may not be JSON; [AgentClientError]; another exception. *)
Inductive HttpResult :=
| Response (status : Z) (body : option json)
| ClientError (category dispatch_state : string)
| HttpBroken
| HttpCancelled.

Definition Http : Type := ValidatedTarget -> string -> string -> string -> option json -> HttpResult.

(** [iso_utc s] is the UTC text of
    [datetime.fromisoformat(s.replace("Z", "+00:00"))]; [None] when it raises
    or the result has no offset. *)
Class IsoTime := { iso_utc : string -> option string }.

(** ** Answers *)
Definition json_get (key : string) (d : list (string * json)) : option json :=
  (fun x => x.2.2) <$> list_find (fun kv => kv.1 = key) d.

Definition has_keys (expected : list string) (d : list (string * json)) : bool :=
  forallb (fun k => bool_decide (k ∈ d.*1)) expected && forallb (fun k => bool_decide (k ∈ expected)) d.*1.

Definition is_alnum (c : ascii) : bool := is_lower c || is_upper c || is_digit c.

(** [[a-z0-9]+] separated by one of [._-], the first character a letter. *)
Definition split_words (s : string) : list string :=
  foldr (fun sep words => words ≫= split_on sep) [s] ["."%char; "_"%char; "-"%char].

Definition is_capability (s : string) : bool :=
  match s with String c _ => is_lower c | EmptyString => false end &&
  forallb (fun w => nonempty w && all_chars (fun c => is_lower c || is_digit c) w) (split_words s).

Definition is_version (s : string) : bool :=
  match s with
  | EmptyString => false
  | String c rest =>
      is_alnum c && (String.length rest <=? 63) &&
      all_chars (fun c => is_alnum c || is_char "." c || is_char "_" c || is_char "+" c || is_char "-" c) rest
  end.

Inductive parse_error := UnsupportedVersion | ProtocolError.

#[local] Set Primitive Projections.
Record Capabilities := mkCapabilities {
  cap_agent_version : string;
  cap_capabilities : list string;
  cap_instance_id : option string;
  cap_name : option string
}.
#[local] Unset Primitive Projections.

Definition as_string (v : option json) : option string := match v with Some (JString s) => Some s | _ => None end.

Definition as_capability (v : json) : option string :=
  match v with JString s => if is_capability s then Some s else None | _ => None end.

Definition parse_capabilities (value : option json) (expected_api : string) (instance : bool)
    : parse_error + Capabilities :=
  match value with
  | Some (JDict d) =>
      if negb (has_keys (["api_version"; "agent_version"; "capabilities"] ++
                         (if instance then ["instance_id"; "name"] else [])) d) ||
         negb (bool_decide (as_string (json_get "api_version" d) = Some expected_api))
      then inl ProtocolError
      else
        match json_get "capabilities" d with
        | Some (JList items) =>
            if (256 <? length items) then inl ProtocolError
            else match mapM as_capability items with
                 | None => inl ProtocolError
                 | Some capabilities =>
                     match as_string (json_get "agent_version" d) with
                     | None => inl UnsupportedVersion
                     | Some version =>
                         if negb (is_version version) then inl UnsupportedVersion
                         else if negb instance then inr (mkCapabilities version capabilities None None)
                         else match as_string (json_get "instance_id" d), as_string (json_get "name" d) with
                              | Some id, Some name =>
                                  if is_canonical_uuid id && (1 <=? characters name) && (characters name <=? 128)
                                  then inr (mkCapabilities version capabilities (Some id) (Some name))
                                  else inl ProtocolError
                              | _, _ => inl ProtocolError
                              end
                     end
                 end
        | _ => inl ProtocolError
        end
  | _ => inl ProtocolError
  end.

Definition summary_sections : list (string * list string) :=
  [("observations", ["total"; "warning"; "critical"; "stale"]); ("logs", ["total"; "stale"]);
   ("services", ["total"; "running"; "unhealthy"]); ("terminals", ["active"])].

Definition safe_count (d : list (string * json)) (field : string) : option (string * json) :=
  match json_get field d with
  | Some (JInt n) => if (0 <=? n)%Z && (n <=? 2 ^ 63 - 1)%Z then Some (field, JInt n) else None
  | _ => None
  end.

Definition parse_section (payload : list (string * json)) (section : string * list string) : option (string * json) :=
  match json_get section.1 payload with
  | Some (JDict raw) =>
      if negb (has_keys section.2 raw) then None
      else (fun counts => (section.1, JDict counts)) <$> mapM (safe_count raw) section.2
  | _ => None
  end.

Definition parse_summary `{IsoTime} (payload : option json) : option (list (string * json)) :=
  match payload with
  | Some (JDict d) =>
      if negb (has_keys ("observed_at" :: summary_sections.*1) d) then None
      else match as_string (json_get "observed_at" d) ≫= iso_utc with
           | None => None
           | Some observed => (fun sections => ("observed_at", JString observed) :: sections) <$>
                                mapM (parse_section d) summary_sections
           end
  | _ => None
  end.

Definition count_of (summary : list (string * json)) (section field : string) : Z :=
  match json_get section summary with
  | Some (JDict d) => match json_get field d with Some (JInt n) => n | _ => 0%Z end
  | _ => 0%Z
  end.

Definition summary_unhealthy (summary : list (string * json)) : bool :=
  negb (count_of summary "observations" "critical" =? 0)%Z || negb (count_of summary "observations" "stale" =? 0)%Z ||
  negb (count_of summary "logs" "stale" =? 0)%Z || negb (count_of summary "services" "unhealthy" =? 0)%Z.

Section Answers.
Context `{IsoTime} (http : Http).

(** The exception clauses the four requests share. *)
Definition on_response {A} (r : HttpResult) (k : Z -> option json -> Outcome A) : Outcome A :=
  match r with
  | Response status body => k status body
  | ClientError category dispatch => Refused category dispatch
  | HttpBroken => Broken
  | HttpCancelled => Cancelled
  end.

Definition refused_parse {A} (e : parse_error) : Outcome A :=
  match e with
  | UnsupportedVersion => Refused "agent_version_unsupported" "dispatched"
  | ProtocolError => Refused "agent_protocol_error" "dispatched"
  end.

Definition answer_legacy (target : ValidatedTarget) (token : string) : Outcome EnrollmentValidation :=
  on_response (http target token "GET" "/api/capabilities" None) (fun status body =>
    if negb (status =? 200)%Z then Refused "agent_protocol_error" "dispatched"
    else match parse_capabilities body "1" false with
         | inl e => refused_parse e
         | inr c => Value (mkValidation (vt_normalized_endpoint target) "1" (cap_agent_version c) (cap_capabilities c)
                             None None (Some "legacy_readiness_unavailable") None)
         end).

Definition PENDING_CAPABILITIES : list string := ["manager-enrollment.v1"; "summary.v2"].

(** The readiness: a summary and a warning, or the end of the validation. *)
Definition answer_summary (target : ValidatedTarget) (token : string) : Outcome (option json * option string) :=
  match http target token "GET" "/api/v2/summary" None with
  | ClientError category dispatch =>
      if bool_decide (category = "agent_auth_error") then Refused category dispatch
      else Value (None, Some "agent_readiness_unavailable")
  | HttpBroken => Broken
  | HttpCancelled => Cancelled
  | Response status body =>
      if negb (status =? 200)%Z then Value (None, Some "agent_readiness_unavailable")
      else match parse_summary body with
           | None => Value (None, Some "agent_readiness_unavailable")
           | Some summary =>
               Value (Some (JDict summary),
                      if summary_unhealthy summary then Some "agent_readiness_unhealthy" else None)
           end
  end.

Definition answer_pending (target : ValidatedTarget) (token : string) (helper_instance_id : option string)
    : Outcome EnrollmentValidation :=
  on_response (http target token "GET" "/api/v2/capabilities" None) (fun status body =>
    if negb (status =? 200)%Z then Refused "agent_protocol_error" "dispatched"
    else match parse_capabilities body "2" true with
         | inl e => refused_parse e
         | inr c =>
             if negb (from_option is_canonical_uuid false helper_instance_id)
             then Refused "agent_protocol_error" "not_dispatched"
             else if negb (forallb (fun k => bool_decide (k ∈ cap_capabilities c)) PENDING_CAPABILITIES)
             then Refused "missing_capabilities" "dispatched"
             else if negb (bool_decide (cap_instance_id c = helper_instance_id))
             then Refused "agent_identity_mismatch" "dispatched"
             else match answer_summary target token with
                  | Value (summary, warning) =>
                      Value (mkValidation (vt_normalized_endpoint target) "2" (cap_agent_version c)
                               (cap_capabilities c) (cap_instance_id c) summary warning (cap_name c))
                  | Refused code dispatch => Refused code dispatch
                  | Broken => Broken
                  | Cancelled => Cancelled
                  end
         end).

(** What an acknowledged request returns; nobody reads it. *)
Definition acknowledged (target : ValidatedTarget) : EnrollmentValidation :=
  mkValidation (vt_normalized_endpoint target) "" "" [] None None None None.

Definition credential_path (credential_id : option string) : string :=
  "/api/v2/manager-credentials/" +:+ default "None" credential_id.

Definition agent_answer (r : Request) : Outcome EnrollmentValidation :=
  match r with
  | ValidateLegacy target token => answer_legacy target token
  | ValidatePending target token instance => answer_pending target token instance
  | Activate target token enrollment_id credential_id =>
      on_response (http target token "POST" (credential_path credential_id +:+ "/activate")
                     (Some (JDict [("enrollment_id", JString enrollment_id)]))) (fun status _ =>
        if bool_decide (status ∈ [200; 204]%Z) then Value (acknowledged target)
        else Refused "agent_credential_activation_failed" "dispatched")
  | Revoke target token credential_id =>
      on_response (http target token "DELETE" (credential_path credential_id) None) (fun status _ =>
        if bool_decide (status ∈ [200; 204; 404]%Z) then Value (acknowledged target)
        else Refused "agent_credential_revoke_failed" "dispatched")
  end.
End Answers.
