(* ===== verification/TargetClaims.v ===== *)
(** * Theorems about targets

    The forbidden addresses in plain ranges, and the guarantee behind every
    connection: the Manager pins an address only when it and every other
    address of the host passed the policy. *)

From stdpp Require Import base tactics list gmap strings pretty.
From Stdlib Require Import ZArith Lia Ascii.
From S2P Require Import Prelude Text Models Schema JobValidation ManagerRegistry Samples TargetPolicy AgentClient.

(** ** Ranges *)
Definition digits_ok (base : Z) (n : nat) (ds : list Z) : Prop :=
  length ds = n /\ Forall (fun d => (0 <= d < base)%Z) ds.

Definition ip_ok (a : IPAddress) : Prop :=
  match a with V4 octets => digits_ok 256 4 octets | V6 hextets _ => digits_ok 65536 8 hextets end.

(** Unicast IPv4 without loopback, link-local, unspecified and class E. *)
Definition plain_v4 (octets : list Z) : bool :=
  match octets with
  | [a; b; c; d] =>
      (a <? 224)%Z && negb (a =? 127)%Z && negb ((a =? 169)%Z && (b =? 254)%Z) &&
      negb ((a =? 0)%Z && (b =? 0)%Z && (c =? 0)%Z && (d =? 0)%Z)
  | _ => false
  end.

(** Global unicast, unique local and site local IPv6. *)
Definition plain_v6 (top : Z) : bool :=
  ((8192 <=? top) && (top <? 16384) || (64512 <=? top) && (top <? 65024) || (65216 <=? top) && (top <? 65280))%Z.

Definition plain_address `{PythonIp} (a : IPAddress) : bool :=
  negb (bool_decide (a ∈ METADATA_ADDRESSES)) &&
  match judged a with
  | V4 octets => plain_v4 octets
  | V6 hextets _ => plain_v6 (default 0%Z (head hextets))
  end.

Lemma in_network_eq a n :
  (0 <= network_host_bits n)%Z ->
  in_network a n = (ip_value a / 2 ^ network_host_bits n * 2 ^ network_host_bits n =? network_address n)%Z.
Proof. intros Hn. unfold in_network. by rewrite Z.shiftl_mul_pow2, Z.shiftr_div_pow2. Qed.

Lemma four_octets octets : digits_ok 256 4 octets ->
  exists a b c d, octets = [a; b; c; d] /\ (0 <= a < 256 /\ 0 <= b < 256 /\ 0 <= c < 256 /\ 0 <= d < 256)%Z.
Proof.
  intros [Hl Hf]. destruct octets as [|a [|b [|c [|d []]]]]; try done.
  rewrite !Forall_cons in Hf. exists a, b, c, d. split; [done|]. tauto.
Qed.

Lemma eight_hextets hs : digits_ok 65536 8 hs ->
  exists top rest, hs = top :: rest /\ (0 <= top < 65536)%Z /\ digits_ok 65536 7 rest.
Proof.
  intros [Hl Hf]. destruct hs as [|top rest]; [done|]. apply Forall_cons in Hf as [Ht Hr].
  exists top, rest. split; [done|]. split; [done|]. split; [cbn in Hl; lia|done].
Qed.

Lemma digits_bound base n ds acc : (0 < base)%Z -> digits_ok base n ds ->
  foldl (fun acc d => base * acc + d)%Z acc ds = (acc * base ^ Z.of_nat n + digits_value base ds)%Z /\
  (0 <= digits_value base ds < base ^ Z.of_nat n)%Z.
Proof.
  intros Hb. revert n acc. induction ds as [|d ds IH]; intros n acc [Hl Hf].
  - cbn in *. subst n. cbn. lia.
  - destruct n as [|n]; [done|]. apply Forall_cons in Hf as [Hd Hf].
    assert (Hok : digits_ok base n ds) by (split; [cbn in Hl; lia|done]).
    unfold digits_value. cbn [foldl]. rewrite Z.mul_0_r, Z.add_0_l.
    destruct (IH n (base * acc + d)%Z Hok) as [-> Hv]. destruct (IH n d Hok) as [-> _].
    rewrite Nat2Z.inj_succ, Z.pow_succ_r by lia. split; [ring|].
    assert (0 < base ^ Z.of_nat n)%Z by (apply Z.pow_pos_nonneg; lia). nia.
Qed.

(** The first digit decides membership in a network at least that wide. *)
Lemma top_hextet top rest scope : digits_ok 65536 8 (top :: rest) ->
  (ip_value (V6 (top :: rest) scope) / 2 ^ 112 = top)%Z.
Proof.
  intros Hok. destruct (eight_hextets _ Hok) as (t & r & [= <- <-] & Ht & Hr). cbn [ip_value].
  unfold digits_value. cbn [foldl]. rewrite Z.mul_0_r, Z.add_0_l.
  destruct (digits_bound 65536 7 rest top ltac:(lia) Hr) as [-> Hv].
  replace (65536 ^ Z.of_nat 7)%Z with (2 ^ 112)%Z in * by reflexivity.
  rewrite Z.div_add_l by lia. rewrite Z.div_small by lia. lia.
Qed.

Lemma in_v6_network top rest scope net prefix : digits_ok 65536 8 (top :: rest) -> (0 <= prefix <= 16)%Z ->
  in_network (V6 (top :: rest) scope) (v6_network net prefix) =
  (top / 2 ^ (16 - prefix) * 2 ^ (16 - prefix) =? net)%Z.
Proof.
  intros Hok Hp. rewrite in_network_eq by (cbn; lia). cbn [v6_network network_host_bits network_address].
  rewrite Z.shiftl_mul_pow2 by lia.
  replace (128 - prefix)%Z with (112 + (16 - prefix))%Z by lia.
  rewrite Z.pow_add_r by lia. rewrite <- Z.div_div by lia. rewrite top_hextet by done.
  apply Bool.eq_iff_eq_true. rewrite !Z.eqb_eq. split; [|nia].
  intros E. assert (0 < 2 ^ 112)%Z by lia. nia.
Qed.

(** What one hextet decides, for all 65536 of them. *)
Definition top_forbidden (top : Z) : bool :=
  let within net prefix := (top / 2 ^ (16 - prefix) * 2 ^ (16 - prefix) =? net)%Z in
  within 65152%Z 10%Z || within 65280%Z 8%Z ||
  existsb (fun np => within np.1 np.2)
    [(0, 8); (256, 8); (512, 7); (1024, 6); (2048, 5); (4096, 4); (16384, 3); (24576, 3); (32768, 3); (40960, 3);
     (49152, 3); (57344, 4); (61440, 5); (63488, 6); (65024, 9)]%Z.

(** Rounding down to a multiple of [2 ^ k] finds the block of [net]. *)
Lemma within_block top net k : (0 <= k)%Z -> (net mod 2 ^ k = 0)%Z ->
  (top / 2 ^ k * 2 ^ k =? net)%Z = (net <=? top)%Z && (top <? net + 2 ^ k)%Z.
Proof.
  intros Hk Hm. assert (Hp : (0 < 2 ^ k)%Z) by (apply Z.pow_pos_nonneg; lia).
  pose proof (Z.div_mod top (2 ^ k) ltac:(lia)). pose proof (Z.mod_pos_bound top (2 ^ k) Hp).
  pose proof (Z.div_mod net (2 ^ k) ltac:(lia)).
  apply Bool.eq_iff_eq_true. rewrite andb_true_iff, Z.eqb_eq, Z.leb_le, Z.ltb_lt. split; [nia|].
  intros [Hlo Hhi]. assert (top / 2 ^ k = net / 2 ^ k)%Z by nia. nia.
Qed.

Lemma top_forbidden_plain top : (0 <= top < 65536)%Z -> top_forbidden top = negb (plain_v6 top).
Proof.
  intros Ht. unfold top_forbidden, plain_v6. cbv zeta. cbn [existsb fst snd].
  rewrite !within_block by (lia || reflexivity).
  repeat match goal with |- context [(2 ^ ?e)%Z] => let v := eval cbv in (2 ^ e)%Z in change (2 ^ e)%Z with v end.
  lia.
Qed.

Section Forbidden.
Context `{PythonIp}.

Lemma reserved_top top rest scope : digits_ok 65536 8 (top :: rest) ->
  existsb (in_network (V6 (top :: rest) scope)) reserved_v6 =
  existsb (fun np => (top / 2 ^ (16 - np.2) * 2 ^ (16 - np.2) =? np.1)%Z)
    [(0, 8); (256, 8); (512, 7); (1024, 6); (2048, 5); (4096, 4); (16384, 3); (24576, 3); (32768, 3); (40960, 3);
     (49152, 3); (57344, 4); (61440, 5); (63488, 6); (65024, 9)]%Z.
Proof. intros Hok. unfold reserved_v6. cbn [existsb fst snd]. by rewrite !in_v6_network by (done || lia). Qed.

(** The value zero or one has the reserved first hextet zero. *)
Lemma small_value_top top rest scope : digits_ok 65536 8 (top :: rest) ->
  (ip_value (V6 (top :: rest) scope) =? 1)%Z || (ip_value (V6 (top :: rest) scope) =? 0)%Z = true ->
  top_forbidden top = true.
Proof.
  intros Hok Hv. pose proof (top_hextet top rest scope Hok) as Ht.
  apply orb_True_iff in Hv. rewrite !Z.eqb_eq in Hv.
  assert (top = 0)%Z as -> by (rewrite <- Ht; destruct Hv as [-> | ->]; reflexivity). reflexivity.
Qed.

Lemma forbidden_v6 hs scope : digits_ok 65536 8 hs ->
  (ip_value (V6 hs scope) =? 1)%Z || in_network (V6 hs scope) (v6_network 65152 10) ||
  in_network (V6 hs scope) (v6_network 65280 8) || (ip_value (V6 hs scope) =? 0)%Z ||
  existsb (in_network (V6 hs scope)) reserved_v6 = negb (plain_v6 (default 0%Z (head hs))).
Proof.
  intros Hok. destruct (eight_hextets _ Hok) as (top & rest & -> & Ht & _). cbn [head default from_option].
  rewrite <- top_forbidden_plain by done. pose proof (small_value_top _ _ scope Hok) as Hs.
  rewrite reserved_top, !in_v6_network by (done || lia).
  unfold top_forbidden in *. cbv zeta in *.
  destruct (ip_value _ =? 1)%Z; cbn [orb] in *; [symmetry; by apply Hs|].
  destruct (ip_value _ =? 0)%Z; cbn [orb] in *; [rewrite orb_true_r; symmetry; by apply Hs|].
  by rewrite orb_false_r.
Qed.

Lemma forbidden_v4 octets : digits_ok 256 4 octets ->
  in_network (V4 octets) (v4_network 127 0 0 0 8) || in_network (V4 octets) (v4_network 169 254 0 0 16) ||
  in_network (V4 octets) (v4_network 224 0 0 0 4) || (ip_value (V4 octets) =? 0)%Z ||
  in_network (V4 octets) (v4_network 240 0 0 0 4) = negb (plain_v4 octets).
Proof.
  intros Hok. destruct (four_octets _ Hok) as (a & b & c & d & -> & Ha & Hb & Hc & Hd).
  rewrite !in_network_eq by (cbn; lia).
  cbn [v4_network network_host_bits network_address ip_value digits_value foldl plain_v4].
  set (v := (256 * (256 * (256 * (256 * 0 + a) + b) + c) + d)%Z).
  assert (v / 2 ^ (32 - 8) = a)%Z as -> by (unfold v; Z.to_euclidean_division_equations; lia).
  assert (v / 2 ^ (32 - 16) = 256 * a + b)%Z as -> by (unfold v; Z.to_euclidean_division_equations; lia).
  assert (v / 2 ^ (32 - 4) = a / 16)%Z as -> by (unfold v; Z.to_euclidean_division_equations; lia).
  apply Bool.eq_iff_eq_true.
  rewrite !orb_True_iff, negb_true_iff, <- not_true_iff_false, !andb_True_iff, !negb_true_iff, !Z.eqb_eq, Z.ltb_lt.
  rewrite <- !not_true_iff_false, !andb_True_iff, !Z.eqb_eq. unfold v. Z.to_euclidean_division_equations. lia.
Qed.
End Forbidden.

(** ** Parsed addresses *)
Lemma in_range_true lo hi c : in_range lo hi c = true ->
  nat_of_ascii lo <= nat_of_ascii c <= nat_of_ascii hi.
Proof. unfold in_range. rewrite andb_True_iff, !Nat.leb_le. done. Qed.

Lemma decimal_value_nonneg acc s : (0 <= acc)%Z -> all_chars is_digit s = true -> (0 <= decimal_value acc s)%Z.
Proof.
  revert acc. induction s as [|c s IH]; intros acc Ha Hs; [done|]. cbn in Hs. prop_hyps. apply IH; [|done].
  pose proof (in_range_true "0" "9" c H) as Hc. unfold digit_value. change (nat_of_ascii "0") with 48 in Hc. lia.
Qed.

Lemma parse_octet_range s v : parse_octet s = Some v -> (0 <= v < 256)%Z.
Proof.
  intros E. destruct (parse_octet_ok s v E) as [Hd _]. unfold parse_octet in E. repeat case_match; simplify_eq.
  prop_hyps. split; [by apply decimal_value_nonneg|lia].
Qed.

Lemma hex_value_range c : is_hex c = true -> (0 <= hex_value c < 16)%Z.
Proof.
  unfold is_hex, hex_value, digit_value. intros Hc. destruct (is_digit c) eqn:Hd.
  { apply in_range_true in Hd. change (nat_of_ascii "0") with 48 in Hd. change (nat_of_ascii "9") with 57 in Hd. lia. }
  destruct (in_range "a" "f" c) eqn:Ha; [apply in_range_true in Ha; change (nat_of_ascii "a") with 97 in Ha; change (nat_of_ascii "f") with 102 in Ha; lia|].
  apply in_range_true in Hc. change (nat_of_ascii "A") with 65 in Hc. change (nat_of_ascii "F") with 70 in Hc. lia.
Qed.

Lemma hex_number_range acc s n : all_chars is_hex s = true -> String.length s <= n -> (0 <= acc)%Z ->
  (0 <= hex_number acc s < (acc + 1) * 16 ^ Z.of_nat n)%Z.
Proof.
  revert acc n. induction s as [|c s IH]; intros acc n Hs Hl Ha; cbn [hex_number].
  - assert (0 < 16 ^ Z.of_nat n)%Z by (apply Z.pow_pos_nonneg; lia). nia.
  - cbn in Hs, Hl. prop_hyps. destruct n as [|n]; [lia|]. pose proof (hex_value_range c ltac:(done)) as Hc.
    destruct (IH (16 * acc + hex_value c)%Z n) as [? ?]; [done|lia|lia|].
    rewrite Nat2Z.inj_succ, Z.pow_succ_r by lia. assert (0 < 16 ^ Z.of_nat n)%Z by (apply Z.pow_pos_nonneg; lia).
    split; [done|]. nia.
Qed.

Lemma parse_hextet_range s v : parse_hextet s = Some v -> (0 <= v < 65536)%Z.
Proof.
  unfold parse_hextet. intros E. case_match; simplify_eq. prop_hyps.
  apply (hex_number_range 0 s 4); [done|by apply Nat.ltb_ge|done].
Qed.

Lemma mapM_range {A} (f : A -> option Z) base l vs :
  (forall s v, f s = Some v -> (0 <= v < base)%Z) -> mapM f l = Some vs -> Forall (fun v => (0 <= v < base)%Z) vs.
Proof. intros Hf Hm%mapM_Some_1. induction Hm; constructor; eauto. Qed.

Lemma parse_hextets_ok s hs : parse_hextets s = Some hs -> digits_ok 65536 8 hs.
Proof.
  intros E. split; [by eapply parse_hextets_length|]. unfold parse_hextets in E. case_match; [done|].
  destruct (expand_v4_tail _) as [parts|]; [|done]. case_match; [done|].
  destruct (find_skip _ _ _) as [[k|]|]; [| |done]; case_match; try done.
  - case_match; [done|]. destruct (mapM _ (take _ _)) as [h|] eqn:Hh; [|done].
    destruct (mapM _ (drop _ _)) as [l|] eqn:Hl; [|done]. injection E as <-.
    rewrite !Forall_app. split_and!; [|apply Forall_replicate; lia|]; by eapply mapM_range; [apply parse_hextet_range|].
  - by eapply mapM_range; [apply parse_hextet_range|].
Qed.

Lemma parse_ipv4_ok s octets : parse_ipv4 s = Some octets -> digits_ok 256 4 octets.
Proof.
  unfold parse_ipv4. intros E. destruct (split_on _ _) as [|a [|b [|c [|d []]]]]; try done.
  split; [by apply length_mapM in E|by eapply mapM_range; [apply parse_octet_range|]].
Qed.

Lemma ip_address_ok s a : ip_address s = Some a -> ip_ok a.
Proof.
  unfold ip_address. destruct (parse_ipv4 s) as [os|] eqn:E4; [intros [= <-]; by eapply parse_ipv4_ok|].
  intros E. case_match; [done|]. destruct (split_scope s) as [[x z]|]; [|done].
  apply fmap_Some in E as (hs & Hp & ->). by eapply parse_hextets_ok.
Qed.

Section Judged.
Context `{PythonIp}.

Lemma ipv4_mapped_ok a b : ip_ok a -> ipv4_mapped a = Some b -> ip_ok b.
Proof.
  unfold ipv4_mapped. intros Ha E. repeat case_match; simplify_eq. destruct Ha as [_ Hf].
  rewrite !Forall_cons in Hf. destruct Hf as (_ & _ & _ & _ & _ & _ & Hx & Hy & _).
  split; [done|]. repeat constructor; Z.to_euclidean_division_equations; lia.
Qed.

Lemma judged_ok a : ip_ok a -> ip_ok (judged a).
Proof.
  intros Ha. unfold judged. destruct judges_mapped; [|done]. destruct (ipv4_mapped a) as [b|] eqn:E; [|done].
  by eapply ipv4_mapped_ok.
Qed.

Lemma forbidden_plain a : ip_ok a -> is_forbidden a = negb (plain_address a).
Proof.
  intros Ha. unfold is_forbidden, plain_address. pose proof (judged_ok a Ha) as Hj.
  destruct (bool_decide (a ∈ METADATA_ADDRESSES)); [done|]. cbn [orb negb andb].
  unfold is_loopback, is_link_local, is_multicast, is_unspecified, is_reserved.
  destruct (judged a) as [octets|hs scope]; [by apply forbidden_v4|by apply forbidden_v6].
Qed.

(** The forbidden addresses.  [_is_forbidden] is true of exactly the
    addresses outside the plain ranges: IPv4 from 224.0.0.0 on, loopback,
    link-local and 0.0.0.0; IPv6 outside global unicast (2000::/3), unique
    local (fc00::/7) and site local (fec0::/10); and the two metadata
    addresses.  An IPv4-mapped address is judged by the address in it where
    the interpreter does so. *)
Theorem forbidden_addresses s a : ip_address s = Some a -> is_forbidden a = negb (plain_address a).
Proof. intros Ha. by eapply forbidden_plain, ip_address_ok. Qed.
End Judged.

Lemma forbidden_addresses_witness :
  let _ : PythonIp := {| judges_mapped := true |} in
  is_forbidden (V4 [169; 254; 1; 1]%Z) = negb (plain_address (V4 [169; 254; 1; 1]%Z)) /\
  is_forbidden (V4 [169; 254; 1; 1]%Z) = true.
Proof.
  cbv zeta. split; [|by vm_compute]. apply (forbidden_addresses "169.254.1.1"). by vm_compute.
Defined.

(** ** Prepared targets *)
Lemma p_bind_inr {A B} (m : Checked A) (k : A -> Checked B) b :
  p_bind m k = inr b <-> exists a, m = inr a /\ k a = inr b.
Proof. destruct m as [e|a]; cbn; split; [done|by intros (? & ? & ?)|eauto|by intros (? & [= <-] & ?)]. Qed.

Lemma p_require_inr c code u : p_require c code = inr u <-> c = true.
Proof. unfold p_require. destruct c; split; try done. by destruct u. Qed.

Ltac checked_step H := apply p_bind_inr in H as ([] & ?%p_require_inr & H).

Section Prepared.
Context `{PythonIp} `{UrlLib}.

Lemma distinct_elem l a : a ∈ distinct l -> a ∈ l.
Proof.
  induction l as [|b l IH]; cbn; [done|]. rewrite !elem_of_cons. intros [->|Ha]; [by left|].
  apply list_elem_of_filter in Ha as [_ Ha]. auto.
Qed.

Lemma resolve_once_ok resolver hostname port l :
  resolve_once resolver hostname port = inr l -> Forall ip_ok l /\ l <> [].
Proof.
  unfold resolve_once. destruct (ip_address hostname) as [a|] eqn:Ea.
  { intros [= <-]. split; [|done]. apply Forall_singleton. by eapply ip_address_ok. }
  destruct (resolver hostname port ≫= mapM ip_address) as [raw|] eqn:Er; [|done].
  apply bind_Some in Er as (texts & _ & Hm%mapM_Some_1).
  destruct (distinct raw) as [|b rest] eqn:Hd; [done|]. intros [= <-]. split; [|done].
  apply Forall_forall. intros a Ha. rewrite <- Hd in Ha. apply distinct_elem in Ha.
  apply list_elem_of_lookup in Ha as [i Hi]. destruct (Forall2_lookup_r _ _ _ _ _ Hm Hi) as (x & _ & Hx).
  by eapply ip_address_ok.
Qed.

(** What the policy promises of a target: everything it resolved to is inside
    both allowlists, is not the Manager, and is a plain address. *)
Record safe_target (client : AgentClient) (id : string) (t : ValidatedTarget) : Prop := {
  target_profile : client_profiles client !! id = Some (vt_profile t);
  target_scheme : vt_scheme t = if is_trusted_lan (vt_profile t) then "http" else "https";
  target_endpoint : vt_normalized_endpoint t = endpoint_text (vt_scheme t) (vt_hostname t) (vt_port t);
  target_pinned : vt_pinned_address t ∈ vt_resolved_addresses t;
  target_allowed a : a ∈ vt_resolved_addresses t -> is_allowed (client_policy client) a (vt_profile t) = true;
  target_foreign a : a ∈ vt_resolved_addresses t -> is_self_target (client_policy client) a (vt_port t) = false
}.

Definition plain_target (t : ValidatedTarget) : Prop :=
  forall a, a ∈ vt_resolved_addresses t -> plain_address a = true.

Definition loopback_target (t : ValidatedTarget) : Prop :=
  vt_resolved_addresses t = [LOCAL_BOOTSTRAP_ADDRESS] /\ vt_scheme t = "http".

Lemma profile_scheme scheme profile u : validate_profile_scheme scheme profile = inr u ->
  scheme = if is_trusted_lan profile then "http" else "https".
Proof. unfold validate_profile_scheme. rewrite p_require_inr. destruct profile; cbn; by rewrite bool_decide_eq_true. Qed.

Lemma not_forbidden_plain a : ip_ok a -> is_forbidden a = false -> plain_address a = true.
Proof. intros Ha Hf. rewrite forbidden_plain in Hf by done. by apply negb_false_iff in Hf. Qed.

Lemma existsb_false {A} (f : A -> bool) l : existsb f l = false -> forall x, x ∈ l -> f x = false.
Proof.
  intros Hf x Hx. apply not_true_is_false. intros Ht. apply not_true_iff_false in Hf. apply Hf, existsb_exists.
  exists x. split; [by apply list_elem_of_In|done].
Qed.

Context (client : AgentClient).

Lemma validate_safety_inr resolver endpoint s :
  validate_safety (client_policy client) resolver endpoint = inr s ->
  Forall ip_ok (st_resolved_addresses s) /\ st_pinned_address s ∈ st_resolved_addresses s /\
  st_normalized_endpoint s = endpoint_text (st_scheme s) (st_hostname s) (st_port s) /\
  forall a, a ∈ st_resolved_addresses s ->
    is_forbidden a = false /\ is_self_target (client_policy client) a (st_port s) = false.
Proof.
  unfold validate_safety, validate_safety_of. intros E.
  apply p_bind_inr in E as ([[scheme hostname] port] & _ & E). checked_step E.
  apply p_bind_inr in E as (l & [Hok _]%resolve_once_ok & E). checked_step E. checked_step E. checked_step E.
  destruct l as [|pinned rest]; [done|]. injection E as <-. cbn [st_resolved_addresses st_pinned_address st_port].
  split_and!; [done|by left|done|]. intros a Ha. prop_hyps. split.
  - match goal with H : existsb (fun a => is_forbidden a && _) _ = false |- _ =>
      pose proof (existsb_false _ _ H a Ha) as Hx end. cbn in Hx. by rewrite andb_true_r in Hx.
  - by eapply (existsb_false (fun a => is_self_target _ a _)).
Qed.

Lemma resolve_safe id profile resolver endpoint t :
  client_profiles client !! id = Some profile ->
  resolve (client_policy client) resolver endpoint profile = inr t ->
  safe_target client id t /\ plain_target t.
Proof.
  unfold resolve, resolve_validated. intros Hp E.
  apply p_bind_inr in E as (s & (Hok & Hpin & Hend & Hall)%validate_safety_inr & E).
  apply p_bind_inr in E as (u & Hs%profile_scheme & E). checked_step E. injection E as <-.
  split; [split; cbn; try done|].
  - intros a Ha. match goal with H : forallb _ _ = true |- _ => rewrite forallb_forall in H; apply H end.
    by apply list_elem_of_In.
  - intros a Ha. by apply Hall.
  - intros a Ha. rewrite Forall_forall in Hok. apply not_forbidden_plain; [by apply Hok|by apply Hall].
Qed.

Lemma pinned_safe id profile endpoint stored t :
  client_profiles client !! id = Some profile ->
  revalidate_pinned_target (client_policy client) endpoint profile stored = inr t ->
  safe_target client id t /\ plain_target t.
Proof.
  unfold revalidate_pinned_target. intros Hp E. apply p_bind_inr in E as ([[scheme hostname] port] & _ & E).
  apply p_bind_inr in E as (u & Hs%profile_scheme & E).
  destruct (ip_address stored) as [a|] eqn:Ha; [|done]. apply ip_address_ok in Ha.
  checked_step E. checked_step E. checked_step E. injection E as <-. prop_hyps.
  split; [split; cbn; try done; [by left|..]|]; intros b ->%list_elem_of_singleton; [done|done|].
  by apply not_forbidden_plain.
Qed.

Lemma local_safe id profile endpoint stored t :
  client_profiles client !! id = Some profile ->
  revalidate_local_socket_target (client_policy client) endpoint profile stored = inr t ->
  safe_target client id t /\ loopback_target t.
Proof.
  unfold revalidate_local_socket_target. intros Hp E. apply p_bind_inr in E as ([[scheme hostname] port] & _ & E).
  checked_step E. prop_hyps. subst. destruct (ip_address hostname) as [e|]; [|done]. checked_step E.
  destruct (ip_address stored) as [a|]; [|done]. checked_step E. checked_step E. checked_step E. injection E as <-.
  prop_hyps. subst.
  split; [split; cbn; try done; [by destruct profile|by left|..]; by intros b ->%list_elem_of_singleton|done].
Qed.

(** The two preparations of a locally bootstrapped Agent. *)
Definition is_local (p : Preparation) : bool :=
  match p with PrepareLocal _ _ | PrepareLocalPinned _ _ _ => true | _ => false end.

Definition preparation_profile (p : Preparation) : string :=
  match p with
  | Prepare _ id | PreparePinned _ id _ | PrepareLocal _ id | PrepareLocalPinned _ id _ | PrepareCli _ id _ _ _ => id
  end.

Lemma with_profile_inr id f t :
  with_profile client id f = inr t -> exists profile, client_profiles client !! id = Some profile /\ f profile = inr t.
Proof.
  unfold with_profile. destruct (client_profiles client !! id) as [profile|] eqn:Hp; [|done].
  destruct (f profile) as [c|x] eqn:Hf; [done|]. intros [= <-]. eauto.
Qed.

Lemma prepare_target_safe resolver p t :
  prepare_target client resolver p = inr t ->
  safe_target client (preparation_profile p) t /\ if is_local p then loopback_target t else plain_target t.
Proof.
  destruct p as [e id|e id st|e id|e id st|e id host port pin]; cbn; intros (profile & Hp & E)%with_profile_inr.
  - by eapply resolve_safe.
  - by eapply pinned_safe.
  - unfold resolve_local_socket in E. apply p_bind_inr in E as ([[scheme hostname] port] & _ & E).
    destruct (ip_address hostname); [|done]. by eapply local_safe.
  - by eapply local_safe.
  - unfold cli_target in E. apply p_bind_inr in E as (t1 & [Hs Hpl]%(resolve_safe id) & E); [|done].
    apply p_bind_inr in E as (t2 & _ & E). destruct (ip_address pin) as [a|]; [|done]. checked_step E.
    injection E as <-. prop_hyps. split; [|done]. destruct Hs. by split.
Qed.

End Prepared.

(** ** Concrete clients *)

(** The Manager is 10.0.0.1; the networks 10.0.0.0/8 and fd00::/8 are
    allowed. *)
Definition lan_policy : AgentTargetPolicy :=
  mkPolicy [v4_network 10 0 0 0 8; v6_network 64768 8] [(V4 [10; 0; 0; 1]%Z, 8765%Z)].

Definition lan_client : AgentClient :=
  mkAgentClient lan_policy {[ "plain" := TrustedLanHttpProfile "plain" (policy_allowed lan_policy) ]}.

#[local] Instance new_python : PythonIp := {| judges_mapped := true |}.

Definition two_addresses : nat -> Resolver := fun _ _ _ => Some ["10.0.0.7"; "10.0.0.9"; "10.0.0.7"].


(** A zone index hides an address: [fd00:ec2::254%eth0] is the metadata
    service, but not equal to the address in [METADATA_ADDRESSES], and the
    same holds of the Manager's own addresses. *)
Definition zone_url : UrlLib := {|
  urlsplit s := Some (mkSplit "http" (Some "fd00:ec2::254%eth0") (Some 80%Z) None None "" "" "");
  idna s := Some s
|}.

Lemma scoped_metadata_accepted :
  exists t, prepare_target (H0 := zone_url) lan_client two_addresses (Prepare "http://[fd00:ec2::254%eth0]:80" "plain") = inr t /\
    vt_pinned_address t = V6 [64768; 3778; 0; 0; 0; 0; 0; 596]%Z (Some "eth0") /\
    is_forbidden (V6 [64768; 3778; 0; 0; 0; 0; 0; 596]%Z None) = true.
Proof. eexists. split; [vm_compute; reflexivity|]. by vm_compute. Qed.
