(* ===== verification/Saga.v ===== *)
(** * Programs of the enrollment orchestrator

    [EnrollmentOrchestrator] of
    [src/backend/ic_env_guard/enrollment/orchestrator.py] works on the manager
    database, the credential directory, in-memory tables and remote Agents.  A
    program is a function of the [World] that returns a value or raises; what
    the program does not control is the class [Outside], indexed by a counter
    that every interaction advances: the clock, the answers of remote parties,
    the transactions that other connections commit before each of its own, what
    other coroutines do while it awaits, and the point at which the process
    dies. *)

From stdpp Require Import base tactics list gmap strings.
From Stdlib Require Import ZArith Lia.
From S2P Require Import Prelude Text Sql Models Schema EnrollmentJournal ManagerRegistry RemovalJournal.
From S2P Require Import EnrollmentJobs Lifecycle Gateway SecretFiles TargetPolicy AgentClient.

(** ** Data *)
#[local] Set Primitive Projections.

Record EnrollmentHelperResult := mkHelper {
  helper_instance_id : string;
  helper_credential_id : string;
  helper_token : string;
  helper_expires_at : time;
  helper_validation_target : ValidatedTarget
}.

Record SshEnrollmentRequest := mkSshRequest {
  ssh_manager_id : string;
  ssh_enrollment_id : string;
  ssh_base_url : string;
  ssh_ssh_user : string;
  ssh_ssh_host : string;
  ssh_ssh_port : Z;
  ssh_expires_at : time
}.
#[local] Unset Primitive Projections.

(** ** Exceptions

    [MutationSagaError] is a subclass of [EnrollmentConflict].  [ECancelled]
    ([asyncio.CancelledError]) is no [Exception]; [EHalt] is the death of the
    process, which nothing catches. *)
Inductive oexn :=
| ERegistry (e : exn)
| EStore
| EOs
| EValidation (code dispatch_state : string)
| EConflict (code : string)
| ESaga (code dispatch_state : string) (recoverable : bool)
| ESsh (code dispatch_state : string)
| ELocalSocket (code : string)
| EAutoStateLost
| EOther
| ECancelled
| EHalt.

Definition is_registry_error (e : exn) : bool :=
  match e with RegistryConflict _ | RevisionConflict | RegistryInvariantError | RegistryError => true | _ => false end.

Definition is_exception (e : oexn) : bool :=
  match e with ECancelled | EHalt => false | _ => true end.

(** ** Requests and events *)
Inductive IssueRequest :=
| IssueSsh (service_key : bool) (request : SshEnrollmentRequest) (profile_id : string)
| IssueLocal (socket_path manager_id enrollment_id : string) (target : ValidatedTarget) (retry : bool).

(** What the program did, newest first: the requests it sent and whether they
    were answered with success, the methods of the repositories that returned,
    the Agents it looked up and deleted, the credentials it stored and deleted,
    and its audit events. *)
Inductive event :=
| Sent (r : Request)
| Answered (r : Request) (ok : bool)
| Committed (c : Call)
| Looked (agent : string) (found : option AgentRecord)
| Deleted (agent : string)
| Stored (reference : string)
| Erased (reference : string)
| Intended (audit_event_id : Z)
| Concluded (audit_event_id : Z) (result dispatch_state : string) (failure_category : option string).

(** ** The world *)
#[local] Set Primitive Projections.
Record Memory := mkMemory {
  mem_dir : Dir;
  mem_failures : gmap string (string * string);
  mem_cache : gmap string EnrollmentValidation;
  mem_background : gset string;
  mem_gateway : Gateway;
  mem_closing : bool
}.

(** [w_reference] is the local variable [reference] of the running method,
    which its exception handler reads. *)
Record World := mkWorld {
  w_db : DB;
  w_mem : Memory;
  w_reference : option string;
  w_tick : nat;
  w_trace : list event
}.

(** The constructor arguments of the orchestrator that its methods consult; an
    adapter is known by its health. *)
Record Config := mkConfig {
  recovery_owner : string;
  recovery_lease_seconds : Z;
  has_agent_client : bool;
  ssh_adapter : option bool;
  service_key_adapter : option bool;
  service_key_configured : bool;
  transport_profiles : gmap string string;
  has_auto_audit : bool;
  has_removals : bool;
  has_terminal_usage : bool;
  manager_socket_path : option string;
  has_local_socket_client : bool;
  local_bootstrap_enabled : bool;
  orchestrator_jobs : EnrollmentJobs
}.
#[local] Unset Primitive Projections.

Class Outside := {
  out_clock : nat -> time;
  out_halts : nat -> bool;
  out_others : nat -> DB -> DB;
  out_meanwhile : nat -> Memory -> Memory;
  out_http : nat -> Http;
  out_issue : nat -> IssueRequest -> Outcome EnrollmentHelperResult;
  out_intervals : nat -> nat;
  out_resolve : nat -> nat -> Resolver;
  out_client : AgentClient;
  out_python :: PythonIp;
  out_iso :: IsoTime;
  out_intent : nat -> option Z;
  out_uuid4 : nat -> string;
  out_tokens : nat -> Tokens;
  out_parse_helper : string -> SshEnrollmentRequest -> ValidatedTarget -> time -> option EnrollmentHelperResult
}.

Definition O (A : Type) : Type := World -> (oexn + A) * World.

Definition o_ret {A} (a : A) : O A := fun w => (inr a, w).
Definition o_raise {A} (e : oexn) : O A := fun w => (inl e, w).

Definition o_bind {A B} (m : O A) (k : A -> O B) : O B := fun w =>
  match m w with
  | (inl e, w') => (inl e, w')
  | (inr a, w') => k a w'
  end.

Notation "'let!' x ':=' m 'in' k" := (o_bind m (fun x => k))
  (at level 10, x pattern, m at level 100, k at level 200) : guard_scope.
Notation "m ';;!' k" := (o_bind m (fun _ => k))
  (at level 199, right associativity) : guard_scope.

(** [try: m except ...]: the handler says which exceptions it takes. *)
Definition o_catch {A} (m : O A) (handler : oexn -> option (O A)) : O A := fun w =>
  match m w with
  | (inl EHalt, w') => (inl EHalt, w')
  | (inl e, w') => match handler e with Some h => h w' | None => (inl e, w') end
  | (inr a, w') => (inr a, w')
  end.

(** [try: m finally: f] *)
Definition o_finally {A} (m : O A) (f : O unit) : O A := fun w =>
  match m w with
  | (inl EHalt, w') => (inl EHalt, w')
  | (r, w') => match f w' with
               | (inl e, w2) => (inl e, w2)
               | (inr _, w2) => (r, w2)
               end
  end.

Definition o_when (b : bool) (m : O unit) : O unit := if b then m else o_ret tt.

Definition o_assert (b : bool) (e : oexn) : O unit := if b then o_ret tt else o_raise e.

(** ** Interactions *)
Section Interactions.
Context `{Outside}.

Definition advance : O nat := fun w =>
  if out_halts (w_tick w) then (inl EHalt, w)
  else (inr (w_tick w), w <| w_tick := S (w_tick w) |>).

Definition log (e : event) : O unit := fun w => (inr tt, w <| w_trace := e :: w_trace w |>).

Definition on_memory (f : Memory -> Memory) : O unit := fun w => (inr tt, w <| w_mem := f (w_mem w) |>).

Definition memory {A} (f : Memory -> A) : O A := fun w => (inr (f (w_mem w)), w).

Definition set_reference (r : option string) : O unit := fun w => (inr tt, w <| w_reference := r |>).

Definition get_reference : O (option string) := fun w => (inr (w_reference w), w).

Definition clock : O time := let! n := advance in o_ret (out_clock n).

Definition uuid4 : O string := let! n := advance in o_ret (out_uuid4 n).

(** A method of a repository: one transaction, after those of others. *)
Definition transact {A} (m : Method A) : O A :=
  let! n := advance in fun w =>
  match m (out_others n (w_db w)) with
  | (inl e, db) => (inl (ERegistry e), w <| w_db := db |>)
  | (inr a, db) => (inr a, w <| w_db := db |>)
  end.

Definition perform {A} (c : Call) (m : Method A) : O A :=
  let! a := transact m in log (Committed c) ;;! o_ret a.

(** A method of [EnrollmentJobs], which may run several transactions. *)
Definition service_error (e : service_exn) : oexn :=
  match e with EnrollmentConflict code => EConflict code | Propagated e => ERegistry e end.

Definition service {A} (m : (nat -> DB -> DB) -> ServiceMethod A) : O A :=
  let! n := advance in
  advance ;;! advance ;;! advance ;;! fun w =>
  match m (fun k => out_others (n + 1 + k)) (out_others n (w_db w)) with
  | (inl e, db) => (inl (service_error e), w <| w_db := db |>)
  | (inr a, db) => (inr a, w <| w_db := db |>)
  end.

(** An operation of the credential store. *)
Definition store_error (e : os_exn) : oexn :=
  match e with Crashed => EHalt | CredentialStoreError => EStore | _ => EOs end.

Definition store {A} (m : FS A) : O A := fun w =>
  match m (mem_dir (w_mem w)) with
  | (inl e, d) => (inl (store_error e), w <| w_mem := (w_mem w) <| mem_dir := d |> |>)
  | (inr a, d) => (inr a, w <| w_mem := (w_mem w) <| mem_dir := d |> |>)
  end.

Definition store_read (reference : option string) : O string := store (read (default "" reference)).

Definition store_put (secret : string) : O string :=
  let! n := advance in
  let! reference := store (put (out_tokens n) secret) in
  log (Stored reference) ;;! o_ret reference.

Definition store_delete (reference : option string) : O unit :=
  let! deleted := store (delete_if_exists (default "" reference)) in
  o_when deleted (log (Erased (default "" reference))).

(** [with self.credential_store.lifecycle_lease(): body] *)
Definition lifecycle_lease {A} (body : O A) : O A :=
  let! d := memory mem_dir in
  match depth d with
  | S n =>
      store (set_depth (S (S n))) ;;!
      o_finally body (store (set_depth (S n)))
  | 0 =>
      store open_lock ;;!
      o_catch
        (store sys ;;! store (set_depth 1) ;;!
         o_finally body (store (set_depth 0) ;;! store sys))
        (fun e => match e with EOs => Some (o_raise EStore) | _ => None end)
  end.

(** [await self.agent_client....]: meanwhile the others run. *)
Definition await : O nat :=
  let! n := advance in fun w =>
  (inr n, w <| w_db := out_others n (w_db w) |> <| w_mem := out_meanwhile n (w_mem w) |>).

Definition ask (r : Request) : O EnrollmentValidation :=
  log (Sent r) ;;!
  let! n := await in
  match agent_answer (out_http n) r with
  | Value v => log (Answered r true) ;;! o_ret v
  | Refused code dispatch => log (Answered r false) ;;! o_raise (EValidation code dispatch)
  | Broken => log (Answered r false) ;;! o_raise EOther
  | Cancelled => o_raise ECancelled
  end.

Definition issue (r : IssueRequest) : O EnrollmentHelperResult :=
  let! n := await in
  match out_issue n r with
  | Value v => o_ret v
  | Refused code dispatch =>
      o_raise (match r with IssueSsh _ _ _ => ESsh code dispatch | IssueLocal _ _ _ _ _ => ELocalSocket code end)
  | Broken => o_raise EOther
  | Cancelled => o_raise ECancelled
  end.

Context `{UrlLib}.

Definition prepare (p : Preparation) : O ValidatedTarget :=
  let! n := advance in
  match prepare_target out_client (out_resolve n) p with
  | inl (code, dispatch) => o_raise (EValidation code dispatch)
  | inr t => o_ret t
  end.

(** ** The repositories *)
Definition j_get (id : string) : O (option EnrollmentJob) := transact (journal_get id).
Definition j_replace (job : EnrollmentJob) (expected : EnrollmentState) (fence : Fence) : O EnrollmentJob :=
  perform (Journal (CallReplace job expected fence)) (replace_if_state job expected fence).
Definition r_get (id : string) : O (option AgentRecord) :=
  let! found := transact (registry_get id) in log (Looked id found) ;;! o_ret found.
End Interactions.
