(* ===== verification/Recovery.v ===== *)
(** * Recovery of enrollments

    The methods of [EnrollmentOrchestrator] that take an enrollment forward
    under a recovery claim: validation, activation, rotation, the compensations
    of a lost race, and [recover] itself, as programs of [Saga]. *)

From stdpp Require Import base tactics list gmap strings pretty.
From Stdlib Require Import ZArith Lia.
From S2P Require Import Prelude Text Sql Digest Models Schema MutationFence EnrollmentJournal.
From S2P Require Import ManagerRegistry RemovalJournal EnrollmentJobs Lifecycle Gateway SecretFiles TargetPolicy AgentClient Saga.

(** ** The receipt of an accepted CLI submission *)

(** [len(value).to_bytes(4, "big") + value] *)
Definition length_prefix (n : nat) : list Z :=
  let n := Z.of_nat n in
  [Z.land (Z.shiftr n 24) 255; Z.land (Z.shiftr n 16) 255; Z.land (Z.shiftr n 8) 255; Z.land n 255].

Definition prefixed (value : string) : list Z :=
  length_prefix (String.length value) ++ bytes_of value.

Definition receipt_header : list Z := bytes_of "ic-env-guard.cli-accept-receipt.v1" ++ [0%Z].

Definition receipt_bytes (enrollment_id nonce : string) (peer_uid : Z) (input_fingerprint pinned_address : string)
    : list Z :=
  receipt_header ++ prefixed enrollment_id ++ prefixed nonce ++ prefixed (pretty peer_uid) ++
  prefixed input_fingerprint ++ prefixed pinned_address.

Definition cli_accept_receipt (enrollment_id nonce : string) (peer_uid : Z)
    (input_fingerprint pinned_address : string) : string :=
  sha256_hex (receipt_bytes enrollment_id nonce peer_uid input_fingerprint pinned_address).

Definition job_receipt (j : EnrollmentJob) : string :=
  cli_accept_receipt (job_enrollment_id j) (default "" (job_cli_resume_nonce j))
    (default 0%Z (job_cli_peer_uid j)) (default "" (job_cli_input_fingerprint j))
    (default "" (job_cli_pinned_address j)).

(** ** Pure helpers *)
Definition same_committed_agent (existing expected : AgentRecord) : bool :=
  bool_decide (agent_id existing = agent_id expected) &&
  bool_decide (agent_instance_id existing = agent_instance_id expected) &&
  bool_decide (agent_display_name existing = agent_display_name expected) &&
  bool_decide (agent_normalized_endpoint existing = agent_normalized_endpoint expected) &&
  bool_decide (agent_credential_ref existing = agent_credential_ref expected) &&
  bool_decide (agent_remote_credential_id existing = agent_remote_credential_id expected) &&
  bool_decide (agent_transport_profile_id existing = agent_transport_profile_id expected) &&
  bool_decide (agent_enrollment_method existing = agent_enrollment_method expected) &&
  bool_decide (agent_enabled existing = agent_enabled expected) &&
  bool_decide (agent_source existing = agent_source expected).

(** [_LeasedOutcome.error], as a code and a dispatch state. *)
Definition error_code (e : oexn) : string :=
  match e with EValidation code _ => code | _ => "agent_network_error" end.

Definition error_dispatch (e : oexn) : string :=
  match e with EValidation _ dispatch => dispatch | _ => "unknown" end.

(** The job a claimed transition writes. *)
Definition claimed_job (job : EnrollmentJob) (state : EnrollmentState) (clear_claim : bool) (now : time)
    : EnrollmentJob :=
  let drop_cli := match state with CANCELLED | EXPIRED | FAILED | CONSUMED => true | _ => false end in
  let receipt :=
    match state with
    | CONSUMED =>
        if is_some (job_cli_resume_nonce job) && is_some (job_cli_peer_uid job) &&
           is_some (job_cli_input_fingerprint job) && is_some (job_cli_pinned_address job)
        then Some (job_receipt job) else job_cli_accept_receipt job
    | CANCELLED | EXPIRED | FAILED => None
    | _ => job_cli_accept_receipt job
    end in
  let job := job <| job_state := state |> <| job_updated_at := now |>
                 <| job_recovery_owner := if clear_claim then None else job_recovery_owner job |>
                 <| job_recovery_lease_until := if clear_claim then None else job_recovery_lease_until job |>
                 <| job_recovery_revision := (job_recovery_revision job + 1)%Z |> in
  let job := if drop_cli then
               job <| job_cli_resume_nonce := None |> <| job_cli_peer_uid := None |>
                   <| job_cli_input_fingerprint := None |> <| job_cli_pinned_address := None |>
             else job in
  job <| job_cli_accept_receipt := receipt |>.

(** The Agent an activated enrollment registers. *)
Definition activated_record (job : EnrollmentJob) (created updated : time) : AgentRecord :=
  mkAgent (job_enrollment_id job) (job_remote_instance_id job)
    (default "" (job_requested_display_name job)) (job_normalized_endpoint job)
    (default "" (job_credential_temp_ref job)) (job_remote_credential_id job)
    (job_transport_profile_id job) (job_enrollment_method job) true
    (match job_enrollment_method job with
     | LOCAL_SOCKET => "local_dev_bootstrap"
     | _ => if is_some (job_discovery_result_id job) then "discovery" else "manual"
     end) 1 created updated.

Section Recovery.
Context `{Outside} `{UrlLib} (self : Config).

(** [except RegistryError: return d] *)
Definition unless_registry_error {A} (d : A) (m : O A) : O A :=
  o_catch m (fun e => match e with
                      | ERegistry x => if is_registry_error x then Some (o_ret d) else None
                      | _ => None
                      end).

Definition reload_after_fence_loss (id : string) : O unit :=
  unless_registry_error tt (j_get id ;;! o_ret tt).

(** ** Claims *)
Definition renew_claimed (job : EnrollmentJob) : O (option EnrollmentJob) :=
  unless_registry_error None
    (let! now := clock in
     perform (Journal (CallRenew (job_enrollment_id job) (recovery_owner self) (job_recovery_revision job)
                         now (recovery_lease_seconds self)))
       (renew_recovery_claim (job_enrollment_id job) (recovery_owner self) (job_recovery_revision job)
          now (recovery_lease_seconds self))).

Definition fail_claimed (job : EnrollmentJob) (code : string) : O unit :=
  unless_registry_error tt
    (let! now := clock in
     perform (Journal (CallFail (job_enrollment_id job) (recovery_owner self) (job_recovery_revision job) code now))
       (fail_recovery_claim (job_enrollment_id job) (recovery_owner self) (job_recovery_revision job) code now) ;;!
     o_ret tt).

Definition residual_claimed (job : EnrollmentJob) (code : string) : O unit :=
  unless_registry_error tt
    (let! now := clock in
     perform (Journal (CallResidual (job_enrollment_id job) (recovery_owner self) (job_recovery_revision job) code now))
       (release_recovery_residual (job_enrollment_id job) (recovery_owner self) (job_recovery_revision job) code now) ;;!
     o_ret tt).

Definition release_claimed (job : EnrollmentJob) : O bool :=
  let! now := clock in
  perform (Journal (CallRelease (job_enrollment_id job) (recovery_owner self) (job_recovery_revision job) now))
    (release_recovery_claim (job_enrollment_id job) (recovery_owner self) (job_recovery_revision job) now).

Definition mark_claim_error (job : EnrollmentJob) (code : string) : O (option EnrollmentJob) :=
  let! now := clock in
  let! marked := unless_registry_error None
    (let! b := perform (Journal (CallMarkError (job_enrollment_id job) (recovery_owner self)
                                   (job_recovery_revision job) code now))
                 (mark_recovery_claim_error (job_enrollment_id job) (recovery_owner self)
                    (job_recovery_revision job) code now) in
     o_ret (Some b)) in
  match marked with
  | None => o_ret None
  | Some false => reload_after_fence_loss (job_enrollment_id job) ;;! o_ret None
  | Some true =>
      o_ret (Some (job <| job_last_error_code := Some code |>
                       <| job_recovery_revision := (job_recovery_revision job + 1)%Z |>
                       <| job_updated_at := now |>))
  end.

Definition record_mutation_failure (job : EnrollmentJob) (code dispatch : string) : O unit :=
  on_memory (fun m => m <| mem_failures := <[job_enrollment_id job := (code, dispatch)]> (mem_failures m) |>).

(** [_transition_claimed]: under the fence token of the claim. *)
Definition transition_claimed (job : EnrollmentJob) (state : EnrollmentState) (clear_claim : bool)
    : O (option EnrollmentJob) :=
  let! now := clock in
  o_catch
    (let! j := j_replace (claimed_job job state clear_claim now) (job_state job)
                 (mkFence (Some (recovery_owner self)) (Some (job_recovery_revision job)) (Some now)) in
     o_ret (Some j))
    (fun e => match e with
              | ERegistry RevisionConflict =>
                  Some (reload_after_fence_loss (job_enrollment_id job) ;;! o_ret None)
              | _ => None
              end).

(** The rounds of [_run_with_recovery_lease] that end before the answer. *)
Fixpoint keep_claim (rounds : nat) (job : EnrollmentJob) : O (option EnrollmentJob) :=
  match rounds with
  | 0 => o_ret (Some job)
  | S rounds =>
      await ;;!
      let! renewed := renew_claimed job in
      match renewed with
      | None => o_ret None
      | Some j => keep_claim rounds j
      end
  end.

Definition run_with_recovery_lease (job : EnrollmentJob) (r : Request)
    : O (option (EnrollmentJob * (oexn + EnrollmentValidation))) :=
  log (Sent r) ;;!
  let! n := advance in
  let! kept := keep_claim (out_intervals n) job in
  match kept with
  | None => o_ret None
  | Some current =>
      let! n := await in
      let finish (x : oexn + EnrollmentValidation) : O (option (EnrollmentJob * (oexn + EnrollmentValidation))) :=
        log (Answered r (match x with inr _ => true | inl _ => false end)) ;;!
        let! renewed := renew_claimed current in
        o_ret (match renewed with Some j => Some (j, x) | None => None end) in
      match agent_answer (out_http n) r with
      | Value v => finish (inr v)
      | Refused code dispatch => finish (inl (EValidation code dispatch))
      | Broken => finish (inl EOther)
      | Cancelled => o_raise ECancelled
      end
  end.

Definition prepare_pinned_job (job : EnrollmentJob) : O ValidatedTarget :=
  if negb (has_agent_client self) || negb (truthy (job_validated_http_address job))
  then o_raise (EValidation "enrollment_unavailable" "not_dispatched")
  else
    let address := default "" (job_validated_http_address job) in
    if bool_decide (job_enrollment_method job = LOCAL_SOCKET)
    then prepare (PrepareLocalPinned (job_normalized_endpoint job) (job_transport_profile_id job) address)
    else prepare (PreparePinned (job_normalized_endpoint job) (job_transport_profile_id job) address).

(** [try: target = ...; token = read(...)] with one exit per exception. *)
Definition target_and_token (job : EnrollmentJob) (give_up_with : string -> O unit)
    : O (option (ValidatedTarget * string)) :=
  o_catch
    (let! target := prepare_pinned_job job in
     let! token := store_read (job_credential_temp_ref job) in
     o_ret (Some (target, token)))
    (fun e => match e with
              | EValidation code _ => Some (give_up_with code ;;! o_ret None)
              | EStore => Some (give_up_with "credential_store_unavailable" ;;! o_ret None)
              | _ => None
              end).

Definition cache_validation (id : string) (v : EnrollmentValidation) : O unit :=
  on_memory (fun m => m <| mem_cache := <[id := v]> (mem_cache m) |>).

(** ** Validation *)
Definition recover_validation (job : EnrollmentJob) : O unit :=
  if negb (has_agent_client self) then fail_claimed job "enrollment_unavailable"
  else if negb (truthy (job_credential_temp_ref job)) then fail_claimed job "credential_store_unavailable"
  else if bool_decide (job_enrollment_method job = LEGACY_ADMIN_TOKEN) && state_is VERIFIED job
  then release_claimed job ;;! o_ret tt
  else if bool_decide (job_enrollment_method job = LEGACY_ADMIN_TOKEN)
  then fail_claimed job "enrollment_recovery_unavailable"
  else if negb (truthy (job_validated_http_address job)) then fail_claimed job "target_address_forbidden"
  else
    let! current := if state_is CREDENTIAL_ISSUED job then transition_claimed job VERIFYING false
                    else o_ret (Some job) in
    match current with
    | None => o_ret tt
    | Some current =>
        let! ready := target_and_token current (fail_claimed current) in
        match ready with
        | None => o_ret tt
        | Some (target, token) =>
            if negb (truthy (job_remote_instance_id current)) then fail_claimed current "agent_identity_missing"
            else
              let! outcome := run_with_recovery_lease current
                                (ValidatePending target token (job_remote_instance_id current)) in
              match outcome with
              | None => o_ret tt
              | Some (current, inl e) => fail_claimed current (error_code e)
              | Some (current, inr validation) =>
                  if state_is VERIFIED current then
                    let! released := release_claimed current in
                    o_when released (cache_validation (job_enrollment_id current) validation)
                  else
                    let! verified := transition_claimed current VERIFIED true in
                    match verified with
                    | None => o_ret tt
                    | Some j => cache_validation (job_enrollment_id j) validation
                    end
              end
        end
    end.

(** ** Activation of a new Agent *)
Definition compensate_activated_add_conflict (job : EnrollmentJob) (target : option ValidatedTarget) : O unit :=
  let! current :=
    match job_enrollment_method job, target with
    | LEGACY_ADMIN_TOKEN, _ => o_ret (Some job)
    | _, None => o_raise EOther
    | _, Some target =>
        let! token := o_catch (let! t := store_read (job_credential_temp_ref job) in o_ret (Some t))
                        (fun e => match e with
                                  | EStore => Some (residual_claimed job "credential_store_unavailable" ;;! o_ret None)
                                  | _ => None
                                  end) in
        match token with
        | None => o_ret None
        | Some token =>
            let! outcome := run_with_recovery_lease job (Revoke target token (job_remote_credential_id job)) in
            match outcome with
            | None => o_ret None
            | Some (current, inl e) =>
                record_mutation_failure current (error_code e) (error_dispatch e) ;;!
                residual_claimed current (error_code e) ;;!
                o_ret None
            | Some (current, inr _) => o_ret (Some current)
            end
        end
    end in
  match current with
  | None => o_ret tt
  | Some current =>
      lifecycle_lease
        (let! deleted := o_catch (store_delete (job_credential_temp_ref current) ;;! o_ret true)
                           (fun e => match e with
                                     | EStore => Some (residual_claimed current "credential_cleanup_failed" ;;! o_ret false)
                                     | _ => None
                                     end) in
         if deleted : bool then
           let! failed := transition_claimed
             (current <| job_credential_temp_ref := None |> <| job_validated_http_address := None |>
                      <| job_last_error_code := Some "agent_already_registered" |>) FAILED true in
           match failed with
           | None => o_ret tt
           | Some failed => record_mutation_failure failed "agent_already_registered" "dispatched"
           end
         else o_ret tt)
  end.

(** The commit of [_recover_activation]; the result says whether the race was
    lost to another Agent. *)
Definition commit_activation (current : EnrollmentJob) : O bool :=
  let! created := clock in
  let! updated := clock in
  let record := activated_record current created updated in
  let receipt := if bool_decide (job_enrollment_method current = SSH_CLI)
                 then Some (job_receipt current) else None in
  lifecycle_lease
    (let! now := clock in
     o_catch
       (perform (Registry (CallCommit current record now receipt))
          (commit_activated_enrollment current record now receipt) ;;!
        o_ret false)
       (fun e => match e with
                 | ERegistry (RegistryConflict _) =>
                     Some (let! existing := r_get (agent_id record) in
                           o_ret (match existing with
                                  | None => true
                                  | Some a => negb (same_committed_agent a record)
                                  end))
                 | ERegistry x => if is_registry_error x then Some (o_ret false) else None
                 | _ => None
                 end)).

(** The request to activate and the transition to [ACTIVATED]. *)
Definition activate_claimed (current : EnrollmentJob) (target : option ValidatedTarget) : O (option EnrollmentJob) :=
  let! answered :=
    match job_enrollment_method current, target with
    | LEGACY_ADMIN_TOKEN, _ => o_ret (Some current)
    | _, None => o_raise EOther
    | _, Some target =>
        let! token := o_catch (let! t := store_read (job_credential_temp_ref current) in o_ret (Some t))
                        (fun e => match e with
                                  | EStore => Some (fail_claimed current "credential_store_unavailable" ;;! o_ret None)
                                  | _ => None
                                  end) in
        match token with
        | None => o_ret None
        | Some token =>
            let! outcome := run_with_recovery_lease current
              (Activate target token (job_enrollment_id current) (job_remote_credential_id current)) in
            match outcome with
            | None => o_ret None
            | Some (current, inl e) =>
                record_mutation_failure current (error_code e) (error_dispatch e) ;;!
                (if bool_decide (job_enrollment_method current = LOCAL_SOCKET)
                 then residual_claimed current (error_code e)
                 else fail_claimed current (error_code e)) ;;!
                o_ret None
            | Some (current, inr _) => o_ret (Some current)
            end
        end
    end in
  match answered with
  | None => o_ret None
  | Some current => transition_claimed current ACTIVATED false
  end.

Definition recover_activation_add (job : EnrollmentJob) : O unit :=
  if negb (truthy (job_credential_temp_ref job)) || negb (truthy (job_requested_display_name job))
  then fail_claimed job "credential_store_unavailable"
  else
    let! target :=
      if bool_decide (job_enrollment_method job = LEGACY_ADMIN_TOKEN) then o_ret (Some None)
      else if negb (has_agent_client self) || negb (truthy (job_remote_credential_id job)) ||
              negb (truthy (job_validated_http_address job))
      then fail_claimed job "enrollment_unavailable" ;;! o_ret None
      else o_catch (let! t := prepare_pinned_job job in o_ret (Some (Some t)))
             (fun e => match e with
                       | EValidation code dispatch =>
                           Some (record_mutation_failure job code dispatch ;;!
                                 fail_claimed job code ;;! o_ret None)
                       | _ => None
                       end) in
    match target with
    | None => o_ret tt
    | Some target =>
        let! current := if state_is ACTIVATION_REQUESTED job then activate_claimed job target
                        else o_ret (Some job) in
        match current with
        | None => o_ret tt
        | Some current =>
            let! renewed := renew_claimed current in
            match renewed with
            | None => o_ret tt
            | Some current =>
                let! lost := commit_activation current in
                o_when lost (compensate_activated_add_conflict current target)
            end
        end
    end.

(** ** Rotation *)

(** Revoke only the newly activated credential after a lost race. *)
Definition compensate_rotation_registry_mismatch (job : EnrollmentJob) (target : ValidatedTarget) (token : string)
    : O unit :=
  let! marked := mark_claim_error job "agent_changed" in
  match marked with
  | None => o_ret tt
  | Some job =>
      let! outcome := run_with_recovery_lease job (Revoke target token (job_remote_credential_id job)) in
      match outcome with
      | None => o_ret tt
      | Some (current, inl e) =>
          record_mutation_failure current (error_code e) (error_dispatch e) ;;!
          residual_claimed current "agent_changed"
      | Some (current, inr _) =>
          let new_reference := job_credential_temp_ref current in
          let! failed := transition_claimed
            (current <| job_credential_temp_ref := None |> <| job_old_credential_ref := None |>
                     <| job_old_remote_credential_id := None |> <| job_validated_http_address := None |>
                     <| job_last_error_code := Some "agent_changed" |>) FAILED true in
          match failed with
          | None => o_ret tt
          | Some failed =>
              record_mutation_failure failed "agent_changed" "dispatched" ;;!
              lifecycle_lease
                (o_catch (store_delete new_reference)
                   (fun e => match e with EStore => Some (o_ret tt) | _ => None end))
          end
      end
  end.

(** The old credential is revoked and deleted, and the job consumed. *)
Definition finish_rotation (current : EnrollmentJob) (target : ValidatedTarget) (token : string) : O unit :=
  let! renewed := renew_claimed current in
  match renewed with
  | None => o_ret tt
  | Some current =>
      let! revoked :=
        if bool_decide (job_old_enrollment_method current = Some LEGACY_ADMIN_TOKEN) then o_ret (Some current)
        else
          let! outcome := run_with_recovery_lease current
                            (Revoke target token (job_old_remote_credential_id current)) in
          match outcome with
          | None => o_ret None
          | Some (current, inl e) =>
              record_mutation_failure current (error_code e) (error_dispatch e) ;;!
              residual_claimed current (error_code e) ;;!
              o_ret None
          | Some (current, inr _) => o_ret (Some current)
          end in
      match revoked with
      | None => o_ret tt
      | Some current =>
          lifecycle_lease
            (let! deleted := o_catch (store_delete (job_old_credential_ref current) ;;! o_ret true)
                               (fun e => match e with
                                         | EStore => Some (residual_claimed current "credential_cleanup_failed" ;;!
                                                           o_ret false)
                                         | _ => None
                                         end) in
             if deleted : bool then
               transition_claimed
                 (current <| job_credential_temp_ref := None |> <| job_old_credential_ref := None |>
                          <| job_old_remote_credential_id := None |> <| job_validated_http_address := None |>)
                 CONSUMED true ;;! o_ret tt
             else o_ret tt)
      end
  end.

(** The step from [ACTIVATED] on: the registry is swapped, was swapped
    before, or the race was lost. *)
Definition swap_claimed (current : EnrollmentJob) (target : ValidatedTarget) (token : string) : O unit :=
  let! registered := r_get (or_else (job_replace_agent_id current) "") in
  match registered with
  | None => residual_claimed current "agent_not_found"
  | Some registered =>
      if bool_decide (Some (agent_revision registered) = job_old_registry_revision current) &&
         bool_decide (Some (agent_credential_ref registered) = job_old_credential_ref current)
      then
        let! swapped := o_catch
          (let! now := clock in
           perform (Registry (CallSwap current now)) (swap_rotation current now) ;;! o_ret true)
          (fun e => match e with
                    | ERegistry (RegistryConflict _) | ERegistry RevisionConflict =>
                        Some (compensate_rotation_registry_mismatch current target token ;;! o_ret false)
                    | ERegistry x => if is_registry_error x
                                     then Some (residual_claimed current "agent_registry_unavailable" ;;! o_ret false)
                                     else None
                    | _ => None
                    end) in
        o_when swapped (finish_rotation current target token)
      else if negb (bool_decide (Some (agent_credential_ref registered) = job_credential_temp_ref current))
      then compensate_rotation_registry_mismatch current target token
      else finish_rotation current target token
  end.

Definition rotation_required (job : EnrollmentJob) : bool :=
  is_some (job_replace_agent_id job) && is_some (job_credential_temp_ref job) &&
  is_some (job_old_credential_ref job) && is_some (job_old_registry_revision job) &&
  is_some (job_old_enrollment_method job) && is_some (job_old_display_name job) &&
  is_some (job_validated_http_address job).

Definition recover_rotation (job : EnrollmentJob) : O unit :=
  if negb (bool_decide (job_old_enrollment_method job = Some LEGACY_ADMIN_TOKEN)) &&
     negb (bool_decide (job_remote_instance_id job = job_old_instance_id job))
  then residual_claimed job "agent_identity_changed"
  else if negb (has_agent_client self) || negb (rotation_required job)
  then residual_claimed job "enrollment_unavailable"
  else
    let! ready := target_and_token job (residual_claimed job) in
    match ready with
    | None => o_ret tt
    | Some (target, token) =>
        let! current :=
          if state_is ACTIVATION_REQUESTED job then
            let! outcome := run_with_recovery_lease job
              (Activate target token (job_enrollment_id job) (job_remote_credential_id job)) in
            match outcome with
            | None => o_ret None
            | Some (current, inl e) =>
                record_mutation_failure current (error_code e) (error_dispatch e) ;;!
                residual_claimed current (error_code e) ;;!
                o_ret None
            | Some (current, inr _) => transition_claimed current ACTIVATED false
            end
          else o_ret (Some job) in
        match current with
        | None => o_ret tt
        | Some current => swap_claimed current target token
        end
    end.

Definition recover_activation (job : EnrollmentJob) : O unit :=
  if is_some (job_replace_agent_id job) then recover_rotation job else recover_activation_add job.

(** ** Terminal jobs *)
Definition cleanup_terminal (job : EnrollmentJob) : O EnrollmentJob :=
  match job_credential_temp_ref job with
  | None => o_ret job
  | Some reference =>
      lifecycle_lease
        (let! deleted := o_catch (store_delete (Some reference) ;;! o_ret true)
                           (fun e => match e with EStore => Some (o_ret false) | _ => None end) in
         let! now := clock in
         if deleted : bool then
           perform (Journal (CallFinishCleanup (job_enrollment_id job) (job_state job) reference now))
             (finish_terminal_cleanup (job_enrollment_id job) (job_state job) reference now)
         else
           perform (Journal (CallCleanupFailed (job_enrollment_id job) (job_state job) reference now))
             (mark_terminal_cleanup_failed (job_enrollment_id job) (job_state job) reference now))
  end.

Fixpoint o_iter {A} (body : A -> O unit) (l : list A) : O unit :=
  match l with
  | [] => o_ret tt
  | a :: l => body a ;;! o_iter body l
  end.

(** ** [recover] *)
Definition recover_job (id : string) : O unit :=
  let! now := clock in
  let! job := perform (Journal (CallClaimRecovery id (recovery_owner self) now (recovery_lease_seconds self)))
                (claim_recovery id (recovery_owner self) now (recovery_lease_seconds self)) in
  match job with
  | None => o_ret tt
  | Some job =>
      o_catch
        (if activation_state (job_state job) && job_save_requested job then recover_activation job
         else if state_is CREDENTIAL_ISSUED job || state_is VERIFYING job || state_is VERIFIED job
         then recover_validation job
         else o_ret tt)
        (fun e => match e with
                  | ERegistry x => if is_registry_error x then Some (reload_after_fence_loss id) else None
                  | _ => None
                  end)
  end.

Definition recover : O unit :=
  let! now := clock in
  let! ids := perform (Journal (CallPrepareRecovery now)) (prepare_recovery now) in
  o_iter recover_job ids ;;!
  let! terminals := transact list_terminal_cleanup in
  o_iter (fun job => cleanup_terminal job ;;! o_ret tt) terminals.
End Recovery.
