(* ===== verification/Removals.v ===== *)
(** * Removal and update of registered Agents

    The removal saga ([_resume_removal], [remove_agent], [recover_removals]) and
    [update_agent] of [EnrollmentOrchestrator], as programs of [Saga]. *)

From stdpp Require Import base tactics list gmap strings.
From Stdlib Require Import ZArith Lia.
From S2P Require Import Prelude Text Sql Models Schema EnrollmentJournal ManagerRegistry RemovalJournal.
From S2P Require Import EnrollmentJobs Lifecycle Gateway SecretFiles TargetPolicy AgentClient Saga Recovery.

Section Removals.
Context `{Outside} `{UrlLib} (self : Config).

(** ** The saga *)
Definition rem_transition (job : AgentRemovalJob) (phase : string) (code : option string) : O AgentRemovalJob :=
  let! now := clock in
  perform (Removal (CallTransition job phase now code)) (transition job phase now code).

Definition phase_is (phase : string) (job : AgentRemovalJob) : bool := bool_decide (removal_phase job = phase).

(** A failure leaves the phase [residual] and is raised as recoverable. *)
Definition leave_residual {A} (job : AgentRemovalJob) (code dispatch : string) : O A :=
  rem_transition job "residual" (Some code) ;;! o_raise (ESaga code dispatch true).

Definition local_dispatch (job : AgentRemovalJob) : string :=
  if removal_local_only job then "not_dispatched" else "dispatched".

(** From [pending], [revoking] or [residual] to [revoked]. *)
Definition revoke_removed (current : AgentRemovalJob) : O AgentRemovalJob :=
  let! current :=
    if negb (removal_local_only current) &&
       negb (bool_decide (removal_enrollment_method current = LEGACY_ADMIN_TOKEN))
    then
      if negb (has_agent_client self) then o_raise (EConflict "agent_removal_unavailable")
      else
        let! current := if phase_is "revoking" current then o_ret current
                        else rem_transition current "revoking" None in
        o_catch
          (let! target := prepare (Prepare (removal_normalized_endpoint current)
                                     (removal_transport_profile_id current)) in
           let! token := store_read (Some (removal_credential_ref current)) in
           ask (Revoke target token (removal_remote_credential_id current)) ;;!
           o_ret current)
          (fun e => match e with
                    | EValidation code dispatch => Some (leave_residual current code dispatch)
                    | EStore => Some (leave_residual current "agent_credential_unavailable" "not_dispatched")
                    | _ => None
                    end)
    else o_ret current in
  rem_transition current "revoked" None.

(** From [revoked] to [registry_deleted]. *)
Definition delete_removed (current : AgentRemovalJob) : O AgentRemovalJob :=
  let! deleted := perform (Registry (CallDeleteIf (removal_agent_id current) (removal_captured_revision current)
                               (removal_credential_ref current) None (Some (removal_id current))))
                    (delete_if_revision_and_credential (removal_agent_id current)
                       (removal_captured_revision current) (removal_credential_ref current) None
                       (Some (removal_id current))) in
  (if deleted : bool then log (Deleted (removal_agent_id current))
   else
     let! existing := r_get (removal_agent_id current) in
     match existing with
     | Some _ => leave_residual current "agent_changed" (local_dispatch current)
     | None => o_ret tt
     end) ;;!
  rem_transition current "registry_deleted" None.

(** From [registry_deleted] to [credential_deleted]. *)
Definition erase_removed (current : AgentRemovalJob) : O AgentRemovalJob :=
  lifecycle_lease
    (o_catch (store_delete (Some (removal_credential_ref current)))
       (fun e => match e with
                 | EStore => Some (leave_residual current "credential_cleanup_failed" (local_dispatch current))
                 | _ => None
                 end)) ;;!
  rem_transition current "credential_deleted" None.

Definition resume_removal (job : AgentRemovalJob) : O unit :=
  o_assert (has_removals self) (EConflict "agent_removal_unavailable") ;;!
  let! current := if phase_is "pending" job || phase_is "revoking" job || phase_is "residual" job
                  then revoke_removed job else o_ret job in
  let! current := if phase_is "revoked" current then delete_removed current else o_ret current in
  let! current := if phase_is "registry_deleted" current then erase_removed current else o_ret current in
  o_when (phase_is "credential_deleted" current) (rem_transition current "completed" None ;;! o_ret tt).

(** ** Entry points *)
Definition gate {A} (f : Gateway -> A * Gateway) : O A := fun w =>
  let '(a, g) := f (mem_gateway (w_mem w)) in (inr a, w <| w_mem := (w_mem w) <| mem_gateway := g |> |>).

Definition gate_begin (agent : string) : O bool :=
  if has_terminal_usage self then let! now := clock in gate (begin_removal agent now) else o_ret true.

Definition gate_abort (agent : string) : O unit :=
  o_when (has_terminal_usage self) (gate (fun g => (tt, abort_removal agent g))).

Definition remove_agent (agent : string) (audit_event_id : Z) (local_only : bool) : O unit :=
  o_assert (has_removals self) (EConflict "agent_removal_unavailable") ;;!
  let! free := gate_begin agent in
  o_assert free (EConflict "agent_in_use") ;;!
  o_finally
    (let! job := o_catch
       (let! now := clock in
        let! id := uuid4 in
        perform (Removal (CallRemove id agent audit_event_id local_only now))
          (create_for_agent id agent audit_event_id local_only now))
       (fun e => match e with
                 | ERegistry (RegistryConflict code) => Some (o_raise (EConflict code))
                 | ERegistry x => if is_registry_error x
                                  then Some (o_raise (EConflict "agent_removal_unavailable")) else None
                 | _ => None
                 end) in
     o_catch (resume_removal job)
       (fun e => match e with
                 | ERegistry x => if is_registry_error x
                                  then Some (o_raise (EConflict "agent_registry_unavailable")) else None
                 | _ => None
                 end))
    (gate_abort agent).

Definition removal_is_recoverable (audit_event_id : Z) : O bool :=
  if has_removals self then transact (audit_is_recoverable audit_event_id) else o_ret false.

(** One round of [recover_removals]; [continue] on a conflict. *)
Definition recover_removal (job : AgentRemovalJob) : O unit :=
  let! free := gate_begin (removal_agent_id job) in
  if negb free then o_ret tt
  else
    o_finally
      (let! finished := o_catch (resume_removal job ;;! o_ret true)
                          (fun e => match e with
                                    | EConflict _ | ESaga _ _ _ => Some (o_ret false)
                                    | _ => None
                                    end) in
       o_when finished
         (perform (Removal (CallFinalizeAudit job true)) (finalize_audit_if_pending job true) ;;! o_ret tt))
      (gate_abort (removal_agent_id job)).

Definition recover_removals : O unit :=
  if negb (has_removals self) then o_ret tt
  else
    perform (Removal CallFinalizeOrphans) finalize_orphaned_pending_audits ;;!
    let! jobs := transact list_recoverable in
    o_iter recover_removal jobs.

(** ** Update of an Agent *)

(** The validation of a changed target: the endpoint, and the reference of
    the new credential for an Agent without an instance. *)
Definition revalidate (current : AgentRecord) (endpoint profile : string) (legacy_token : option string)
    : O (string * option string) :=
  if is_none (agent_instance_id current) then
    if negb (truthy legacy_token) then o_raise (EConflict "legacy_revalidation_required")
    else if negb (has_agent_client self) then o_raise (EConflict "agent_validation_unavailable")
    else
      let token := default "" legacy_token in
      o_catch
        (let! target := prepare (Prepare endpoint profile) in
         let! validation := ask (ValidateLegacy target token) in
         let! reference := store_put token in
         o_ret (validation_normalized_endpoint validation, Some reference))
        (fun e => match e with
                  | EValidation code dispatch => Some (o_raise (ESaga code dispatch false))
                  | EStore => Some (o_raise (ESaga "agent_credential_unavailable" "dispatched" false))
                  | _ => None
                  end)
  else if negb (has_agent_client self) then o_raise (EConflict "agent_validation_unavailable")
  else
    let! validation := o_catch
      (let! target := prepare (Prepare endpoint profile) in
       let! token := store_read (Some (agent_credential_ref current)) in
       ask (ValidatePending target token (agent_instance_id current)))
      (fun e => match e with
                | EValidation code dispatch => Some (o_raise (ESaga code dispatch false))
                | EStore => Some (o_raise (ESaga "agent_credential_unavailable" "not_dispatched" false))
                | _ => None
                end) in
    if negb (bool_decide (validation_instance_id validation = agent_instance_id current))
    then o_raise (ESaga "agent_identity_changed" "dispatched" false)
    else o_ret (validation_normalized_endpoint validation, None).

(** [except CredentialStoreError: pass] *)
Definition delete_quietly (reference : string) : O unit :=
  o_catch (store_delete (Some reference)) (fun e => match e with EStore => Some (o_ret tt) | _ => None end).

Definition update_agent (agent : string) (display_name : option string) (enabled : option bool)
    (base_url transport_profile_id legacy_token : option string) : O AgentRecord :=
  let! found := r_get agent in
  match found with
  | None => o_raise (EConflict "agent_not_found")
  | Some current =>
      let endpoint := or_else base_url (agent_normalized_endpoint current) in
      let profile := or_else transport_profile_id (agent_transport_profile_id current) in
      let target_changed :=
        negb (bool_decide (endpoint = agent_normalized_endpoint current)) ||
        negb (bool_decide (profile = agent_transport_profile_id current)) in
      let! (endpoint, new_credential_ref) :=
        if target_changed then revalidate current endpoint profile legacy_token
        else o_ret (endpoint, None) in
      let candidate :=
        current <| agent_display_name := or_else display_name (agent_display_name current) |>
                <| agent_enabled := default (agent_enabled current) enabled |>
                <| agent_normalized_endpoint := endpoint |>
                <| agent_transport_profile_id := profile |>
                <| agent_credential_ref := or_else new_credential_ref (agent_credential_ref current) |> in
      let dispatch := if target_changed then "dispatched" else "not_dispatched" in
      let undo : O unit := match new_credential_ref with
                           | Some r => delete_quietly r
                           | None => o_ret tt
                           end in
      let! result := o_catch
        (let! now := clock in
         let! updated := perform (Registry (CallUpdateReset candidate (agent_revision current) now None None))
                           (update_and_reset_status candidate (agent_revision current) now None None) in
         o_ret updated)
        (fun e => match e with
                  | ERegistry RevisionConflict => Some (undo ;;! o_raise (ESaga "agent_changed" dispatch false))
                  | ERegistry (RegistryConflict code) =>
                      Some (undo ;;!
                            o_raise (ESaga (if bool_decide (code = "agent_mutation_in_progress")
                                            then "agent_mutation_in_progress" else "agent_already_registered")
                                       dispatch false))
                  | ERegistry x => Some (undo ;;!
                      o_raise (if is_registry_error x then ESaga "agent_registry_unavailable" dispatch false
                               else ERegistry x))
                  | _ => None
                  end) in
      match new_credential_ref with
      | Some _ => delete_quietly (agent_credential_ref current)
      | None => o_ret tt
      end ;;!
      o_ret result
  end.
End Removals.
