(* ===== verification/Enrollments.v ===== *)
(** * Creation, submission and saving of enrollments

    The methods of [EnrollmentOrchestrator] behind the HTTP routes and the
    manager socket: creation, the background issue over SSH, CLI submissions,
    the validation of a legacy token, the local bootstrap, saving, rotation and
    the start-up sequence, as programs of [Saga]. *)

From stdpp Require Import base tactics list gmap strings.
From Stdlib Require Import ZArith Lia.
From S2P Require Import Prelude Text Sql Digest Models Schema MutationFence EnrollmentJournal.
From S2P Require Import ManagerRegistry RemovalJournal EnrollmentJobs Lifecycle Gateway SecretFiles TargetPolicy AgentClient Saga.
From S2P Require Import Recovery Removals.

#[local] Set Primitive Projections.
Record EnrollmentPublicResult := mkPublicResult {
  result_job : EnrollmentJob;
  result_validation : option EnrollmentValidation;
  result_manager_socket_path : option string;
  result_transport_security : option string
}.

Record CliSubmissionClaim := mkClaim {
  claim_job : EnrollmentJob;
  claim_target : option ValidatedTarget;
  claim_input_fingerprint : string;
  claim_audit_event_id : Z;
  claim_nonce : string;
  claim_already_accepted : bool
}.

Record LocalBootstrapRequest := mkLocalBootstrap {
  local_agent_id : string;
  local_display_name : string;
  local_base_url : string;
  local_transport_profile_id : string;
  local_agent_socket_path : string
}.
#[local] Unset Primitive Projections.

(** The job without an adapter waits for the command line. *)
Definition await_cli (code : string) (now : time) (j : EnrollmentJob) : EnrollmentJob :=
  j <| job_state := AWAITING_CLI |> <| job_enrollment_method := SSH_CLI |>
    <| job_last_error_code := Some code |> <| job_updated_at := now |>.

Definition exception_code (default_code : string) (e : oexn) : string :=
  match e with
  | EValidation c _ | EConflict c | ESaga c _ _ | ESsh c _ | ELocalSocket c => c
  | _ => default_code
  end.

Section Enrollments.
Context `{Outside} `{UrlLib} (self : Config).

Definition public_result (job : EnrollmentJob) (validation : option EnrollmentValidation)
    : EnrollmentPublicResult :=
  mkPublicResult job validation (manager_socket_path self)
    (transport_profiles self !! job_transport_profile_id job).

Definition adapter_of (method : EnrollmentMethod) : option bool :=
  if bool_decide (method = SSH_SERVICE_KEY) then service_key_adapter self else ssh_adapter self.

Definition auto_method : EnrollmentMethod :=
  if service_key_configured self then SSH_SERVICE_KEY else SSH_AUTO.

(** [_schedule_auto]: the background task starts, once per job. *)
Definition schedule_auto (job : EnrollmentJob) : O unit :=
  on_memory (fun m =>
    if mem_closing m || bool_decide (job_enrollment_id job ∈ mem_background m) then m
    else m <| mem_background := {[job_enrollment_id job]} ∪ mem_background m |>).

(** ** Creation *)
Definition orchestrator_create (request : EnrollmentJobRequest) : O EnrollmentPublicResult :=
  let! now := clock in
  let! id := uuid4 in
  let! job := service (fun _ => jobs_create (orchestrator_jobs self) request None id now PENDING) in
  o_ret (public_result job None).

(** What [create_auto] and [start_rotation] do with their new job. *)
Definition start_auto (method : EnrollmentMethod) (pending : EnrollmentJob) : O EnrollmentPublicResult :=
  let! closing := memory mem_closing in
  if closing || negb (default false (adapter_of method)) then
    let! now := clock in
    let! awaiting := j_replace (await_cli "ssh_unavailable" now pending) PENDING no_fence in
    o_ret (public_result awaiting None)
  else
    let! now := clock in
    let! running := perform (Journal (CallClaimPendingAuto (job_enrollment_id pending) now))
                      (claim_pending_auto (job_enrollment_id pending) now) in
    match running with
    | None =>
        let! current := j_get (job_enrollment_id pending) in
        match current with
        | None => o_raise (ERegistry RegistryError)
        | Some current => o_ret (public_result current None)
        end
    | Some running => schedule_auto running ;;! o_ret (public_result running None)
    end.

Definition create_auto (request : EnrollmentJobRequest) : O EnrollmentPublicResult :=
  let request := request <| request_enrollment_method := auto_method |> in
  let! now := clock in
  let! id := uuid4 in
  let! pending := service (fun _ => jobs_create (orchestrator_jobs self) request None id now PENDING) in
  start_auto auto_method pending.

Definition start_rotation (agent ssh_user ssh_host : string) (ssh_port : Z) : O EnrollmentPublicResult :=
  let! now := clock in
  let! id := uuid4 in
  let! pending := service (fun _ => jobs_create_rotation (orchestrator_jobs self)
    (mkRequest "rotation-captured" "rotation-captured" None (Some ssh_user) (Some ssh_host) (Some ssh_port)
       auto_method None (Some agent)) id now) in
  start_auto auto_method pending.

Definition orchestrator_get (id : string) : O EnrollmentPublicResult :=
  let! now := clock in
  let! job := service (fun others => jobs_get others id now) in
  let! validation := memory (fun m => mem_cache m !! id) in
  o_ret (public_result job validation).

(** ** Publication of an issued credential *)
Definition issued_job (current : EnrollmentJob) (helper : EnrollmentHelperResult) (reference : string)
    (cli : bool) (now : time) : EnrollmentJob :=
  current <| job_state := CREDENTIAL_ISSUED |>
          <| job_remote_instance_id := Some (helper_instance_id helper) |>
          <| job_remote_credential_id := Some (helper_credential_id helper) |>
          <| job_credential_temp_ref := Some reference |>
          <| job_validated_http_address := Some (ip_text (vt_pinned_address (helper_validation_target helper))) |>
          <| job_recovery_owner := if cli then None else job_recovery_owner current |>
          <| job_recovery_lease_until := if cli then None else job_recovery_lease_until current |>
          <| job_recovery_revision := if cli then (job_recovery_revision current + 1)%Z
                                      else job_recovery_revision current |>
          <| job_updated_at := now |>.

(** The part under the lease: the credential is stored, then named by the job.
    Any exception after it was stored, also one of the lease's own, deletes it. *)
Definition publish_issued (job : EnrollmentJob) (helper : EnrollmentHelperResult)
    (expected_method : EnrollmentMethod) : O EnrollmentJob :=
  let cli := bool_decide (expected_method = SSH_CLI) in
  set_reference None ;;!
  o_catch
    (lifecycle_lease
       (let! found := j_get (job_enrollment_id job) in
        match found with
        | None => o_raise EAutoStateLost
        | Some current =>
            if negb (state_is RUNNING current) ||
               negb (bool_decide (job_enrollment_method current = expected_method)) ||
               (cli && (negb (bool_decide (job_recovery_owner current = job_recovery_owner job)) ||
                        negb (job_recovery_revision current =? job_recovery_revision job)%Z))
            then o_raise EAutoStateLost
            else
              let! reference := store_put (helper_token helper) in
              set_reference (Some reference) ;;!
              let! now := clock in
              let! recovery_now := if cli then let! t := clock in o_ret (Some t) else o_ret None in
              j_replace (issued_job current helper reference cli now) RUNNING
                (mkFence (if cli then job_recovery_owner current else None)
                   (if cli then Some (job_recovery_revision current) else None) recovery_now)
        end))
    (fun e => if is_exception e then
                Some (let! stored := get_reference in
                      match stored with
                      | Some reference => store_delete (Some reference)
                      | None => o_ret tt
                      end ;;!
                      o_raise e)
              else None).

Definition publish_managed_helper (job : EnrollmentJob) (helper : EnrollmentHelperResult)
    (expected_method : EnrollmentMethod) : O unit :=
  let! issued := publish_issued job helper expected_method in
  let! now := clock in
  let! verifying := j_replace (issued <| job_state := VERIFYING |> <| job_updated_at := now |>)
                      CREDENTIAL_ISSUED no_fence in
  o_assert (has_agent_client self) (EValidation "enrollment_unavailable" "not_dispatched") ;;!
  let! token := store_read (job_credential_temp_ref verifying) in
  let! validation := ask (ValidatePending (helper_validation_target helper) token (Some (helper_instance_id helper))) in
  cache_validation (job_enrollment_id verifying) validation ;;!
  o_catch
    (let! now := clock in
     j_replace (verifying <| job_state := VERIFIED |> <| job_updated_at := now |>) VERIFYING no_fence ;;! o_ret tt)
    (fun e => if is_exception e
              then Some (on_memory (fun m => m <| mem_cache := delete (job_enrollment_id verifying) (mem_cache m) |>) ;;!
                         o_raise e)
              else None).

(** ** Background issue over SSH *)
Definition converge_auto (id code : string) (state : EnrollmentState) : O unit :=
  let! found := j_get id in
  match found with
  | None => o_ret tt
  | Some current =>
      if negb (state_is RUNNING current) then o_ret tt
      else
        unless_registry_error tt
          (let! now := clock in
           j_replace (current <| job_state := state |> <| job_last_error_code := Some code |>
                              <| job_updated_at := now |>) RUNNING no_fence ;;! o_ret tt)
  end.

Definition record_intent : O (option Z) :=
  let! n := advance in
  match out_intent n with
  | Some id => log (Intended id) ;;! o_ret (Some id)
  | None => o_ret None
  end.

(** Failures of the audit log are swallowed. *)
Definition record_auto_outcome (event_id : option Z) (result dispatch : string) (category : option string) : O unit :=
  match event_id with
  | Some id => o_when (has_auto_audit self) (log (Concluded id result dispatch category))
  | None => o_ret tt
  end.

Definition issue_and_validate_auto (job : EnrollmentJob) : O unit :=
  match adapter_of (job_enrollment_method job), job_ssh_user job, job_ssh_host job, job_ssh_port job with
  | Some _, Some user, Some host, Some port =>
      if bool_decide (user = "") || bool_decide (host = "") || (port =? 0)%Z ||
         is_none (transport_profiles self !! job_transport_profile_id job)
      then o_raise (ESsh "ssh_unavailable" "not_dispatched")
      else
        let! helper := issue (IssueSsh (bool_decide (job_enrollment_method job = SSH_SERVICE_KEY))
          (mkSshRequest (job_manager_id job) (job_enrollment_id job) (job_normalized_endpoint job)
             user host port (job_expires_at job)) (job_transport_profile_id job)) in
        let! closing := memory mem_closing in
        if closing : bool then o_raise EAutoStateLost
        else publish_managed_helper job helper (job_enrollment_method job)
  | _, _, _, _ => o_raise (ESsh "ssh_unavailable" "not_dispatched")
  end.

(** The exception clauses of [_run_auto], in order. *)
Definition conclude_auto (job : EnrollmentJob) (event_id : option Z) (e : oexn) : O unit :=
  let id := job_enrollment_id job in
  let failure dispatch code := record_auto_outcome event_id "failure" dispatch (Some code) in
  let! closing := memory mem_closing in
  match e with
  | ECancelled =>
      (if closing : bool then o_ret tt else failure "unknown" "agent_enrollment_cancelled") ;;! o_raise ECancelled
  | EAutoStateLost => if closing : bool then o_ret tt else failure "unknown" "agent_enrollment_cancelled"
  | ESsh code dispatch =>
      converge_auto id code (if bool_decide (code = "ssh_interaction_required") then AWAITING_CLI else FAILED) ;;!
      failure dispatch code
  | EStore =>
      converge_auto id "credential_store_unavailable" FAILED ;;! failure "dispatched" "credential_store_unavailable"
  | EValidation code dispatch => failure dispatch code
  | ERegistry x =>
      if is_registry_error x then
        converge_auto id "storage_unavailable" FAILED ;;! failure "dispatched" "storage_unavailable"
      else
        let! current := j_get id in
        o_when (from_option (state_is RUNNING) false current) (converge_auto id "ssh_remote_command_failed" FAILED) ;;!
        failure "dispatched" "ssh_remote_command_failed"
  | EHalt => o_raise EHalt
  | EOs | EConflict _ | ESaga _ _ _ | ELocalSocket _ | EOther =>
      let! current := j_get id in
      o_when (from_option (state_is RUNNING) false current) (converge_auto id "ssh_remote_command_failed" FAILED) ;;!
      failure "dispatched" "ssh_remote_command_failed"
  end.

(** [_run_auto]; the exceptions of the part before the dispatch are the same
    clauses' business, with no event recorded yet. *)
Definition run_auto (job : EnrollmentJob) : O unit :=
  let id := job_enrollment_id job in
  if negb (has_auto_audit self) then
    o_catch (converge_auto id "audit_unavailable" FAILED) (fun e => Some (conclude_auto job None e))
  else
    let! event_id := record_intent in
    match event_id with
    | None => o_catch (converge_auto id "audit_unavailable" FAILED) (fun e => Some (conclude_auto job None e))
    | Some _ =>
        let! finished := o_catch
          (let! now := clock in
           let! dispatch_job := perform (Journal (CallRecheckAuto id now)) (recheck_auto_dispatch id now) in
           match dispatch_job with
           | None =>
               record_auto_outcome event_id "failure" "not_dispatched" (Some "agent_enrollment_cancelled") ;;!
               o_ret false
           | Some dispatch_job => issue_and_validate_auto dispatch_job ;;! o_ret true
           end)
          (fun e => Some (conclude_auto job event_id e ;;! o_ret false)) in
        o_when finished (record_auto_outcome event_id "success" "dispatched" None)
    end.

(** ** Saving *)

(** What remains of a save after [recover]: a stored failure, the error of the
    job, or a pending activation. *)
Definition save_failure (id : string) (code : option string) : O AgentRecord :=
  let! failure := memory (fun m => mem_failures m !! id) in
  on_memory (fun m => m <| mem_failures := delete id (mem_failures m) |>) ;;!
  match failure with
  | Some (code, dispatch) => o_raise (ESaga code dispatch false)
  | None => o_raise (ESaga (or_else code "agent_enrollment_activation_pending") "unknown" false)
  end.

Definition orchestrator_consume (id : string) (display_name : option string) (input_fingerprint : string)
    : O AgentRecord :=
  let! now := clock in
  let! current := service (fun others => jobs_get others id now) in
  if state_is CONSUMED current then o_raise (EConflict "agent_enrollment_consumed")
  else if state_is EXPIRED current then o_raise (EConflict "agent_enrollment_expired")
  else if negb (state_is VERIFIED current) then o_raise (EConflict "agent_enrollment_not_verified")
  else if negb (bool_decide (input_fingerprint = job_input_fingerprint current))
  then o_raise (EConflict "agent_enrollment_input_changed")
  else
    let! validation := memory (fun m => mem_cache m !! id) in
    let name := or_else display_name (or_else (job_requested_display_name current)
                  (default "" (validation ≫= validation_name))) in
    if bool_decide (name = "") then o_raise (EConflict "agent_display_name_required")
    else
      let! duplicate := transact (find_duplicate (job_remote_instance_id current) (job_normalized_endpoint current)) in
      if is_some duplicate then o_raise (EConflict "agent_already_registered")
      else
        let! now := clock in
        let! requested := service (fun others => jobs_consume others id name input_fingerprint now) in
        recover self ;;!
        let! finished := j_get (job_enrollment_id requested) in
        let! record := r_get (job_enrollment_id requested) in
        match finished, record with
        | Some j, Some record => if state_is CONSUMED j then o_ret record else save_failure id (job_last_error_code j)
        | finished, _ => save_failure id (finished ≫= job_last_error_code)
        end.

Definition orchestrator_consume_rotation (agent id : string) : O AgentRecord :=
  let! now := clock in
  let! current := service (fun others => jobs_get others id now) in
  let! registered := r_get agent in
  match registered with
  | None => o_raise (EConflict "agent_not_found")
  | Some registered =>
      if negb (bool_decide (job_replace_agent_id current = Some agent))
      then o_raise (EConflict "agent_enrollment_conflict")
      else if negb (bool_decide (job_old_enrollment_method current = Some LEGACY_ADMIN_TOKEN)) &&
              negb (bool_decide (job_remote_instance_id current = job_old_instance_id current))
      then o_raise (ESaga "agent_identity_changed" "not_dispatched" false)
      else
        let! now := clock in
        let! requested := service (fun _ => jobs_consume_rotation id agent
          (or_else (job_old_display_name current) (agent_display_name registered)) now) in
        recover self ;;!
        let! finished := j_get (job_enrollment_id requested) in
        let! rotated := r_get agent in
        match finished, rotated with
        | Some j, Some rotated =>
            if state_is CONSUMED j then o_ret rotated
            else save_failure (job_enrollment_id requested) (job_last_error_code j)
        | finished, _ => save_failure (job_enrollment_id requested) (finished ≫= job_last_error_code)
        end
  end.

(** The cancelled background task is another coroutine. *)
Definition orchestrator_cancel (id : string) : O EnrollmentPublicResult :=
  lifecycle_lease
    (let! now := clock in
     let! cancelled := service (fun others => jobs_cancel others id now) in
     let! job := cleanup_terminal cancelled in
     o_ret (public_result job None)).

(** ** Legacy tokens *)
Definition validate_legacy_steps (job : EnrollmentJob) (target : ValidatedTarget) (token : string)
    : O EnrollmentPublicResult :=
  let! (reference, issued) := lifecycle_lease
    (let! reference := store_put token in
     let! now := clock in
     let! running := j_replace (job <| job_state := RUNNING |> <| job_updated_at := now |>) PENDING no_fence in
     let! now := clock in
     let! issued := j_replace (running <| job_state := CREDENTIAL_ISSUED |>
                                       <| job_credential_temp_ref := Some reference |>
                                       <| job_updated_at := now |>) RUNNING no_fence in
     o_ret (reference, issued)) in
  let! now := clock in
  let! verifying := j_replace (issued <| job_state := VERIFYING |> <| job_updated_at := now |>)
                      CREDENTIAL_ISSUED no_fence in
  let! secret := store_read (Some reference) in
  let! validation := ask (ValidateLegacy target secret) in
  let! now := clock in
  let! verified := j_replace (verifying <| job_state := VERIFIED |> <| job_updated_at := now |>)
                     VERIFYING no_fence in
  cache_validation (job_enrollment_id verified) validation ;;!
  o_ret (public_result verified (Some validation)).

(** [except Exception: pass] *)
Definition quietly (m : O unit) : O unit :=
  o_catch m (fun e => if is_exception e then Some (o_ret tt) else None).

Definition validate_legacy (base_url profile token : string) : O EnrollmentPublicResult :=
  if negb (has_agent_client self) then o_raise (EValidation "enrollment_unavailable" "not_dispatched")
  else
    let! target := prepare (Prepare base_url profile) in
    let! now := clock in
    let! id := uuid4 in
    let! job := service (fun _ => jobs_create (orchestrator_jobs self)
      (mkRequest (vt_normalized_endpoint target) profile None None None None LEGACY_ADMIN_TOKEN None None)
      None id now PENDING) in
    let fail code :=
      let! found := j_get (job_enrollment_id job) in
      match found with
      | Some current =>
          o_when (live current)
            (quietly
               (let! now := clock in
                let! failed := j_replace (current <| job_state := FAILED |> <| job_last_error_code := Some code |>
                                                  <| job_updated_at := now |>) (job_state current) no_fence in
                cleanup_terminal failed ;;! o_ret tt))
      | None => o_ret tt
      end in
    o_catch (validate_legacy_steps job target token)
      (fun e => match e with
                | EValidation code _ => Some (fail code ;;! o_raise e)
                | EStore => Some (fail "credential_store_unavailable" ;;!
                                  o_raise (EValidation "credential_store_unavailable" "not_dispatched"))
                | _ => None
                end).

(** ** CLI submissions *)
Definition cli_conflict : oexn := EValidation "agent_enrollment_conflict" "not_dispatched".

(** The states in which a submission was already accepted. *)
Definition accepted_state (s : EnrollmentState) : bool :=
  match s with CREDENTIAL_ISSUED | VERIFYING | VERIFIED | ACTIVATION_REQUESTED | ACTIVATED => true | _ => false end.

Definition resume_cli (job : EnrollmentJob) (fingerprint pinned : string) (peer_uid : Z) (nonce : string) (event : Z)
    : O CliSubmissionClaim :=
  if negb (is_canonical_uuid nonce) || negb (is_canonical_ip pinned) || (peer_uid <? 0)%Z
  then o_raise cli_conflict
  else if state_is CONSUMED job then
    if bool_decide (job_cli_accept_receipt job =
                    Some (cli_accept_receipt (job_enrollment_id job) nonce peer_uid fingerprint pinned))
    then o_ret (mkClaim job None fingerprint event nonce true)
    else o_raise cli_conflict
  else if negb (bool_decide (job_enrollment_method job = SSH_CLI) &&
                bool_decide (job_cli_resume_nonce job = Some nonce) &&
                bool_decide (job_cli_peer_uid job = Some peer_uid) &&
                bool_decide (job_cli_input_fingerprint job = Some fingerprint) &&
                bool_decide (job_cli_pinned_address job = Some pinned))
  then o_raise cli_conflict
  else
    let! target := prepare (PreparePinned (job_normalized_endpoint job) (job_transport_profile_id job) pinned) in
    if accepted_state (job_state job) then o_ret (mkClaim job (Some target) fingerprint event nonce true)
    else if state_is RUNNING job && bool_decide (job_recovery_owner job = Some nonce) then
      match job_recovery_lease_until job with
      | None => o_raise cli_conflict
      | Some until =>
          let! now := clock in
          if (now <? until)%Z then o_ret (mkClaim job (Some target) fingerprint event nonce false)
          else o_raise cli_conflict
      end
    else o_raise cli_conflict.

(** The claim of a first submission. *)
Definition claim_cli_job (job : EnrollmentJob) (nonce fingerprint pinned : string) (peer_uid : Z) (now : time)
    : EnrollmentJob :=
  job <| job_state := RUNNING |> <| job_enrollment_method := SSH_CLI |>
      <| job_recovery_owner := Some nonce |> <| job_recovery_lease_until := Some (job_expires_at job) |>
      <| job_recovery_revision := (job_recovery_revision job + 1)%Z |>
      <| job_cli_resume_nonce := Some nonce |> <| job_cli_peer_uid := Some peer_uid |>
      <| job_cli_input_fingerprint := Some fingerprint |> <| job_cli_pinned_address := Some pinned |>
      <| job_updated_at := now |>.

Definition begin_cli_steps (id ssh_user ssh_host : string) (ssh_port : Z) (pinned : string) (peer_uid : Z)
    (resume_nonce : option string) (event : Z) : O CliSubmissionClaim :=
  let! now := clock in
  let! job := service (fun others => jobs_get others id now) in
  if negb (bool_decide (job_ssh_user job = Some ssh_user) && bool_decide (job_ssh_host job = Some ssh_host) &&
           bool_decide (job_ssh_port job = Some ssh_port))
  then o_raise (EValidation "agent_enrollment_input_changed" "not_dispatched")
  else
    let fingerprint := job_input_fingerprint (job <| job_enrollment_method := SSH_CLI |>) in
    match resume_nonce with
    | Some nonce => resume_cli job fingerprint pinned peer_uid nonce event
    | None =>
        if negb (state_is AWAITING_CLI job) then o_raise cli_conflict
        else
          let! target := prepare (PrepareCli (job_normalized_endpoint job) (job_transport_profile_id job)
                                    ssh_host ssh_port pinned) in
          let! nonce := uuid4 in
          let! now := clock in
          let! claimed := j_replace (claim_cli_job job nonce fingerprint pinned peer_uid now) AWAITING_CLI no_fence in
          o_ret (mkClaim claimed (Some target) fingerprint event nonce false)
    end.

Definition begin_cli_submission (id ssh_user ssh_host : string) (ssh_port : Z) (pinned : string) (peer_uid : Z)
    (resume_nonce : option string) : O CliSubmissionClaim :=
  let! closing := memory mem_closing in
  if closing || negb (has_agent_client self) || negb (has_auto_audit self)
  then o_raise (EValidation "enrollment_unavailable" "not_dispatched")
  else
    let! event := record_intent in
    match event with
    | None => o_raise (EValidation "audit_unavailable" "not_dispatched")
    | Some event =>
        o_catch (begin_cli_steps id ssh_user ssh_host ssh_port pinned peer_uid resume_nonce event)
          (fun e => if is_exception e then
                      Some (record_auto_outcome (Some event) "failure" "not_dispatched"
                              (Some (match e with EValidation code _ => code | _ => "storage_unavailable" end)) ;;!
                            o_raise e)
                    else None)
    end.

Definition complete_cli_steps (claim : CliSubmissionClaim) (helper_payload input_fingerprint nonce : string)
    : O EnrollmentPublicResult :=
  if negb (bool_decide (nonce = claim_nonce claim)) ||
     negb (bool_decide (input_fingerprint = claim_input_fingerprint claim))
  then o_raise (EValidation "agent_enrollment_input_changed" "dispatched")
  else
    let id := job_enrollment_id (claim_job claim) in
    let! now := clock in
    let! current := perform (Journal (CallRecheckCli id (claim_nonce claim)
                                        (job_recovery_revision (claim_job claim)) now))
                      (recheck_cli_submission id (claim_nonce claim) (job_recovery_revision (claim_job claim)) now) in
    match current with
    | None =>
        let! latest := j_get id in
        o_raise (EValidation (if from_option (state_is EXPIRED) false latest then "agent_enrollment_expired"
                              else "agent_enrollment_conflict") "dispatched")
    | Some current =>
        match claim_target claim with
        | None => o_raise (EValidation "agent_enrollment_conflict" "dispatched")
        | Some target =>
            match out_parse_helper helper_payload
                    (mkSshRequest (job_manager_id current) (job_enrollment_id current) (job_normalized_endpoint current)
                       (default "" (job_ssh_user current)) (default "" (job_ssh_host current))
                       (default 0%Z (job_ssh_port current)) (job_expires_at current)) target now with
            | None => o_raise (ESsh "ssh_remote_command_failed" "dispatched")
            | Some helper =>
                publish_managed_helper current helper SSH_CLI ;;!
                record_auto_outcome (Some (claim_audit_event_id claim)) "success" "dispatched" None ;;!
                orchestrator_get id
            end
        end
    end.

Definition complete_cli_submission (claim : CliSubmissionClaim) (helper_payload input_fingerprint nonce : string)
    : O EnrollmentPublicResult :=
  o_catch (complete_cli_steps claim helper_payload input_fingerprint nonce)
    (fun e => if is_exception e then
                Some (record_auto_outcome (Some (claim_audit_event_id claim)) "failure" "dispatched"
                        (Some (exception_code "ssh_remote_command_failed" e)) ;;!
                      o_raise e)
              else None).

Definition release_cli_connection (claim : CliSubmissionClaim) (result_received : bool) (code : string) : O unit :=
  if bool_decide (code = "already_accepted")
  then record_auto_outcome (Some (claim_audit_event_id claim)) "success" "not_dispatched" None
  else record_auto_outcome (Some (claim_audit_event_id claim)) "failure"
         (if result_received then "dispatched" else "unknown") (Some code).

(** ** Start-up *)
Definition recover_auto_job (job : EnrollmentJob) : O unit :=
  match job_enrollment_method job with
  | SSH_AUTO | SSH_SERVICE_KEY =>
      if state_is PENDING job then
        if negb (default false (adapter_of (job_enrollment_method job))) then
          let! now := clock in
          j_replace (await_cli "ssh_unavailable" now job) PENDING no_fence ;;! o_ret tt
        else
          let! now := clock in
          let! running := perform (Journal (CallClaimPendingAuto (job_enrollment_id job) now))
                            (claim_pending_auto (job_enrollment_id job) now) in
          match running with
          | None => o_ret tt
          | Some running => schedule_auto running
          end
      else
        let! background := memory mem_background in
        o_when (state_is RUNNING job && is_none (job_credential_temp_ref job) &&
                negb (bool_decide (job_enrollment_id job ∈ background)))
          (let! now := clock in
           j_replace ((await_cli "ssh_interaction_required" now job)
                        <| job_recovery_owner := None |> <| job_recovery_lease_until := None |>
                        <| job_recovery_revision := (job_recovery_revision job + 1)%Z |>) RUNNING no_fence ;;!
           o_ret tt)
  | SSH_CLI | LOCAL_SOCKET | LEGACY_ADMIN_TOKEN => o_ret tt
  end.

Definition recover_auto_startup : O unit :=
  let! jobs := transact list_non_terminal in o_iter recover_auto_job jobs.

(** [cleanup_orphans(self.registry, self.journal)]: both sets are read from the
    database under the lease of the sweep. *)
Definition store_cleanup_orphans : O (list SecretFiles.finding) :=
  lifecycle_lease
    (let! registry := transact (query (fun db => inr (credential_references db))) in
     let! journal := transact (query (fun db => inr (recovery_credential_references db))) in
     store (cleanup_orphans registry journal)).

Definition recover_and_cleanup : O unit :=
  recover_removals self ;;!
  recover_auto_startup ;;!
  recover self ;;!
  store_cleanup_orphans ;;! o_ret tt.

(** ** Local bootstrap *)
Definition normalize_local_bootstrap_error (e : oexn) : string * string :=
  match e with
  | EValidation code dispatch | ESaga code dispatch _ => (code, dispatch)
  | ELocalSocket code =>
      (code, if bool_decide (code = "local_socket_path_rejected") ||
                bool_decide (code = "local_enrollment_request_invalid")
             then "not_dispatched" else "unknown")
  | EStore => ("credential_store_unavailable", "unknown")
  | ERegistry x => if is_registry_error x then ("storage_unavailable", "unknown")
                   else ("local_bootstrap_failed", "unknown")
  | EConflict code => (code, "not_dispatched")
  | _ => ("local_bootstrap_failed", "unknown")
  end.

Definition compensate_local_bootstrap (id : string) (helper : option EnrollmentHelperResult) (code : string) : O unit :=
  let! found := unless_registry_error None (let! j := j_get id in o_ret (Some j)) in
  match found with
  | None => o_ret tt
  | Some current =>
      if from_option (fun j => activation_state (job_state j)) false current then o_ret tt
      else
        let! revoked :=
          match helper with
          | None => o_ret true
          | Some h =>
              if negb (has_agent_client self) then o_ret true
              else o_catch (ask (Revoke (helper_validation_target h) (helper_token h)
                                   (Some (helper_credential_id h))) ;;! o_ret true)
                     (fun e => if is_exception e then Some (o_ret false) else None)
          end in
        if negb revoked then o_ret tt
        else
          match current with
          | None => o_ret tt
          | Some current =>
              if negb (live current) then o_ret tt
              else
                let! after :=
                  if bool_decide (job_recovery_owner current = Some (recovery_owner self)) then
                    fail_claimed self current code ;;! j_get id
                  else
                    unless_registry_error None
                      (let! now := clock in
                       let! failed := j_replace (current <| job_state := FAILED |>
                                                         <| job_last_error_code := Some code |>
                                                         <| job_updated_at := now |>) (job_state current) no_fence in
                       o_ret (Some failed)) in
                match after with
                | Some j => o_when (negb (live j)) (quietly (cleanup_terminal j ;;! o_ret tt))
                | None => o_ret tt
                end
          end
  end.

Definition finish_local_bootstrap_failure (id : string) (helper : option EnrollmentHelperResult)
    (event : option Z) (code dispatch : string) : O unit :=
  o_finally (quietly (compensate_local_bootstrap id helper code))
    (record_auto_outcome event "failure" dispatch (Some code)).

(** The job to bootstrap: a new one, or an expired one that is armed again. *)
Definition local_pending (request : LocalBootstrapRequest) (target : ValidatedTarget) : O (EnrollmentJob * bool) :=
  let job_request := mkRequest (vt_normalized_endpoint target) (local_transport_profile_id request)
                       (Some (local_display_name request)) None None None LOCAL_SOCKET None None in
  let retry_pending : oexn := EValidation "local_bootstrap_retry_pending" "not_dispatched" in
  let! now := clock in
  let! found := j_get (local_agent_id request) in
  match found with
  | None =>
      let! pending := service (fun _ => jobs_create (orchestrator_jobs self) job_request
                                          (Some (local_agent_id request)) "" now PENDING) in
      o_ret (pending, false)
  | Some _ =>
      let! current := service (fun others => jobs_get others (local_agent_id request) now) in
      if negb (bool_decide (job_enrollment_method current = LOCAL_SOCKET) &&
               bool_decide (job_normalized_endpoint current = vt_normalized_endpoint target) &&
               bool_decide (job_transport_profile_id current = local_transport_profile_id request) &&
               bool_decide (job_requested_display_name current = Some (local_display_name request)))
      then o_raise (EValidation "local_bootstrap_conflict" "not_dispatched")
      else if state_is CONSUMED current || live current || (now <? job_expires_at current)%Z
      then o_raise retry_pending
      else
        let! current := if is_some (job_credential_temp_ref current) then cleanup_terminal current
                        else o_ret current in
        if is_some (job_credential_temp_ref current) then o_raise retry_pending
        else
          let! pending := o_catch
            (service (fun _ => jobs_rearm_expired_local (orchestrator_jobs self) job_request
                                 (local_agent_id request) now))
            (fun e => match e with
                      | EConflict code => Some (o_raise (EValidation code "not_dispatched"))
                      | _ => None
                      end) in
          o_ret (pending, true)
  end.

(** The exception clauses compensate with the helper, once it was issued. *)
Definition local_failure (running : EnrollmentJob) (event : option Z) (helper : option EnrollmentHelperResult)
    (e : oexn) : O AgentRecord :=
  match e with
  | ECancelled =>
      o_catch (finish_local_bootstrap_failure (job_enrollment_id running) helper event
                 "local_bootstrap_cancelled" "unknown") (fun _ => Some (o_ret tt)) ;;!
      o_raise ECancelled
  | _ =>
      let '(code, dispatch) := normalize_local_bootstrap_error e in
      finish_local_bootstrap_failure (job_enrollment_id running) helper event code dispatch ;;!
      o_raise (EValidation code dispatch)
  end.

Definition local_steps (request : LocalBootstrapRequest) (target : ValidatedTarget) (running : EnrollmentJob)
    (retry : bool) : O AgentRecord :=
  if negb (has_auto_audit self)
  then local_failure running None None (EValidation "audit_unavailable" "not_dispatched")
  else
    let! event := record_intent in
    match event with
    | None => local_failure running None None (EValidation "audit_unavailable" "not_dispatched")
    | Some id =>
        let! issued := o_catch
          (let! h := issue (IssueLocal (local_agent_socket_path request) (job_manager_id running)
                              (job_enrollment_id running) target retry) in o_ret (inr h))
          (fun e => Some (o_ret (inl e))) in
        match issued with
        | inl e => local_failure running event None e
        | inr helper =>
            let! record := o_catch
              (let! closing := memory mem_closing in
               o_assert (negb closing) (EValidation "local_bootstrap_cancelled" "unknown") ;;!
               publish_managed_helper running helper LOCAL_SOCKET ;;!
               orchestrator_consume (job_enrollment_id running) (Some (local_display_name request))
                 (job_input_fingerprint running))
              (fun e => Some (local_failure running event (Some helper) e)) in
            record_auto_outcome event "success" "dispatched" None ;;!
            o_ret record
        end
    end.

Definition bootstrap_local_steps (request : LocalBootstrapRequest) : O AgentRecord :=
  let! closing := memory mem_closing in
  if negb (local_bootstrap_enabled self) || negb (has_local_socket_client self) ||
     negb (has_agent_client self) || closing
  then o_raise (EValidation "local_bootstrap_disabled" "not_dispatched")
  else if negb (bool_decide (local_transport_profile_id request = LOCAL_BOOTSTRAP_PROFILE_ID))
  then o_raise (EValidation "local_bootstrap_profile_invalid" "not_dispatched")
  else
    let! existing := r_get (local_agent_id request) in
    match existing with
    | Some a =>
        if bool_decide (agent_enrollment_method a = LOCAL_SOCKET) &&
           bool_decide (agent_source a = LOCAL_BOOTSTRAP_SOURCE) &&
           bool_decide (agent_normalized_endpoint a = local_base_url request) &&
           bool_decide (agent_transport_profile_id a = local_transport_profile_id request) &&
           bool_decide (agent_display_name a = local_display_name request)
        then o_ret a
        else o_raise (EValidation "local_bootstrap_conflict" "not_dispatched")
    | None =>
        let! target := prepare (PrepareLocal (local_base_url request) (local_transport_profile_id request)) in
        let! (pending, retry) := local_pending request target in
        let! now := clock in
        let! running := j_replace (pending <| job_state := RUNNING |> <| job_updated_at := now |>) PENDING no_fence in
        local_steps request target running retry
    end.

Definition bootstrap_local (request : LocalBootstrapRequest) : O AgentRecord :=
  o_catch (bootstrap_local_steps request)
    (fun e => if is_exception e
              then let '(code, dispatch) := normalize_local_bootstrap_error e in
                   Some (o_raise (EValidation code dispatch))
              else None).
End Enrollments.
