(* ===== verification/SagaSamples.v ===== *)
(** * A concrete outside for the witnesses

    A credential directory, and an outside in which every Agent answers,
    nothing fails and nobody else is at work. *)

From stdpp Require Import base tactics list gmap strings.
From Stdlib Require Import ZArith Lia.
From S2P Require Import Prelude Text Sql Models Schema EnrollmentJournal ManagerRegistry EnrollmentJobs Samples Gateway.
From S2P Require Import SecretFiles SecretFacts SecretRecovery TargetPolicy AgentClient Saga.

(** ** The directory *)
Definition ref_c : string := "cccccccccccccccccccccccccccccccccccccccccccccccc".

Definition sample_tokens : Tokens := fun _ => (ref_b, ref_c).

#[global] Instance sample_tokens_ok : WellFormedTokens sample_tokens.
Proof. by split. Qed.

(** The lock and one credential; [fs] are the faults to come. *)
Definition sample_dir (fs : list fault) : Dir :=
  mkDir (<[ref_a := 2%positive]> {[LOCK_FILE := 1%positive]})
    (<[2%positive := mkInode true true 384 "old"]> {[1%positive := mkInode true true 384 ""]})
    3 fs [2; 1] false 0.

Lemma sample_settled fs : settled (sample_dir fs).
Proof.
  split.
  - intros n i Hi. cbn in *. apply lookup_insert_Some in Hi as [[<- <-]|[_ Hi]]; [split; [done|by eexists]|].
    apply lookup_singleton_Some in Hi as [<- <-]. split; [done|by eexists].
  - intros n i Hi. cbn in *. apply lookup_insert_Some in Hi as [[<- <-]|[_ Hi]]; [done|].
    by apply lookup_singleton_Some in Hi as [<- <-].
  - exists 1%positive, (mkInode true true 384 ""). by vm_compute.
Qed.

(** ** The outside *)

(** Private addresses are allowed; the Manager itself is 10.0.0.1. *)
Definition private_network : IPNetwork := v4_network 10 0 0 0 8.

Definition sample_policy : AgentTargetPolicy := mkPolicy [private_network] [(V4 [10; 0; 0; 1]%Z, 8000%Z)].

Definition plain_profile : TransportProfile := TrustedLanHttpProfile "plain" [private_network].

Definition sample_client : AgentClient := mkAgentClient sample_policy {[ "plain" := plain_profile ]}.

(** The target the policy makes of the Agent's endpoint. *)
Definition sample_target : ValidatedTarget :=
  mkValidatedTarget "http://agent-1:8765" "http" "agent-1" 8765%Z [V4 [10; 0; 0; 7]%Z] (V4 [10; 0; 0; 7]%Z)
    "agent-1:8765" None (Some "trusted_lan_http_unencrypted") plain_profile.

(** An Agent that answers. *)
Definition sample_http : Http := fun _ _ method path _ =>
  if bool_decide (path = "/api/v2/capabilities") then
    Response 200 (Some (JDict [("api_version", JString "2"); ("agent_version", JString "1.0.0");
      ("capabilities", JList [JString "manager-enrollment.v1"; JString "summary.v2"]);
      ("instance_id", JString uuid_p); ("name", JString "agent one")]))
  else if bool_decide (method = "GET") then Response 404 None
  else Response 204 None.

Definition sample_helper : EnrollmentHelperResult :=
  mkHelper "inst-1" "cred-1" "secret" 1000%Z sample_target.

#[global] Instance sample_outside : Outside := {|
  out_clock n := (100 + Z.of_nat n)%Z;
  out_halts _ := false;
  out_others _ db := db;
  out_meanwhile _ m := m;
  out_http _ := sample_http;
  out_issue _ r := Value (match r with
    | IssueLocal _ _ _ target _ => sample_helper <| helper_validation_target := target |>
    | IssueSsh _ _ _ => sample_helper
    end);
  out_intervals _ := 0;
  out_resolve _ _ _ _ := Some ["10.0.0.7"];
  out_client := sample_client;
  out_python := {| judges_mapped := true |};
  out_iso := {| iso_utc s := Some s |};
  out_intent _ := Some 1%Z;
  out_uuid4 _ := uuid_q;
  out_tokens _ := sample_tokens;
  out_parse_helper _ _ target _ := Some (sample_helper <| helper_validation_target := target |>)
|}.

Definition sample_config : Config :=
  mkConfig uuid_p 60%Z true (Some true) None false (<["plain" := "plain"]> ∅) true true true None false false
    (mkJobs uuid_m 600%Z 16%Z 3600%Z).

Definition idle_gateway : Gateway := mkGateway ∅ ∅ ∅ ∅ (mkLimiter ∅ []).

Definition sample_world (db : DB) : World :=
  mkWorld db (mkMemory (sample_dir []) ∅ ∅ ∅ idle_gateway false) None 0 [].

(** ** Sagas under way *)

(** A saved enrollment and a saved rotation, claimed by this process. *)
Definition claimed_by_us (j : EnrollmentJob) : EnrollmentJob :=
  j <| job_state := ACTIVATION_REQUESTED |> <| job_requested_display_name := Some "agent one" |>
    <| job_save_requested := true |> <| job_recovery_owner := Some uuid_p |>
    <| job_recovery_lease_until := Some (seconds 90)%Z |> <| job_recovery_revision := 1%Z |>.

Definition job_saved : EnrollmentJob := claimed_by_us (job_verified <| job_credential_temp_ref := Some ref_a |>).

Definition rotation_saved : EnrollmentJob := claimed_by_us job_rotation.

Definition rotation_dir : Dir :=
  (sample_dir []) <| entries := <[ref_b := 3%positive]> (entries (sample_dir [])) |>
    <| inodes := <[3%positive := mkInode true true 384 "new"]> (inodes (sample_dir [])) |>
    <| next_inode := 4%positive |>.

Definition rotation_world : World :=
  let w := sample_world (with_agent agent_one (jobs_db [rotation_saved])) in
  w <| w_mem := (w_mem w) <| mem_dir := rotation_dir |> |>.
