(* ===== verification/SecretClaims.v ===== *)
(** * Theorems about the credential directory

    Publication and replacement survive a failure or a crash at any system
    call; the sweep of orphans deletes exactly what no Agent and no enrollment
    refers to. *)

From stdpp Require Import base tactics list gmap strings sorting.
From Stdlib Require Import ZArith Lia Ascii.
From S2P Require Import Prelude Text Models Schema EnrollmentJournal ManagerRegistry Samples.
From S2P Require Import SecretFiles SecretFacts SecretRecovery SagaSamples.

(** ** After a crash *)
Section AfterCrash.
Context (d0 : Dir) (secret : string) (replacing : option string) (Hd0 : settled d0).

(** A stage without a temporary is settled. *)
Lemma stage_settled s i d :
  at_stage d0 secret replacing s i d -> stage_temporary s = None -> settled d.
Proof.
  intros H Ht. pose proof H as (Hn & Ho & Hs & He & Hi). split.
  - intros n j Hj. rewrite He in Hj. destruct s as [|t data|t r|r|r]; try done; cbn [stage_entries] in Hj.
    2,3: destruct Hi as (Hi & Hi' & Hif); apply lookup_insert_Some in Hj as [[-> ->]|[_ Hj]]; [by eauto|].
    all: destruct (settled_entry _ Hd0 _ _ Hj) as [Hlt [f Hf]]; (split; [lia|]);
      exists f; rewrite Ho; done.
  - intros n j Hj. rewrite He in Hj. apply not_true_is_false. intros Hp.
    by rewrite (stage_prefix d0 replacing Hd0 s i n j Hs Hj Hp) in Ht.
  - destruct (settled_lock _ Hd0) as (k & f & Hl & Hk & Hf).
    destruct (settled_entry _ Hd0 _ _ Hl) as [Hlt _]. exists k, f. rewrite He, Ho by done.
    by rewrite (lock_stage d0 replacing).
Qed.

Lemma old_file s i d n j :
  at_stage d0 secret replacing s i d -> entries d0 !! n = Some j -> s <> Replaced n ->
  file d n = file d0 n.
Proof.
  intros (Hn & Ho & Hs & He & Hi) Hj Hne. unfold file. rewrite He.
  assert (E : stage_entries d0 s i !! n = Some j).
  { destruct s as [|t data|t r|r|r]; cbn [stage_entries stage_names] in *; [done|apply lookup_insert_Some..].
    - right. split; [|done]. intros ->. rewrite no_old_temporary in Hj; done.
    - destruct Hs as (Ht & Hr & Hnone & _). right. split; [congruence|]. rewrite lookup_insert_Some. right.
      split; [|done]. intros ->. rewrite no_old_temporary in Hj; done.
    - destruct Hs as (Hr & Hnone & _). right. split; congruence.
    - right. split; [congruence|done]. }
  rewrite E, Hj. cbn. apply Ho. by destruct (settled_entry _ Hd0 _ _ Hj).
Qed.

(** What recovery makes of a directory at some stage. *)
Lemma recovered s i d :
  at_stage d0 secret replacing s i d ->
  exists found d', recover_temporary_files (restart d) = (inr found, d') /\
    at_stage d0 secret replacing (unlinked s) i d' /\ calm d' /\ depth d' = 0.
Proof.
  intros H. set (d1 := (restart d) <| depth := 1 |>).
  assert (H1 : at_stage d0 secret replacing s i d1) by (by eapply at_stage_core; [|exact H]).
  destruct (recover_stage d0 secret replacing Hd0 s i d1 H1) as (found & d2 & Hrun & H2 & Hc2 & _); [done|].
  exists found, (d2 <| depth := 0 |>). split_and!; [|by eapply at_stage_core; [|exact H2]|done|done].
  eapply lease_run; [done|done| | |done].
  - destruct (settled_lock _ Hd0) as (k & f & Hl & Hk & Hf). exists k, f.
    destruct (settled_entry _ Hd0 _ _ Hl) as [Hlt _]. destruct H as (_ & Ho & Hs & He & _).
    change (entries (restart d)) with (entries d). change (inodes (restart d)) with (inodes d).
    rewrite He, Ho by done. by rewrite (lock_stage d0 replacing).
  - eapply bind_run; [by apply iterdir_run|]. exact Hrun.
Qed.

Lemma unlinked_temporary s : stage_temporary (unlinked s) = None.
Proof. by destruct s. Qed.

Lemma new_file s i d n :
  at_stage d0 secret replacing s i d -> stage_temporary s = None -> entries d0 !! n = None -> is_Some (file d n) ->
  s = Published n.
Proof.
  intros (Hn & Ho & Hs & He & Hi) Ht Hnone [f Hf]. unfold file in Hf. rewrite He in Hf.
  destruct s as [|t data|t r|r|r]; cbn [stage_entries stage_names] in *; try done.
  - by rewrite Hnone in Hf.
  - destruct (decide (r = n)) as [->|Hne]; [done|]. by rewrite lookup_insert_ne, Hnone in Hf by done.
  - destruct Hs as (_ & [k Hk] & _). destruct (decide (r = n)) as [->|Hne]; [congruence|].
    by rewrite lookup_insert_ne, Hnone in Hf by done.
Qed.

Lemma whole_file s i d r :
  at_stage d0 secret replacing s i d -> s = Published r \/ s = Replaced r ->
  is_credential_ref r = true /\ file d r = Some (mkInode true true 384 secret).
Proof.
  intros (Hn & Ho & Hs & He & Hi) [-> | ->]; destruct Hs as [Hr _], Hi as (_ & _ & Hi);
    (split; [done|]); unfold file; rewrite He; cbn [stage_entries]; by rewrite lookup_insert_eq.
Qed.
End AfterCrash.

Lemma settled_lock_ready d : settled d -> lock_ready d.
Proof. intros H. apply H. Qed.

(** C17: Publishing a credential survives a failure or a crash at any system
    call.  Whatever [put] met, a new process recovers the directory: no
    temporary is left, every file that was there is untouched, and what is new
    is at most one reference whose file holds the whole secret, readable by
    the owner only.  When [put] returned a reference, reading it gives the
    secret. *)
Theorem put_crash_safe (tokens : Tokens) (secret : string) (d : Dir) :
  WellFormedTokens tokens -> settled d ->
  exists found d', recover_temporary_files (restart (put tokens secret d).2) = (inr found, d') /\
    settled d' /\
    (forall n, is_Some (entries d !! n) -> file d' n = file d n) /\
    (forall n, entries d !! n = None -> is_Some (file d' n) ->
       is_credential_ref n = true /\ file d' n = Some (mkInode true true 384 secret)) /\
    (forall n m, entries d !! n = None -> entries d !! m = None ->
       is_Some (file d' n) -> is_Some (file d' m) -> n = m) /\
    (forall reference, (put tokens secret d).1 = inr reference ->
       entries d !! reference = None /\ (read reference d').1 = inr secret).
Proof.
  intros Ht Hd. pose proof (put_stage d secret None Hd tokens eq_refl) as Hput. unfold wp in Hput.
  assert (exists s i, at_stage d secret None s i (put tokens secret d).2 /\
    forall r, (put tokens secret d).1 = inr r -> s = Published r) as (s & i & H & Hok).
  { destruct (put tokens secret d).1 as [e|r].
    - destruct Hput as (s & i & H). by exists s, i.
    - destruct Hput as [j H]. exists (Published r), j. split; [done|]. by intros ? [= ->]. }
  destruct (recovered d secret None Hd _ _ _ H) as (found & d' & Hrun & H' & Hc & H0).
  pose proof (unlinked_temporary s) as Hnt.
  exists found, d'. split_and!; [done|by eapply stage_settled|..].
  - intros n [j Hj]. eapply old_file; [done|exact H'|exact Hj|].
    intros E. destruct H' as (_ & _ & Hs & _). rewrite E in Hs. by destruct Hs as (_ & _ & ?).
  - intros n Hn Hf. eapply whole_file; [exact H'|]. left. by eapply new_file.
  - intros n m Hn Hm Hfn Hfm. pose proof (new_file d secret None _ _ _ n H' Hnt Hn Hfn) as E1.
    pose proof (new_file d secret None _ _ _ m H' Hnt Hm Hfm). congruence.
  - intros r Hr. rewrite (Hok r Hr) in *. destruct (whole_file d secret None _ _ _ r H') as [Hcr Hf]; [by left|].
    split; [apply H|]. by rewrite (read_run r _ d' Hc H0 (settled_lock_ready _ (stage_settled d secret None Hd _ _ _ H' eq_refl)) Hcr Hf).
Qed.

(** Replacing a credential is atomic under a failure or a crash at any
    system call: after recovery its file is the old one or holds the whole new
    secret, the latter when [replace] returned, and every other file is as it
    was. *)
Theorem replace_crash_safe (tokens : Tokens) (reference secret : string) (d : Dir) :
  WellFormedTokens tokens -> settled d ->
  exists found d', recover_temporary_files (restart (replace tokens reference secret d).2) = (inr found, d') /\
    settled d' /\
    (forall n, n <> reference -> file d' n = file d n) /\
    (file d' reference = file d reference \/ file d' reference = Some (mkInode true true 384 secret)) /\
    ((replace tokens reference secret d).1 = inr tt -> (read reference d').1 = inr secret).
Proof.
  intros Ht Hd. pose proof (replace_stages d secret (Some reference) Hd tokens reference eq_refl) as Hrep.
  unfold wp in Hrep.
  assert (exists s i, at_stage d secret (Some reference) s i (replace tokens reference secret d).2 /\
    ((replace tokens reference secret d).1 = inr tt -> s = Replaced reference)) as (s & i & H & Hok).
  { destruct (replace tokens reference secret d).1 as [e|[]].
    - destruct Hrep as (s & i & H). by exists s, i.
    - destruct Hrep as [j H]. by exists (Replaced reference), j. }
  destruct (recovered d secret (Some reference) Hd _ _ _ H) as (found & d' & Hrun & H' & Hc & H0).
  pose proof (unlinked_temporary s) as Hnt.
  assert (Hs : stage_names d (Some reference) (unlinked s)) by apply H'.
  exists found, d'. split_and!; [done|by eapply stage_settled|..].
  - intros n Hn. destruct (entries d !! n) as [j|] eqn:Ej.
    + eapply old_file; [done|exact H'|exact Ej|]. intros E. rewrite E in Hs. cbn in Hs. destruct_and?. congruence.
    + destruct (file d' n) as [f|] eqn:Ef; [|by unfold file; rewrite Ej].
      eassert (unlinked s = Published n) as E by (eapply new_file; [exact H'|done|done|by eauto]).
      rewrite E in Hs. by destruct Hs as (_ & _ & ?).
  - destruct (unlinked s) as [| | |r|r] eqn:E; try done.
    + left. destruct H' as (_ & Ho & _ & He & _). unfold file. rewrite He. cbn.
      destruct (entries d !! reference) as [j|] eqn:Ej; [|done]. cbn. apply Ho. by destruct (settled_entry _ Hd _ _ Ej).
    + by destruct Hs as (_ & _ & ?).
    + destruct Hs as (_ & _ & [= ->]). right. eapply whole_file; [exact H'|]. by right.
  - intros Hr. specialize (Hok Hr). subst s.
    destruct (whole_file d secret (Some reference) _ _ _ reference H') as [Hcr Hf]; [by right|].
    by rewrite (read_run reference _ d' Hc H0 (settled_lock_ready _ (stage_settled d secret _ Hd _ _ _ H' eq_refl)) Hcr Hf).
Qed.

(** ** Orphans *)
Definition doomed (retained : gset string) (n : string) : Prop :=
  is_credential_ref n = true /\ n ∉ retained.

#[local] Instance doomed_dec retained n : Decision (doomed retained n).
Proof. unfold doomed. apply _. Defined.

(** The files of [d'] are those of [d], less some that are doomed. *)
Definition spares (retained : gset string) (d d' : Dir) : Prop :=
  inodes d' = inodes d /\
  forall n, entries d' !! n = entries d !! n \/ (doomed retained n /\ entries d' !! n = None).

Lemma spares_core retained d d1 d2 : core d1 = core d2 -> spares retained d d2 -> spares retained d d1.
Proof. intros (E & I & _)%core_eq. unfold spares. by rewrite E, I. Qed.

Lemma spares_refl retained d d' : core d' = core d -> spares retained d d'.
Proof. intros (E & I & _)%core_eq. unfold spares. rewrite E, I. auto. Qed.

Lemma spares_lock retained d d' : spares retained d d' -> is_Some (entries d !! LOCK_FILE) ->
  is_Some (entries d' !! LOCK_FILE).
Proof. intros [_ H] Hl. destruct (H LOCK_FILE) as [->|[[Hr _] _]]; [done|]. by vm_compute in Hr. Qed.

Lemma unlink_spares retained n d d' :
  doomed retained n -> spares retained d d' -> wp (unlink n) (fun _ d2 => spares retained d d2) d'.
Proof.
  intros Hn H. apply wp_bind, wp_looks; [apply sys_looks|]. intros [e|u] d1 E; [by eapply spares_core|].
  eapply spares_core in H; [|exact E]. unfold wp. destruct (entries d1 !! n) as [i|] eqn:En; [|done].
  cbn. destruct H as [HI H]. split; [done|]. intros m. cbn.
  destruct (decide (m = n)) as [->|Hne]; [right; by rewrite lookup_delete_eq|].
  rewrite lookup_delete_ne by done. apply H.
Qed.

Lemma delete_file_spares retained n d d' :
  doomed retained n -> spares retained d d' -> is_Some (entries d' !! LOCK_FILE) ->
  wp (delete_file n) (fun _ d2 => spares retained d d2) d'.
Proof.
  intros Hn H Hl. assert (Hp : path n = fs_ret n) by (unfold path; by destruct Hn as [-> _]).
  eapply wp_mono; [apply wp_lease with (Q := fun _ d2 => spares retained d d2); [done|..]|].
  - intros d1 E. eapply spares_core in H; [|exact E]. rewrite Hp. apply wp_bind, wp_ret.
    apply wp_bind, wp_looks; [apply open_validated_looks|]. intros [e|y] d3 E3; [by eapply spares_core|].
    apply wp_translate, wp_bind. eapply wp_mono; [apply (unlink_spares retained); [done|by eapply spares_core]|].
    intros [e|u] d4 H4; [done|]. apply wp_looks; [apply fsync_directory_looks|].
    intros [e|u'] d5 E5; by eapply spares_core.
  - intros r d1 d2. apply spares_core.
  - intros [e|u] d2; [|done]. intros [E|[_ ?]]; [by eapply spares_core|done].
Qed.

Lemma sweep_entries_spares retained l d d' :
  is_Some (entries d !! LOCK_FILE) -> spares retained d d' ->
  wp (sweep_entries retained l) (fun _ d2 => spares retained d d2) d'.
Proof.
  intros Hl. revert d'. induction l as [|e l IH]; intros d' H; [done|]. cbn [sweep_entries].
  case_bool_decide; [by apply IH|]. destruct (is_credential_ref e) eqn:Hr; cbn [negb].
  - case_bool_decide as Hret; [by apply IH|].
    apply wp_bind. eapply wp_mono; [by apply delete_file_spares; [|exact H|eapply spares_lock]|].
    intros [x|u] d1 H1; [done|]. apply wp_bind. eapply wp_mono; [by apply IH|]. by intros [?|?].
  - apply wp_bind. eapply wp_mono; [by apply IH|]. by intros [?|?].
Qed.

Lemma sweep_entries_run retained l d :
  calm d -> depth d = 1 -> NoDup l ->
  (forall n, n ∈ l -> doomed retained n -> exists f, file d n = Some f /\ private f = true) ->
  exists found d', sweep_entries retained l d = (inr found, d') /\ calm d' /\ depth d' = 1 /\
    forall n, entries d' !! n = if decide (n ∈ l /\ doomed retained n) then None else entries d !! n.
Proof.
  intros Hc H1 Hnd. revert d Hc H1. induction Hnd as [|e l He Hnd IH]; intros d Hc H1 Hfile.
  { exists [], d. split; [done|]. split; [done|]. split; [done|]. intros n. rewrite decide_False; [done|]. intros [Hn _]. by apply not_elem_of_nil in Hn. }
  assert (Hskip : ~ doomed retained e ->
    exists found d', sweep_entries retained l d = (inr found, d') /\ calm d' /\ depth d' = 1 /\
    forall n, entries d' !! n = if decide (n ∈ e :: l /\ doomed retained n) then None else entries d !! n).
  { intros Hne. destruct (IH d Hc H1) as (found & d' & Hrun & Hc' & H1' & Hent).
    { intros n Hn. apply Hfile. by apply list_elem_of_further. }
    exists found, d'. split_and!; try done. intros n. rewrite Hent. apply decide_ext.
    rewrite elem_of_cons. naive_solver. }
  cbn [sweep_entries]. case_bool_decide as Hlock.
  { apply Hskip. subst. by intros [Hr _]. }
  destruct (is_credential_ref e) eqn:Hr; cbn [negb].
  2: { destruct Hskip as (found & d' & Hrun & ?); [intros [? _]; congruence|].
       exists (EntryRetained :: found), d'. split; [|done]. eapply bind_run; [exact Hrun|done]. }
  case_bool_decide as Hret; [apply Hskip; by intros [_ ?]|].
  destruct (Hfile e) as (f & Hf & Hp); [apply list_elem_of_here|done|]. unfold file in Hf.
  destruct (entries d !! e) as [i|] eqn:Ei; [cbn in Hf|done].
  set (d1 := d <| entries := delete e (entries d) |>).
  destruct (IH d1) as (found & d' & Hrun & Hc' & H1' & Hent); [done|done| |].
  { intros n Hn Hd. destruct (Hfile n) as (g & Hg & Hgp); [by apply list_elem_of_further|done|]. exists g. split; [|done].
    unfold file, d1 in *. cbn. rewrite lookup_delete_ne; [done|]. by intros ->. }
  exists (CredentialDeleted :: found), d'. split_and!; try done.
  - eapply bind_run; [by eapply (delete_file_run 0)|]. eapply bind_run; [exact Hrun|done].
  - intros n. rewrite Hent. unfold d1. cbn. destruct (decide (n = e)) as [->|Hne].
    + rewrite decide_False by (by intros [? _]).
      rewrite decide_True by (split; [apply list_elem_of_here|done]). apply lookup_delete_eq.
    + rewrite lookup_delete_ne by done. apply decide_ext. rewrite elem_of_cons. naive_solver.
Qed.

Lemma agent_reference_listed db k a :
  agents db !! k = Some a -> agent_credential_ref a ∈ credential_references db.
Proof.
  intros Ha. unfold credential_references. apply elem_of_list_to_set, list_elem_of_fmap. exists a. split; [done|].
  apply list_elem_of_fmap. exists (k, a). split; [done|]. by apply elem_of_map_to_list.
Qed.

Lemma job_reference_listed db k row r :
  agent_enrollment_jobs db !! k = Some row ->
  job_credential_temp_ref (row_job row) = Some r \/ job_old_credential_ref (row_job row) = Some r ->
  r ∈ recovery_credential_references db.
Proof.
  intros Hrow Hr. unfold recovery_credential_references. apply elem_of_union_list.
  exists (job_references (row_job row)). split.
  - apply list_elem_of_fmap. exists (row_job row). split; [done|]. apply list_elem_of_filter. split.
    + destruct Hr as [-> | ->]; cbn; by rewrite ?orb_true_r.
    + apply list_elem_of_fmap. exists row. split; [done|]. apply list_elem_of_fmap. exists (k, row).
      split; [done|]. by apply elem_of_map_to_list.
  - unfold job_references. apply elem_of_union. destruct Hr as [-> | ->]; [left|right]; set_solver.
Qed.

(** The sweep of orphaned credentials against a manager database.  Under
    any failures and crashes it never touches the file of a registered Agent's
    credential, nor one that an enrollment job still names; and without
    failures it leaves no other credential file behind. *)
Theorem cleanup_orphans_exact (db : DB) (d : Dir) :
  settled d ->
  let sweep := cleanup_orphans (credential_references db) (recovery_credential_references db) in
  (forall k a, agents db !! k = Some a -> file (sweep d).2 (agent_credential_ref a) = file d (agent_credential_ref a)) /\
  (forall k row r, agent_enrollment_jobs db !! k = Some row ->
     job_credential_temp_ref (row_job row) = Some r \/ job_old_credential_ref (row_job row) = Some r ->
     file (sweep d).2 r = file d r) /\
  (calm d -> depth d = 0 ->
   (forall n f, is_credential_ref n = true -> file d n = Some f -> private f = true) ->
   (exists found, (sweep d).1 = inr found) /\
   forall n, is_credential_ref n = true -> is_Some (file (sweep d).2 n) ->
     n ∈ credential_references db \/ n ∈ recovery_credential_references db).
Proof.
  intros Hd sweep. set (retained := credential_references db ∪ recovery_credential_references db).
  assert (Hsp : spares retained d (sweep d).2).
  { assert (wp sweep (fun _ d2 => spares retained d d2) d) as Hw; [|exact Hw].
    eapply wp_mono; [apply wp_lease with (Q := fun _ d2 => spares retained d d2)|].
    - by apply settled_lock_some.
    - intros d1 E. apply wp_bind, wp_looks; [apply iterdir_looks|]. intros [e|l] d2 E2;
        [apply spares_refl; congruence|].
      apply sweep_entries_spares; [by apply settled_lock_some|apply spares_refl; congruence].
    - intros r d1 d2. apply spares_core.
    - intros [e|u] d2; [|done]. intros [E|[_ ?]]; [by apply spares_refl|done]. }
  assert (Hkeep : forall n, n ∈ retained -> file (sweep d).2 n = file d n).
  { intros n Hn. destruct Hsp as [HI H]. unfold file. rewrite HI. destruct (H n) as [->|[[_ ?] _]]; done. }
  split_and!.
  - intros k a Ha. apply Hkeep, elem_of_union. left. by eapply agent_reference_listed.
  - intros k row r Hrow Hr. apply Hkeep, elem_of_union. right. by eapply job_reference_listed.
  - intros Hc H0 Hpriv. destruct (sweep_entries_run retained (names d) (d <| depth := 1 |>)) as
      (found & d1 & Hrun & Hc1 & H1 & Hent); [done|done|apply names_NoDup| |].
    { intros n [i Hi]%elem_of_names [Hr _]. destruct (settled_entry _ Hd _ _ Hi) as [_ [f Hf]].
      assert (file d n = Some f) as Hfile by (unfold file; by rewrite Hi). eauto. }
    assert (E : sweep d = (inr found, d1 <| depth := 0 |>)).
    { eapply lease_run; [done|done|by apply settled_lock_ready| |done].
      eapply bind_run; [by apply iterdir_run|exact Hrun]. }
    rewrite E. split; [by eauto|]. intros n Hr [f Hf]. unfold file in Hf. cbn in Hf.
    rewrite Hent in Hf. destruct (decide (n ∈ names d /\ doomed retained n)) as [|Hn]; [done|].
    change (entries d <| depth := 1 |>) with (entries d) in Hf.
    apply elem_of_union. destruct (decide (n ∈ retained)); [done|]. destruct Hn.
    split; [|done]. apply elem_of_names. destruct (entries d !! n); [by eauto|done].
Qed.

(** ** Samples *)
(** A crash between the publication and the removal of the temporary. *)
Definition crash_at_unlink : list fault := repeat Works 10 ++ [Crashes].

Lemma put_crash_safe_witness :
  (exists found d', recover_temporary_files (restart (put sample_tokens "new" (sample_dir crash_at_unlink)).2)
     = (inr found, d') /\ settled d' /\ is_Some (file d' ref_a)) /\
  dead (put sample_tokens "new" (sample_dir crash_at_unlink)).2 = true /\
  is_Some (file (put sample_tokens "new" (sample_dir crash_at_unlink)).2 ref_b) /\
  is_Some (file (put sample_tokens "new" (sample_dir crash_at_unlink)).2 (".tmp-" +:+ ref_c)).
Proof.
  split; [|vm_compute; by eauto].
  destruct (put_crash_safe sample_tokens "new" (sample_dir crash_at_unlink) sample_tokens_ok (sample_settled _))
    as (found & d' & Hr & Hs & Hf & _).
  exists found, d'. split; [done|]. split; [done|]. rewrite Hf; vm_compute; eauto.
Defined.

Lemma replace_crash_safe_witness :
  (replace sample_tokens ref_a "new" (sample_dir [])).1 = inr tt /\
  exists found d', recover_temporary_files (restart (replace sample_tokens ref_a "new" (sample_dir [])).2)
     = (inr found, d') /\ (read ref_a d').1 = inr "new".
Proof.
  split; [by vm_compute|].
  destruct (replace_crash_safe sample_tokens ref_a "new" (sample_dir []) sample_tokens_ok (sample_settled _))
    as (found & d' & Hr & _ & _ & _ & Hok).
  exists found, d'. split; [done|]. apply Hok. by vm_compute.
Defined.

Lemma cleanup_orphans_exact_witness :
  let sweep := cleanup_orphans (credential_references fleet_db) (recovery_credential_references fleet_db) in
  file (sweep (sample_dir [Works; Works; Works; Works; Crashes])).2 ref_a = file (sample_dir []) ref_a /\
  exists found, (sweep (sample_dir [])).1 = inr found.
Proof.
  split.
  - destruct (cleanup_orphans_exact fleet_db _ (sample_settled [Works; Works; Works; Works; Crashes])) as [H _].
    exact (H "agent-1" agent_one eq_refl).
  - apply (cleanup_orphans_exact fleet_db _ (sample_settled [])); [done|done|].
    intros n f Hr. unfold file. cbn. destruct (_ !! n) as [i|] eqn:Hi; [|done].
    apply lookup_insert_Some in Hi as [[_ <-]|[_ Hi]]; [by intros [= <-]|].
    apply lookup_singleton_Some in Hi as [_ <-]. by intros [= <-].
Defined.

(** The lock's own errors are not translated: a failing [fstat] of the lock
    file leaves [put] as a bare [OSError]. *)
Theorem lock_error_leaks :
  settled (sample_dir [Works; Works; Fails]) /\
  (put sample_tokens "new" (sample_dir [Works; Works; Fails])).1 = inl OSError.
Proof. split; [apply sample_settled|by vm_compute]. Qed.
