(* ===== verification/PublicResult.v ===== *)
(** * What the API shows of an enrollment

    [EnrollmentPublicResult.to_public_dict] of
    [src/backend/ic_env_guard/enrollment/orchestrator.py]: the progress of the
    phases, the previewed Agent and the command line of a CLI enrollment, with
    [shlex.join] of the standard library. *)

From stdpp Require Import base tactics list gmap strings pretty.
From Stdlib Require Import ZArith Lia Ascii.
From S2P Require Import Prelude Text Sql Digest Models Schema JobValidation EnrollmentJournal EnrollmentJobs.
From S2P Require Import Samples SecretFiles Gateway TargetPolicy AgentClient Saga Recovery Removals Enrollments.

Definition PHASES : list string :=
  ["network"; "ssh"; "transport"; "authentication"; "protocol"; "identity"; "capabilities"; "readiness"].

(** [needle in s] *)
Fixpoint contains (needle s : string) : bool :=
  String.prefix needle s || match s with EmptyString => false | String _ s => contains needle s end.

Definition failure_phase (code : option string) : string :=
  let value := default "" code in
  if String.prefix "ssh_" value then "ssh"
  else if String.prefix "transport_" value || contains "tls" value then "transport"
  else if String.prefix "agent_auth" value || contains "credential" value then "authentication"
  else if contains "protocol" value || contains "version" value then "protocol"
  else if contains "identity" value then "identity"
  else if contains "capabil" value then "capabilities"
  else if contains "readiness" value then "readiness"
  else "network".

Definition progress_index (j : EnrollmentJob) : nat :=
  match job_state j with
  | RUNNING | AWAITING_CLI => 1
  | CREDENTIAL_ISSUED | VERIFYING => 2
  | VERIFIED | ACTIVATION_REQUESTED | ACTIVATED | CONSUMED => length PHASES
  | _ => 0
  end.

(** [PHASES.index] *)
Definition phase_index (phase : string) : nat := default 0 (fst <$> list_find (eq phase) PHASES).

Definition public_failure_code (j : EnrollmentJob) : option string :=
  if truthy (job_last_error_code j) then job_last_error_code j
  else match job_state j with
       | EXPIRED => Some "agent_enrollment_expired"
       | CANCELLED => Some "agent_enrollment_cancelled"
       | _ => job_last_error_code j
       end.

(** A phase: its status and its code. *)
Definition Phase : Type := string * option string.

Definition public_phase (r : EnrollmentPublicResult) (index : nat) (name : string) : Phase :=
  let j := result_job r in
  let code := public_failure_code j in
  let lifecycle_end := match job_state j with CANCELLED | EXPIRED => true | _ => false end in
  let progress := if lifecycle_end then (if truthy (job_credential_temp_ref j) then 2 else 1) else progress_index j in
  let reached : Phase := (if index <? progress then "success" else "pending", None) in
  if state_is FAILED j then
    let failed := phase_index (failure_phase code) in
    if index <? failed then ("success", None)
    else if index =? failed then ("failure", code)
    else ("skipped", None)
  else if lifecycle_end && (progress <=? index) then ("skipped", None)
  else match result_validation r with
  | Some v =>
      if bool_decide (name = "ssh") && bool_decide (job_enrollment_method j = LEGACY_ADMIN_TOKEN)
      then ("not_applicable", None)
      else if bool_decide (name = "identity") && is_none (validation_instance_id v)
      then ("warning", Some "legacy_identity_unavailable")
      else if bool_decide (name = "readiness") && truthy (validation_readiness_warning v)
      then ("warning", validation_readiness_warning v)
      else ("success", None)
  | None =>
      if state_is AWAITING_CLI j && bool_decide (name = "ssh") && bool_decide (code = Some "ssh_unavailable")
      then ("warning", code) else reached
  end.

Definition public_phases (r : EnrollmentPublicResult) : list (string * Phase) :=
  imap (fun i name => (name, public_phase r i name)) PHASES.

(** ** [shlex] *)

(** No character outside [\w@%+=:,./-]. *)
Definition shell_safe (c : ascii) : bool :=
  is_alnum c || existsb (fun d => is_char d c)
    ["_"; "@"; "%"; "+"; "="; ":"; ","; "."; "/"; "-"]%char.

Definition apostrophe : ascii := "039".
Definition quotation : ascii := "034".

(** A quote inside quotes is the five characters ['] ["] ['] ["] [']. *)
Fixpoint quote_chars (s : string) : string :=
  match s with
  | EmptyString => EmptyString
  | String c s =>
      if is_char apostrophe c
      then String apostrophe (String quotation (String apostrophe (String quotation (String apostrophe (quote_chars s)))))
      else String c (quote_chars s)
  end.

Definition shell_quote (s : string) : string :=
  if nonempty s && all_chars shell_safe s then s
  else String apostrophe (quote_chars s +:+ String apostrophe EmptyString).

Definition shell_join (argv : list string) : string := join " " (shell_quote <$> argv).

(** ** The public dictionary *)
Definition public_state (s : EnrollmentState) : string :=
  match s with
  | PENDING => "pending"
  | RUNNING | ACTIVATION_REQUESTED | ACTIVATED => "running"
  | AWAITING_CLI => "awaiting_cli"
  | CREDENTIAL_ISSUED | VERIFYING => "verifying"
  | VERIFIED => "verified"
  | CONSUMED => "consumed"
  | CANCELLED => "cancelled"
  | EXPIRED => "expired"
  | FAILED => "failed"
  end.

#[local] Set Primitive Projections.
Record PublicAgent := mkPublicAgent {
  public_agent_id : string;
  public_instance_id : option string;
  public_name : option string;
  public_endpoint : string;
  public_transport_profile_id : string;
  public_transport_security : option string;
  public_api_version : string;
  public_agent_version : string;
  public_capabilities : list string;
  public_summary : option json
}.

Record PublicDict := mkPublicDict {
  dict_enrollment_id : string;
  dict_state : string;
  dict_expires_at : time;
  dict_last_error_code : option string;
  dict_agent : option PublicAgent;
  dict_phases : list (string * Phase);
  dict_cli : option (list string * string)
}.
#[local] Unset Primitive Projections.

Definition public_agent (r : EnrollmentPublicResult) (v : EnrollmentValidation) : PublicAgent :=
  mkPublicAgent (job_enrollment_id (result_job r)) (validation_instance_id v) (validation_name v)
    (validation_normalized_endpoint v) (job_transport_profile_id (result_job r)) (result_transport_security r)
    (validation_api_version v) (validation_agent_version v) (validation_capabilities v) (validation_summary v).

Definition cli_argv (socket id user host : string) (port : Z) : list string :=
  ["ic-env-guardctl"; "agent"; "enroll"; "--manager-socket"; socket; "--enrollment-id"; id; "--ssh";
   user +:+ "@" +:+ url_host host +:+ ":" +:+ pretty port].

Definition public_cli (r : EnrollmentPublicResult) : option (list string * string) :=
  let j := result_job r in
  if state_is AWAITING_CLI j && bool_decide (job_enrollment_method j = SSH_CLI) then
    match result_manager_socket_path r, job_ssh_user j, job_ssh_host j, job_ssh_port j with
    | Some socket, Some user, Some host, Some port =>
        if nonempty user && nonempty host && negb (port =? 0)%Z then
          let argv := cli_argv socket (job_enrollment_id j) user host port in Some (argv, shell_join argv)
        else None
    | _, _, _, _ => None
    end
  else None.

Definition to_public_dict (r : EnrollmentPublicResult) : PublicDict :=
  let j := result_job r in
  mkPublicDict (job_enrollment_id j) (public_state (job_state j)) (job_expires_at j) (public_failure_code j)
    (public_agent r <$> result_validation r) (public_phases r) (public_cli r).

(** * What the API returns: receipts and the public view of a job

    First the receipt of an accepted CLI submission, then the command line and
    the progress shown of a job.

    What the length prefixes of [_cli_accept_receipt] are for: two submissions
    have the same hashed text only when they agree in every field. *)

Lemma length_prefix_inj m n :
  (Z.of_nat m < 2 ^ 32)%Z -> (Z.of_nat n < 2 ^ 32)%Z -> length_prefix m = length_prefix n -> m = n.
Proof.
  intros Hm Hn E. unfold length_prefix in E. injection E as E3 E2 E1 E0.
  change 255%Z with (Z.ones 8) in *. rewrite !Z.land_ones, !Z.shiftr_div_pow2 in * by lia.
  apply Nat2Z.inj. Z.to_euclidean_division_equations. lia.
Qed.

Lemma prefixed_inj a b x y :
  (Z.of_nat (String.length a) < 2 ^ 32)%Z -> (Z.of_nat (String.length b) < 2 ^ 32)%Z ->
  prefixed a ++ x = prefixed b ++ y -> a = b /\ x = y.
Proof.
  intros Ha Hb. unfold prefixed. rewrite <- !(assoc_L (++)). intros E. apply app_inj_1 in E as [El E]; [|done].
  apply length_prefix_inj in El; [|done|done]. apply app_inj_1 in E as [Es Ex]; [|by rewrite !bytes_of_length].
  split; [by apply bytes_of_inj|done].
Qed.

(** Texts as long as a length prefix can say. *)
Definition short (s : string) : Prop := (Z.of_nat (String.length s) < 2 ^ 32)%Z.

(** A receipt binds every field.  The text that is hashed for one
    submission is hashed for no other one: enrollment, nonce, peer, inputs and
    pinned address can all be recovered from it. *)
Theorem receipt_binds_submission e1 n1 u1 f1 p1 e2 n2 u2 f2 p2 :
  Forall short [e1; n1; pretty u1; f1; p1] -> Forall short [e2; n2; pretty u2; f2; p2] ->
  receipt_bytes e1 n1 u1 f1 p1 = receipt_bytes e2 n2 u2 f2 p2 ->
  e1 = e2 /\ n1 = n2 /\ u1 = u2 /\ f1 = f2 /\ p1 = p2.
Proof.
  rewrite !Forall_cons. intros (?&?&?&?&?&_) (?&?&?&?&?&_) E. unfold receipt_bytes in E.
  apply (inj (receipt_header ++.)) in E.
  do 4 (apply prefixed_inj in E as [? E]; [|done..]).
  rewrite <- (right_id_L [] (++) (prefixed p1)), <- (right_id_L [] (++) (prefixed p2)) in E.
  apply prefixed_inj in E as [? _]; [|done..]. split_and!; try done. by apply (inj pretty).
Qed.

Lemma receipt_binds_submission_witness :
  receipt_bytes "ab" "c" 1 "" "" <> receipt_bytes "a" "bc" 1 "" "" /\
  bytes_of "ab" ++ bytes_of "c" = bytes_of "a" ++ bytes_of "bc".
Proof.
  split; [|done]. intros E.
  destruct (receipt_binds_submission "ab" "c" 1 "" "" "a" "bc" 1 "" "") as [Hx _]; [..|exact E|done];
    repeat constructor; vm_compute; reflexivity.
Defined.

(** * Theorems about the public view of an enrollment *)

(** ** How a shell reads a line

    Words are separated by spaces; single quotes keep everything; double
    quotes keep what is not [$], [`] or [\]; outside of quotes only characters
    without a meaning are read.  [None]: the shell would do something else. *)
Inductive quoting := Bare | Single | Double.

Definition active_in_double (c : ascii) : bool := is_char "$" c || is_char "`" c || is_char "\" c.

Definition grown (word : option string) (c : ascii) : option string := Some (default "" word +:+ String c "").

Fixpoint shell_words (q : quoting) (word : option string) (s : string) : option (list string) :=
  match s with
  | EmptyString => match q with Bare => Some (option_list word) | _ => None end
  | String c s =>
      match q with
      | Bare =>
          if is_char " " c then (option_list word ++.) <$> shell_words Bare None s
          else if is_char apostrophe c then shell_words Single (Some (default "" word)) s
          else if is_char quotation c then shell_words Double (Some (default "" word)) s
          else if shell_safe c then shell_words Bare (grown word c) s
          else None
      | Single => if is_char apostrophe c then shell_words Bare word s else shell_words Single (grown word c) s
      | Double =>
          if is_char quotation c then shell_words Bare word s
          else if active_in_double c then None
          else shell_words Double (grown word c) s
      end
  end.

Lemma is_char_eq c d : is_char c d = true <-> d = c.
Proof. unfold is_char. rewrite Ascii.eqb_eq. done. Qed.

(** What a shell gives a meaning to is not safe. *)
Lemma shell_safe_plain c : shell_safe c = true ->
  is_char " " c = false /\ is_char apostrophe c = false /\ is_char quotation c = false.
Proof.
  intros Hs. split_and!; apply not_true_is_false; intros ->%is_char_eq; by vm_compute in Hs.
Qed.

Lemma append_cons c (s t : string) : String c s +:+ t = String c (s +:+ t).
Proof. done. Qed.

Lemma append_empty (t : string) : "" +:+ t = t.
Proof. done. Qed.

Lemma words_safe word s rest : nonempty s = true -> all_chars shell_safe s = true ->
  shell_words Bare word (s +:+ rest) = shell_words Bare (Some (default "" word +:+ s)) rest.
Proof.
  revert word. induction s as [|c s IH]; intros word Hn Hs; [done|].
  cbn [all_chars] in Hs. prop_hyps. destruct (shell_safe_plain c) as (E1 & E2 & E3); [done|].
  rewrite append_cons. cbn [shell_words]. rewrite E1, E2, E3, H.
  destruct (decide (s = "")) as [->|Hne]; [done|]. rewrite IH; [|by apply bool_decide_eq_true|done].
  unfold grown. cbn [default from_option id]. by rewrite <- string_app_assoc.
Qed.

Lemma words_quoted word s rest :
  shell_words Single (Some word) (quote_chars s +:+ String apostrophe rest) = shell_words Bare (Some (word +:+ s)) rest.
Proof.
  revert word. induction s as [|c s IH]; intros word.
  - cbn [quote_chars]. rewrite append_empty. by rewrite string_app_nil.
  - cbn [quote_chars]. destruct (is_char apostrophe c) eqn:Ec.
    + apply is_char_eq in Ec as ->. rewrite !append_cons.
      change (String apostrophe s) with (String apostrophe "" +:+ s). rewrite string_app_assoc, <- IH. reflexivity.
    + rewrite append_cons. cbn [shell_words]. rewrite Ec. unfold grown. cbn [default from_option id]. rewrite IH.
      by rewrite <- string_app_assoc.
Qed.

Lemma words_quote s rest : shell_words Bare None (shell_quote s +:+ rest) = shell_words Bare (Some s) rest.
Proof.
  unfold shell_quote. case_match; prop_hyps; [by rewrite words_safe|].
  rewrite append_cons, <- string_app_assoc, append_cons, append_empty. apply (words_quoted "").
Qed.

Lemma words_join argv : argv <> [] -> shell_words Bare None (shell_join argv) = Some argv.
Proof.
  unfold shell_join. induction argv as [|a argv IH]; [done|]. intros _. destruct argv as [|b argv].
  - cbn [fmap list_fmap join]. rewrite <- (string_app_nil (shell_quote a)). by rewrite words_quote.
  - cbn [fmap list_fmap join] in *. rewrite words_quote, append_cons, append_empty. cbn [shell_words].
    change (is_char " " " ") with true. cbn iota. by rewrite IH.
Qed.

(** C20: the command line is safe to paste.  Whatever the socket path, the
    user and the host of the enrollment contain, a shell that reads the
    displayed line runs exactly the argument vector next to it. *)
Theorem cli_display_exact r argv display :
  dict_cli (to_public_dict r) = Some (argv, display) -> shell_words Bare None display = Some argv.
Proof.
  cbn. unfold public_cli. intros E. repeat case_match; simplify_eq. by apply words_join.
Qed.

Definition awkward_job : EnrollmentJob :=
  job_auto <| job_state := AWAITING_CLI |> <| job_enrollment_method := SSH_CLI |>
    <| job_ssh_user := Some "o'brien; reboot" |> <| job_ssh_host := Some "fd00::7" |>.

Lemma cli_display_exact_witness :
  shell_words Bare None (shell_join (cli_argv "/run/manager socket" "job-1" "o'brien; reboot" "fd00::7" 22%Z)) =
    Some (cli_argv "/run/manager socket" "job-1" "o'brien; reboot" "fd00::7" 22%Z).
Proof.
  apply (cli_display_exact (mkPublicResult awkward_job None (Some "/run/manager socket") None)).
  vm_compute. reflexivity.
Defined.

(** ** Phases *)

(** The phases of a failed enrollment. *)
Definition failed_phases (k : nat) (code : option string) : list Phase :=
  replicate k ("success", None) ++ [("failure", code)] ++ replicate (length PHASES - S k) ("skipped", None).

Lemma failure_phase_listed code : exists k, PHASES !! k = Some (failure_phase code) /\ phase_index (failure_phase code) = k.
Proof.
  exists (phase_index (failure_phase code)). split; [|done]. unfold failure_phase. repeat case_match; reflexivity.
Qed.

(** A failed enrollment shows one failure.  The phases are always the
    eight of [PHASES] in their order; of a failed enrollment exactly the phase
    its error code belongs to is the failure and carries the code, the ones
    before it succeeded and the ones after it were skipped. *)
Theorem failed_preview_exact r :
  (public_phases r).*1 = PHASES /\
  (state_is FAILED (result_job r) = true ->
   exists k, PHASES !! k = Some (failure_phase (public_failure_code (result_job r))) /\
     (public_phases r).*2 = failed_phases k (public_failure_code (result_job r))).
Proof.
  split; [done|]. intros Hf. destruct (failure_phase_listed (public_failure_code (result_job r))) as (k & Hk & Hi).
  exists k. split; [done|]. unfold public_phases, public_phase. cbn [imap PHASES fmap list_fmap]. rewrite Hf, Hi.
  assert (k < 8) by (apply lookup_lt_Some in Hk; exact Hk).
  do 8 (destruct k as [|k]; [reflexivity|]). lia.
Qed.

Lemma failed_preview_exact_witness :
  exists k, PHASES !! k = Some "authentication" /\
    (public_phases (mkPublicResult (job_auto <| job_state := FAILED |>
       <| job_last_error_code := Some "credential_store_unavailable" |>) None None None)).*2 =
    failed_phases k (Some "credential_store_unavailable").
Proof.
  refine (proj2 (failed_preview_exact (mkPublicResult (job_auto <| job_state := FAILED |>
    <| job_last_error_code := Some "credential_store_unavailable" |>) None None None)) _). by vm_compute.
Defined.
