(* ===== verification/SagaFacts.v ===== *)
(** * The orchestrator and the repositories

    A program of [Saga] changes the manager database only through methods of
    the repositories.  [Within m]: whatever the outside does, the database
    after [m] is reached from the one before by calls of the repositories and
    transactions of others. *)

From stdpp Require Import base tactics list gmap strings relations.
From Stdlib Require Import ZArith Lia.
From S2P Require Import Prelude Text Sql Models Schema EnrollmentJournal ManagerRegistry RemovalJournal.
From S2P Require Import EnrollmentJobs Lifecycle Gateway SecretFiles TargetPolicy AgentClient Saga Recovery Removals Enrollments.

Section Steps.
Context `{Outside} `{UrlLib}.

Inductive db_step : relation DB :=
| step_call c db : db_step db (run c db)
| step_other n db : db_step db (out_others n db).

Definition db_steps : relation DB := rtc db_step.

Definition Within {A} (m : O A) : Prop := forall w, db_steps (w_db w) (w_db (m w).2).

(** A method that is one of the calls, or writes nothing. *)
Definition MethodCall {A} (m : Method A) : Prop :=
  (exists c, forall db, (m db).2 = run c db) \/ (forall db, (m db).2 = db).

(** ** Programs *)
Lemma within_same {A} (m : O A) : (forall w, w_db (m w).2 = w_db w) -> Within m.
Proof. intros Hm w. by rewrite Hm. Qed.

Lemma within_ret {A} (a : A) : Within (o_ret a).
Proof. by apply within_same. Qed.

Lemma within_raise {A} e : Within (o_raise (A := A) e).
Proof. by apply within_same. Qed.

Lemma within_bind {A B} (m : O A) (k : A -> O B) :
  Within m -> (forall a, Within (k a)) -> Within (o_bind m k).
Proof.
  intros Hm Hk w. unfold o_bind. specialize (Hm w). destruct (m w) as [[e|a] w']; [done|].
  etrans; [exact Hm|apply Hk].
Qed.

Lemma within_catch {A} (m : O A) h :
  Within m -> (forall e p, h e = Some p -> Within p) -> Within (o_catch m h).
Proof.
  intros Hm Hh w. unfold o_catch. specialize (Hm w). destruct (m w) as [[e|a] w']; [|done].
  destruct e; try done; destruct (h _) as [p|] eqn:E; try done; (etrans; [exact Hm|by eapply Hh]).
Qed.

Lemma within_finally {A} (m : O A) f : Within m -> Within f -> Within (o_finally m f).
Proof.
  intros Hm Hf w. unfold o_finally. specialize (Hm w). destruct (m w) as [r w'].
  specialize (Hf w'). cbn in *. destruct r as [e|a].
  - destruct e; try done; destruct (f w') as [[e'|u] w2]; (etrans; [exact Hm|exact Hf]).
  - destruct (f w') as [[e'|u] w2]; (etrans; [exact Hm|exact Hf]).
Qed.

Lemma within_advance : Within advance.
Proof. apply within_same. intros w. unfold advance. by destruct (out_halts (w_tick w)). Qed.

Lemma within_log e : Within (log e).
Proof. by apply within_same. Qed.

Lemma within_on_memory f : Within (on_memory f).
Proof. by apply within_same. Qed.

Lemma within_memory {A} (f : Memory -> A) : Within (memory f).
Proof. by apply within_same. Qed.

Lemma within_set_reference r : Within (set_reference r).
Proof. by apply within_same. Qed.

Lemma within_get_reference : Within get_reference.
Proof. by apply within_same. Qed.

Lemma within_gate {A} (f : Gateway -> A * Gateway) : Within (gate f).
Proof. apply within_same. intros w. unfold gate. by destruct (f _). Qed.

Lemma within_store {A} (m : FS A) : Within (store m).
Proof. apply within_same. intros w. unfold store. by destruct (m _) as [[]]. Qed.

Lemma method_steps {A} (m : Method A) n db : MethodCall m -> db_steps db (m (out_others n db)).2.
Proof.
  intros [[c Hc]|Hm].
  - rewrite Hc. eapply rtc_l; [apply (step_other n)|]. apply rtc_once, step_call.
  - rewrite Hm. apply rtc_once, step_other.
Qed.

Lemma within_transact {A} (m : Method A) : MethodCall m -> Within (transact m).
Proof.
  intros Hm. apply within_bind; [apply within_advance|]. intros n w.
  pose proof (method_steps m n (w_db w) Hm) as Hs. by destruct (m _) as [[e|a] db].
Qed.

Lemma within_perform {A} c (m : Method A) : (forall db, (m db).2 = run c db) -> Within (perform c m).
Proof.
  intros Hm. apply within_bind; [apply within_transact; left; by exists c|]. intros a.
  apply within_bind; [apply within_log|]. intros _. apply within_ret.
Qed.

Lemma within_await : Within await.
Proof. apply within_bind; [apply within_advance|]. intros n w. apply rtc_once, step_other. Qed.

(** A method of the job service, whatever is committed between its own
    transactions. *)
Definition ServiceCall {A} (m : (nat -> DB -> DB) -> ServiceMethod A) : Prop :=
  forall other db, (forall k db, db_steps db (other k db)) -> db_steps db (m other db).2.

Lemma within_service {A} (m : (nat -> DB -> DB) -> ServiceMethod A) : ServiceCall m -> Within (service m).
Proof.
  intros Hm. apply within_bind; [apply within_advance|]. intros n.
  do 3 (apply within_bind; [apply within_advance|]; intros _). intros w.
  match goal with |- db_steps _ (w_db (match ?x with _ => _ end).2) => set (p := x) end.
  assert (db_steps (w_db w) p.2) as Hs.
  { etrans; [apply rtc_once, (step_other n)|]. apply Hm. intros k db. apply rtc_once, step_other. }
  by destruct p as [[e|a] db].
Qed.

Lemma call_steps {A} h (m : Method A) db : MethodCall m -> db_steps db (EnrollmentJobs.call h m db).2.
Proof.
  intros Hm. assert ((EnrollmentJobs.call h m db).2 = (m db).2) as ->.
  { unfold EnrollmentJobs.call. by destruct (m db) as [[e|a] db']. }
  destruct Hm as [[c Hc]|Hm]; [rewrite Hc; apply rtc_once, step_call|by rewrite Hm].
Qed.

Lemma replace_call job x f : MethodCall (replace_if_state job x f).
Proof. left. by exists (Journal (CallReplace job x f)). Qed.

Lemma jobs_create_calls s r oid u now st : ServiceCall (fun _ => jobs_create s r oid u now st).
Proof.
  intros other db _. unfold jobs_create. apply call_steps. left.
  destruct (request_discovery_result_id r) as [x|].
  - eexists (Journal (CallCreateDiscovery _ _ _ _)). intros. reflexivity.
  - eexists (Journal (CallCreateWithCapacity _ _ _)). intros. reflexivity.
Qed.

Lemma jobs_create_rotation_calls s r u now : ServiceCall (fun _ => jobs_create_rotation s r u now).
Proof.
  intros other db _. unfold jobs_create_rotation. destruct (request_replace_agent_id r); [|done].
  apply call_steps. left. eexists (Journal (CallCreateRotation _ _ _)). intros. reflexivity.
Qed.

Lemma jobs_rearm_calls s r id now : ServiceCall (fun _ => jobs_rearm_expired_local s r id now).
Proof.
  intros other db _. unfold jobs_rearm_expired_local. destruct (bool_decide _); [done|].
  apply call_steps. left. eexists (Journal (CallRearm _ _ _ _ _ _)). intros. reflexivity.
Qed.

Lemma jobs_consume_rotation_calls id a d now : ServiceCall (fun _ => jobs_consume_rotation id a d now).
Proof.
  intros other db _. apply call_steps. left. eexists (Journal (CallConsumeRotation _ _ _ _)).
  intros. reflexivity.
Qed.

Lemma jobs_get_calls id now : ServiceCall (fun other => jobs_get other id now).
Proof.
  intros other db Ho. unfold jobs_get. destruct (agent_enrollment_jobs db !! id) as [row|]; [|done].
  destruct (due now (row_job row)); [|done].
  assert (db_steps db (replace_if_state (end_job EXPIRED now (row_job row)) (job_state (row_job row)) no_fence (other 0 db)).2)
    as Hs.
  { etrans; [apply Ho|]. apply rtc_once. apply (step_call (Journal (CallReplace _ _ _))). }
  destruct (replace_if_state _ _ _ _) as [[[]|j] db']; try done. etrans; [exact Hs|apply Ho].
Qed.

(** A second transaction after [jobs_get]. *)
Lemma after_get_steps {A} id now other db (k : EnrollmentJob -> DB -> (service_exn + A) * DB) :
  (forall n db, db_steps db (other n db)) -> (forall j db, db_steps db (k j db).2) ->
  db_steps db (match jobs_get other id now db with
               | (inl e, db1) => (inl e, db1)
               | (inr job, db1) => k job db1
               end).2.
Proof.
  intros Ho Hk. pose proof (jobs_get_calls id now other db Ho) as Hs.
  destruct (jobs_get other id now db) as [[e|j] db1]; [done|]. etrans; [exact Hs|apply Hk].
Qed.

Lemma jobs_cancel_calls id now : ServiceCall (fun other => jobs_cancel other id now).
Proof.
  intros other db Ho. apply after_get_steps; [done|]. intros j db1.
  do 2 (destruct (_ : bool); [done|]). etrans; [apply Ho|apply call_steps, replace_call].
Qed.

Lemma jobs_consume_calls id d f now : ServiceCall (fun other => jobs_consume other id d f now).
Proof.
  intros other db Ho. apply after_get_steps; [done|]. intros j db1.
  do 4 (destruct (_ : bool); [done|]). etrans; [apply Ho|apply call_steps, replace_call].
Qed.
End Steps.

Create HintDb within.
#[export] Hint Resolve within_ret within_raise within_advance within_log within_on_memory within_memory
  within_set_reference within_get_reference within_gate within_store within_await
  jobs_create_calls jobs_create_rotation_calls jobs_rearm_calls jobs_consume_rotation_calls
  jobs_get_calls jobs_cancel_calls jobs_consume_calls : within.

(** Walk through a program: binds, handlers and tests, then the rules of the
    interactions from the hint database. *)
Ltac within :=
  repeat first
  [ progress intros
  | solve [ eauto 2 with within ]
  | match goal with
    | |- Within (o_bind _ _) => apply within_bind
    | |- Within (o_catch _ _) => apply within_catch
    | |- Within (o_finally _ _) => apply within_finally
    | |- Within (service _) => apply within_service
    | |- Within (perform _ _) => apply within_perform; intros; reflexivity
    | |- Within (transact _) => apply within_transact; right; intros; reflexivity
    | E : (if ?b then _ else _) = Some ?p |- Within ?p => destruct b
    | E : (match ?x with _ => _ end) = Some ?p |- Within ?p => destruct x
    | E : Some _ = Some ?p |- Within ?p => injection E as <-
    | E : None = Some ?p |- Within ?p => discriminate E
    | |- Within (match ?x with _ => _ end) => destruct x
    | |- Within (let '(_, _) := ?x in _) => destruct x
    end ].

Section Programs.
Context `{Outside} `{UrlLib} (self : Config).

Lemma within_clock : Within clock.
Proof. unfold clock. within. Qed.

Lemma within_uuid4 : Within uuid4.
Proof. unfold uuid4. within. Qed.

Lemma within_prepare p : Within (prepare p).
Proof. unfold prepare. within. Qed.

Lemma within_ask r : Within (ask r).
Proof. unfold ask. within. Qed.

Lemma within_issue r : Within (issue r).
Proof. unfold issue. within. Qed.

Lemma within_store_read r : Within (store_read r).
Proof. unfold store_read. within. Qed.

Lemma within_store_put s : Within (store_put s).
Proof. unfold store_put. within. Qed.

Lemma within_when b m : Within m -> Within (o_when b m).
Proof. unfold o_when. intros. within. Qed.

Lemma within_store_delete r : Within (store_delete r).
Proof. unfold store_delete, o_when. within. Qed.

Lemma within_assert b e : Within (o_assert b e).
Proof. unfold o_assert. within. Qed.

Lemma within_lease {A} (m : O A) : Within m -> Within (lifecycle_lease m).
Proof. intros Hm. unfold lifecycle_lease. within. Qed.

Lemma within_j_get id : Within (j_get id).
Proof. unfold j_get. within. Qed.

Lemma within_r_get id : Within (r_get id).
Proof. unfold r_get. within. Qed.

Lemma within_j_replace job x f : Within (j_replace job x f).
Proof. unfold j_replace. within. Qed.

Lemma within_unless {A} (d : A) (m : O A) : Within m -> Within (unless_registry_error d m).
Proof. intros Hm. unfold unless_registry_error. within. Qed.

Lemma within_quietly m : Within m -> Within (quietly m).
Proof. intros Hm. unfold quietly. within. Qed.

Lemma within_iter {A} (body : A -> O unit) l : (forall a, Within (body a)) -> Within (o_iter body l).
Proof. intros Hb. induction l as [|a l IH]; cbn; within. Qed.
End Programs.

#[export] Hint Resolve within_clock within_uuid4 within_prepare within_ask within_issue within_store_read
  within_store_put within_store_delete within_assert within_j_get within_r_get within_j_replace : within.

Ltac sagas :=
  repeat first
  [ progress within
  | match goal with
    | |- Within (lifecycle_lease _) => apply within_lease
    | |- Within (unless_registry_error _ _) => apply within_unless
    | |- Within (quietly _) => apply within_quietly
    | |- Within (o_when _ _) => apply within_when
    | |- Within (o_iter _ _) => apply within_iter
    end ].

Section Operations.
Context `{Outside} `{UrlLib} (self : Config).

Lemma within_reload id : Within (reload_after_fence_loss id).
Proof. unfold reload_after_fence_loss. sagas. Qed.

Lemma within_renew j : Within (renew_claimed self j).
Proof. unfold renew_claimed. sagas. Qed.

Lemma within_fail j c : Within (fail_claimed self j c).
Proof. unfold fail_claimed. sagas. Qed.

Lemma within_residual j c : Within (residual_claimed self j c).
Proof. unfold residual_claimed. sagas. Qed.

Lemma within_release j : Within (release_claimed self j).
Proof. unfold release_claimed. sagas. Qed.

Lemma within_record_failure j c d : Within (record_mutation_failure j c d).
Proof. unfold record_mutation_failure. sagas. Qed.

Lemma within_cache id v : Within (cache_validation id v).
Proof. unfold cache_validation. sagas. Qed.
End Operations.

#[export] Hint Resolve within_reload within_renew within_fail within_residual within_release
  within_record_failure within_cache : within.

Section Recoveries.
Context `{Outside} `{UrlLib} (self : Config).

Lemma within_mark j c : Within (mark_claim_error self j c).
Proof. unfold mark_claim_error. sagas. Qed.

Lemma within_transition_claimed j s b : Within (transition_claimed self j s b).
Proof. unfold transition_claimed. sagas. Qed.

Lemma within_keep_claim n j : Within (keep_claim self n j).
Proof. revert j. induction n as [|n IH]; intros j; cbn [keep_claim]; sagas. Qed.

Lemma within_prepare_pinned j : Within (prepare_pinned_job self j).
Proof. unfold prepare_pinned_job. sagas. Qed.

Lemma within_cleanup_terminal j : Within (cleanup_terminal j).
Proof. unfold cleanup_terminal. sagas. Qed.
End Recoveries.

#[export] Hint Resolve within_mark within_transition_claimed within_keep_claim within_prepare_pinned
  within_cleanup_terminal : within.

Section Leases.
Context `{Outside} `{UrlLib} (self : Config).

Lemma within_run_lease j r : Within (run_with_recovery_lease self j r).
Proof. unfold run_with_recovery_lease. sagas. Qed.

Lemma within_target_and_token j k : (forall c, Within (k c)) -> Within (target_and_token self j k).
Proof. intros Hk. unfold target_and_token. sagas. Qed.
End Leases.

#[export] Hint Resolve within_run_lease within_target_and_token : within.

Section Recover.
Context `{Outside} `{UrlLib} (self : Config).

Lemma within_recover_validation j : Within (recover_validation self j).
Proof. unfold recover_validation. sagas. Qed.

Lemma within_compensate_add j t : Within (compensate_activated_add_conflict self j t).
Proof. unfold compensate_activated_add_conflict. sagas. Qed.

Lemma within_commit_activation j : Within (commit_activation j).
Proof. unfold commit_activation. sagas. Qed.

Lemma within_activate j t : Within (activate_claimed self j t).
Proof. unfold activate_claimed. sagas. Qed.

Lemma within_compensate_rotation j t k : Within (compensate_rotation_registry_mismatch self j t k).
Proof. unfold compensate_rotation_registry_mismatch. sagas. Qed.

Lemma within_finish_rotation j t k : Within (finish_rotation self j t k).
Proof. unfold finish_rotation. sagas. Qed.
End Recover.

#[export] Hint Resolve within_recover_validation within_compensate_add within_commit_activation within_activate
  within_compensate_rotation within_finish_rotation : within.

Section Entries.
Context `{Outside} `{UrlLib} (self : Config).

Lemma within_swap_claimed j t k : Within (swap_claimed self j t k).
Proof. unfold swap_claimed. sagas. Qed.

Lemma within_recover_add j : Within (recover_activation_add self j).
Proof. unfold recover_activation_add. sagas. Qed.

#[local] Hint Resolve within_swap_claimed within_recover_add : within.

Lemma within_recover_rotation j : Within (recover_rotation self j).
Proof. unfold recover_rotation. sagas. Qed.

#[local] Hint Resolve within_recover_rotation : within.

Lemma within_recover_activation j : Within (recover_activation self j).
Proof. unfold recover_activation. sagas. Qed.

#[local] Hint Resolve within_recover_activation : within.

Lemma within_recover : Within (recover self).
Proof. unfold recover, recover_job. sagas. Qed.

Lemma within_rem_transition j p c : Within (rem_transition j p c).
Proof. unfold rem_transition. sagas. Qed.

#[local] Hint Resolve within_rem_transition : within.

Lemma within_resume_removal j : Within (resume_removal self j).
Proof. unfold resume_removal, revoke_removed, delete_removed, erase_removed, leave_residual. sagas. Qed.

Lemma within_gate_begin a : Within (gate_begin self a).
Proof. unfold gate_begin. sagas. Qed.

Lemma within_gate_abort a : Within (gate_abort self a).
Proof. unfold gate_abort. sagas. Qed.

#[local] Hint Resolve within_resume_removal within_gate_begin within_gate_abort : within.

Lemma within_remove_agent a e l : Within (remove_agent self a e l).
Proof. unfold remove_agent. sagas. Qed.

Lemma within_recover_removals : Within (recover_removals self).
Proof. unfold recover_removals, recover_removal. sagas. Qed.

Lemma within_update_agent a d e b t l : Within (Removals.update_agent self a d e b t l).
Proof. unfold Removals.update_agent, revalidate, delete_quietly. sagas. Qed.
End Entries.

#[export] Hint Resolve within_recover within_remove_agent within_recover_removals within_update_agent : within.

Section Submissions.
Context `{Outside} `{UrlLib} (self : Config).

Lemma within_publish_issued j h m : Within (publish_issued j h m).
Proof. unfold publish_issued. sagas. Qed.

#[local] Hint Resolve within_publish_issued : within.

Lemma within_publish j h m : Within (publish_managed_helper self j h m).
Proof. unfold publish_managed_helper. sagas. Qed.

Lemma within_converge id c s : Within (converge_auto id c s).
Proof. unfold converge_auto. sagas. Qed.

Lemma within_record_intent : Within record_intent.
Proof. unfold record_intent. sagas. Qed.

Lemma within_outcome e r d c : Within (record_auto_outcome self e r d c).
Proof. unfold record_auto_outcome. sagas. Qed.

Lemma within_schedule j : Within (schedule_auto j).
Proof. unfold schedule_auto. sagas. Qed.

#[local] Hint Resolve within_publish within_converge within_record_intent within_outcome within_schedule : within.

Lemma within_conclude j e x : Within (conclude_auto self j e x).
Proof. unfold conclude_auto. sagas. Qed.

Lemma within_issue_auto j : Within (issue_and_validate_auto self j).
Proof. unfold issue_and_validate_auto. sagas. Qed.

#[local] Hint Resolve within_conclude within_issue_auto : within.

Lemma within_run_auto j : Within (run_auto self j).
Proof. unfold run_auto. sagas. Qed.

Lemma within_start_auto m j : Within (start_auto self m j).
Proof. unfold start_auto. sagas. Qed.

#[local] Hint Resolve within_start_auto : within.

Lemma within_create_auto r : Within (create_auto self r).
Proof. unfold create_auto. sagas. Qed.

Lemma within_create r : Within (orchestrator_create self r).
Proof. unfold orchestrator_create. sagas. Qed.

Lemma within_start_rotation a u h p : Within (start_rotation self a u h p).
Proof. unfold start_rotation. sagas. Qed.

Lemma within_get id : Within (orchestrator_get self id).
Proof. unfold orchestrator_get. sagas. Qed.

Lemma within_consume id d f : Within (orchestrator_consume self id d f).
Proof. unfold orchestrator_consume, save_failure. sagas. Qed.

Lemma within_consume_rotation a id : Within (orchestrator_consume_rotation self a id).
Proof. unfold orchestrator_consume_rotation, save_failure. sagas. Qed.

Lemma within_cancel id : Within (orchestrator_cancel self id).
Proof. unfold orchestrator_cancel. sagas. Qed.

Lemma within_validate_legacy b p t : Within (validate_legacy self b p t).
Proof. unfold validate_legacy, validate_legacy_steps. sagas. Qed.

Lemma within_begin_cli id u h p a uid n : Within (begin_cli_submission self id u h p a uid n).
Proof. unfold begin_cli_submission, begin_cli_steps, resume_cli. sagas. Qed.

#[local] Hint Resolve within_get within_consume : within.

Lemma within_complete_cli c p f n : Within (complete_cli_submission self c p f n).
Proof. unfold complete_cli_submission, complete_cli_steps. sagas. Qed.

Lemma within_compensate_local id h c : Within (compensate_local_bootstrap self id h c).
Proof. unfold compensate_local_bootstrap. sagas. Qed.

#[local] Hint Resolve within_compensate_local : within.

Lemma within_finish_local id h e c d : Within (finish_local_bootstrap_failure self id h e c d).
Proof. unfold finish_local_bootstrap_failure. sagas. Qed.

Lemma within_local_pending r t : Within (local_pending self r t).
Proof. unfold local_pending. sagas. Qed.

#[local] Hint Resolve within_finish_local within_local_pending : within.

Lemma within_local_steps r t j b : Within (local_steps self r t j b).
Proof. unfold local_steps, local_failure. sagas. Qed.

#[local] Hint Resolve within_local_steps : within.

Lemma within_bootstrap_local r : Within (bootstrap_local self r).
Proof. unfold bootstrap_local, bootstrap_local_steps. sagas. Qed.

Lemma within_recover_and_cleanup : Within (recover_and_cleanup self).
Proof. unfold recover_and_cleanup, recover_auto_startup, recover_auto_job, store_cleanup_orphans. sagas. Qed.

(** ** The operations as one type *)
Inductive Operation :=
| OpCreate (request : EnrollmentJobRequest)
| OpCreateAuto (request : EnrollmentJobRequest)
| OpStartRotation (agent ssh_user ssh_host : string) (ssh_port : Z)
| OpGet (id : string)
| OpConsume (id : string) (display_name : option string) (fingerprint : string)
| OpConsumeRotation (agent id : string)
| OpUpdateAgent (agent : string) (display_name : option string) (enabled : option bool)
    (base_url profile legacy_token : option string)
| OpRemoveAgent (agent : string) (audit_event_id : Z) (local_only : bool)
| OpRecoverRemovals
| OpCancel (id : string)
| OpBeginCli (id ssh_user ssh_host : string) (ssh_port : Z) (pinned : string) (peer_uid : Z) (nonce : option string)
| OpCompleteCli (claim : CliSubmissionClaim) (payload fingerprint nonce : string)
| OpValidateLegacy (base_url profile token : string)
| OpRunAuto (job : EnrollmentJob)
| OpBootstrapLocal (request : LocalBootstrapRequest)
| OpRecover
| OpRecoverAndCleanup.

Definition discard {A} (m : O A) : O unit := m ;;! o_ret tt.

Definition operation (op : Operation) : O unit :=
  match op with
  | OpCreate r => discard (orchestrator_create self r)
  | OpCreateAuto r => discard (create_auto self r)
  | OpStartRotation a u h p => discard (start_rotation self a u h p)
  | OpGet id => discard (orchestrator_get self id)
  | OpConsume id d f => discard (orchestrator_consume self id d f)
  | OpConsumeRotation a id => discard (orchestrator_consume_rotation self a id)
  | OpUpdateAgent a d e b p t => discard (Removals.update_agent self a d e b p t)
  | OpRemoveAgent a e l => remove_agent self a e l
  | OpRecoverRemovals => recover_removals self
  | OpCancel id => discard (orchestrator_cancel self id)
  | OpBeginCli id u h p a uid n => discard (begin_cli_submission self id u h p a uid n)
  | OpCompleteCli c p f n => discard (complete_cli_submission self c p f n)
  | OpValidateLegacy b p t => discard (validate_legacy self b p t)
  | OpRunAuto j => run_auto self j
  | OpBootstrapLocal r => discard (bootstrap_local self r)
  | OpRecover => recover self
  | OpRecoverAndCleanup => recover_and_cleanup self
  end.

#[local] Hint Resolve within_create within_create_auto within_start_rotation within_consume_rotation within_cancel
  within_begin_cli within_complete_cli within_validate_legacy within_run_auto within_bootstrap_local
  within_recover_and_cleanup : within.

Lemma within_operation op : Within (operation op).
Proof. destruct op; unfold operation, discard; sagas. Qed.
End Submissions.
