(* ===== verification/OrchestratorClaims.v ===== *)
(** * The orchestrator as a client of the repositories

    A session of the manager: operations of the orchestrator one after
    another, each cut short by any failure or by the death of the process.  To
    the database it is a sequence of repository calls, so what is proved of
    every such sequence holds of every session. *)

From stdpp Require Import base tactics list gmap strings relations.
From Stdlib Require Import ZArith Lia.
From S2P Require Import Prelude Text Sql Models Schema JobValidation EnrollmentJournal ManagerRegistry.
From S2P Require Import RemovalJournal EnrollmentJobs Samples Lifecycle RegistryClaims SecretFiles Gateway TargetPolicy AgentClient.
From S2P Require Import TargetClaims Saga Recovery Removals Enrollments SagaSamples SagaFacts.

(** One operation and the memory with which the next one starts: what other
    coroutines made of it, or that of a new process after this one died. *)
Definition Turn : Type := Operation * (Memory -> Memory).

Definition turn `{Outside} `{UrlLib} (self : Config) (w : World) (t : Turn) : World :=
  let w' := (operation self t.1 w).2 in w' <| w_mem := t.2 (w_mem w') |> <| w_tick := S (w_tick w') |>.

Definition session `{Outside} `{UrlLib} (self : Config) (ts : list Turn) (w : World) : World :=
  foldl (turn self) w ts.

(** Other connections also go through the repositories. *)
Definition others_call `{Outside} `{UrlLib} : Prop := forall n db, exists cs, out_others n db = run_all cs db.

Lemma run_all_app `{UrlLib} cs cs' db : run_all (cs ++ cs') db = run_all cs' (run_all cs db).
Proof. apply foldl_app. Qed.

Lemma steps_are_calls `{Outside} `{UrlLib} db db' :
  others_call -> db_steps db db' -> exists cs, db' = run_all cs db.
Proof.
  intros Ho. induction 1 as [db|db db1 db2 Hs _ [cs ->]]; [by exists []|].
  destruct Hs as [c db|n db].
  - by exists (c :: cs).
  - destruct (Ho n db) as [cs' ->]. exists (cs' ++ cs). by rewrite run_all_app.
Qed.

Lemma session_steps `{Outside} `{UrlLib} self ts w : db_steps (w_db w) (w_db (session self ts w)).
Proof.
  revert w. induction ts as [|t ts IH]; intros w; [done|].
  etrans; [apply (within_operation self t.1 w)|exact (IH (turn self w t))].
Qed.


(** An enrollment is saved, committed and the Agent removed, in one session. *)
Definition sample_session : list Turn :=
  [(OpRecover, id); (OpRemoveAgent "agent-1" 7%Z true, id); (OpRecoverAndCleanup, id)].


(** * Removal of a locally bootstrapped Agent

    The removal saga prepares its target with the policy for remote Agents,
    which forbids the loopback address every locally bootstrapped Agent has. *)

Section Local.
Context `{PythonIp} `{UrlLib} (client : AgentClient).

Lemma loopback_text hostname : ip_address hostname = Some LOCAL_BOOTSTRAP_ADDRESS -> is_forbidden LOCAL_BOOTSTRAP_ADDRESS = true.
Proof. intros _. unfold is_forbidden, is_loopback, judged. destruct judges_mapped; by vm_compute. Qed.

Lemma local_endpoint resolver endpoint id t :
  prepare_target client resolver (PrepareLocal endpoint id) = inr t ->
  exists scheme hostname port, parse_endpoint endpoint = inr (scheme, hostname, port) /\
    ip_address hostname = Some LOCAL_BOOTSTRAP_ADDRESS.
Proof.
  cbn. intros (profile & Hp & E)%with_profile_inr. unfold resolve_local_socket in E.
  apply p_bind_inr in E as ([[scheme hostname] port] & Hparse & E). exists scheme, hostname, port. split; [done|].
  destruct (ip_address hostname) as [a|] eqn:Ha; [|done].
  unfold revalidate_local_socket_target in E. rewrite Hparse in E. cbn [p_bind] in E. checked_step E. rewrite Ha in E.
  checked_step E. destruct (ip_address (ip_text a)) as [b|]; [|done]. checked_step E. prop_hyps. congruence.
Qed.

Lemma local_target_refused resolver endpoint id t resolver' id' :
  prepare_target client resolver (PrepareLocal endpoint id) = inr t ->
  exists code, prepare_target client resolver' (Prepare endpoint id') = inl (code, "not_dispatched").
Proof.
  intros (scheme & hostname & port & Hparse & Ha)%local_endpoint. cbn. unfold with_profile.
  destruct (client_profiles client !! id') as [profile|]; [|by eexists].
  destruct (resolve _ _ _ _) as [code|t'] eqn:E; [by exists code|]. exfalso.
  unfold resolve in E. apply p_bind_inr in E as (s & E & _). unfold validate_safety, validate_safety_of in E.
  rewrite Hparse in E. cbn [p_bind] in E. checked_step E. unfold resolve_once in E. rewrite Ha in E. cbn [p_bind] in E.
  checked_step E. checked_step E. cbn in *. rewrite (loopback_text hostname Ha) in *. done.
Qed.
End Local.

(** ** The saga *)
Section Stuck.
Context `{Outside} `{UrlLib} (self : Config) (job : AgentRemovalJob).

Lemma raises_bind {A B} (m : O A) (k : A -> O B) w :
  (forall a w', m w = (inr a, w') -> exists e, (k a w').1 = inl e) -> exists e, (o_bind m k w).1 = inl e.
Proof. unfold o_bind. destruct (m w) as [[e|a] w']; [by eexists|]. eauto. Qed.

Lemma leave_residual_raises {A} current code dispatch w :
  exists e, (leave_residual (A := A) current code dispatch w).1 = inl e.
Proof. apply raises_bind. by eexists. Qed.

Lemma rem_transition_endpoint current phase code w r w' :
  rem_transition current phase code w = (inr r, w') ->
  removal_normalized_endpoint r = removal_normalized_endpoint current /\
  removal_transport_profile_id r = removal_transport_profile_id current.
Proof.
  unfold rem_transition, o_bind. destruct (clock w) as [[e|now] w1]; [done|]. unfold perform, o_bind, transact, o_bind.
  destruct (advance w1) as [[e|n] w2]; [done|].
  destruct (transition current phase now code (out_others n (w_db w2))) as [[e|a] db] eqn:E; [done|].
  apply transition_spec in E as (q & _ & _ & -> & _). by intros [= <- <-].
Qed.

(** A locally bootstrapped Agent cannot be removed remotely.  When the
    stored endpoint is one the local bootstrap accepts, a removal that is not
    local never gets past the revocation, whatever happens: every run raises. *)
Theorem local_removal_never_ends resolver id t w :
  prepare_target out_client resolver (PrepareLocal (removal_normalized_endpoint job) id) = inr t ->
  removal_phase job ∈ ["pending"; "revoking"; "residual"] -> removal_local_only job = false ->
  removal_enrollment_method job = LOCAL_SOCKET ->
  exists e, (resume_removal self job w).1 = inl e.
Proof.
  intros Ht Hph Hlo Hm. unfold resume_removal. apply raises_bind. intros _ w0 _. unfold o_bind at 1.
  replace (phase_is "pending" job || phase_is "revoking" job || phase_is "residual" job) with true
    by (symmetry; unfold phase_is; rewrite !orb_True_iff, !bool_decide_eq_true; set_solver).
  cut (exists e, (revoke_removed self job w0).1 = inl e).
  { destruct (revoke_removed self job w0) as [[e|a] w1]; intros [e' [= ->]]. by eexists. }
  unfold revoke_removed. rewrite Hlo, Hm. cbn [negb andb]. rewrite bool_decide_false by done. cbn [negb andb].
  unfold o_bind at 1. cut (forall m : O AgentRemovalJob, (exists e, (m w0).1 = inl e) ->
    exists e, (match m w0 with (inl e, w') => (inl e, w') | (inr a, w') => rem_transition a "revoked" None w' end).1 = inl e).
  { intros Hcut. apply Hcut. destruct (negb (has_agent_client self)); [by eexists|].
    apply raises_bind. intros r w1 Hr.
    assert (Hend : removal_normalized_endpoint r = removal_normalized_endpoint job).
    { destruct (phase_is "revoking" job); [by injection Hr as <- _|]. by apply rem_transition_endpoint in Hr as [? _]. }
    unfold o_catch, o_bind, prepare, o_bind. destruct (advance w1) as [[e|n] w2] eqn:Ea.
    - unfold advance in Ea. destruct (out_halts _); simplify_eq. by eexists.
    - destruct (local_target_refused out_client _ _ _ _ (out_resolve n) (removal_transport_profile_id r) Ht) as [code Hc].
      rewrite Hend, Hc. cbn. apply leave_residual_raises. }
  intros m [e He]. destruct (m w0) as [[e'|a] w']; [by eexists|done].
Qed.
End Stuck.

(** ** A local Agent *)
Definition loopback_network : IPNetwork := v4_network 127 0 0 0 8.

Definition local_client : AgentClient :=
  mkAgentClient (mkPolicy [loopback_network] [(V4 [127; 0; 0; 1]%Z, 8000%Z)])
    {[ LOCAL_BOOTSTRAP_PROFILE_ID := TrustedLanHttpProfile LOCAL_BOOTSTRAP_PROFILE_ID [loopback_network] ]}.

Definition local_outside : Outside := {|
  out_clock := out_clock; out_halts := out_halts; out_others := out_others; out_meanwhile := out_meanwhile;
  out_http := out_http; out_issue := out_issue; out_intervals := out_intervals; out_resolve := out_resolve;
  out_client := local_client; out_python := out_python; out_iso := out_iso; out_intent := out_intent;
  out_uuid4 := out_uuid4; out_tokens := out_tokens; out_parse_helper := out_parse_helper
|}.

Definition local_agent : AgentRecord :=
  mkAgent "agent-1" (Some "inst-1") "agent one" "http://127.0.0.1:8765" ref_a (Some "cred-0")
    LOCAL_BOOTSTRAP_PROFILE_ID LOCAL_SOCKET true LOCAL_BOOTSTRAP_SOURCE 3%Z 0%Z 0%Z.

Definition local_removal : AgentRemovalJob := new_removal uuid_q local_agent 7%Z false 50%Z.

Definition local_removing : DB := empty_db <| agents := {[ "agent-1" := local_agent ]} |>
  <| agent_removal_jobs := {[ uuid_q := local_removal ]} |>.

Lemma local_removal_never_ends_witness :
  valid_record local_agent = true /\
  exists e, (resume_removal (H := local_outside) sample_config local_removal (sample_world local_removing)).1 = inl e.
Proof.
  split; [by vm_compute|].
  destruct (prepare_target (H := @out_python local_outside) local_client (fun _ _ _ => None)
    (PrepareLocal "http://127.0.0.1:8765" LOCAL_BOOTSTRAP_PROFILE_ID)) as [e|t] eqn:E; [by vm_compute in E|].
  eapply (local_removal_never_ends (H := local_outside) sample_config local_removal _ _ t); [exact E|by left|done|done].
Defined.
