(* ===== verification/RemovalRuns.v ===== *)
(** * A removal that meets no obstacle ends

    Total runs of the removal saga: in a world whose outside answers and does
    not interfere, [resume_removal] returns from every phase, and the Agent,
    its credential file and the pending removal are gone. *)

From stdpp Require Import base tactics list gmap strings.
From Stdlib Require Import ZArith Lia.
From S2P Require Import Prelude Text Sql Models Schema MutationFence EnrollmentJournal ManagerRegistry RemovalJournal.
From S2P Require Import EnrollmentJobs Lifecycle Samples RegistryClaims Gateway.
From S2P Require Import RegistryClaims SecretFiles SecretFacts SecretRecovery TargetPolicy AgentClient Saga.
From S2P Require Import Recovery Removals SagaSamples.

(** ** The tables a removal works on *)
Record removal_ready (db : DB) (r : AgentRemovalJob) : Prop := {
  ready_wf : db_wf db;
  ready_row : agent_removal_jobs db !! removal_id r = Some r;
  ready_valid : valid_removal r = true;
  ready_active : removal_active r = true;
  ready_rotations k row : agent_enrollment_jobs db !! k = Some row -> rotation_live (removal_agent_id r) row = false;
  ready_agent a : agents db !! removal_agent_id r = Some a ->
    agent_revision a = removal_captured_revision r /\ agent_credential_ref a = removal_credential_ref r
}.

Lemma enter_phase_valid p c now r :
  p ∈ removal_phases -> valid_removal r = true -> valid_removal (enter_phase p c now r) = true.
Proof.
  unfold valid_removal. intros Hp H. prop_hyps.
  rewrite !andb_True_iff. split_and!; [|done|done]. by apply bool_decide_eq_true.
Qed.

Lemma transition_run r p now db :
  removal_ready db r -> p ∈ removal_phases ->
  transition r p now None db =
    (inr (enter_phase p None now r),
     db <| agent_removal_jobs := <[removal_id r := enter_phase p None now r]> (agent_removal_jobs db) |>).
Proof.
  intros Hr Hp. destruct (wf_removals _ (ready_wf _ _ Hr) _ _ (ready_row _ _ Hr)) as (_ & Hck & Huq).
  pose proof (ready_active _ _ Hr) as Hact.
  unfold transition. cbv zeta. rewrite checked_ok.
  2: { unfold require. by rewrite enter_phase_valid by (done || apply Hr). }
  apply write_inr. apply tx_bind_inr. exists 1. eexists. split.
  - apply update_removal_inr. eexists. split; [|reflexivity]. apply update_pk_hit. exists r.
    split_and!; [apply Hr|by apply bool_decide_eq_true| |done].
    unfold removals_check in *. prop_hyps. apply andb_True_iff. split.
    + apply andb_True_iff. split; [by apply Z.leb_le|]. by apply bool_decide_eq_true.
    + unfold removals_unique in *. rewrite Hact in Huq. cbn in Huq. apply orb_True_iff. right. exact Huq.
  - done.
Qed.

Lemma transition_ready r p now db :
  removal_ready db r -> p ∈ removal_phases -> p <> "completed" ->
  removal_ready (db <| agent_removal_jobs := <[removal_id r := enter_phase p None now r]> (agent_removal_jobs db) |>)
    (enter_phase p None now r).
Proof.
  intros Hr Hp Hne. split; try apply Hr.
  - pose proof (removal_run_wf (CallTransition r p now None) db (ready_wf _ _ Hr)) as Hw. cbn in Hw.
    by rewrite transition_run in Hw.
  - apply lookup_insert_eq.
  - apply enter_phase_valid; [done|apply Hr].
  - by apply bool_decide_eq_true.
Qed.

Lemma entomb_ok t r : job_row_ok t r = true -> job_row_ok t (entomb r) = true.
Proof.
  unfold job_row_ok. intros [Hc _]%andb_True_iff. apply andb_True_iff. split; [|done].
  unfold jobs_check, check_columns in *. cbn. prop_hyps.
  rewrite !andb_True_iff. split_and!; try done; [by apply Z.leb_le|by rewrite orb_true_r].
Qed.

Lemma removal_fence_open db r :
  removal_ready db r -> fence_open db (removal_agent_id r) None (Some (removal_id r)).
Proof.
  intros Hr. split.
  - intros k q Hq. unfold removal_blocks. destruct (decide (k = removal_id r)) as [->|Hne].
    { pose proof (ready_row _ _ Hr). simplify_eq. cbn. rewrite (bool_decide_false (removal_id q <> removal_id q)) by (intros Hx; by apply Hx). by rewrite andb_false_r. }
    destruct (wf_removals _ (ready_wf _ _ Hr) _ _ (ready_row _ _ Hr)) as (_ & _ & Huq).
    unfold removals_unique in Huq. rewrite (ready_active _ _ Hr) in Huq. cbn in Huq. prop_hyps.
    destruct (removal_active q) eqn:Ha; [|by rewrite andb_false_r].
    rewrite bool_decide_false; [done|]. by eapply Huq.
  - intros k row Hk. pose proof (ready_rotations _ _ Hr _ _ Hk) as Hl. unfold rotation_live, live in Hl.
    unfold rotation_blocks. destruct (sql_eq _ _); [|done]. cbn in Hl. rewrite Hl. by rewrite andb_false_r.
Qed.

Definition entombed (agent : string) (r : JobRow) : JobRow :=
  if sql_eq (job_replace_agent_id (row_job r)) (Some agent) && terminal (job_state (row_job r)) then entomb r else r.

Definition removed_db (agent : string) (db : DB) : DB :=
  db <| agent_enrollment_jobs := entombed agent <$> agent_enrollment_jobs db |>
     <| agents := delete agent (agents db) |> <| agent_status := delete agent (agent_status db) |>.

Lemma delete_removal_run db r a :
  removal_ready db r -> agents db !! removal_agent_id r = Some a ->
  delete_if_revision_and_credential (removal_agent_id r) (removal_captured_revision r) (removal_credential_ref r)
    None (Some (removal_id r)) db = (inr true, removed_db (removal_agent_id r) db).
Proof.
  intros Hr Ha. destruct (ready_agent _ _ Hr a Ha) as [Hrev Hcred].
  unfold delete_if_revision_and_credential. cbv zeta. apply write_inr.
  apply tx_bind_inr. exists tt, db. split; [by apply assert_agent_mutation_allowed_inr; split; [|apply removal_fence_open]|].
  apply tx_bind_inr. exists (Some a), db. split; [by rewrite <- Ha|].
  rewrite Hrev, Hcred, Z.eqb_refl, bool_decide_true by done. cbn [andb].
  apply tx_bind_inr. exists false, db. split.
  { unfold reads. do 2 f_equal. apply exists_where_false. apply (ready_rotations _ _ Hr). }
  apply tx_bind_inr. exists tt, db. split; [done|].
  apply tx_bind_inr. eexists tt, _. split.
  { apply update_jobs_inr. eexists. split; [|reflexivity]. apply update_all_Some. split; [|reflexivity].
    intros k row Hk _. apply entomb_ok. by destruct (wf_jobs _ (ready_wf _ _ Hr) _ _ Hk). }
  apply tx_bind_inr. exists 1, (removed_db (removal_agent_id r) db). split; [|done].
  unfold delete_agent.
  match goal with |- context [agents ?d !! _] => change (agents d) with (agents db) end. rewrite Ha, Hrev, Hcred, Z.eqb_refl.
  rewrite bool_decide_true by done. cbn [andb]. apply tx_bind_inr.
  exists tt, (db <| agent_enrollment_jobs := entombed (removal_agent_id r) <$> agent_enrollment_jobs db |>).
  split; [|reflexivity]. apply guard_integrity_inr. split; [|reflexivity]. apply negb_true_iff, exists_where_false.
  intros k row. cbn. intros (row0 & <- & Hk)%lookup_fmap_Some. apply bool_decide_eq_false.
  pose proof (ready_rotations _ _ Hr _ _ Hk) as Hl. unfold rotation_live, live in Hl.
  destruct (sql_eq (job_replace_agent_id (row_job row0)) (Some (removal_agent_id r))) eqn:Eq; cbn [andb] in *.
  - apply negb_false_iff in Hl. rewrite Hl. done.
  - intros E. rewrite E in Eq. cbn in Eq. by rewrite bool_decide_true in Eq.
Qed.

Lemma removed_ready db r a :
  removal_ready db r -> agents db !! removal_agent_id r = Some a -> removal_ready (removed_db (removal_agent_id r) db) r.
Proof.
  intros Hr Ha. split; try apply Hr.
  - pose proof (delete_removal_run db r a Hr Ha) as Hd.
    pose proof (run_wf (Registry (CallDeleteIf (removal_agent_id r) (removal_captured_revision r)
      (removal_credential_ref r) None (Some (removal_id r)))) db (ready_wf _ _ Hr)) as Hw.
    cbn in Hw. by rewrite Hd in Hw.
  - intros k row (row0 & <- & Hk)%lookup_fmap_Some. pose proof (ready_rotations _ _ Hr _ _ Hk) as Hl.
    unfold entombed. destruct (_ && _); done.
  - intros b Hb. cbn in Hb. by rewrite lookup_delete_eq in Hb.
Qed.

Lemma delete_missing_run db r :
  removal_ready db r -> agents db !! removal_agent_id r = None ->
  delete_if_revision_and_credential (removal_agent_id r) (removal_captured_revision r) (removal_credential_ref r)
    None (Some (removal_id r)) db = (inr false, db).
Proof.
  intros Hr Ha. unfold delete_if_revision_and_credential. cbv zeta. apply write_inr.
  apply tx_bind_inr. exists tt, db. split; [by apply assert_agent_mutation_allowed_inr; split; [|apply removal_fence_open]|].
  apply tx_bind_inr. exists None, db. split; [by rewrite <- Ha|done].
Qed.

(** ** Total runs *)

(** The outside answers every request and leaves everything else alone. *)
Record benign `{Outside} : Prop := {
  benign_alive n : out_halts n = false;
  benign_others n db : out_others n db = db;
  benign_meanwhile n m : out_meanwhile n m = m;
  benign_revoke n target token id : exists v, agent_answer (out_http n) (Revoke target token id) = Value v
}.

Definition Runs {A} (P : World -> Prop) (m : O A) (Q : A -> World -> Prop) : Prop :=
  forall w, P w -> exists a w', m w = (inr a, w') /\ Q a w'.

Definition at_world (db : DB) (d : Dir) (w : World) : Prop := w_db w = db /\ mem_dir (w_mem w) = d.

Section Runs.
Context `{Outside} `{UrlLib} (Hb : benign).

Lemma runs_ret {A} (P : World -> Prop) (a : A) (Q : A -> World -> Prop) :
  (forall w, P w -> Q a w) -> Runs P (o_ret a) Q.
Proof. intros HQ w Hw. exists a, w. auto. Qed.

Lemma runs_bind {A B} P (m : O A) (k : A -> O B) Q R :
  Runs P m Q -> (forall a, Runs (Q a) (k a) R) -> Runs P (o_bind m k) R.
Proof. intros Hm Hk w Hw. unfold o_bind. destruct (Hm w Hw) as (a & w1 & -> & Hq). by apply Hk. Qed.

Lemma runs_catch {A} P (m : O A) h Q : Runs P m Q -> Runs P (o_catch m h) Q.
Proof. intros Hm w Hw. unfold o_catch. destruct (Hm w Hw) as (a & w1 & -> & Hq). eauto. Qed.

Lemma runs_finally {A} P (m : O A) f Q R :
  Runs P m Q -> (forall a, Runs (Q a) f (fun _ => R a)) -> Runs P (o_finally m f) R.
Proof.
  intros Hm Hf w Hw. unfold o_finally. destruct (Hm w Hw) as (a & w1 & -> & Hq).
  destruct (Hf a w1 Hq) as (u & w2 & -> & HR). eauto.
Qed.

Lemma runs_conseq {A} (P P' : World -> Prop) (m : O A) (Q Q' : A -> World -> Prop) :
  (forall w, P w -> P' w) -> (forall a w, Q' a w -> Q a w) -> Runs P' m Q' -> Runs P m Q.
Proof. intros HP HQ Hm w Hw. destruct (Hm w (HP w Hw)) as (a & w' & E & HQ'). eauto. Qed.

Lemma runs_fact {A} (V : Prop) P (m : O A) Q : (V -> Runs P m Q) -> Runs (fun w => V /\ P w) m Q.
Proof. intros Hm w [HV HP]. by apply Hm. Qed.

Lemma advance_run db d : Runs (at_world db d) advance (fun _ => at_world db d).
Proof. intros w Hw. unfold advance. rewrite (benign_alive Hb). by eexists _, _. Qed.

Lemma clock_run db d : Runs (at_world db d) clock (fun _ => at_world db d).
Proof. eapply runs_bind; [apply advance_run|]. intros n. by apply runs_ret. Qed.

Lemma log_run e db d : Runs (at_world db d) (log e) (fun _ => at_world db d).
Proof. intros w Hw. by eexists _, _. Qed.

Lemma transact_run {A} (m : Method A) a db db' d :
  m db = (inr a, db') -> Runs (at_world db d) (transact m) (fun x w => x = a /\ at_world db' d w).
Proof.
  intros Hm. eapply runs_bind; [apply advance_run|]. intros n w [<- <-].
  rewrite (benign_others Hb), Hm. by eexists _, _.
Qed.

Lemma perform_run {A} c (m : Method A) a db db' d :
  m db = (inr a, db') -> Runs (at_world db d) (perform c m) (fun x w => x = a /\ at_world db' d w).
Proof.
  intros Hm. eapply runs_bind; [by apply transact_run|]. intros x. apply runs_fact. intros ->.
  eapply runs_bind; [apply log_run|]. intros ?. by apply runs_ret.
Qed.

Lemma store_run {A} (m : FS A) a db d d' :
  m d = (inr a, d') -> Runs (at_world db d) (store m) (fun x w => x = a /\ at_world db d' w).
Proof. intros Hm w [<- <-]. unfold store. rewrite Hm. by eexists _, _. Qed.

(** The policy accepts the target whenever it is asked. *)
Definition prepared (p : Preparation) : Prop := forall n, exists t, prepare_target out_client (out_resolve n) p = inr t.

Lemma prepare_run p db d : prepared p -> Runs (at_world db d) (prepare p) (fun _ => at_world db d).
Proof. intros Hp. eapply runs_bind; [apply advance_run|]. intros n. destruct (Hp n) as [t ->]. by apply runs_ret. Qed.

Lemma ask_run target token id db d :
  Runs (at_world db d) (ask (Revoke target token id)) (fun _ => at_world db d).
Proof.
  eapply runs_bind; [apply log_run|]. intros ?.
  eapply runs_bind with (Q := fun _ => at_world db d).
  { eapply runs_bind; [apply advance_run|]. intros n w [Hd Hm]. eexists _, _. split; [reflexivity|].
    unfold at_world. cbn. rewrite (benign_others Hb), (benign_meanwhile Hb). done. }
  intros n. destruct (benign_revoke Hb n target token id) as [v ->].
  eapply runs_bind; [apply log_run|]. intros ?. by apply runs_ret.
Qed.

Lemma r_get_run id db d : Runs (at_world db d) (r_get id) (fun x w => x = agents db !! id /\ at_world db d w).
Proof.
  eapply runs_bind; [by apply transact_run|]. intros x. apply runs_fact. intros ->.
  eapply runs_bind; [apply log_run|]. intros ?. by apply runs_ret.
Qed.

Lemma store_delete_run n r db d :
  calm d -> depth d = S n -> is_credential_ref r = true ->
  (forall i, entries d !! r = Some i -> exists f, inodes d !! i = Some f /\ private f = true) ->
  Runs (at_world db d) (store_delete (Some r)) (fun _ => at_world db (d <| entries := delete r (entries d) |>)).
Proof.
  intros Hc Hd Hr Hf. destruct (delete_if_exists_run n r d Hc Hd Hr Hf) as [b Hrun].
  eapply runs_bind; [by apply store_run|]. intros x. apply runs_fact. intros ->.
  unfold o_when. destruct b; [apply log_run|by apply runs_ret].
Qed.

Lemma lifecycle_lease_run {A} (body : O A) Q db db' d d1 :
  calm d -> depth d = 0 -> lock_ready d -> calm d1 ->
  Runs (at_world db (d <| depth := 1 |>)) body (fun a w => Q a /\ at_world db' d1 w) ->
  Runs (at_world db d) (lifecycle_lease body) (fun a w => Q a /\ at_world db' (d1 <| depth := 0 |>) w).
Proof.
  intros Hc Hfree (i & f & Hl & Hi & Hf) Hc1 Hbody. unfold lifecycle_lease.
  eapply runs_bind with (Q := fun x w => x = d /\ at_world db d w).
  { intros w [Hw <-]. by eexists _, _. }
  intros x. apply runs_fact. intros ->. rewrite Hfree.
  eapply runs_bind; [apply store_run; by eapply open_lock_run|]. intros ?. apply runs_fact. intros _. apply runs_catch.
  eapply runs_bind; [apply store_run; by apply sys_run|]. intros ?. apply runs_fact. intros _.
  eapply runs_bind; [by apply store_run|]. intros ?. apply runs_fact. intros _.
  eapply runs_finally; [exact Hbody|]. intros b. apply runs_fact. intros HQ.
  eapply runs_bind; [by apply store_run|]. intros ?. apply runs_fact. intros _.
  eapply runs_conseq; [| |apply (store_run sys tt db' (d1 <| depth := 0 |>)); by apply sys_run]; [done|].
  intros ? w [_ Hw]. done.
Qed.
End Runs.

(** ** The saga *)
Section RemovalRun.
Context `{Outside} `{UrlLib} (Hb : benign) (self : Config).
Context (Hrem : has_removals self = true) (Hclient : has_agent_client self = true).

(** The credential directory of a removal: nothing fails, and the credential
    is a private file or missing. *)
Record store_ready (reference : string) (d : Dir) : Prop := {
  store_calm : calm d;
  store_free : depth d = 0;
  store_lock : lock_ready d;
  store_file i : entries d !! reference = Some i -> exists f, inodes d !! i = Some f /\ private f = true
}.

(** Between two phases: the tables, the directory, and what is gone. *)
Definition between (r : AgentRemovalJob) (phase : string) (gone : bool) (db : DB) (d : Dir) : Prop :=
  removal_ready db r /\ removal_phase r = phase /\ store_ready (removal_credential_ref r) d /\
  (gone = true -> agents db !! removal_agent_id r = None).

Definition same_saga (r0 r : AgentRemovalJob) : Prop :=
  removal_id r = removal_id r0 /\ removal_agent_id r = removal_agent_id r0 /\
  removal_credential_ref r = removal_credential_ref r0 /\
  removal_normalized_endpoint r = removal_normalized_endpoint r0 /\
  removal_transport_profile_id r = removal_transport_profile_id r0.

Definition reaches (r0 : AgentRemovalJob) (phase : string) (gone : bool) (r : AgentRemovalJob) (w : World) : Prop :=
  exists db d, at_world db d w /\ between r phase gone db d /\ same_saga r0 r.

Lemma rem_transition_run r p phase gone db d :
  between r phase gone db d -> p ∈ removal_phases -> p <> "completed" ->
  Runs (at_world db d) (rem_transition r p None)
    (fun r' w => reaches r p gone r' w /\
       removal_local_only r' = removal_local_only r /\ removal_enrollment_method r' = removal_enrollment_method r /\
       exists db', at_world db' d w /\ between r' p gone db' d).
Proof.
  intros (Hr & Hp0 & Hst & Hg) Hp Hne. eapply runs_bind; [by apply clock_run|]. intros now.
  eapply runs_conseq; [done| |apply perform_run; [done|by apply transition_run]].
  intros r' w [-> Hw].
  assert (between (enter_phase p None now r) p gone
    (db <| agent_removal_jobs := <[removal_id r := enter_phase p None now r]> (agent_removal_jobs db) |>) d).
  { split_and!; [by apply transition_ready|done|exact Hst|exact Hg]. }
  split_and!; [|done|done|by eauto]. by eexists _, _.
Qed.

Lemma revoke_removed_run r db d :
  between r (removal_phase r) false db d -> removal_phase r ∈ ["pending"; "revoking"; "residual"] ->
  (removal_local_only r = false -> removal_enrollment_method r <> LEGACY_ADMIN_TOKEN ->
   is_Some (file d (removal_credential_ref r)) /\
   prepared (Prepare (removal_normalized_endpoint r) (removal_transport_profile_id r))) ->
  Runs (at_world db d) (revoke_removed self r)
    (fun r' => reaches r "revoked" false r').
Proof.
  intros Hbt Hph Hread. unfold revoke_removed.
  assert (Hlast : forall r' db', same_saga r r' -> between r' (removal_phase r') false db' d ->
    Runs (at_world db' d) (rem_transition r' "revoked" None)
      (fun r' => reaches r "revoked" false r')).
  { intros r' db' (Hi & Ha & Hc & He & Hp) Hbt'.
    eapply runs_conseq; [done| |by eapply rem_transition_run; [exact Hbt'|set_solver|done]].
    intros x w [Hx _]. unfold reaches, same_saga in *. by rewrite <- Hi, <- Ha, <- Hc, <- He, <- Hp. }
  destruct (negb (removal_local_only r) && _) eqn:Hneed.
  2: { eapply runs_bind; [by apply (runs_ret (at_world db d) r (fun x w => x = r /\ at_world db d w))|].
       intros x. apply runs_fact. intros ->. by apply Hlast. }
  prop_hyps. rewrite Hclient. cbn [negb].
  eapply runs_bind with (Q := fun r' w => exists db', at_world db' d w /\ same_saga r r' /\ between r' (removal_phase r') false db' d).
  - eapply runs_bind with (Q := fun r' w => exists db', at_world db' d w /\ same_saga r r' /\ between r' (removal_phase r') false db' d).
    + destruct (phase_is "revoking" r).
      * apply runs_ret. intros w Hw. by exists db.
      * eapply runs_conseq; [done| |by eapply rem_transition_run; [exact Hbt|set_solver|done]].
        intros x w ((db1 & d1 & _ & _ & Hsame) & _ & _ & db2 & Hw & Hbt2).
        pose proof (proj1 (proj2 Hbt2)) as E. rewrite <- E in Hbt2 at 1. by exists db2.
    + intros r1 w (db1 & Hw & Hsame & Hbt1). pose proof Hsame as (_ & _ & Hc & Hend & Hprof). revert w Hw.
      apply runs_catch.
      destruct (Hread H1) as [[f Hf] Hprep]; [done|].
      eapply runs_bind; [apply prepare_run; [done|by rewrite Hend, Hprof]|]. intros target.
      destruct Hbt1 as (Hr1 & Hp1 & Hst1 & Hg1).
      assert (Hcr : is_credential_ref (removal_credential_ref r1) = true).
      { pose proof (ready_valid _ _ Hr1) as Hv. unfold valid_removal in Hv. by prop_hyps. }
      assert (Hpf : private f = true).
      { rewrite <- Hc in Hf. unfold file in Hf. destruct (entries d !! _) as [i|] eqn:Ei; [|done].
        destruct (store_file _ _ Hst1 i Ei) as (f' & Hf' & ?). cbn in Hf. congruence. }
      eapply runs_bind.
      { apply store_run. rewrite <- Hc in Hf. apply (read_run _ f); try done; apply Hst1. }
      intros token. apply runs_fact. intros ->.
      eapply runs_bind; [by apply ask_run|]. intros ?. apply runs_ret. intros w Hw. by exists db1.
  - intros r1 w (db1 & Hw & Hsame & Hbt1). by eapply Hlast.
Qed.

Lemma between_ref r phase gone db d : between r phase gone db d -> is_credential_ref (removal_credential_ref r) = true.
Proof. intros (Hr & _). pose proof (ready_valid _ _ Hr) as Hv. unfold valid_removal in Hv. by prop_hyps. Qed.

Lemma rem_transition_reaches r p phase gone db d :
  between r phase gone db d -> p ∈ removal_phases -> p <> "completed" ->
  Runs (at_world db d) (rem_transition r p None)
    (fun r' => reaches r p gone r').
Proof. intros. eapply runs_conseq; [done| |by eapply rem_transition_run]. by intros ? ? [? _]. Qed.

Lemma delete_removed_run r db d :
  between r "revoked" false db d ->
  Runs (at_world db d) (delete_removed r)
    (fun r' => reaches r "registry_deleted" true r').
Proof.
  intros (Hr & Hp & Hst & _). unfold delete_removed.
  destruct (agents db !! removal_agent_id r) as [a|] eqn:Ha.
  - eapply runs_bind; [apply perform_run; [done|by apply (delete_removal_run _ _ a)]|].
    intros b. apply runs_fact. intros ->. eapply runs_bind; [apply log_run|]. intros ?.
    apply (rem_transition_reaches _ _ "revoked"); [|set_solver|done].
    split_and!; [by apply (removed_ready _ _ a)|done|done|]. intros _. apply lookup_delete_eq.
  - eapply runs_bind; [apply perform_run; [done|by apply delete_missing_run]|].
    intros b. apply runs_fact. intros ->.
    eapply runs_bind with (Q := fun _ => at_world db d).
    + eapply runs_bind; [by apply r_get_run|]. intros x. apply runs_fact. intros ->. rewrite Ha. by apply runs_ret.
    + intros ?. by apply (rem_transition_reaches _ _ "revoked"); [|set_solver|done].
Qed.

(** The directory after the credential is deleted. *)
Definition erased (reference : string) (d : Dir) : Dir := d <| entries := delete reference (entries d) |>.

Lemma erased_ready reference d :
  is_credential_ref reference = true -> store_ready reference d -> store_ready reference (erased reference d).
Proof.
  intros Href [Hc Hfree (i & f & Hl & Hi & Hf) Hfile]. split; [exact Hc|exact Hfree| |].
  - exists i, f. split_and!; [|done|done]. unfold erased. cbn. rewrite lookup_delete_ne; [done|].
    intros E. rewrite E in Href. by vm_compute in Href.
  - intros j. unfold erased. cbn. by rewrite lookup_delete_eq.
Qed.

Lemma erase_removed_run r db d :
  between r "registry_deleted" true db d ->
  Runs (at_world db d) (erase_removed r)
    (fun r' w => reaches r "credential_deleted" true r' w /\
                 entries (mem_dir (w_mem w)) !! removal_credential_ref r = None).
Proof.
  intros Hbt. pose proof (between_ref _ _ _ _ _ Hbt) as Href. destruct Hbt as (Hr & Hp & Hst & Hg).
  pose proof (erased_ready _ _ Href Hst) as Hst'. destruct Hst as [Hc Hfree Hlock Hfile]. unfold erase_removed.
  eapply runs_bind.
  { apply (lifecycle_lease_run _ (fun _ => True) db db d ((erased (removal_credential_ref r) d) <| depth := 1 |>));
      [done..|].
    apply runs_catch. eapply runs_conseq; [done| |apply (store_delete_run 0); [|done..]]; [|exact Hc].
    intros ? w Hw. split; [done|exact Hw]. }
  intros ?. apply runs_fact. intros _.
  eapply runs_conseq with (P' := at_world db (erased (removal_credential_ref r) d)).
  { intros w [Hd Hm]. split; [done|]. rewrite Hm. unfold erased. cbn. by rewrite <- Hfree. }
  2: { apply (rem_transition_run _ _ "registry_deleted" true); [|set_solver|done]. by split_and!. }
  intros r' w (Hre & _ & _ & db' & [_ Hm] & _). split; [done|]. rewrite Hm. apply lookup_delete_eq.
Qed.

(** The last transition, and the state it leaves. *)
Definition removed (r0 : AgentRemovalJob) (w : World) : Prop :=
  agents (w_db w) !! removal_agent_id r0 = None /\
  (exists r, agent_removal_jobs (w_db w) !! removal_id r0 = Some r /\ removal_phase r = "completed") /\
  entries (mem_dir (w_mem w)) !! removal_credential_ref r0 = None.

Lemma complete_removed_run r0 r db d :
  between r "credential_deleted" true db d -> entries d !! removal_credential_ref r = None -> same_saga r0 r ->
  Runs (at_world db d) (rem_transition r "completed" None ;;! o_ret tt) (fun _ => removed r0).
Proof.
  intros (Hr & Hp & Hst & Hg) He (Hi & Ha & Hc & _). unfold removed. rewrite <- Hi, <- Ha, <- Hc.
  eapply runs_bind; [|intros ?; apply runs_ret; intros w Hw; exact Hw].
  eapply runs_bind; [by apply clock_run|]. intros now.
  eapply runs_conseq; [done| |apply perform_run; [done|by apply transition_run; [|set_solver]]].
  intros x w [-> [Hd Hm]]. rewrite Hd, Hm. split_and!; [by apply Hg| |done].
  eexists. split; [apply lookup_insert_eq|done].
Qed.

(** A removal is recoverable from [r] when its tables and directory are, and
    what its phase says is gone is gone. *)
Record resumable (r : AgentRemovalJob) (db : DB) (d : Dir) : Prop := {
  resumable_tables : removal_ready db r;
  resumable_store : store_ready (removal_credential_ref r) d;
  resumable_gone : removal_phase r ∈ ["registry_deleted"; "credential_deleted"] -> agents db !! removal_agent_id r = None;
  resumable_erased : removal_phase r = "credential_deleted" -> entries d !! removal_credential_ref r = None;
  resumable_token : removal_phase r ∈ ["pending"; "revoking"; "residual"] ->
    removal_local_only r = false -> removal_enrollment_method r <> LEGACY_ADMIN_TOKEN ->
    is_Some (file d (removal_credential_ref r)) /\
    prepared (Prepare (removal_normalized_endpoint r) (removal_transport_profile_id r))
}.

Lemma phase_is_eq p r : removal_phase r = p -> phase_is p r = true.
Proof. apply bool_decide_eq_true. Qed.

Lemma phase_is_ne p r : removal_phase r <> p -> phase_is p r = false.
Proof. apply bool_decide_eq_false. Qed.

Definition erased_at (r0 r : AgentRemovalJob) (w : World) : Prop :=
  reaches r0 "credential_deleted" true r w /\ entries (mem_dir (w_mem w)) !! removal_credential_ref r0 = None.

Lemma same_saga_trans r0 r r' : same_saga r0 r -> same_saga r r' -> same_saga r0 r'.
Proof. intros (?&?&?&?&?) (?&?&?&?&?). split_and!; congruence. Qed.

Lemma reaches_trans r0 r r' phase gone w : same_saga r0 r -> reaches r phase gone r' w -> reaches r0 phase gone r' w.
Proof. intros Hs (db & d & ? & ? & ?). exists db, d. eauto using same_saga_trans. Qed.

Lemma erased_trans r0 r r' w : same_saga r0 r -> erased_at r r' w -> erased_at r0 r' w.
Proof. intros Hs [? He]. split; [by eapply reaches_trans|]. destruct Hs as (_ & _ & <- & _). done. Qed.

Lemma reaches_phase r0 phase gone r w : reaches r0 phase gone r w -> removal_phase r = phase.
Proof. intros (? & ? & _ & (_ & ? & _) & _). done. Qed.

Lemma runs_reaches {A} r0 r phase gone (m : O A) Q Q0 :
  (forall db d, between r phase gone db d -> Runs (at_world db d) m Q) ->
  (forall a w, same_saga r0 r -> Q a w -> Q0 a w) -> Runs (reaches r0 phase gone r) m Q0.
Proof.
  intros Hm HQ w (db & d & Hw & Hbt & Hsame). destruct (Hm db d Hbt w Hw) as (a & w' & -> & Ha). eauto.
Qed.

(** One [if current.phase == p] of the saga. *)
Lemma runs_stage p (m : AgentRemovalJob -> O AgentRemovalJob) (before after : AgentRemovalJob -> World -> Prop) :
  (forall r w, before r w -> removal_phase r = p) -> (forall r w, after r w -> removal_phase r <> p) ->
  (forall r, Runs (before r) (m r) after) ->
  forall r, Runs (fun w => before r w \/ after r w) (if phase_is p r then m r else o_ret r) after.
Proof.
  intros Hbf Haf Hm r w [Hw|Hw].
  - rewrite (phase_is_eq p r) by eauto. by apply Hm.
  - rewrite (phase_is_ne p r) by eauto. by exists r, w.
Qed.

Lemma delete_stage r0 r :
  Runs (reaches r0 "revoked" false r) (delete_removed r) (reaches r0 "registry_deleted" true).
Proof. eapply runs_reaches; [apply delete_removed_run|]. eauto using reaches_trans. Qed.

Lemma erase_stage r0 r :
  Runs (reaches r0 "registry_deleted" true r) (erase_removed r) (erased_at r0).
Proof. eapply runs_reaches; [apply erase_removed_run|]. intros. by eapply erased_trans. Qed.

(** What the phase of a resumable removal says. *)
Lemma resumable_start r w :
  resumable r (w_db w) (mem_dir (w_mem w)) ->
  (phase_is "pending" r || phase_is "revoking" r || phase_is "residual" r = true /\
   removal_phase r ∈ ["pending"; "revoking"; "residual"]) \/
  (phase_is "pending" r || phase_is "revoking" r || phase_is "residual" r = false /\
   (reaches r "revoked" false r w \/ reaches r "registry_deleted" true r w \/ erased_at r r w)).
Proof.
  intros [Hr Hst Hgone Hera Htok].
  assert (Hin : removal_phase r ∈ removal_phases /\ removal_phase r <> "completed").
  { pose proof (ready_valid _ _ Hr) as Hv. pose proof (ready_active _ _ Hr) as Ha.
    unfold valid_removal, removal_active in *. by prop_hyps. }
  assert (Hat : forall gone, (gone = true -> agents (w_db w) !! removal_agent_id r = None) ->
    reaches r (removal_phase r) gone r w) by (intros; by exists (w_db w), (mem_dir (w_mem w))).
  destruct Hin as [Hin Hne]. unfold removal_phases, phase_is in *.
  repeat (apply elem_of_cons in Hin as [Hin|Hin]); [..|by apply elem_of_nil in Hin]; rewrite Hin in *; try done;
    (left; split; [done|set_solver]) || right; split; try done.
  - left. by apply Hat.
  - right. left. apply Hat. set_solver.
  - right. right. split; [apply Hat; set_solver|by apply Hera].
Qed.

(** C16: a removal that meets no obstacle ends.  From every phase a stopped
    removal can have been left in, when the remote Agent answers, the file
    system and the database work and nobody interferes, [resume_removal]
    returns; the Agent is then out of the registry, the removal is
    [completed] and the credential file is gone. *)
Theorem removal_completes r w :
  resumable r (w_db w) (mem_dir (w_mem w)) ->
  exists w', resume_removal self r w = (inr tt, w') /\ removed r w'.
Proof.
  intros Hres. pose proof (resumable_start _ _ Hres) as Hstart. destruct Hres as [Hr Hst _ _ Htok].
  assert (Hrun : Runs (eq w) (resume_removal self r) (fun _ => removed r)).
  2: { destruct (Hrun w) as ([] & w' & ? & ?); [done|eauto]. }
  unfold resume_removal. rewrite Hrem.
  apply runs_bind with (Q := fun _ => eq w); [by apply runs_ret|]. intros _.
  apply runs_bind with (Q := fun x w => reaches r "revoked" false x w \/
    reaches r "registry_deleted" true x w \/ erased_at r x w).
  { destruct Hstart as [[-> Hph]|[-> Hph]]; [|by apply runs_ret; intros ? <-].
    eapply runs_conseq; [| |apply (revoke_removed_run r (w_db w) (mem_dir (w_mem w)))]; try done; [by intros ? <-|by left|].
    intros. by apply Htok. }
  intros x1. eapply runs_bind.
  { apply (runs_stage "revoked" delete_removed (reaches r "revoked" false)
      (fun x w => reaches r "registry_deleted" true x w \/ erased_at r x w)).
    - apply reaches_phase.
    - intros x' w' [Hx|[Hx _]]; by rewrite (reaches_phase _ _ _ _ _ Hx).
    - intros x'. eapply runs_conseq; [done| |apply delete_stage]. auto. }
  intros x2. eapply runs_bind.
  { apply (runs_stage "registry_deleted" erase_removed (reaches r "registry_deleted" true) (erased_at r)).
    - apply reaches_phase.
    - intros x' w' [Hx _]; by rewrite (reaches_phase _ _ _ _ _ Hx).
    - apply erase_stage. }
  intros x3 w3 [Hx He]. rewrite (phase_is_eq _ x3 (reaches_phase _ _ _ _ _ Hx)).
  destruct Hx as (db & d & Hw & Hbt & Hsame). apply (complete_removed_run r x3 db d Hbt); [|done..].
  destruct Hsame as (_ & _ & -> & _). by destruct Hw as [_ <-].
Qed.
End RemovalRun.

Lemma sample_benign : benign.
Proof.
  split; try done. intros n target token id. exists (acknowledged target). cbn. unfold sample_http.
  rewrite bool_decide_false by (unfold credential_path; intros E; by apply (f_equal (String.substring 8 6)) in E).
  by vm_compute.
Qed.

(** One Agent without rotations, whose removal was just recorded. *)
Definition lone_db : DB := (registry_create agent_one empty_db).2.

Definition lone_removing : DB :=
  lone_db <| agent_removal_jobs := {[ uuid_q := removal_one ]} |>.

Lemma lone_ready : removal_ready lone_removing removal_one.
Proof.
  assert (Hw : db_wf lone_db) by exact (run_wf (Registry (CallRegister agent_one)) empty_db empty_db_wf).
  split; try by vm_compute.
  - destruct Hw. split; try done. intros k r Hk. unfold lone_removing in Hk. cbn in Hk. apply lookup_singleton_Some in Hk as [<- <-].
    split_and!; try by vm_compute.
  - intros a Ha. vm_compute in Ha. injection Ha as <-. by vm_compute.
Qed.

Lemma removal_completes_witness :
  exists w', resume_removal sample_config removal_one (sample_world lone_removing) = (inr tt, w') /\
    removed removal_one w'.
Proof.
  apply (removal_completes sample_benign sample_config); [done..|]. split.
  - exact lone_ready.
  - split; [done|done| |].
    + exists 1%positive, (mkInode true true 384 ""). by vm_compute.
    + intros i Hi. vm_compute in Hi. injection Hi as <-. exists (mkInode true true 384 "old"). by vm_compute.
  - intros Hin. apply elem_of_cons in Hin as [Hin|Hin]; [done|]. by apply list_elem_of_singleton in Hin.
  - done.
  - intros _ _ _. split; [vm_compute; by eexists|]. intros n. exists sample_target. by vm_compute.
Defined.
