(* ===== verification/SagaOrder.v ===== *)
(** * The order of a saga's actions

    A program logic for the trace of a program of [Saga].  [Emits S m]: [m]
    adds only events of [S].  [Triple P m Q]: from a trace with [P], [m] ends
    with a value and a trace related by [Q], or raises with a trace that
    satisfies the invariant. *)

From stdpp Require Import base tactics list gmap strings.
From Stdlib Require Import ZArith Lia.
From S2P Require Import Prelude Text Sql Models Schema EnrollmentJournal ManagerRegistry RemovalJournal.
From S2P Require Import EnrollmentJobs Lifecycle Gateway SecretFiles TargetPolicy AgentClient Saga Recovery Removals.

(** ** Events of a program *)
Definition Emits {A} (S : event -> Prop) (m : O A) : Prop :=
  forall w, exists evs, w_trace (m w).2 = evs ++ w_trace w /\ Forall S evs.

Section Emits.
Context `{Outside} `{UrlLib} (S : event -> Prop).

Lemma emits_same {A} (m : O A) : (forall w, w_trace (m w).2 = w_trace w) -> Emits S m.
Proof. intros Hm w. exists []. by rewrite Hm. Qed.

Lemma emits_ret {A} (a : A) : Emits S (o_ret a).
Proof. by apply emits_same. Qed.

Lemma emits_raise {A} e : Emits S (o_raise (A := A) e).
Proof. by apply emits_same. Qed.

Lemma emits_trans w w1 w2 evs1 evs2 :
  w_trace w1 = evs1 ++ w_trace w -> Forall S evs1 -> w_trace w2 = evs2 ++ w_trace w1 -> Forall S evs2 ->
  exists evs, w_trace w2 = evs ++ w_trace w /\ Forall S evs.
Proof. intros E1 F1 E2 F2. exists (evs2 ++ evs1). rewrite E2, E1, <- app_assoc. by split; [|apply Forall_app]. Qed.

Lemma emits_bind {A B} (m : O A) (k : A -> O B) :
  Emits S m -> (forall a, Emits S (k a)) -> Emits S (o_bind m k).
Proof.
  intros Hm Hk w. unfold o_bind. destruct (Hm w) as (evs & E & F). destruct (m w) as [[e|a] w']; [by exists evs|].
  destruct (Hk a w') as (evs' & E' & F'). by eapply emits_trans.
Qed.

Lemma emits_catch {A} (m : O A) h :
  Emits S m -> (forall e p, h e = Some p -> Emits S p) -> Emits S (o_catch m h).
Proof.
  intros Hm Hh w. unfold o_catch. destruct (Hm w) as (evs & E & F).
  destruct (m w) as [[e|a] w']; [|by exists evs].
  destruct e; try (by exists evs); destruct (h _) as [p|] eqn:Ep; try (by exists evs);
    (destruct (Hh _ p Ep w') as (evs' & E' & F'); by eapply emits_trans).
Qed.

Lemma emits_finally {A} (m : O A) f : Emits S m -> Emits S f -> Emits S (o_finally m f).
Proof.
  intros Hm Hf w. unfold o_finally. destruct (Hm w) as (evs & E & F). destruct (m w) as [r w'].
  destruct (Hf w') as (evs' & E' & F'). pose proof (emits_trans _ _ _ _ _ E F E' F') as Ht.
  destruct r as [e|a]; [destruct e; try (by exists evs)|]; destruct (f w') as [[e'|u] w2]; exact Ht.
Qed.

Lemma emits_log e : S e -> Emits S (log e).
Proof. intros He w. exists [e]. split; [done|by apply Forall_singleton]. Qed.

Lemma emits_advance : Emits S advance.
Proof. apply emits_same. intros w. unfold advance. by destruct (out_halts (w_tick w)). Qed.

Lemma emits_on_memory f : Emits S (on_memory f).
Proof. by apply emits_same. Qed.

Lemma emits_memory {A} (f : Memory -> A) : Emits S (memory f).
Proof. by apply emits_same. Qed.

Lemma emits_store {A} (m : FS A) : Emits S (store m).
Proof. apply emits_same. intros w. unfold store. by destruct (m _) as [[]]. Qed.

Lemma emits_transact {A} (m : Method A) : Emits S (transact m).
Proof.
  apply emits_bind; [apply emits_advance|]. intros n. apply emits_same. intros w. by destruct (m _) as [[]].
Qed.

Lemma emits_await : Emits S await.
Proof. apply emits_bind; [apply emits_advance|]. intros n. by apply emits_same. Qed.

Lemma emits_perform {A} c (m : Method A) : S (Committed c) -> Emits S (perform c m).
Proof.
  intros Hc. apply emits_bind; [apply emits_transact|]. intros a.
  apply emits_bind; [by apply emits_log|]. intros _. apply emits_ret.
Qed.
End Emits.

Create HintDb emits.
#[export] Hint Resolve emits_ret emits_raise emits_advance emits_on_memory emits_memory emits_store
  emits_transact emits_await : emits.

Ltac emits :=
  repeat first
  [ progress intros
  | solve [ eauto 2 with emits ]
  | match goal with
    | |- Emits _ (o_bind _ _) => apply emits_bind
    | |- Emits _ (o_catch _ _) => apply emits_catch
    | |- Emits _ (o_finally _ _) => apply emits_finally
    | |- Emits _ (perform _ _) => apply emits_perform
    | |- Emits _ (log _) => apply emits_log
    | E : (if ?b then _ else _) = Some ?p |- Emits _ ?p => destruct b
    | E : (match ?x with _ => _ end) = Some ?p |- Emits _ ?p => destruct x
    | E : Some _ = Some ?p |- Emits _ ?p => injection E as <-
    | E : None = Some ?p |- Emits _ ?p => discriminate E
    | |- Emits _ (match ?x with _ => _ end) => destruct x
    end ].

(** The bookkeeping of a claim only calls the journal. *)
Definition bookkeeping (e : event) : Prop :=
  match e with Committed (Journal _) | Committed (Removal (CallTransition _ _ _ _)) => True | _ => False end.

Section Bookkeeping.
Context `{Outside} `{UrlLib} (self : Config).

Lemma emits_clock S : Emits S clock.
Proof. unfold clock. emits. Qed.

Lemma emits_j_get S id : Emits S (j_get id).
Proof. unfold j_get. emits. Qed.

Lemma emits_prepare S p : Emits S (prepare p).
Proof. unfold prepare. emits. Qed.

Lemma emits_store_read S r : Emits S (store_read r).
Proof. unfold store_read. emits. Qed.

#[local] Hint Resolve emits_clock emits_j_get emits_prepare emits_store_read : emits.

Lemma emits_unless {A} S (d : A) m : Emits S m -> Emits S (unless_registry_error d m).
Proof. intros Hm. unfold unless_registry_error. emits. Qed.

Lemma emits_reload S id : Emits S (reload_after_fence_loss id).
Proof. apply emits_unless. emits. Qed.

#[local] Hint Resolve emits_reload : emits.

Lemma emits_renew j : Emits bookkeeping (renew_claimed self j).
Proof. apply emits_unless. emits. done. Qed.

Lemma emits_fail j c : Emits bookkeeping (fail_claimed self j c).
Proof. apply emits_unless. emits. done. Qed.

Lemma emits_residual j c : Emits bookkeeping (residual_claimed self j c).
Proof. apply emits_unless. emits. done. Qed.

Lemma emits_transition_claimed j s b : Emits bookkeeping (transition_claimed self j s b).
Proof. unfold transition_claimed, j_replace. emits. done. Qed.

Lemma emits_record_failure S j c d : Emits S (record_mutation_failure j c d).
Proof. unfold record_mutation_failure. emits. Qed.

Lemma emits_prepare_pinned S j : Emits S (prepare_pinned_job self j).
Proof. unfold prepare_pinned_job. emits. Qed.

Lemma emits_rem_transition j p c : Emits bookkeeping (rem_transition j p c).
Proof. unfold rem_transition. emits. done. Qed.

Lemma emits_keep_claim n j : Emits bookkeeping (keep_claim self n j).
Proof.
  revert j. induction n as [|n IH]; intros j; cbn [keep_claim]; emits.
  apply emits_renew.
Qed.
End Bookkeeping.

#[export] Hint Resolve emits_clock emits_j_get emits_prepare emits_store_read emits_reload emits_renew emits_fail
  emits_residual emits_transition_claimed emits_record_failure emits_prepare_pinned emits_rem_transition
  emits_keep_claim : emits.

Lemma emits_mono {A} (S S' : event -> Prop) (m : O A) : (forall e, S e -> S' e) -> Emits S m -> Emits S' m.
Proof. intros HS Hm w. destruct (Hm w) as (evs & E & F). exists evs. split; [done|]. by eapply Forall_impl. Qed.

Lemma emits_lease {A} `{Outside} S (m : O A) : Emits S m -> Emits S (lifecycle_lease m).
Proof. intros Hm. unfold lifecycle_lease. emits. Qed.

(** Everything but a call of the registry. *)
Definition unregistering (e : event) : Prop := match e with Committed (Registry _) => False | _ => True end.

Lemma bookkeeping_unregistering e : bookkeeping e -> unregistering e.
Proof. by destruct e as [| |[]| | | | | |]. Qed.

Section Unregistering.
Context `{Outside} `{UrlLib} (self : Config).

Lemma unregistering_book {A} (m : O A) : Emits bookkeeping m -> Emits unregistering m.
Proof. apply emits_mono, bookkeeping_unregistering. Qed.

Lemma emits_run_lease j r : Emits unregistering (run_with_recovery_lease self j r).
Proof.
  unfold run_with_recovery_lease. emits; try done; try apply unregistering_book; auto with emits.
  all: emits.
Qed.

Lemma emits_store_delete r : Emits unregistering (store_delete r).
Proof. unfold store_delete, o_when. emits; done. Qed.

Lemma emits_compensate_add j t : Emits unregistering (compensate_activated_add_conflict self j t).
Proof.
  unfold compensate_activated_add_conflict.
  repeat first [ progress emits | apply emits_lease | apply emits_run_lease | apply emits_store_delete
               | apply unregistering_book; solve [auto with emits] ].
Qed.
End Unregistering.

(** ** Ordered traces *)
Definition ordered (allowed : event -> list event -> Prop) (t : list event) : Prop :=
  forall post e pre, t = post ++ e :: pre -> allowed e pre.

Definition Lasting (X : list event -> Prop) : Prop := forall e t, X t -> X (e :: t).

Lemma lasting_app X evs t : Lasting X -> X t -> X (evs ++ t).
Proof. intros HX Ht. induction evs as [|e evs IH]; [done|]. by apply HX. Qed.

Lemma lasting_exists {T} (f : T -> event) : Lasting (fun t => exists x, f x ∈ t).
Proof. intros e t [x Hx]. exists x. by apply list_elem_of_further. Qed.

Lemma lasting_or X Y : Lasting X -> Lasting Y -> Lasting (fun t => X t \/ Y t).
Proof. intros HX HY e t [?|?]; [left|right]; auto. Qed.

Lemma lasting_and X Y : Lasting X -> Lasting Y -> Lasting (fun t => X t /\ Y t).
Proof. intros HX HY e t [??]; split; auto. Qed.

Lemma lasting_const P : Lasting (fun _ => P).
Proof. by intros e t. Qed.

#[export] Hint Resolve lasting_exists lasting_or lasting_and lasting_const : emits.

Section Triple.
Context (allowed : event -> list event -> Prop).

Lemma ordered_nil : ordered allowed [].
Proof. intros post e pre E. by destruct post. Qed.

Lemma ordered_cons e t : allowed e t -> ordered allowed t -> ordered allowed (e :: t).
Proof.
  intros He Ht [|e' post] e2 pre [= -> E]; [by rewrite <- E|]. by eapply Ht.
Qed.

Definition Triple {A} (X : list event -> Prop) (m : O A) (Y : A -> list event -> Prop) : Prop :=
  forall w, ordered allowed (w_trace w) -> X (w_trace w) ->
    ordered allowed (w_trace (m w).2) /\
    (exists evs, w_trace (m w).2 = evs ++ w_trace w) /\
    match (m w).1 with inr a => Y a (w_trace (m w).2) | inl _ => True end.

Lemma t_ret {A} X (a : A) (Y : A -> list event -> Prop) : (forall t, X t -> Y a t) -> Triple X (o_ret a) Y.
Proof. intros HY w Ho HX. split_and!; [done|by exists []|by apply HY]. Qed.

Lemma t_raise {A} X e (Y : A -> list event -> Prop) : Triple X (o_raise e) Y.
Proof. intros w Ho HX. split_and!; [done|by exists []|done]. Qed.

Lemma t_bind {A B} X (m : O A) (k : A -> O B) Y Z :
  Triple X m Y -> (forall a, Triple (Y a) (k a) Z) -> Triple X (o_bind m k) Z.
Proof.
  intros Hm Hk w Ho HX. unfold o_bind. destruct (Hm w Ho HX) as (Ho1 & [evs E] & HY).
  destruct (m w) as [[e|a] w1]; cbn in *; [split_and!; by eauto|].
  destruct (Hk a w1 Ho1 HY) as (Ho2 & [evs2 E2] & HZ). split_and!; [done| |done].
  exists (evs2 ++ evs). by rewrite E2, E, app_assoc.
Qed.

Lemma t_conseq {A} (X X' : list event -> Prop) (m : O A) (Y Y' : A -> list event -> Prop) :
  (forall t, X t -> X' t) -> (forall a t, Y' a t -> Y a t) -> Triple X' m Y' -> Triple X m Y.
Proof.
  intros HX HY Hm w Ho Hw. destruct (Hm w Ho (HX _ Hw)) as (Ho1 & He & HY1). split_and!; [done|done|].
  destruct (m w) as [[e|a] w1]; [done|]. by apply HY.
Qed.

Lemma t_pre {A} (X X' : list event -> Prop) (m : O A) Y :
  (forall t, X t -> X' t) -> Triple X' m Y -> Triple X m Y.
Proof. intros HX. by apply t_conseq. Qed.

Lemma t_frame {A} (F X : list event -> Prop) (m : O A) Y :
  Lasting F -> Triple X m Y -> Triple (fun t => F t /\ X t) m (fun a t => F t /\ Y a t).
Proof.
  intros HF Hm w Ho [Hf Hw]. destruct (Hm w Ho Hw) as (Ho1 & [evs E] & HY). split_and!; [done|by exists evs|].
  destruct (m w) as [[e|a] w1]; [done|]. split; [|done]. cbn in *. rewrite E. by apply lasting_app.
Qed.

Lemma t_catch {A} X (m : O A) h Y :
  Lasting X -> Triple X m Y -> (forall e p, h e = Some p -> Triple X p Y) -> Triple X (o_catch m h) Y.
Proof.
  intros HX Hm Hh w Ho Hw. unfold o_catch. destruct (Hm w Ho Hw) as (Ho1 & [evs E] & HY).
  destruct (m w) as [[e|a] w1]; cbn in *; [|split_and!; by eauto].
  assert (HX1 : X (w_trace w1)) by (rewrite E; by apply lasting_app).
  assert (Hgo : forall p, h e = Some p -> ordered allowed (w_trace (p w1).2) /\
    (exists evs, w_trace (p w1).2 = evs ++ w_trace w) /\
    match (p w1).1 with inr a => Y a (w_trace (p w1).2) | inl _ => True end).
  { intros p Hp. destruct (Hh e p Hp w1 Ho1 HX1) as (Ho2 & [evs2 E2] & HY2). split_and!; [done| |done].
    exists (evs2 ++ evs). by rewrite E2, E, app_assoc. }
  destruct e; try (destruct (h _) as [p|] eqn:Ep; [by apply Hgo|]); split_and!; by eauto.
Qed.

Lemma t_finally {A} X (m : O A) f (Y : A -> list event -> Prop) :
  Lasting X -> (forall a, Lasting (Y a)) -> Triple X m Y -> Triple X f (fun _ _ => True) ->
  Triple X (o_finally m f) Y.
Proof.
  intros HX HL Hm Hf w Ho Hw. unfold o_finally. destruct (Hm w Ho Hw) as (Ho1 & [evs E] & HY).
  destruct (m w) as [r w1]; cbn in *.
  assert (HX1 : X (w_trace w1)) by (rewrite E; by apply lasting_app).
  destruct (Hf w1 Ho1 HX1) as (Ho2 & [evs2 E2] & _).
  assert (E' : w_trace (f w1).2 = (evs2 ++ evs) ++ w_trace w) by (by rewrite E2, E, app_assoc).
  destruct r as [e|a].
  - destruct e; try (split_and!; by eauto); destruct (f w1) as [[e'|u] w2]; split_and!; by eauto.
  - destruct (f w1) as [[e'|u] w2]; cbn in *; split_and!; try by eauto. rewrite E2. by apply lasting_app, HY.
Qed.

Lemma t_emits {A} S X (m : O A) :
  Emits S m -> (forall e t, S e -> allowed e t) -> Lasting X -> Triple X m (fun _ => X).
Proof.
  intros Hm HS HX w Ho Hw. destruct (Hm w) as (evs & E & F). split_and!.
  - rewrite E. clear E. induction F as [|e evs He _ IH]; [done|]. cbn. apply ordered_cons; [by apply HS|done].
  - by exists evs.
  - destruct (m w).1; [done|]. rewrite E. by apply lasting_app.
Qed.

Lemma t_log X e (Y : unit -> list event -> Prop) :
  (forall t, X t -> allowed e t) -> (forall t, X t -> Y tt (e :: t)) -> Triple X (log e) Y.
Proof.
  intros He HY w Ho HX. split_and!; [apply ordered_cons; [by apply He|done]|by exists [e]|by apply HY].
Qed.

(** [V] is what the values of a method have in common. *)
Definition Returns {A} (m : Method A) (V : A -> Prop) : Prop := forall db a db', m db = (inr a, db') -> V a.

Lemma t_transact `{Outside} {A} X (m : Method A) (V : A -> Prop) :
  Lasting X -> Returns m V -> Triple X (transact m) (fun a t => X t /\ V a).
Proof.
  intros HL HV w Ho HX. destruct (emits_transact (fun _ => False) m w) as (evs & E & F).
  assert (evs = []) as -> by (destruct F; done). cbn in E. rewrite E. split_and!; [done|by exists []|].
  unfold transact, o_bind, advance. destruct (out_halts (w_tick w)); [done|]. cbn.
  destruct (m _) as [[e|a] db] eqn:Em; [done|]. cbn. split; [done|]. by eapply HV.
Qed.

Lemma t_perform `{Outside} {A} X c (m : Method A) (V : A -> Prop) (Y : A -> list event -> Prop) :
  Lasting X -> Returns m V -> (forall t, X t -> allowed (Committed c) t) ->
  (forall a t, V a -> X t -> Y a (Committed c :: t)) -> Triple X (perform c m) Y.
Proof.
  intros HL HV He HY. eapply t_bind; [by apply t_transact|].
  intros a. eapply t_bind; [apply (t_log _ _ (fun _ t => Y a t)); [by intros t [? _]; apply He|]|].
  - intros t [HX Ha]. by apply HY.
  - intros []. by apply t_ret.
Qed.

Lemma t_when X b (m : O unit) : Triple X m (fun _ => X) -> Triple X (o_when b m) (fun _ => X).
Proof. intros Hm. destruct b; [exact Hm|by apply t_ret]. Qed.

Lemma t_lease {A} X (m : O A) (Y : A -> list event -> Prop) :
  Lasting X -> (forall a, Lasting (Y a)) -> Triple X m Y -> Triple X (lifecycle_lease m) Y.
Proof.
  intros HX HL Hm. unfold lifecycle_lease.
  assert (Hst : forall B (p : FS B), Triple X (store p) (fun _ => X)).
  { intros B p. apply (t_emits (fun _ => False)); [apply emits_store|done|done]. }
  eapply t_bind; [apply (t_emits (fun _ => False)); [apply emits_memory|done|exact HX]|]. intros d.
  destruct (depth d) as [|n].
  - eapply t_bind; [apply Hst|]. intros ?. apply t_catch; [done| |].
    + eapply t_bind; [apply Hst|]. intros ?. eapply t_bind; [apply Hst|]. intros ?.
      apply t_finally; [done|done|done|]. eapply t_bind; [apply Hst|]. intros ?.
      eapply t_conseq; [| |apply Hst]; done.
    + intros e p Ep. destruct e; simplify_eq. apply t_raise.
  - eapply t_bind; [apply Hst|]. intros ?. apply t_finally; [done|done|done|].
    eapply t_conseq; [| |apply Hst]; done.
Qed.

Lemma quiet {A} X (m : O A) : Emits (fun _ => False) m -> Lasting X -> Triple X m (fun _ => X).
Proof. intros Hm HX. by apply (t_emits (fun _ => False)). Qed.

(** A fact about the value is a precondition of what follows. *)
Lemma t_value {A B} (V : A -> Prop) (X : A -> list event -> Prop) (k : A -> O B) Y :
  (forall a, V a -> Triple (X a) (k a) Y) -> forall a, Triple (fun t => X a t /\ V a) (k a) Y.
Proof. intros Hk a w Ho [HX HV]. by apply Hk. Qed.

Lemma t_const {A} (V : Prop) (m : O A) Y : (V -> Triple (fun _ => True) m Y) -> Triple (fun _ => V) m Y.
Proof. intros Hm w Ho HV. by apply Hm. Qed.

Context `{Outside}.

Lemma r_get_t X id :
  (forall found t, allowed (Looked id found) t) -> Lasting X ->
  Triple X (r_get id) (fun found t => X t /\ Looked id found ∈ t).
Proof.
  intros Ha HX. eapply t_bind; [apply quiet; [apply emits_transact|exact HX]|]. intros found.
  eapply t_bind; [apply (t_log _ _ (fun _ t => X t /\ Looked id found ∈ t)); [done|]|].
  - intros t Ht. split; [by apply HX|apply list_elem_of_here].
  - intros []. by apply t_ret.
Qed.

Lemma store_delete_t X r :
  Lasting X -> (forall t, X t -> allowed (Erased (default "" r)) t) -> Triple X (store_delete r) (fun _ => X).
Proof.
  intros HX Ha. eapply t_bind; [apply quiet; [apply emits_store|exact HX]|]. intros b.
  apply t_when, t_log; [done|]. intros t. apply HX.
Qed.
End Triple.
