(* ===== verification/SagaOrderClaims.v ===== *)
(** * Theorems about the order of a saga's actions

    Whatever the outside does and wherever the process dies, a removal deletes
    nothing locally before the Agent acknowledged the revocation, an Agent is
    registered only after it acknowledged its activation, and a rotation gives
    up the old credential only when the registry holds the new one. *)

From stdpp Require Import base tactics list gmap strings.
From Stdlib Require Import ZArith Lia.
From S2P Require Import Prelude Text Sql Models Schema EnrollmentJournal ManagerRegistry RemovalJournal.
From S2P Require Import EnrollmentJobs Samples Lifecycle RegistryClaims SecretFiles Gateway TargetPolicy.
From S2P Require Import AgentClient Saga Recovery Removals SagaSamples RemovalRuns SagaOrder.

(** ** Removal *)
Definition acknowledged_revocation (job : AgentRemovalJob) (t : list event) : Prop :=
  exists x : ValidatedTarget * string, Answered (Revoke x.1 x.2 (removal_remote_credential_id job)) true ∈ t.

(** The Agent has to revoke: not a local removal, not a legacy token, and no
    earlier run got the acknowledgement. *)
Definition revocation_due (job : AgentRemovalJob) : Prop :=
  removal_local_only job = false /\ removal_enrollment_method job <> LEGACY_ADMIN_TOKEN /\
  removal_phase job ∈ ["pending"; "revoking"; "residual"].

Definition unregistered (job : AgentRemovalJob) (t : list event) : Prop :=
  removal_phase job = "registry_deleted" \/ Deleted (removal_agent_id job) ∈ t \/
  Looked (removal_agent_id job) None ∈ t.

Definition removal_allowed (job : AgentRemovalJob) (e : event) (pre : list event) : Prop :=
  match e with
  | Committed (Registry _) => revocation_due job -> acknowledged_revocation job pre
  | Erased r => r = removal_credential_ref job /\ unregistered job pre
  | Sent (Revoke _ _ c) => c = removal_remote_credential_id job
  | _ => True
  end.

(** What a transition leaves alone. *)
Definition same_removal (a b : AgentRemovalJob) : Prop :=
  removal_agent_id a = removal_agent_id b /\ removal_credential_ref a = removal_credential_ref b /\
  removal_remote_credential_id a = removal_remote_credential_id b.

Lemma transition_returns j p now c :
  Returns (transition j p now c) (fun a => same_removal j a /\ removal_phase a = p).
Proof. intros db a db' Ht. unfold transition in Ht. cbv zeta in Ht. tx_inv. done. Qed.

Section RemovalOrder.
Context `{Outside} `{UrlLib} (self : Config) (job : AgentRemovalJob).

#[local] Abbreviation T := (Triple (removal_allowed job)).

Lemma lasting_acknowledged : Lasting (acknowledged_revocation job).
Proof. apply lasting_exists. Qed.

Lemma lasting_unregistered : Lasting (unregistered job).
Proof.
  intros e t [?|[?|?]]; [by left|right; left; by apply list_elem_of_further|].
  right. right. by apply list_elem_of_further.
Qed.

Lemma rem_transition_t X current p c :
  Lasting X -> same_removal job current ->
  T X (rem_transition current p c) (fun a t => X t /\ same_removal job a /\ removal_phase a = p).
Proof.
  intros HX Hs. eapply t_bind; [apply quiet; [apply emits_clock|exact HX]|]. intros now.
  eapply t_perform; [done|apply transition_returns|done|].
  intros a t [Ha Hp] Ht. split_and!; [by apply HX| |done]. destruct Hs as (?&?&?), Ha as (?&?&?). split_and!; congruence.
Qed.

Lemma leave_residual_t {A} X current code d (Y : A -> list event -> Prop) :
  Lasting X -> same_removal job current -> T X (leave_residual current code d) Y.
Proof. intros HX Hs. eapply t_bind; [by apply rem_transition_t|]. intros a. apply t_raise. Qed.

Lemma ask_revoke_t X target token :
  Lasting X ->
  T X (ask (Revoke target token (removal_remote_credential_id job)))
    (fun _ t => X t /\ acknowledged_revocation job t).
Proof.
  intros HX. unfold ask. eapply t_bind; [by apply (t_log _ _ _ (fun _ => X)); [|intros; apply HX]|]. intros [].
  eapply t_bind; [apply quiet; [apply emits_await|exact HX]|]. intros n.
  destruct (agent_answer (out_http n) _) as [v|c d| |].
  - eapply t_bind; [apply (t_log _ _ _ (fun _ t => X t /\ acknowledged_revocation job t)); [done|]|].
    + intros t Ht. split; [by apply HX|]. exists (target, token). apply list_elem_of_here.
    + intros []. by apply t_ret.
  - eapply t_bind; [by apply (t_log _ _ _ (fun _ => X)); [|intros; apply HX]|]. intros ?. apply t_raise.
  - eapply t_bind; [by apply (t_log _ _ _ (fun _ => X)); [|intros; apply HX]|]. intros ?. apply t_raise.
  - apply t_raise.
Qed.

(** The trace once the revocation was acknowledged, or was not due. *)
Definition may_delete (t : list event) : Prop := revocation_due job -> acknowledged_revocation job t.

Lemma lasting_may_delete : Lasting may_delete.
Proof. intros e t Ht Hd. by apply lasting_acknowledged, Ht. Qed.

Definition reached (phase : string) (X : list event -> Prop) (a : AgentRemovalJob) (t : list event) : Prop :=
  X t /\ same_removal job a /\ removal_phase a = phase.

Lemma revoke_removed_t :
  T (fun _ => True) (revoke_removed self job) (reached "revoked" may_delete).
Proof.
  unfold revoke_removed. eapply t_bind with (Y := fun a t => may_delete t /\ same_removal job a).
  - destruct (negb (removal_local_only job) && _) eqn:Hneed.
    + destruct (has_agent_client self); cbn [negb]; [|apply t_raise].
      eapply t_bind with (Y := fun a _ => same_removal job a).
      { destruct (phase_is "revoking" job); [by apply t_ret|].
        eapply t_conseq; [| |by apply (rem_transition_t (fun _ => True))]; [done|]. intros a t (_ & ? & _). done. }
      intros current. apply t_const. intros Hs. pose proof Hs as (_ & _ & Hr). apply t_catch; [apply lasting_const| |].
      * eapply t_bind; [apply quiet; [apply emits_prepare|apply lasting_const]|]. intros target.
        eapply t_bind; [apply quiet; [apply emits_store_read|apply lasting_const]|]. intros token.
        rewrite <- Hr. eapply t_bind; [apply ask_revoke_t, lasting_const|].
        intros v. apply t_ret. intros t [_ Ha]. by split; [intros _|].
      * intros e p Ep. destruct e; simplify_eq; by apply (leave_residual_t (fun _ => True)).
    + apply t_ret. intros t _. split; [|done]. intros (Hl & Hm & _). rewrite Hl in Hneed.
      by rewrite bool_decide_eq_false_2 in Hneed.
  - apply t_value. intros current Hs. by apply (rem_transition_t may_delete); [apply lasting_may_delete|].
Qed.

Lemma delete_removed_t current :
  same_removal job current -> T may_delete (delete_removed current) (reached "registry_deleted" (unregistered job)).
Proof.
  intros Hs. pose proof Hs as (Ha & _). unfold delete_removed.
  eapply t_bind; [apply (t_perform _ _ _ _ (fun _ => True) (fun _ => may_delete)); [apply lasting_may_delete|done|done|]|].
  { intros a t _ Ht. by apply lasting_may_delete. }
  intros deleted. eapply t_bind with (Y := fun _ => unregistered job).
  - destruct deleted.
    + apply t_log; [done|]. intros t _. right. left. rewrite Ha. apply list_elem_of_here.
    + eapply t_bind; [apply r_get_t; [done|apply lasting_may_delete]|]. intros [a|].
      * apply leave_residual_t; [|done]. apply lasting_and; [apply lasting_may_delete|]. intros ? ? ?. by apply list_elem_of_further.
      * apply t_ret. intros t [_ Ht]. right. right. by rewrite Ha.
  - intros ?. by apply rem_transition_t; [apply lasting_unregistered|].
Qed.

Lemma erase_removed_t current :
  same_removal job current -> T (unregistered job) (erase_removed current) (reached "credential_deleted" (fun _ => True)).
Proof.
  intros Hs. pose proof Hs as (_ & Hr & _). pose proof lasting_unregistered as HL.
  eapply t_bind.
  - apply (t_lease _ _ _ (fun _ => unregistered job)); [done|done|]. apply t_catch; [done| |].
    + apply store_delete_t; [done|]. intros t Ht. cbn. by rewrite Hr.
    + intros e p Ep. destruct e; simplify_eq. by apply leave_residual_t.
  - intros ?. eapply t_conseq; [| |apply (rem_transition_t (fun _ => True))]; done.
Qed.

Lemma resume_removal_t : T (fun _ => True) (resume_removal self job) (fun _ _ => True).
Proof.
  unfold resume_removal. eapply t_bind with (Y := fun _ _ => True).
  { unfold o_assert. destruct (has_removals self); [by apply t_ret|apply t_raise]. }
  intros ?. eapply t_bind with (Y := fun a t => ((removal_phase a = "revoked" -> may_delete t) /\
    (removal_phase a = "registry_deleted" -> unregistered job t)) /\ same_removal job a).
  { destruct (phase_is "pending" job || phase_is "revoking" job || phase_is "residual" job) eqn:Hp.
    - eapply t_conseq; [| |apply revoke_removed_t]; [done|]. intros x t (Hm & Hs & ->). done.
    - apply t_ret. intros t _. split_and!; try done; [|by left]. intros Hr (_ & _ & Hd). rewrite Hr in Hd. set_solver. }
  apply t_value. intros current Hs.
  eapply t_bind with (Y := fun a t => (removal_phase a = "registry_deleted" -> unregistered job t) /\ same_removal job a).
  { destruct (bool_decide_reflect (removal_phase current = "revoked")) as [Hr|Hr]; unfold phase_is.
    - rewrite bool_decide_true by done. eapply t_conseq; [| |by apply delete_removed_t].
      + intros t [Hm _]. by apply Hm.
      + intros x t (Hu & Hs2 & _). done.
    - rewrite bool_decide_false by done. apply t_ret. intros t [_ Hu]. done. }
  apply t_value. intros current' Hs'.
  eapply t_bind with (Y := fun a _ => same_removal job a).
  { destruct (bool_decide_reflect (removal_phase current' = "registry_deleted")) as [Hr|Hr]; unfold phase_is.
    - rewrite bool_decide_true by done. eapply t_conseq; [| |by apply erase_removed_t].
      + intros t Hu. by apply Hu.
      + intros x t (_ & ? & _). done.
    - rewrite bool_decide_false by done. by apply t_ret. }
  intros c3. apply t_const. intros Hs3. unfold o_when. destruct (phase_is _ c3); [|by apply t_ret].
  eapply t_bind; [by apply (rem_transition_t (fun _ => True))|]. intros ?. by apply t_ret.
Qed.

Lemma recorded_order w :
  w_trace w = [] -> forall post e pre,
    w_trace (resume_removal self job w).2 = post ++ e :: pre -> removal_allowed job e pre.
Proof.
  intros Ht. destruct (resume_removal_t w) as [Ho _]; [rewrite Ht; apply ordered_nil|done|]. exact Ho.
Qed.
End RemovalOrder.


(** ** Requests under a claim *)
Section Leased.
Context `{Outside} `{UrlLib} (self : Config) (allowed : event -> list event -> Prop).
Context (Hbook : forall e t, bookkeeping e -> allowed e t).
Context (Hanswer : forall r ok t, allowed (Answered r ok) t).

#[local] Abbreviation T := (Triple allowed).

Lemma book {A} X (m : O A) : Emits bookkeeping m -> Lasting X -> T X m (fun _ => X).
Proof. intros Hm HX. by apply (t_emits _ bookkeeping). Qed.

(** A request that returned a value was answered with success. *)
Lemma run_lease_t X job r :
  Lasting X -> (forall t, X t -> allowed (Sent r) t) ->
  T X (run_with_recovery_lease self job r)
    (fun o t => X t /\ match o with Some (_, inr _) => Answered r true ∈ t | _ => True end).
Proof.
  intros HX Hs. unfold run_with_recovery_lease.
  eapply t_bind; [by apply (t_log _ _ _ (fun _ => X)); [|intros; apply HX]|]. intros ?.
  eapply t_bind; [apply quiet; [apply emits_advance|exact HX]|]. intros n.
  eapply t_bind; [apply book; [apply emits_keep_claim|exact HX]|]. intros [current|]; [|by apply t_ret].
  eapply t_bind; [apply quiet; [apply emits_await|exact HX]|]. intros k.
  assert (Hfinish : forall x : oexn + EnrollmentValidation,
    T X (log (Answered r (match x with inr _ => true | inl _ => false end)) ;;!
         let! renewed := renew_claimed self current in
         o_ret (match renewed with Some j => Some (j, x) | None => None end))
      (fun o t => X t /\ match o with Some (_, inr _) => Answered r true ∈ t | _ => True end)).
  { intros x. set (Xa := fun t => X t /\ match x with inr _ => Answered r true ∈ t | _ => True end).
    assert (Lasting Xa).
    { apply lasting_and; [done|]. intros e t. destruct x; [done|]. apply list_elem_of_further. }
    eapply t_bind; [apply (t_log _ _ _ (fun _ => Xa)); [done|]|].
    - intros t Ht. split; [by apply HX|]. destruct x; [done|]. apply list_elem_of_here.
    - intros ?. eapply t_bind; [apply book; [apply emits_renew|done]|]. intros [j|]; apply t_ret; intros t [Ht Hx];
        (split; [done|]); by destruct x. }
  destruct (agent_answer (out_http k) r) as [v|c d| |]; [apply (Hfinish (inr v))|apply (Hfinish (inl (EValidation c d)))|
    apply (Hfinish (inl EOther))|apply t_raise].
Qed.

Lemma book_fail X j c : Lasting X -> T X (fail_claimed self j c) (fun _ => X).
Proof. apply book, emits_fail. Qed.

Lemma book_residual X j c : Lasting X -> T X (residual_claimed self j c) (fun _ => X).
Proof. apply book, emits_residual. Qed.

Lemma book_then {A B} X (m : O A) (b : B) Y :
  Emits bookkeeping m -> Lasting X -> (forall t, X t -> Y b t) -> T X (m ;;! o_ret b) Y.
Proof. intros Hm HX HY. eapply t_bind; [by apply book|]. intros ?. by apply t_ret. Qed.

(** [except CredentialStoreError: <give up>; return] around a read. *)
Lemma read_token_t X r (abandon : O unit) :
  Lasting X -> Emits bookkeeping abandon ->
  T X (o_catch (let! t := store_read r in o_ret (Some t))
         (fun e => match e with EStore => Some (abandon ;;! o_ret None) | _ => None end)) (fun _ => X).
Proof.
  intros HX Hg. apply t_catch; [done| |].
  - eapply t_bind; [apply quiet; [apply emits_store_read|done]|]. intros t. by apply t_ret.
  - intros e p Ep. destruct e; simplify_eq. by apply book_then.
Qed.
End Leased.

(** ** Activation *)
Definition acknowledged_activation (job : EnrollmentJob) (t : list event) : Prop :=
  exists x : ValidatedTarget * string,
    Answered (Activate x.1 x.2 (job_enrollment_id job) (job_remote_credential_id job)) true ∈ t.

Definition activation_due (job : EnrollmentJob) : Prop :=
  job_state job = ACTIVATION_REQUESTED /\ job_enrollment_method job <> LEGACY_ADMIN_TOKEN.

Definition activation_allowed (job : EnrollmentJob) (e : event) (pre : list event) : Prop :=
  match e with
  | Committed (Registry _) => activation_due job -> acknowledged_activation job pre
  | _ => True
  end.

Section ActivationOrder.
Context `{Outside} `{UrlLib} (self : Config) (job : EnrollmentJob).

#[local] Abbreviation T := (Triple (activation_allowed job)).

Definition may_register (t : list event) : Prop := activation_due job -> acknowledged_activation job t.

Lemma lasting_may_register : Lasting may_register.
Proof. intros e t Ht Hd. destruct (Ht Hd) as [x Hx]. exists x. by apply list_elem_of_further. Qed.

Lemma activation_book e t : bookkeeping e -> activation_allowed job e t.
Proof. destruct e as [| |[]| | | | | |]; done. Qed.

Lemma activate_claimed_t target :
  T (fun _ => True) (activate_claimed self job target)
    (fun o t => match o with Some _ => may_register t | None => True end).
Proof.
  unfold activate_claimed.
  eapply t_bind with (Y := fun o t => match o with Some _ => may_register t | None => True end).
  - assert (Hremote : forall target,
      T (fun _ => True)
        (let! token := o_catch (let! t := store_read (job_credential_temp_ref job) in o_ret (Some t))
           (fun e => match e with
              | EStore => Some (fail_claimed self job "credential_store_unavailable" ;;! o_ret None) | _ => None end) in
         match token with
         | None => o_ret None
         | Some token =>
             let! outcome := run_with_recovery_lease self job
               (Activate target token (job_enrollment_id job) (job_remote_credential_id job)) in
             match outcome with
             | None => o_ret None
             | Some (current, inl e) =>
                 record_mutation_failure current (error_code e) (error_dispatch e) ;;!
                 (if bool_decide (job_enrollment_method current = LOCAL_SOCKET)
                  then residual_claimed self current (error_code e)
                  else fail_claimed self current (error_code e)) ;;!
                 o_ret None
             | Some (current, inr _) => o_ret (Some current)
             end
         end) (fun o t => match o with Some _ => may_register t | None => True end)).
    { intros tg. eapply t_bind.
      { apply (read_token_t _ activation_book (fun _ => True)); [apply lasting_const|apply emits_fail]. }
      intros [token|]; [|by apply t_ret].
      eapply t_bind; [by apply (run_lease_t self _ activation_book); [|apply lasting_const|]|].
      intros [[current [e|v]]|]; [| |by apply t_ret].
      - eapply t_bind; [apply quiet; [apply emits_record_failure|by intros ???]|]. intros ?.
        destruct (bool_decide _); (apply (book_then _ activation_book); [|by intros ???|done]);
          [apply emits_residual|apply emits_fail].
      - apply t_ret. intros t [_ Ht] _. by exists (tg, token). }
    destruct (job_enrollment_method job) eqn:Em; try (destruct target; [apply Hremote|apply t_raise]).
    apply t_ret. intros t _ [_ Hd]. done.
  - intros [current|]; [|by apply t_ret].
    eapply t_conseq; [| |apply (book _ activation_book); [apply emits_transition_claimed|apply lasting_may_register]].
    + done.
    + intros [j|] t Ht; [exact Ht|done].
Qed.

Lemma commit_activation_t current :
  T may_register (commit_activation current) (fun _ => may_register).
Proof.
  pose proof lasting_may_register as HL. unfold commit_activation.
  eapply t_bind; [apply quiet; [apply emits_clock|exact HL]|]. intros created.
  eapply t_bind; [apply quiet; [apply emits_clock|exact HL]|]. intros updated.
  apply t_lease; [done|done|].
  eapply t_bind; [apply quiet; [apply emits_clock|exact HL]|]. intros now.
  apply t_catch; [done| |].
  - eapply t_bind.
    + apply (t_perform _ _ _ _ (fun _ => True) (fun _ => may_register)); [done|done|done|]. intros a t _. apply HL.
    + intros ?. by apply t_ret.
  - intros e p Ep. destruct e as [x| | | | | | | | | | |]; simplify_eq.
    destruct x; simplify_eq/=; try by apply t_ret.
    eapply t_bind; [apply r_get_t; [done|exact HL]|]. intros found. apply t_ret. by intros t [? _].
Qed.

Lemma recover_activation_add_t : T (fun _ => True) (recover_activation_add self job) (fun _ _ => True).
Proof.
  pose proof lasting_may_register as HL. unfold recover_activation_add.
  destruct (negb (truthy (job_credential_temp_ref job)) || _).
  { apply (book_fail self _ activation_book (fun _ => True)), lasting_const. }
  eapply t_bind with (Y := fun _ _ => True).
  { destruct (bool_decide _); [by apply t_ret|]. destruct (negb (has_agent_client self) || _ || _).
    - apply (book_then _ activation_book (fun _ => True)); [apply emits_fail|apply lasting_const|done].
    - apply t_catch; [apply lasting_const| |].
      + eapply t_bind; [apply (quiet _ (fun _ => True)); [apply emits_prepare_pinned|apply lasting_const]|].
        intros tg. by apply t_ret.
      + intros e p Ep. destruct e; simplify_eq.
        eapply t_bind; [apply (quiet _ (fun _ => True)); [apply emits_record_failure|apply lasting_const]|]. intros ?.
        apply (book_then _ activation_book (fun _ => True)); [apply emits_fail|apply lasting_const|done]. }
  intros [target|]; [|by apply t_ret].
  eapply t_bind with (Y := fun o t => match o with Some _ => may_register t | None => True end).
  { destruct (state_is ACTIVATION_REQUESTED job) eqn:Hs; [apply activate_claimed_t|].
    apply t_ret. intros t _ [Hd _]. unfold state_is in Hs. rewrite Hd in Hs. by rewrite bool_decide_eq_true_2 in Hs. }
  intros [current|]; [|by apply t_ret].
  eapply t_bind; [apply (book _ activation_book); [apply emits_renew|exact HL]|]. intros [renewed|]; [|by apply t_ret].
  eapply t_bind; [apply commit_activation_t|]. intros lost. unfold o_when. destruct lost; [|by apply t_ret].
  eapply t_conseq; [| |apply (t_emits _ unregistering (fun _ => True)); [apply emits_compensate_add| |apply lasting_const]];
    [done|done|]. by intros [| |[]| | | | | |] t.
Qed.
End ActivationOrder.


(** ** Rotation *)

(** The job as this run knows it: as it was claimed, or as this run wrote it. *)
Definition known (job current : EnrollmentJob) (t : list event) : Prop :=
  current = job \/ exists x : EnrollmentState * Fence, Committed (Journal (CallReplace current x.1 x.2)) ∈ t.

(** The registry holds the new credential: this run swapped it in, or found
    the credential of the job there. *)
Definition registry_switched (job : EnrollmentJob) (t : list event) : Prop :=
  exists current, known job current t /\
    ((exists now, Committed (Registry (CallSwap current now)) ∈ t) \/
     (exists a, Looked (or_else (job_replace_agent_id current) "") (Some a) ∈ t /\
        job_credential_temp_ref current = Some (agent_credential_ref a))).

(** This run recorded that the race for the registry is lost. *)
Definition race_lost (owner : string) (t : list event) : Prop :=
  exists x : string * Z * time, Committed (Journal (CallMarkError x.1.1 owner x.1.2 "agent_changed" x.2)) ∈ t.

Definition rotation_allowed (self : Config) (job : EnrollmentJob) (e : event) (pre : list event) : Prop :=
  match e with
  | Committed (Registry _) => job_state job = ACTIVATION_REQUESTED -> acknowledged_activation job pre
  | Sent (Revoke _ _ _) | Erased _ => registry_switched job pre \/ race_lost (recovery_owner self) pre
  | _ => True
  end.

Lemma lasting_known job current : Lasting (known job current).
Proof. apply lasting_or; [apply lasting_const|apply lasting_exists]. Qed.

Lemma lasting_switched job : Lasting (registry_switched job).
Proof.
  intros e t (current & Hk & Hs). exists current. split; [by apply lasting_known|].
  destruct Hs as [[now Hn]|(a & Ha & Hr)]; [left; exists now|right; exists a; split; [|done]];
    by apply list_elem_of_further.
Qed.

Lemma replace_returns j x f : Returns (replace_if_state j x f) (fun a => a = j).
Proof. intros db a db' Hr. unfold replace_if_state in Hr. by tx_inv. Qed.

Section RotationOrder.
Context `{Outside} `{UrlLib} (self : Config) (job : EnrollmentJob).

#[local] Abbreviation T := (Triple (rotation_allowed self job)).

Lemma rotation_book e t : bookkeeping e -> rotation_allowed self job e t.
Proof. destruct e as [| |[]| | | | | |]; done. Qed.

Lemma mark_claim_error_t j :
  T (fun _ => True) (mark_claim_error self j "agent_changed")
    (fun o t => match o with Some _ => race_lost (recovery_owner self) t | None => True end).
Proof.
  unfold mark_claim_error.
  eapply t_bind; [apply (quiet _ (fun _ => True)); [apply emits_clock|apply lasting_const]|]. intros now.
  eapply t_bind with (Y := fun o t => match o with Some _ => race_lost (recovery_owner self) t | None => True end).
  - unfold unless_registry_error. apply t_catch; [apply lasting_const| |].
    + eapply t_bind; [|intros b; apply t_ret; intros t Ht; exact Ht].
      apply (t_perform _ _ _ _ (fun _ => True)); [apply lasting_const|done|done|]. intros b t _ _.
      exists (job_enrollment_id j, job_recovery_revision j, now). apply list_elem_of_here.
    + intros e p Ep. destruct e as [x| | | | | | | | | | |]; simplify_eq.
      destruct (is_registry_error x); simplify_eq. by apply t_ret.
  - intros [[]|]; [by apply t_ret| |by apply t_ret].
    eapply t_bind; [eapply t_pre; [|apply (quiet _ (fun _ => True)); [apply emits_reload|apply lasting_const]]; done|].
    intros ?. by apply t_ret.
Qed.

Lemma lasting_lost : Lasting (race_lost (recovery_owner self)).
Proof. apply lasting_exists. Qed.

Lemma compensate_rotation_t j target token :
  T (fun _ => True) (compensate_rotation_registry_mismatch self j target token) (fun _ _ => True).
Proof.
  pose proof lasting_lost as HL. unfold compensate_rotation_registry_mismatch.
  eapply t_bind; [apply mark_claim_error_t|]. intros [marked|]; [|by apply t_ret].
  eapply t_bind; [by apply (run_lease_t self _ rotation_book); [|exact HL|intros t Ht; right]|].
  intros [[current [e|v]]|]; [| |by apply t_ret].
  - eapply t_pre; [intros t [Ht _]; exact Ht|].
    eapply t_bind; [apply quiet; [apply emits_record_failure|done]|]. intros ?.
    eapply t_conseq; [| |by apply (book_residual self _ rotation_book)]; done.
  - eapply t_pre; [intros t [Ht _]; exact Ht|].
    eapply t_bind; [by apply (book _ rotation_book); [apply emits_transition_claimed|]|].
    intros [failed|]; [|by apply t_ret].
    eapply t_bind; [apply quiet; [apply emits_record_failure|done]|]. intros ?.
    eapply t_conseq; [| |apply (t_lease _ _ _ (fun _ => race_lost (recovery_owner self)))]; try done.
    apply t_catch; [done| |].
    + apply store_delete_t; [done|]. intros t Ht. by right.
    + intros e p Ep. destruct e; simplify_eq. by apply t_ret.
Qed.

Lemma finish_rotation_t j target token :
  T (registry_switched job) (finish_rotation self j target token) (fun _ _ => True).
Proof.
  pose proof (lasting_switched job) as HL. unfold finish_rotation.
  eapply t_bind; [by apply (book _ rotation_book); [apply emits_renew|]|]. intros [renewed|]; [|by apply t_ret].
  eapply t_bind with (Y := fun _ => registry_switched job).
  { destruct (bool_decide _); [by apply t_ret|].
    eapply t_bind; [by apply (run_lease_t self _ rotation_book); [|exact HL|intros t Ht; left]|].
    intros [[current [e|v]]|]; (eapply t_pre; [intros t [Ht _]; exact Ht|]); [|by apply t_ret|by apply t_ret].
    eapply t_bind; [apply quiet; [apply emits_record_failure|done]|]. intros ?.
    by apply (book_then _ rotation_book); [apply emits_residual|..]. }
  intros [current|]; [|by apply t_ret].
  eapply t_conseq; [| |apply (t_lease _ _ _ (fun _ => registry_switched job))]; try done.
  eapply t_bind with (Y := fun _ => registry_switched job).
  - apply t_catch; [done| |].
    + eapply t_bind; [apply store_delete_t; [done|]; intros t Ht; by left|]. intros ?. by apply t_ret.
    + intros e p Ep. destruct e; simplify_eq. by apply (book_then _ rotation_book); [apply emits_residual|..].
  - intros []; [|by apply t_ret]. by apply (book_then _ rotation_book); [apply emits_transition_claimed|..].
Qed.

Definition activated (t : list event) : Prop :=
  job_state job = ACTIVATION_REQUESTED -> acknowledged_activation job t.

Lemma lasting_activated : Lasting activated.
Proof. intros e t Ht Hd. destruct (Ht Hd) as [x Hx]. exists x. by apply list_elem_of_further. Qed.

Lemma swap_claimed_t current target token :
  T (fun t => known job current t /\ activated t) (swap_claimed self current target token) (fun _ _ => True).
Proof.
  assert (HL : Lasting (fun t => known job current t /\ activated t))
    by (apply lasting_and; [apply lasting_known|apply lasting_activated]).
  unfold swap_claimed. eapply t_bind; [apply r_get_t; [done|exact HL]|].
  set (id := or_else (job_replace_agent_id current) "").
  intros [a|].
  2: { eapply t_pre; [intros t [Ht _]; exact Ht|].
       eapply t_conseq; [| |by apply (book_residual self _ rotation_book)]; done. }
  destruct (bool_decide (Some (agent_revision a) = _) && _).
  - eapply t_pre; [intros t [Ht _]; exact Ht|].
    eapply t_bind with (Y := fun b t => if b : bool then registry_switched job t else True).
    + apply t_catch; [done| |].
      * eapply t_bind; [apply quiet; [apply emits_clock|exact HL]|]. intros now.
        eapply t_bind; [|intros ?; apply t_ret; intros t Ht; exact Ht].
        apply (t_perform _ _ _ _ (fun _ => True)); [done|done|by intros t [_ ?]|].
        intros x t _ [Hk _]. exists current. split; [by apply lasting_known|]. left. exists now. apply list_elem_of_here.
      * assert (Hcomp : T (fun t => known job current t /\ activated t)
          (compensate_rotation_registry_mismatch self current target token ;;! o_ret false)
          (fun b t => if b : bool then registry_switched job t else True)).
        { eapply t_bind; [eapply t_pre; [|apply compensate_rotation_t]; done|]. intros ?. by apply t_ret. }
        intros e p Ep. destruct e as [x| | | | | | | | | | |]; simplify_eq.
        destruct x; simplify_eq/=; try exact Hcomp;
          by apply (book_then _ rotation_book); [apply emits_residual|..].
    + intros []; unfold o_when; [apply finish_rotation_t|by apply t_ret].
  - destruct (bool_decide_reflect (Some (agent_credential_ref a) = job_credential_temp_ref current)) as [Hr|Hr].
    + cbn [negb]. eapply t_pre; [|apply finish_rotation_t].
      intros t [[Hk _] Hlook]. exists current. split; [done|]. right. by exists a.
    + cbn [negb]. eapply t_pre; [|apply compensate_rotation_t]. done.
Qed.

Lemma transition_claimed_t X j st b :
  Lasting X ->
  T X (transition_claimed self j st b)
    (fun o t => X t /\ match o with Some k => known job k t | None => True end).
Proof.
  intros HX. unfold transition_claimed. eapply t_bind; [apply quiet; [apply emits_clock|exact HX]|]. intros now.
  apply t_catch; [done| |].
  - eapply t_bind; [|intros k; apply t_ret; intros t Ht; exact Ht].
    apply (t_perform _ _ _ _ _ (fun k t => X t /\ known job k t)
      HX (replace_returns _ _ _)); [done|].
    intros k t -> Ht. split; [by apply HX|]. right. eexists (_, _). apply list_elem_of_here.
  - intros e p Ep. destruct e as [x| | | | | | | | | | |]; simplify_eq. destruct x; simplify_eq.
    eapply t_bind; [apply quiet; [apply emits_reload|exact HX]|]. intros ?. by apply t_ret.
Qed.

Lemma target_and_token_t j k :
  (forall c, Emits bookkeeping (k c)) -> T (fun _ => True) (target_and_token self j k) (fun _ _ => True).
Proof.
  intros Hk. unfold target_and_token. apply t_catch; [apply lasting_const| |].
  - eapply t_bind; [apply (quiet _ (fun _ => True)); [apply emits_prepare_pinned|apply lasting_const]|]. intros tg.
    eapply t_bind; [apply (quiet _ (fun _ => True)); [apply emits_store_read|apply lasting_const]|]. intros tk.
    by apply t_ret.
  - intros e p Ep. destruct e; simplify_eq;
      (apply (book_then _ rotation_book (fun _ => True)); [apply Hk|apply lasting_const|done]).
Qed.

Lemma recover_rotation_t : T (fun _ => True) (recover_rotation self job) (fun _ _ => True).
Proof.
  assert (Hres : forall c, T (fun _ => True) (residual_claimed self job c) (fun _ _ => True)).
  { intros c. apply (book_residual self _ rotation_book (fun _ => True)), lasting_const. }
  unfold recover_rotation. destruct (_ && _); [apply Hres|]. destruct (_ || _); [apply Hres|].
  eapply t_bind; [apply target_and_token_t; intros; apply emits_residual|].
  intros [[target token]|]; [|by apply t_ret].
  eapply t_bind with (Y := fun o t => match o with Some c => known job c t /\ activated t | None => True end).
  - destruct (state_is ACTIVATION_REQUESTED job) eqn:Hs.
    + eapply t_bind; [by apply (run_lease_t self _ rotation_book); [|apply lasting_const|]|].
      intros [[current [e|v]]|]; [| |by apply t_ret].
      * eapply t_pre; [intros t [Ht _]; exact Ht|].
        eapply t_bind; [apply (quiet _ (fun _ => True)); [apply emits_record_failure|apply lasting_const]|]. intros ?.
        apply (book_then _ rotation_book (fun _ => True)); [apply emits_residual|apply lasting_const|done].
      * eapply t_conseq; [| |apply (transition_claimed_t activated), lasting_activated].
        -- intros t [_ Ht] _. by exists (target, token).
        -- intros [c|] t [Ha Hk]; [by split|done].
    + apply t_ret. intros t _. split; [by left|]. intros Hd. unfold state_is in Hs. rewrite Hd in Hs.
      by rewrite bool_decide_eq_true_2 in Hs.
  - intros [current|]; [apply swap_claimed_t|by apply t_ret].
Qed.
End RotationOrder.


(** ** Whole runs *)

(** The event [n] places from the end of a trace. *)
Lemma trace_at (t : list event) n e : t !! n = Some e -> t = take n t ++ e :: drop (S n) t.
Proof. intros H. by rewrite take_drop_middle. Qed.



