(* ===== verification/SafeRequests.v ===== *)
(** * Every request of the orchestrator has a prepared target

    [Safe Q m]: a run of [m] adds only requests to targets the policy
    accepted, and what it returns satisfies [Q]. *)

From stdpp Require Import base tactics list gmap strings.
From Stdlib Require Import ZArith Lia.
From S2P Require Import Prelude Text Sql Models Schema EnrollmentJournal ManagerRegistry RemovalJournal.
From S2P Require Import EnrollmentJobs Lifecycle Samples Gateway SecretFiles TargetPolicy AgentClient TargetClaims.
From S2P Require Import RegistryClaims Saga Recovery Removals Enrollments SagaSamples SagaFacts RemovalRuns.

Definition request_target (r : Request) : ValidatedTarget :=
  match r with
  | ValidateLegacy t _ | ValidatePending t _ _ | Activate t _ _ _ | Revoke t _ _ => t
  end.

Section Safe.
Context `{Outside} `{UrlLib}.

Definition good_target (t : ValidatedTarget) : Prop :=
  exists id, safe_target out_client id t /\ (plain_target t \/ loopback_target t).

Definition good_event (e : event) : Prop :=
  match e with Sent r => good_target (request_target r) | _ => True end.

Definition Safe {A} (Q : A -> Prop) (m : O A) : Prop :=
  forall w, Forall good_event (w_trace w) ->
    Forall good_event (w_trace (m w).2) /\ forall a, (m w).1 = inr a -> Q a.

Definition any {A} : A -> Prop := fun _ => True.

Lemma safe_quiet {A} (m : O A) : (forall w, w_trace (m w).2 = w_trace w) -> Safe any m.
Proof. intros Hm w Hw. by rewrite Hm. Qed.

Lemma safe_ret {A} (Q : A -> Prop) a : Q a -> Safe Q (o_ret a).
Proof. intros Ha w Hw. split; [done|]. by intros b [= <-]. Qed.

Lemma safe_raise {A} (Q : A -> Prop) e : Safe Q (o_raise e).
Proof. by intros w Hw. Qed.

Lemma safe_bind {A B} (Q : A -> Prop) (R : B -> Prop) (m : O A) (k : A -> O B) :
  Safe Q m -> (forall a, Q a -> Safe R (k a)) -> Safe R (o_bind m k).
Proof.
  intros Hm Hk w Hw. unfold o_bind. destruct (Hm w Hw) as [Ht Ha]. destruct (m w) as [[e|a] w']; [done|].
  apply Hk; [by apply Ha|done].
Qed.

Lemma safe_catch {A} (Q : A -> Prop) (m : O A) h :
  Safe Q m -> (forall e p, h e = Some p -> Safe Q p) -> Safe Q (o_catch m h).
Proof.
  intros Hm Hh w Hw. unfold o_catch. destruct (Hm w Hw) as [Ht Ha]. destruct (m w) as [[e|a] w']; [|done].
  destruct e; try done; destruct (h _) as [p|] eqn:E; try done; by eapply Hh.
Qed.

Lemma safe_finally {A} (Q : A -> Prop) (m : O A) f : Safe Q m -> Safe any f -> Safe Q (o_finally m f).
Proof.
  intros Hm Hf w Hw. unfold o_finally. destruct (Hm w Hw) as [Ht Ha]. destruct (m w) as [r w']. cbn in *.
  destruct (Hf w' Ht) as [Ht' _]. destruct r as [e|a].
  - destruct e; try done; destruct (f w') as [[e'|u] w2]; done.
  - destruct (f w') as [[e'|u] w2]; [done|]. split; [done|]. cbn. apply Ha.
Qed.

Lemma safe_any {A} (Q : A -> Prop) (m : O A) : Safe Q m -> Safe any m.
Proof. intros Hm w Hw. by destruct (Hm w Hw). Qed.

Lemma safe_log e : good_event e -> Safe any (log e).
Proof. intros He w Hw. split; [by constructor|done]. Qed.

Lemma safe_advance : Safe any advance.
Proof. apply safe_quiet. intros w. unfold advance. by destruct (out_halts _). Qed.

Lemma safe_on_memory f : Safe any (on_memory f).
Proof. by apply safe_quiet. Qed.

Lemma safe_memory {A} (f : Memory -> A) : Safe any (memory f).
Proof. by apply safe_quiet. Qed.

Lemma safe_set_reference r : Safe any (set_reference r).
Proof. by apply safe_quiet. Qed.

Lemma safe_get_reference : Safe any get_reference.
Proof. by apply safe_quiet. Qed.

Lemma safe_gate {A} (f : Gateway -> A * Gateway) : Safe any (gate f).
Proof. apply safe_quiet. intros w. unfold gate. by destruct (f _). Qed.

Lemma safe_store {A} (m : FS A) : Safe any (store m).
Proof. apply safe_quiet. intros w. unfold store. by destruct (m _) as [[]]. Qed.

Lemma safe_update {A} (f : nat -> World -> (oexn + A) * World) :
  (forall n w, w_trace (f n w).2 = w_trace w) -> Safe any (let! n := advance in f n).
Proof. intros Hf. apply (safe_bind any); [apply safe_advance|]. intros n _. by apply safe_quiet. Qed.

Lemma safe_transact {A} (m : Method A) : Safe any (transact m).
Proof. apply safe_update. intros n w. by destruct (m _) as [[]]. Qed.

Lemma safe_await : Safe any await.
Proof. by apply safe_update. Qed.

Lemma safe_service {A} (m : (nat -> DB -> DB) -> ServiceMethod A) : Safe any (service m).
Proof.
  apply (safe_bind any); [apply safe_advance|]. intros n _.
  do 3 (apply (safe_bind any); [apply safe_advance|]; intros ? _).
  apply safe_quiet. intros w. by destruct (m _ _) as [[]].
Qed.

(** The policy is asked for every target. *)
Lemma safe_prepare p : Safe good_target (prepare p).
Proof.
  apply (safe_bind any); [apply safe_advance|]. intros n _.
  destruct (prepare_target out_client (out_resolve n) p) as [[code d]|t] eqn:E; [apply safe_raise|].
  apply safe_ret. apply prepare_target_safe in E as [Hs Hk]. exists (preparation_profile p). split; [done|].
  destruct (is_local p); auto.
Qed.
End Safe.

Create HintDb safe.

#[export] Hint Resolve safe_raise safe_advance safe_on_memory safe_memory safe_set_reference
  safe_get_reference safe_gate safe_store safe_transact safe_await safe_service : safe.
#[export] Hint Extern 1 (Safe any (log _)) => apply safe_log; exact I : safe.
#[export] Hint Extern 1 (Safe any (o_ret _)) => apply safe_ret; exact I : safe.

Ltac safe_walk :=
  repeat first
  [ progress intros
  | solve [ eauto 2 with safe ]
  | match goal with
    | |- Safe _ (o_bind (prepare _) _) => eapply safe_bind; [apply safe_prepare|]
    | |- Safe any (prepare _) => eapply safe_any, safe_prepare
    | |- Safe _ (o_bind (target_and_token _ _ _) _) => fail 1
    | |- Safe _ (o_bind (issue _) _) => fail 1
    | |- Safe _ (o_bind _ _) => apply (safe_bind any)
    | |- Safe _ (o_catch _ _) => apply safe_catch
    | |- Safe _ (o_finally _ _) => apply safe_finally
    | |- Safe _ (perform _ _) => unfold perform
    | E : (if ?b then _ else _) = Some ?p |- Safe _ ?p => destruct b
    | E : (match ?x with _ => _ end) = Some ?p |- Safe _ ?p => destruct x
    | E : Some _ = Some ?p |- Safe _ ?p => injection E as <-
    | E : None = Some ?p |- Safe _ ?p => discriminate E
    | |- Safe _ (match ?x with _ => _ end) => destruct x eqn:?
    | |- Safe _ (let '(_, _) := ?x in _) => destruct x
    end ].

Section Programs.
Context `{Outside} `{UrlLib} (self : Config).

Lemma safe_clock : Safe any clock.
Proof. unfold clock. safe_walk. Qed.

Lemma safe_uuid4 : Safe any uuid4.
Proof. unfold uuid4. safe_walk. Qed.

Lemma safe_ask r : good_target (request_target r) -> Safe any (ask r).
Proof. intros Hr. unfold ask. apply (safe_bind any); [by apply safe_log|]. safe_walk. Qed.

Lemma safe_store_read r : Safe any (store_read r).
Proof. unfold store_read. safe_walk. Qed.

Lemma safe_store_put s : Safe any (store_put s).
Proof. unfold store_put. safe_walk. Qed.

Lemma safe_when b m : Safe any m -> Safe any (o_when b m).
Proof. unfold o_when. safe_walk. Qed.

Lemma safe_store_delete r : Safe any (store_delete r).
Proof. unfold store_delete, o_when. safe_walk. Qed.

Lemma safe_assert b e : Safe any (o_assert b e).
Proof. unfold o_assert. safe_walk. Qed.

Lemma safe_lease {A} (Q : A -> Prop) (m : O A) : Safe Q m -> Safe Q (lifecycle_lease m).
Proof. intros Hm. unfold lifecycle_lease. safe_walk. Qed.

Lemma safe_j_get id : Safe any (j_get id).
Proof. unfold j_get. safe_walk. Qed.

Lemma safe_r_get id : Safe any (r_get id).
Proof. unfold r_get. safe_walk. Qed.

Lemma safe_j_replace job x f : Safe any (j_replace job x f).
Proof. unfold j_replace. safe_walk. Qed.

Lemma safe_unless {A} (d : A) (m : O A) : Safe any m -> Safe any (unless_registry_error d m).
Proof. intros Hm. unfold unless_registry_error. safe_walk. Qed.

Lemma safe_quietly m : Safe any m -> Safe any (quietly m).
Proof. intros Hm. unfold quietly. safe_walk. Qed.

Lemma safe_iter {A} (body : A -> O unit) l : (forall a, Safe any (body a)) -> Safe any (o_iter body l).
Proof. intros Hb. induction l as [|a l IH]; cbn; safe_walk. Qed.
End Programs.

#[export] Hint Resolve safe_clock safe_uuid4 safe_store_read safe_store_put safe_store_delete safe_assert
  safe_j_get safe_r_get safe_j_replace : safe.

Ltac safe_sagas :=
  repeat first
  [ progress safe_walk
  | match goal with
    | |- Safe _ (ask _) => apply safe_ask; cbn [request_target]; by auto
    | |- Safe _ (lifecycle_lease _) => apply safe_lease
    | |- Safe _ (unless_registry_error _ _) => apply safe_unless
    | |- Safe _ (quietly _) => apply safe_quietly
    | |- Safe _ (o_when _ _) => apply safe_when
    | |- Safe _ (o_iter _ _) => apply safe_iter
    end ].

Section Recovering.
Context `{Outside} `{UrlLib} (self : Config).

Lemma safe_reload id : Safe any (reload_after_fence_loss id).
Proof. unfold reload_after_fence_loss. safe_sagas. Qed.

Lemma safe_renew j : Safe any (renew_claimed self j).
Proof. unfold renew_claimed. safe_sagas. Qed.

Lemma safe_fail j c : Safe any (fail_claimed self j c).
Proof. unfold fail_claimed. safe_sagas. Qed.

Lemma safe_residual j c : Safe any (residual_claimed self j c).
Proof. unfold residual_claimed. safe_sagas. Qed.

Lemma safe_release j : Safe any (release_claimed self j).
Proof. unfold release_claimed. safe_sagas. Qed.

Lemma safe_record_failure j c d : Safe any (record_mutation_failure j c d).
Proof. unfold record_mutation_failure. safe_sagas. Qed.

Lemma safe_cache id v : Safe any (cache_validation id v).
Proof. unfold cache_validation. safe_sagas. Qed.

#[local] Hint Resolve safe_reload safe_renew safe_fail safe_residual safe_release safe_record_failure safe_cache : safe.

Lemma safe_mark j c : Safe any (mark_claim_error self j c).
Proof. unfold mark_claim_error. safe_sagas. Qed.

Lemma safe_transition_claimed j s b : Safe any (transition_claimed self j s b).
Proof. unfold transition_claimed. safe_sagas. Qed.

Lemma safe_keep_claim n j : Safe any (keep_claim self n j).
Proof. revert j. induction n as [|n IH]; intros j; cbn [keep_claim]; safe_sagas. Qed.

Lemma safe_cleanup_terminal j : Safe any (cleanup_terminal j).
Proof. unfold cleanup_terminal. safe_sagas. Qed.

#[local] Hint Resolve safe_mark safe_transition_claimed safe_keep_claim safe_cleanup_terminal : safe.

Lemma safe_run_lease j r : good_target (request_target r) -> Safe any (run_with_recovery_lease self j r).
Proof. intros Hr. unfold run_with_recovery_lease. apply (safe_bind any); [by apply safe_log|]. safe_sagas. Qed.

Lemma safe_prepare_pinned j : Safe good_target (prepare_pinned_job self j).
Proof. unfold prepare_pinned_job. repeat case_match; try apply safe_raise; apply safe_prepare. Qed.

Lemma safe_target_and_token j k : (forall c, Safe any (k c)) ->
  Safe (fun x => forall t s, x = Some (t, s) -> good_target t) (target_and_token self j k).
Proof.
  intros Hk. unfold target_and_token. apply safe_catch.
  - eapply safe_bind; [apply safe_prepare_pinned|]. intros t Ht. apply (safe_bind any); [apply safe_store_read|].
    intros s _. apply safe_ret. by intros ? ? [= <- <-].
  - intros e p E. destruct e; try done; injection E as <-; (apply (safe_bind any); [apply Hk|]; intros ? _);
      by apply safe_ret.
Qed.
End Recovering.

#[export] Hint Resolve safe_reload safe_renew safe_fail safe_residual safe_release safe_record_failure safe_cache
  safe_mark safe_transition_claimed safe_keep_claim safe_cleanup_terminal : safe.

(** Requests under a claim, and targets that were prepared before. *)
Ltac safe_claims :=
  repeat first
  [ progress safe_sagas
  | match goal with
    | |- Safe _ (o_bind (target_and_token _ _ _) _) => eapply safe_bind; [apply safe_target_and_token|]
    | Ht : forall t s, Some (?a, ?b) = Some (t, s) -> good_target t |- _ => specialize (Ht a b eq_refl)
    | Ht : forall x, Some ?a = Some x -> good_target x |- _ => specialize (Ht a eq_refl)
    | |- Safe _ (run_with_recovery_lease _ _ _) => apply safe_run_lease; cbn [request_target]; by auto
    end ].

Section Operating.
Context `{Outside} `{UrlLib} (self : Config).

Lemma safe_recover_validation j : Safe any (recover_validation self j).
Proof. unfold recover_validation. safe_claims. Qed.

Lemma safe_compensate_add j t : (forall x, t = Some x -> good_target x) ->
  Safe any (compensate_activated_add_conflict self j t).
Proof. intros Ht. unfold compensate_activated_add_conflict. safe_claims. Qed.

Lemma safe_commit_activation j : Safe any (commit_activation j).
Proof. unfold commit_activation. safe_claims. Qed.

Lemma safe_activate j t : (forall x, t = Some x -> good_target x) -> Safe any (activate_claimed self j t).
Proof. intros Ht. unfold activate_claimed. safe_claims. Qed.

Lemma safe_compensate_rotation j t s : good_target t -> Safe any (compensate_rotation_registry_mismatch self j t s).
Proof. intros Ht. unfold compensate_rotation_registry_mismatch. safe_claims. Qed.

Lemma safe_finish_rotation j t s : good_target t -> Safe any (finish_rotation self j t s).
Proof. intros Ht. unfold finish_rotation. safe_claims. Qed.

#[local] Hint Resolve safe_compensate_add safe_commit_activation safe_activate safe_compensate_rotation
  safe_finish_rotation : safe.

Lemma safe_swap_claimed j t s : good_target t -> Safe any (swap_claimed self j t s).
Proof. intros Ht. unfold swap_claimed. safe_claims. Qed.

#[local] Hint Resolve safe_swap_claimed : safe.

Lemma safe_recover_rotation j : Safe any (recover_rotation self j).
Proof. unfold recover_rotation. safe_claims. Qed.

Lemma safe_recover_add j : Safe any (recover_activation_add self j).
Proof.
  unfold recover_activation_add. case_match; [safe_claims|].
  apply (safe_bind (fun x => forall t, x = Some (Some t) -> good_target t)).
  - case_match; [by apply safe_ret|]. case_match.
    + apply (safe_bind any); [safe_claims|]. intros _ _. by apply safe_ret.
    + apply safe_catch.
      * eapply safe_bind; [apply safe_prepare_pinned|]. intros t Ht. apply safe_ret. by intros ? [= <-].
      * intros e p E. destruct e; try done. injection E as <-.
        do 2 (apply (safe_bind any); [safe_claims|]; intros ? _). by apply safe_ret.
  - intros [target|] Ht; [|safe_claims]. assert (forall x, target = Some x -> good_target x) by (intros x ->; by apply Ht).
    safe_claims.
Qed.

#[local] Hint Resolve safe_recover_rotation safe_recover_add safe_recover_validation : safe.

Lemma safe_recover : Safe any (recover self).
Proof. unfold recover, recover_job, recover_activation. safe_claims. Qed.

Lemma safe_rem_transition j p c : Safe any (rem_transition j p c).
Proof. unfold rem_transition. safe_claims. Qed.

#[local] Hint Resolve safe_rem_transition : safe.

Lemma safe_resume_removal j : Safe any (resume_removal self j).
Proof. unfold resume_removal, revoke_removed, delete_removed, erase_removed, leave_residual. safe_claims. Qed.

Lemma safe_gate_begin agent : Safe any (gate_begin self agent).
Proof. unfold gate_begin. safe_claims. Qed.

Lemma safe_gate_abort agent : Safe any (gate_abort self agent).
Proof. unfold gate_abort. safe_claims. Qed.

#[local] Hint Resolve safe_resume_removal safe_gate_begin safe_gate_abort : safe.

Lemma safe_remove_agent a e l : Safe any (remove_agent self a e l).
Proof. unfold remove_agent. safe_claims. Qed.

Lemma safe_recover_removals : Safe any (recover_removals self).
Proof. unfold recover_removals, recover_removal. safe_claims. Qed.

Lemma safe_update_agent a d e b p t : Safe any (Removals.update_agent self a d e b p t).
Proof. unfold Removals.update_agent, revalidate, delete_quietly. safe_claims. Qed.
End Operating.

#[export] Hint Resolve safe_recover safe_remove_agent safe_recover_removals safe_update_agent : safe.

(** ** Enrollments *)

(** The helper's target is the one that was prepared for it: by the SSH
    adapter under the same policy, or by the caller. *)
Record helpers_targeted `{Outside} `{UrlLib} : Prop := {
  ssh_targeted n key request profile h :
    out_issue n (IssueSsh key request profile) = Value h -> good_target (helper_validation_target h);
  local_targeted n path manager id target retry h :
    out_issue n (IssueLocal path manager id target retry) = Value h -> helper_validation_target h = target;
  parsed_targeted payload request target now h :
    out_parse_helper payload request target now = Some h -> helper_validation_target h = target
}.

Section Enrolling.
Context `{Outside} `{UrlLib} (self : Config) (Hh : helpers_targeted).

Definition good_helper (h : EnrollmentHelperResult) : Prop := good_target (helper_validation_target h).

Lemma safe_issue r :
  (match r with IssueLocal _ _ _ target _ => good_target target | IssueSsh _ _ _ => True end) ->
  Safe good_helper (issue r).
Proof.
  intros Hr. unfold issue. apply (safe_bind any); [apply safe_await|]. intros n _.
  destruct (out_issue n r) as [h|c d| |] eqn:E; try apply safe_raise. apply safe_ret.
  destruct r as [key request profile|path manager id target retry].
  - by eapply ssh_targeted.
  - unfold good_helper. by erewrite local_targeted.
Qed.

Lemma safe_publish_issued j h m : Safe any (publish_issued j h m).
Proof. unfold publish_issued. safe_claims. Qed.

#[local] Hint Resolve safe_publish_issued : safe.

Lemma safe_publish j h m : good_helper h -> Safe any (publish_managed_helper self j h m).
Proof. intros Ht. unfold publish_managed_helper. safe_claims. Qed.

Lemma safe_converge id c s : Safe any (converge_auto id c s).
Proof. unfold converge_auto. safe_claims. Qed.

Lemma safe_record_intent : Safe any record_intent.
Proof. unfold record_intent. safe_claims. Qed.

Lemma safe_outcome e r d c : Safe any (record_auto_outcome self e r d c).
Proof. unfold record_auto_outcome. safe_claims. Qed.

Lemma safe_schedule j : Safe any (schedule_auto j).
Proof. unfold schedule_auto. safe_claims. Qed.

#[local] Hint Resolve safe_publish safe_converge safe_record_intent safe_outcome safe_schedule : safe.

Lemma safe_conclude j e x : Safe any (conclude_auto self j e x).
Proof. unfold conclude_auto. safe_claims. Qed.

Lemma safe_issue_auto j : Safe any (issue_and_validate_auto self j).
Proof.
  unfold issue_and_validate_auto. repeat case_match; try apply safe_raise.
  eapply safe_bind; [by apply safe_issue|]. safe_claims.
Qed.

#[local] Hint Resolve safe_conclude safe_issue_auto : safe.

Lemma safe_run_auto j : Safe any (run_auto self j).
Proof. unfold run_auto. safe_claims. Qed.

Lemma safe_start_auto m j : Safe any (start_auto self m j).
Proof. unfold start_auto. safe_claims. Qed.

#[local] Hint Resolve safe_start_auto : safe.

Lemma safe_create_auto r : Safe any (create_auto self r).
Proof. unfold create_auto. safe_claims. Qed.

Lemma safe_create r : Safe any (orchestrator_create self r).
Proof. unfold orchestrator_create. safe_claims. Qed.

Lemma safe_start_rotation a u h p : Safe any (start_rotation self a u h p).
Proof. unfold start_rotation. safe_claims. Qed.

Lemma safe_get id : Safe any (orchestrator_get self id).
Proof. unfold orchestrator_get. safe_claims. Qed.

Lemma safe_consume id d f : Safe any (orchestrator_consume self id d f).
Proof. unfold orchestrator_consume, save_failure. safe_claims. Qed.

Lemma safe_consume_rotation a id : Safe any (orchestrator_consume_rotation self a id).
Proof. unfold orchestrator_consume_rotation, save_failure. safe_claims. Qed.

Lemma safe_cancel id : Safe any (orchestrator_cancel self id).
Proof. unfold orchestrator_cancel. safe_claims. Qed.

Lemma safe_validate_legacy b p t : Safe any (validate_legacy self b p t).
Proof. unfold validate_legacy, validate_legacy_steps. safe_claims. Qed.

#[local] Hint Resolve safe_get safe_consume : safe.

(** ** CLI submissions *)
Definition good_claim (c : CliSubmissionClaim) : Prop := forall t, claim_target c = Some t -> good_target t.

Lemma safe_begin_cli id u h p a uid n : Safe good_claim (begin_cli_submission self id u h p a uid n).
Proof.
  unfold begin_cli_submission, begin_cli_steps, resume_cli. safe_claims.
  all: apply safe_ret; intros ? Ht; cbn in Ht; by simplify_eq.
Qed.

Lemma safe_complete_cli c p f n : good_claim c -> Safe any (complete_cli_submission self c p f n).
Proof.
  intros Hc. unfold complete_cli_submission, complete_cli_steps. safe_claims.
  apply safe_publish. unfold good_helper. erewrite parsed_targeted by done. by apply Hc.
Qed.

(** ** Local bootstrap *)
Lemma safe_compensate_local id h c : (forall x, h = Some x -> good_helper x) ->
  Safe any (compensate_local_bootstrap self id h c).
Proof.
  intros Hx. unfold compensate_local_bootstrap. safe_claims.
  apply safe_ask. by apply Hx.
Qed.

Lemma safe_finish_local id h e c d : (forall x, h = Some x -> good_helper x) ->
  Safe any (finish_local_bootstrap_failure self id h e c d).
Proof. intros Hx. pose proof (safe_compensate_local id h c Hx). unfold finish_local_bootstrap_failure. safe_claims. Qed.

Lemma safe_local_pending r t : Safe any (local_pending self r t).
Proof. unfold local_pending. safe_claims. Qed.

#[local] Hint Resolve safe_local_pending : safe.

Lemma safe_local_failure j event helper e : (forall x, helper = Some x -> good_helper x) ->
  Safe any (local_failure self j event helper e).
Proof.
  intros Hx. pose proof (fun e c d => safe_finish_local (job_enrollment_id j) helper e c d Hx).
  unfold local_failure. destruct e; safe_claims.
Qed.

Lemma safe_local_steps r t j b : good_target t -> Safe any (local_steps self r t j b).
Proof.
  intros Ht. pose proof (safe_local_failure j) as Hfin. unfold local_steps. case_match; [by apply Hfin|].
  apply (safe_bind any); [apply safe_record_intent|]. intros [id|] _; [|by apply Hfin].
  apply (safe_bind (fun x => forall h, x = inr h -> good_helper h)).
  - apply safe_catch.
    + eapply safe_bind; [by apply safe_issue|]. intros h Hg. apply safe_ret. by intros ? [= <-].
    + intros e p [= <-]. by apply safe_ret.
  - intros [e|h] Hg; [by apply Hfin|]. specialize (Hg h eq_refl). apply (safe_bind any); [|safe_claims].
    apply safe_catch; [safe_claims|]. intros e p [= <-]. apply Hfin. by intros x [= <-].
Qed.

Lemma safe_bootstrap_local r : Safe any (bootstrap_local self r).
Proof.
  pose proof safe_local_steps. unfold bootstrap_local, bootstrap_local_steps. safe_claims.
Qed.

Lemma safe_recover_and_cleanup : Safe any (recover_and_cleanup self).
Proof. unfold recover_and_cleanup, recover_auto_startup, recover_auto_job, store_cleanup_orphans. safe_claims. Qed.

#[local] Hint Resolve safe_create safe_create_auto safe_start_rotation safe_consume_rotation safe_cancel
  safe_validate_legacy safe_run_auto safe_bootstrap_local safe_recover_and_cleanup : safe.

(** The claim a CLI submission is completed with is one that was begun. *)
Definition well_begun (op : Operation) : Prop :=
  match op with OpCompleteCli c _ _ _ => good_claim c | _ => True end.

Lemma safe_operation op : well_begun op -> Safe any (operation self op).
Proof.
  intros Hop. destruct op; unfold operation, discard; try solve [safe_claims].
  - apply (safe_bind good_claim); [apply safe_begin_cli|]. safe_claims.
  - apply (safe_bind any); [by apply safe_complete_cli|]. safe_claims.
Qed.
End Enrolling.


(** ** A removal at start-up *)
Lemma sample_target_good : good_target sample_target.
Proof.
  destruct (prepare_target out_client (fun _ _ _ => Some ["10.0.0.7"]) (Prepare "http://agent-1:8765" "plain"))
    as [e|t] eqn:E; [by vm_compute in E|].
  assert (t = sample_target) as -> by (vm_compute in E; by injection E).
  apply prepare_target_safe in E as [Hs Hp]. exists "plain". by split; [|left].
Qed.

Lemma sample_helpers : helpers_targeted.
Proof.
  split.
  - intros n key request profile h [= <-]. exact sample_target_good.
  - by intros n path manager id target retry h [= <-].
  - by intros payload request target now h [= <-].
Qed.

