(* ===== verification/CompactJson.v ===== *)
(** * The text of a JSON value

    [compact_json] of [src/backend/ic_env_guard/observations/models.py]:
    [json.dumps] with [ensure_ascii=False], without spaces, and optionally with
    sorted keys.  A text is the list of its UTF-8 bytes, so characters beyond
    ASCII stand for themselves.  The decimal form of a float is a parameter. *)

From stdpp Require Import base tactics list strings sorting pretty.
From Stdlib Require Import ZArith Lia Ascii SpecFloat.
From S2P Require Import Prelude Text Digest Models.

(** [float.__repr__] *)
Class FloatText := { float_repr : spec_float -> string }.

(** ** Strings *)
Definition escaped_char (c : ascii) : string :=
  let n := byte_of c in
  if (n =? 34)%Z then String "092" (String "034" "")
  else if (n =? 92)%Z then String "092" (String "092" "")
  else if (n =? 10)%Z then "\n"
  else if (n =? 13)%Z then "\r"
  else if (n =? 9)%Z then "\t"
  else if (n =? 12)%Z then "\f"
  else if (n =? 8)%Z then "\b"
  else if (n <? 32)%Z then json_escape n
  else String c "".

Fixpoint escaped (s : string) : string :=
  match s with
  | EmptyString => ""
  | String c rest => escaped_char c +:+ escaped rest
  end.

Definition quoted (s : string) : string := quote +:+ escaped s +:+ quote.

(** ** Values *)
Definition bracketed (l : list string) : string := "[" +:+ join "," l +:+ "]".

Definition braced (l : list (string * string)) : string :=
  "{" +:+ join "," ((fun kv => quoted kv.1 +:+ ":" +:+ kv.2) <$> l) +:+ "}".

Fixpoint json_text `{FloatText} (v : json) : string :=
  match v with
  | JNull => "null"
  | JBool b => if b then "true" else "false"
  | JInt n => pretty n
  | JFloat f => float_repr f
  | JString s => quoted s
  | JList l => bracketed (json_text <$> l)
  | JDict d => braced (prod_map id json_text <$> d)
  end.

(** [sort_keys=True] *)
Definition key_le {A} (a b : string * A) : Prop := String.leb a.1 b.1 = true.

#[global] Instance key_le_dec {A} (a b : string * A) : Decision (key_le a b).
Proof. unfold key_le. apply _. Defined.

Fixpoint sort_keys (v : json) : json :=
  match v with
  | JList l => JList (sort_keys <$> l)
  | JDict d => JDict (merge_sort key_le (prod_map id sort_keys <$> d))
  | v => v
  end.

Definition compact_json `{FloatText} (value : json) (sorted : bool) : string :=
  json_text (if sorted then sort_keys value else value).

(** * The text of a JSON value determines it

    What the digests of canonical texts rely on: a quoted string can be read
    back, and so can an object of strings. *)

(** ** Strings *)
Definition hex_digit (c : ascii) : Z :=
  if is_digit c then (byte_of c - 48)%Z else (byte_of c - 87)%Z.

(** Reads one character of the inside of a string. *)
Definition read_char (s : string) : option (ascii * string) :=
  match s with
  | String "092" (String "u" (String _ (String _ (String h (String l rest))))) =>
      Some (Ascii.ascii_of_nat (Z.to_nat (16 * hex_digit h + hex_digit l)), rest)
  | String "092" (String c rest) =>
      Some ((if is_char "n" c then "010" else if is_char "r" c then "013" else if is_char "t" c then "009"
             else if is_char "f" c then "012" else if is_char "b" c then "008" else c)%char, rest)
  | String c rest => Some (c, rest)
  | EmptyString => None
  end.

Lemma read_escaped c x : read_char (escaped_char c +:+ x) = Some (c, x).
Proof. destruct c as [[] [] [] [] [] [] [] []]; vm_compute; reflexivity. Qed.

Lemma escaped_not_quote c x y : quote +:+ x <> escaped_char c +:+ y.
Proof. destruct c as [[] [] [] [] [] [] [] []]; intros [=]. Qed.

Lemma escaped_inj s t x y : escaped s +:+ quote +:+ x = escaped t +:+ quote +:+ y -> s = t /\ x = y.
Proof.
  revert t. induction s as [|c s IH]; intros [|d t]; cbn [escaped].
  - intros E. split; [done|]. by injection E.
  - rewrite <- string_app_assoc. by intros ?%escaped_not_quote.
  - rewrite <- string_app_assoc. by intros ?%symmetry%escaped_not_quote.
  - rewrite <- !string_app_assoc. intros E. pose proof (read_escaped c (escaped s +:+ quote +:+ x)) as Hc.
    rewrite E, read_escaped in Hc. injection Hc as -> Hr. by destruct (IH _ (eq_sym Hr)) as [-> ->].
Qed.

Lemma quoted_inj s t x y : quoted s +:+ x = quoted t +:+ y -> s = t /\ x = y.
Proof.
  unfold quoted. rewrite <- !string_app_assoc. intros E%(inj (String.append quote)). by apply escaped_inj.
Qed.

(** ** Objects of strings *)
Definition member (kv : string * string) : string := quoted kv.1 +:+ ":" +:+ quoted kv.2.

Lemma member_inj a b x y : member a +:+ x = member b +:+ y -> a = b /\ x = y.
Proof.
  unfold member. rewrite <- !string_app_assoc. intros [Hk E]%quoted_inj. apply (inj (String.append ":")) in E.
  apply quoted_inj in E as [Hv ->]. destruct a, b; cbn in *. by subst.
Qed.

(** What follows the first element of a list. *)
Definition join_rest (l : list string) : string := match l with [] => "" | _ => "," +:+ join "," l end.

Lemma join_cons a l : join "," (a :: l) = a +:+ join_rest l.
Proof. destruct l; cbn; [by rewrite string_app_nil|done]. Qed.

Lemma members_inj l l' x y :
  join "," (member <$> l) +:+ "}" +:+ x = join "," (member <$> l') +:+ "}" +:+ y -> l = l' /\ x = y.
Proof.
  revert l'. induction l as [|a l IH]; intros [|b l']; rewrite ?fmap_cons, ?fmap_nil, ?join_cons.
  - intros E. split; [done|]. by injection E.
  - unfold member, quoted. by intros [=].
  - unfold member, quoted. by intros [=].
  - rewrite <- !string_app_assoc. intros [-> E]%member_inj.
    destruct l as [|a' l], l' as [|b' l']; cbn [fmap list_fmap join_rest] in E.
    + split; [done|]. by injection E.
    + by injection E.
    + by injection E.
    + apply (inj (String.append ",")) in E. destruct (IH (b' :: l') E) as [-> ->]. done.
Qed.

Lemma braced_inj l l' x y :
  braced (prod_map id quoted <$> l) +:+ x = braced (prod_map id quoted <$> l') +:+ y -> l = l' /\ x = y.
Proof.
  unfold braced. rewrite <- !list_fmap_compose, <- !string_app_assoc. intros E%(inj (String.append "{")). by apply members_inj.
Qed.
