(* ===== verification/LatestValue.v ===== *)
(** * Latest-value stores

    Observations and log sources are kept the same way: one row per key, which
    a newer report replaces.  Both services read the row, compare the times
    and write with a compare-and-swap, up to eight times.  This file has the
    interface of the repository ([src/backend/ic_env_guard/observations/ports.py]
    and [logs/ports.py]), the loop, the contract the SQLite repositories keep,
    and what follows from the contract alone. *)

From stdpp Require Import base tactics list gmap strings.
From Stdlib Require Import ZArith Lia.
From S2P Require Import Prelude Models.

(** The exceptions of [observations/models.py] and [logs/models.py], with the
    code they carry; [ValueError] and [OverflowError] are Python's. *)
Inductive ingest_exn :=
| Invalid (code : string)
| Overflow
| Conflict (code : string)
| Expired (code : string)
| SeriesLimit
| StorageError (code : string)
| PathForbidden
| FileUnavailable
| OsError.

#[global] Instance ingest_exn_eq : EqDecision ingest_exn.
Proof. solve_decision. Defined.

Class LatestStore (S R : Type) := {
  ls_key : R -> string;
  ls_observed : R -> time;
  ls_same_payload : R -> R -> bool;
  ls_stale_code : string;
  ls_conflict_code : string;
  ls_contention_code : string;
  ls_get : string -> S -> ingest_exn + option R;
  ls_compare_and_swap : R -> option time -> S -> (ingest_exn + bool) * S
}.

Definition MAX_CAS_ATTEMPTS : nat := 8.

Section Loop.
Context {S R : Type} `{LatestStore S R}.

(** [other n] is what other connections commit before the [n]-th call of the
    repository: the read of round [i] is call [2 * i], its write [2 * i + 1]. *)
Fixpoint cas_loop (attempts round : nat) (other : nat -> S -> S) (candidate : R) (s : S)
    : (ingest_exn + R * bool) * S :=
  match attempts with
  | 0 => (inl (StorageError ls_contention_code), s)
  | Datatypes.S attempts =>
      let s := other (2 * round) s in
      let swap (current : option R) :=
        let s := other (2 * round + 1) s in
        match ls_compare_and_swap candidate (ls_observed <$> current) s with
        | (inl e, s) => (inl e, s)
        | (inr true, s) => (inr (candidate, is_none current), s)
        | (inr false, s) => cas_loop attempts (round + 1) other candidate s
        end in
      match ls_get (ls_key candidate) s with
      | inl e => (inl e, s)
      | inr None => swap None
      | inr (Some current) =>
          if (ls_observed candidate <? ls_observed current)%Z then (inl (Conflict ls_stale_code), s)
          else if (ls_observed candidate =? ls_observed current)%Z then
            if ls_same_payload candidate current then (inr (current, false), s)
            else (inl (Conflict ls_conflict_code), s)
          else swap (Some current)
      end
  end.
End Loop.

(** What a repository promises: [ls_rows] are the rows as [get] returns them,
    [ls_stored r] is what a written record reads back as.  Its own exceptions
    are not those of the loop, and it writes nothing when it raises. *)
Definition own_exn {S R : Type} `{LatestStore S R} (e : ingest_exn) : bool :=
  match e with
  | Conflict _ => false
  | StorageError c => negb (bool_decide (c = ls_contention_code))
  | _ => true
  end.

Class LatestContract (S R : Type) `{LatestStore S R} := {
  ls_rows : S -> gmap string R;
  ls_stored : R -> R;
  ls_codes_differ : ls_stale_code <> ls_conflict_code;
  ls_stored_observed r : ls_observed (ls_stored r) = ls_observed r;
  ls_get_spec k s o : ls_get k s = inr o -> o = ls_rows s !! k;
  ls_get_error k s e : ls_get k s = inl e -> own_exn e = true;
  ls_cas_error r e s x s' : ls_compare_and_swap r e s = (inl x, s') -> s' = s /\ own_exn x = true;
  ls_cas_lost r e s s' : ls_compare_and_swap r e s = (inr false, s') ->
    s' = s /\ ls_observed <$> (ls_rows s !! ls_key r) <> e;
  ls_cas_won r e s s' : ls_compare_and_swap r e s = (inr true, s') ->
    ls_observed <$> (ls_rows s !! ls_key r) = e /\
    ls_rows s' = <[ls_key r := ls_stored r]> (ls_rows s)
}.

Section Facts.
Context {S R : Type} `{LatestContract S R}.

(** ** One round *)
Definition older (o : option R) (r : R) : Prop := forall q, o = Some q -> (ls_observed q < ls_observed r)%Z.

(** [s1] is the store the round reads, [s2] the one it writes, [again] the
    following rounds. *)
Inductive round_result (r : R) (s1 s2 : S) (again : (ingest_exn + R * bool) * S)
    : (ingest_exn + R * bool) * S -> Prop :=
| RoundRaises e s' : own_exn e = true -> s' = s1 \/ s' = s2 -> round_result r s1 s2 again (inl e, s')
| RoundStale q : ls_rows s1 !! ls_key r = Some q -> (ls_observed r < ls_observed q)%Z ->
    round_result r s1 s2 again (inl (Conflict ls_stale_code), s1)
| RoundDiffers q : ls_rows s1 !! ls_key r = Some q -> ls_observed r = ls_observed q ->
    ls_same_payload r q = false -> round_result r s1 s2 again (inl (Conflict ls_conflict_code), s1)
| RoundSame q : ls_rows s1 !! ls_key r = Some q -> ls_observed r = ls_observed q ->
    ls_same_payload r q = true -> round_result r s1 s2 again (inr (q, false), s1)
| RoundWins s' : older (ls_rows s2 !! ls_key r) r -> ls_rows s' = <[ls_key r := ls_stored r]> (ls_rows s2) ->
    round_result r s1 s2 again (inr (r, is_none (ls_rows s2 !! ls_key r)), s')
| RoundLoses : older (ls_rows s1 !! ls_key r) r ->
    ls_observed <$> (ls_rows s1 !! ls_key r) <> ls_observed <$> (ls_rows s2 !! ls_key r) ->
    round_result r s1 s2 again again.

Lemma swap_round n i other r s1 s2 current :
  current = ls_rows s1 !! ls_key r -> older current r ->
  round_result r s1 s2 (cas_loop n i other r s2)
    (match ls_compare_and_swap r (ls_observed <$> current) s2 with
     | (inl e, s) => (inl e, s)
     | (inr true, s) => (inr (r, is_none current), s)
     | (inr false, s) => cas_loop n i other r s
     end).
Proof.
  intros -> Ho. destruct (ls_compare_and_swap _ _ s2) as [[e|[]] s'] eqn:Ec.
  - apply ls_cas_error in Ec as [-> He]. apply RoundRaises; auto.
  - apply ls_cas_won in Ec as [He Hs].
    replace (is_none (ls_rows s1 !! ls_key r)) with (is_none (ls_rows s2 !! ls_key r)).
    + apply RoundWins; [|done]. intros q Hq. rewrite Hq in He.
      destruct (ls_rows s1 !! ls_key r) as [p|] eqn:Ep; [|done]. injection He as ->. by apply Ho.
    + destruct (ls_rows s1 !! _), (ls_rows s2 !! _); done.
  - apply ls_cas_lost in Ec as [-> He]. by apply RoundLoses.
Qed.

Lemma loop_round n i other r s :
  let s1 := other (2 * i) s in let s2 := other (2 * i + 1) s1 in
  round_result r s1 s2 (cas_loop n (i + 1) other r s2) (cas_loop (Datatypes.S n) i other r s).
Proof.
  intros s1 s2. cbn [cas_loop]. fold s1 s2. destruct (ls_get (ls_key r) s1) as [e|o] eqn:Eg.
  { apply ls_get_error in Eg. apply RoundRaises; auto. }
  apply ls_get_spec in Eg. destruct o as [q|].
  2: { apply swap_round; [done|]. by intros ?. }
  destruct (ls_observed r <? ls_observed q)%Z eqn:El; [prop_hyps; by eapply RoundStale|].
  destruct (ls_observed r =? ls_observed q)%Z eqn:Ee.
  - prop_hyps. destruct (ls_same_payload r q) eqn:Ep; [by apply RoundSame|by eapply RoundDiffers].
  - apply (swap_round n (i + 1) other r s1 s2 (Some q)); [done|]. intros ? [= <-]. prop_hyps. lia.
Qed.

(** ** Progress *)
(** Every row survives, as it is or replaced by a newer one. *)
Definition advances (s s' : S) : Prop :=
  forall k r, ls_rows s !! k = Some r ->
    exists r', ls_rows s' !! k = Some r' /\ (r' = r \/ (ls_observed r < ls_observed r')%Z).

#[global] Instance advances_preorder : PreOrder advances.
Proof.
  split.
  - intros s k r Hr. eauto.
  - intros s1 s2 s3 H12 H23 k r Hr. destruct (H12 k r Hr) as (r2 & Hr2 & E2).
    destruct (H23 k r2 Hr2) as (r3 & Hr3 & E3). exists r3. split; [done|].
    destruct E2 as [->|], E3 as [->|]; auto. right. lia.
Qed.

Lemma insert_advances r s s' :
  older (ls_rows s !! ls_key r) r -> ls_rows s' = <[ls_key r := ls_stored r]> (ls_rows s) -> advances s s'.
Proof.
  intros Ho Hs k q Hq. rewrite Hs. destruct (decide (k = ls_key r)) as [->|Hk].
  - rewrite lookup_insert_eq. eexists. split; [done|]. right. rewrite ls_stored_observed. by apply Ho.
  - rewrite lookup_insert_ne by done. eauto.
Qed.

(** What every guarded write and every interleaved step respects, the loop
    respects. *)
Lemma loop_respects (P : relation S) `{!PreOrder P} n i other r s :
  (forall e s, (forall t, e = Some t -> (t < ls_observed r)%Z) -> P s (ls_compare_and_swap r e s).2) ->
  (forall j s, P s (other j s)) -> P s (cas_loop n i other r s).2.
Proof.
  intros Hc Ho. revert i s. induction n as [|n IH]; intros i s; [reflexivity|].
  cbn [cas_loop]. set (s1 := other (2 * i) s). set (s2 := other (2 * i + 1) s1).
  assert (H12 : P s s2) by (etrans; [apply Ho|apply Ho]).
  assert (Hswap : forall current, older current r ->
    P s (match ls_compare_and_swap r (ls_observed <$> current) s2 with
     | (inl e, s) => (inl e, s)
     | (inr true, s) => (inr (r, is_none current), s)
     | (inr false, s) => cas_loop n (i + 1) other r s
     end).2).
  { intros current Hold. specialize (Hc (ls_observed <$> current) s2).
    assert (P s2 (ls_compare_and_swap r (ls_observed <$> current) s2).2) as H23.
    { apply Hc. intros t Ht. destruct current as [q|]; [|done]. injection Ht as <-. by apply Hold. }
    destruct (ls_compare_and_swap _ _ s2) as [[e|[]] s'] eqn:Ec; cbn [snd] in *; [by etrans..|].
    etrans; [exact H12|]. etrans; [exact H23|]. apply IH. }
  destruct (ls_get (ls_key r) s1) as [e|[q|]]; [apply Ho| |by apply Hswap].
  destruct (Z.ltb_spec (ls_observed r) (ls_observed q)); [apply Ho|].
  destruct (Z.eqb_spec (ls_observed r) (ls_observed q)).
  - destruct (ls_same_payload r q); apply Ho.
  - apply Hswap. intros ? [= <-]. lia.
Qed.

Lemma cas_advances r e s :
  (forall t, e = Some t -> (t < ls_observed r)%Z) -> advances s (ls_compare_and_swap r e s).2.
Proof.
  intros He. destruct (ls_compare_and_swap r e s) as [[x|[]] s'] eqn:Ec; cbn [snd].
  - by apply ls_cas_error in Ec as [-> _].
  - apply ls_cas_won in Ec as [He' Hs]. eapply insert_advances; [|done].
    intros q Hq. apply He. by rewrite <- He', Hq.
  - by apply ls_cas_lost in Ec as [-> _].
Qed.

Lemma loop_advances n i other r s :
  (forall j s, advances s (other j s)) -> advances s (cas_loop n i other r s).2.
Proof. intros Ho. apply loop_respects; [apply _| |done]. intros e s'. apply cas_advances. Qed.

(** ** What an answer tells *)
Definition tells (r : R) (res : (ingest_exn + R * bool) * S) : Prop :=
  let row := ls_rows res.2 !! ls_key r in
  match res.1 with
  | inr (q, created) =>
      q = r /\ row = Some (ls_stored r) \/
      created = false /\ row = Some q /\ ls_observed q = ls_observed r /\ ls_same_payload r q = true
  | inl (Conflict code) =>
      exists q, row = Some q /\
        (code = ls_stale_code /\ (ls_observed r < ls_observed q)%Z \/
         code = ls_conflict_code /\ ls_observed r = ls_observed q /\ ls_same_payload r q = false)
  | inl _ => True
  end.

Lemma loop_tells n i other r s : tells r (cas_loop n i other r s).
Proof.
  revert i s. induction n as [|n IH]; intros i s; [done|].
  destruct (loop_round n i other r s) as [e s' He _|q|q|q|s' _ Hs|]; [..|apply IH]; unfold tells; cbn.
  - by destruct e.
  - eauto 6.
  - eauto 7.
  - eauto 7.
  - left. by rewrite Hs, lookup_insert_eq.
Qed.

(** A round in which nobody writes the row between read and write decides. *)
Lemma loop_contended n i other r s :
  (cas_loop n i other r s).1 = inl (StorageError ls_contention_code) ->
  forall j, i <= j < i + n -> exists s,
    ls_observed <$> (ls_rows (other (2 * j + 1) s) !! ls_key r) <> ls_observed <$> (ls_rows s !! ls_key r).
Proof.
  revert i s. induction n as [|n IH]; intros i s; [lia|].
  destruct (loop_round n i other r s) as [e s' He _|q|q|q|s' _ _|Ho Hne]; cbn [fst]; try done.
  - intros [= ->]. cbn in He. by prop_hyps.
  - intros Hc j Hj. destruct (decide (j = i)) as [->|]; [|apply (IH (i + 1) _ Hc j); lia].
    exists (other (2 * i) s). intros E. by rewrite E in Hne.
Qed.

(** ** Without interference *)
Definition alone : nat -> S -> S := fun _ s => s.

Definition offer (s : S) (r : R) : S := (cas_loop MAX_CAS_ATTEMPTS 0 alone r s).2.

(** The row that wins, by definition. *)
Definition newest (o : option R) (r : R) : option R :=
  match o with
  | Some q => if (ls_observed q <? ls_observed r)%Z then Some (ls_stored r) else Some q
  | None => Some (ls_stored r)
  end.

Lemma offer_result r s :
  (exists e, cas_loop MAX_CAS_ATTEMPTS 0 alone r s = (inl e, s) /\ own_exn e = true) \/
  ls_rows (offer s r) = <[ls_key r := default (ls_stored r) (newest (ls_rows s !! ls_key r) r)]> (ls_rows s).
Proof.
  unfold offer, MAX_CAS_ATTEMPTS.
  destruct (loop_round 7 0 alone r s) as [e s' He [-> | ->]|q Hq Hl|q Hq Hl|q Hq Hl|s' Ho Hs|Ho Hne]; cbn [snd].
  - left. eauto.
  - left. eauto.
  - right. unfold alone in *. unfold newest. rewrite Hq, (proj2 (Z.ltb_ge _ _)) by lia. cbn.
    by rewrite insert_id.
  - right. unfold alone in *. unfold newest. rewrite Hq, (proj2 (Z.ltb_ge _ _)) by lia. cbn.
    by rewrite insert_id.
  - right. unfold alone in *. unfold newest. rewrite Hq, (proj2 (Z.ltb_ge _ _)) by lia. cbn.
    by rewrite insert_id.
  - right. rewrite Hs. unfold alone, newest. f_equal. unfold alone in Ho.
    destruct (ls_rows s !! ls_key r) as [q|]; [|done]. by rewrite (proj2 (Z.ltb_lt _ _)) by by apply Ho.
  - done.
Qed.

Lemma alone_quiet r s o :
  ls_get (ls_key r) s = inr o -> (forall x s', ls_compare_and_swap r (ls_observed <$> o) s <> (inl x, s')) ->
  forall e, (cas_loop MAX_CAS_ATTEMPTS 0 alone r s).1 = inl e -> own_exn e = false.
Proof.
  intros Hg Hc e. cbn [MAX_CAS_ATTEMPTS cas_loop]. unfold alone at 1 2 3. rewrite Hg.
  assert (Hswap : (match ls_compare_and_swap r (ls_observed <$> o) s with
     | (inl e, s) => (inl e, s)
     | (inr true, s) => (inr (r, is_none o), s)
     | (inr false, s) => cas_loop 7 (0 + 1) alone r s
     end).1 = inl e -> own_exn e = false).
  { destruct (ls_compare_and_swap _ _ s) as [[x|[]] s'] eqn:Ec; [by destruct (Hc x s')|done|].
    apply ls_cas_lost in Ec as [_ Hne]. apply ls_get_spec in Hg as ->. done. }
  destruct o as [q|]; [|exact Hswap].
  destruct (_ <? _)%Z; [by intros [= <-]|]. destruct (_ =? _)%Z; [|exact Hswap].
  destruct (ls_same_payload _ _); [done|by intros [= <-]].
Qed.

(** No call of the sequence raises an exception of the repository. *)
Fixpoint quiet (s : S) (l : list R) : Prop :=
  match l with
  | [] => True
  | r :: l => (forall e, (cas_loop MAX_CAS_ATTEMPTS 0 alone r s).1 = inl e -> own_exn e = false) /\
              quiet (offer s r) l
  end.

Definition reports (k : string) (l : list R) : list R := filter (fun r => ls_key r = k) l.

Lemma offers_winner l s k : quiet s l ->
  ls_rows (foldl offer s l) !! k = foldl newest (ls_rows s !! k) (reports k l).
Proof.
  revert s. induction l as [|r l IH]; intros s; [done|]. intros [Hr Hq]. cbn [foldl].
  rewrite (IH _ Hq). unfold reports. cbn [filter list_filter].
  destruct (offer_result r s) as [(e & He & Hown)|Hrows].
  { rewrite He in Hr. specialize (Hr e eq_refl). congruence. }
  rewrite Hrows. destruct (decide (ls_key r = k)) as [<-|Hk]; cbn [foldl].
  - rewrite lookup_insert_eq. f_equal. unfold newest.
    destruct (ls_rows s !! ls_key r); [|done]. by destruct (_ <? _)%Z.
  - by rewrite lookup_insert_ne by done.
Qed.

(** ** The order of the reports does not matter *)
Lemma newest_comm o a b : ls_observed a <> ls_observed b ->
  newest (newest o a) b = newest (newest o b) a.
Proof.
  intros Hab. unfold newest. destruct o as [q|].
  - destruct (Z.ltb_spec (ls_observed q) (ls_observed a)), (Z.ltb_spec (ls_observed q) (ls_observed b));
      rewrite ?ls_stored_observed;
      repeat match goal with |- context [(?x <? ?y)%Z] => destruct (Z.ltb_spec x y) end; (done || lia).
  - rewrite !ls_stored_observed.
    destruct (Z.ltb_spec (ls_observed a) (ls_observed b)), (Z.ltb_spec (ls_observed b) (ls_observed a)); (done || lia).
Qed.

Lemma foldl_newest_perm l l' : l ≡ₚ l' -> NoDup (ls_observed <$> l) ->
  forall o, foldl newest o l = foldl newest o l'.
Proof.
  induction 1 as [|r l l' Hp IH|a b l|l1 l2 l3 H12 IH12 H23 IH23]; intros Hd o; cbn [foldl]; [done|..].
  - apply NoDup_cons in Hd as [_ Hd]. by apply IH.
  - f_equal. apply newest_comm. intros E. cbn in Hd. rewrite E in Hd.
    apply NoDup_cons in Hd as [Hn _]. apply Hn. by left.
  - rewrite IH12 by done. apply IH23. by rewrite <- H12.
Qed.

Lemma offers_order_free s l l' k :
  quiet s l -> quiet s l' -> l ≡ₚ l' -> NoDup (ls_observed <$> reports k l) ->
  ls_rows (foldl offer s l) !! k = ls_rows (foldl offer s l') !! k.
Proof.
  intros Hq Hq' Hp Hd. rewrite !offers_winner by done. apply foldl_newest_perm; [|done].
  unfold reports. by rewrite Hp.
Qed.
End Facts.
