(* ===== verification/Observations.v ===== *)
(** * Observations

    [src/backend/ic_env_guard/observations/models.py] and [service.py], and
    the table [observations] behind
    [src/backend/ic_env_guard/storage/observations.py]: the latest value of
    every series an Agent is told.  The text form of times is not modelled; a
    JSON column holds the value its text denotes. *)

From stdpp Require Import base tactics list gmap strings sorting pretty.
From Stdlib Require Import ZArith Lia Ascii SpecFloat.
From S2P Require Import Prelude Text Digest Models CompactJson LatestValue.

(** ** Numbers

    Python's [int | float].  A comparison of the two is exact. *)
Inductive number := PyInt (n : Z) | PyFloat (f : spec_float).

Definition float_of_int (n : Z) : spec_float := binary_normalize 53 1024 n 0 false.

(** [math.isfinite] *)
Definition finite (f : spec_float) : bool :=
  match f with S754_zero _ | S754_finite _ _ _ => true | _ => false end.

Definition int_float_eq (n : Z) (f : spec_float) : bool :=
  match f with
  | S754_zero _ => (n =? 0)%Z
  | S754_finite s m e =>
      let m := if s then Z.neg m else Z.pos m in
      if (0 <=? e)%Z then (n =? m * 2 ^ e)%Z else (n * 2 ^ (- e) =? m)%Z
  | _ => false
  end.

Definition number_eq (x y : number) : bool :=
  match x, y with
  | PyInt a, PyInt b => (a =? b)%Z
  | PyInt a, PyFloat f | PyFloat f, PyInt a => int_float_eq a f
  | PyFloat f, PyFloat g => SFeqb f g
  end.

Definition opt_number_eq (x y : option number) : bool :=
  match x, y with Some a, Some b => number_eq a b | None, None => true | _, _ => false end.

(** What a REAL column holds; Python refuses to bind an integer of more than
    64 bits. *)
Definition bindable (v : option number) : bool :=
  match v with Some (PyInt n) => (- 2 ^ 63 <=? n)%Z && (n <? 2 ^ 63)%Z | _ => true end.

Definition real (v : number) : number :=
  match v with PyInt n => PyFloat (float_of_int n) | v => v end.

(** ** Data *)
Inductive ObservationKind := GAUGE | COUNTER | STATUS.
Inductive ObservationStatus := OK | WARNING | CRITICAL | UNKNOWN.

#[global] Instance ObservationKind_eq : EqDecision ObservationKind.
Proof. solve_decision. Defined.
#[global] Instance ObservationStatus_eq : EqDecision ObservationStatus.
Proof. solve_decision. Defined.

#[local] Set Primitive Projections.

Record ObservationInput := mkObservationInput {
  in_namespace : string;
  in_name : string;
  in_kind : ObservationKind;
  in_value : option number;
  in_unit : option string;
  in_status : ObservationStatus;
  in_message : option string;
  in_labels : gmap string string;
  in_details : list (string * json);
  in_observed_at : time;
  in_ttl_seconds : Z
}.

Record Observation := mkObservation {
  obs_identity_key : string;
  obs_namespace : string;
  obs_name : string;
  obs_kind : ObservationKind;
  obs_value : option number;
  obs_unit : option string;
  obs_status : ObservationStatus;
  obs_message : option string;
  obs_labels : gmap string string;
  obs_details : list (string * json);
  obs_observed_at : time;
  obs_ttl_seconds : Z;
  obs_received_at : time;
  obs_expires_at : time;
  obs_producer_id : string;
  obs_updated_at : time
}.

(** A row of the table: the record without the TTL, which is not stored. *)
Record ObservationRow := mkObservationRow {
  row_identity_key : string;
  row_namespace : string;
  row_name : string;
  row_kind : ObservationKind;
  row_numeric_value : option number;
  row_unit : option string;
  row_status : ObservationStatus;
  row_message : option string;
  row_labels_json : gmap string string;
  row_details_json : list (string * json);
  row_observed_at : time;
  row_received_at : time;
  row_expires_at : time;
  row_producer_id : string;
  row_updated_at : time
}.

Record ObservationQuery := mkObservationQuery {
  oq_namespace : option string;
  oq_name : option string;
  oq_status : option ObservationStatus;
  oq_include_stale : bool;
  oq_limit : Z;
  oq_cursor : option string
}.

#[local] Unset Primitive Projections.

(** ** Validation *)
(** [^[a-z][a-z0-9_]{0,n}$] *)
Definition snake (n : nat) (s : string) : bool :=
  match s with
  | EmptyString => false
  | String c rest =>
      is_lower c && (String.length rest <=? n) &&
      all_chars (fun c => is_lower c || is_digit c || is_char "_" c) rest
  end.

Definition is_namespace : string -> bool := snake 62.
Definition is_name : string -> bool := snake 126.
Definition reserved_labels : list string := ["name"; "namespace"; "status"].

Definition MAX_DETAILS_BYTES : Z := 16 * 1024.
Definition MAX_DETAILS_DEPTH : Z := 4.

Definition utf8_size (s : string) : Z := Z.of_nat (String.length s).

(** [_validate_json] *)
Fixpoint validate_json (value : json) (depth : Z) : bool :=
  match value with
  | JNull | JBool _ | JInt _ => true
  | JString s => (utf8_size s <=? 4096)%Z
  | JFloat f => finite f
  | JList l => (depth <=? MAX_DETAILS_DEPTH)%Z && forallb (fun item => validate_json item (depth + 1)) l
  | JDict d =>
      (depth <=? MAX_DETAILS_DEPTH)%Z &&
      forallb (fun kv => (utf8_size kv.1 <=? 64)%Z && validate_json kv.2 (depth + 1)) d
  end.

Definition validate_label (kv : string * string) : bool :=
  negb (bool_decide (kv.1 ∈ reserved_labels)) && is_namespace kv.1 && (utf8_size kv.2 <=? 128)%Z.

Section Validation.
Context `{FloatText}.

Definition validate_labels (labels : gmap string string) : bool :=
  (size labels <=? 16) && forallb validate_label (map_to_list labels).

Definition validate_details (details : list (string * json)) : bool :=
  validate_json (JDict details) 1 && (utf8_size (compact_json (JDict details) false) <=? MAX_DETAILS_BYTES)%Z.

Definition needs_value (k : ObservationKind) : bool := match k with GAUGE | COUNTER => true | STATUS => false end.

(** [validate_value]; [math.isfinite] converts an integer first and raises
    when it is too large for a float. *)
Definition validate_value (kind : ObservationKind) (value : option number) : ingest_exn + unit :=
  match value with
  | None => if needs_value kind then inl (Invalid "value") else inr tt
  | Some (PyInt n) => if finite (float_of_int n) then inr tt else inl Overflow
  | Some (PyFloat f) => if finite f then inr tt else inl (Invalid "value")
  end.

(** [ObservationInput.model_validate]: the field validators, then
    [validate_value]. *)
Definition fields_valid (p : ObservationInput) : bool :=
  is_namespace (in_namespace p) && is_name (in_name p) &&
  from_option (fun u => characters u <=? 32) true (in_unit p) &&
  from_option (fun m => (utf8_size m <=? 2048)%Z) true (in_message p) &&
  validate_labels (in_labels p) && validate_details (in_details p) &&
  (1 <=? in_ttl_seconds p)%Z && (in_ttl_seconds p <=? 604800)%Z.

Definition model_validate (p : ObservationInput) : ingest_exn + ObservationInput :=
  if fields_valid p then
    match validate_value (in_kind p) (in_value p) with inl e => inl e | inr _ => inr p end
  else inl (Invalid "fields").

Definition labels_json (labels : gmap string string) : json := JDict (prod_map id JString <$> map_to_list labels).

Definition identity_key (p : ObservationInput) : string :=
  sha256_hex (bytes_of (compact_json
    (JList [JString (in_namespace p); JString (in_name p); labels_json (in_labels p)]) true)).

(** [Observation.normalized_payload], compared *)
Definition same_payload (a b : Observation) : bool :=
  bool_decide (obs_namespace a = obs_namespace b) && bool_decide (obs_name a = obs_name b) &&
  bool_decide (obs_kind a = obs_kind b) && opt_number_eq (obs_value a) (obs_value b) &&
  bool_decide (obs_unit a = obs_unit b) && bool_decide (obs_status a = obs_status b) &&
  bool_decide (obs_message a = obs_message b) &&
  bool_decide (compact_json (labels_json (obs_labels a)) true = compact_json (labels_json (obs_labels b)) true) &&
  bool_decide (compact_json (JDict (obs_details a)) true = compact_json (JDict (obs_details b)) true) &&
  (obs_observed_at a =? obs_observed_at b)%Z && (obs_ttl_seconds a =? obs_ttl_seconds b)%Z.

Definition is_stale (now : time) (r : Observation) : bool := (obs_expires_at r <=? now)%Z.

(** ** Rows *)
(** [_values], of [replace(record, producer_id="local")] *)
Definition values (r : Observation) : ObservationRow :=
  mkObservationRow (obs_identity_key r) (obs_namespace r) (obs_name r) (obs_kind r) (real <$> obs_value r)
    (obs_unit r) (obs_status r) (obs_message r) (obs_labels r) (obs_details r) (obs_observed_at r)
    (obs_received_at r) (obs_expires_at r) "local" (obs_updated_at r).

Definition row_payload (row : ObservationRow) (ttl : Z) : ObservationInput :=
  mkObservationInput (row_namespace row) (row_name row) (row_kind row) (row_numeric_value row) (row_unit row)
    (row_status row) (row_message row) (row_labels_json row) (row_details_json row) (row_observed_at row) ttl.

(** [Observation.reconstitute], the stored TTL being whole seconds *)
Definition reconstitute (row : ObservationRow) : ingest_exn + Observation :=
  let span := (row_expires_at row - row_observed_at row)%Z in
  if negb (span mod 1000000 =? 0)%Z then inl (Invalid "stored observation TTL must be whole seconds")
  else
    let ttl := (span / 1000000)%Z in
    match model_validate (row_payload row ttl) with
    | inl e => inl e
    | inr payload =>
        if negb (bool_decide (row_producer_id row = "local")) then inl (Invalid "stored observation producer must be local")
        else if negb (bool_decide (row_identity_key row = identity_key payload))
        then inl (Invalid "stored observation identity mismatch")
        else inr (mkObservation (row_identity_key row) (in_namespace payload) (in_name payload) (in_kind payload)
               (in_value payload) (in_unit payload) (in_status payload) (in_message payload) (in_labels payload)
               (in_details payload) (in_observed_at payload) (in_ttl_seconds payload) (row_received_at row)
               (row_expires_at row) (row_producer_id row) (row_updated_at row))
    end.

(** [except (SQLAlchemyError, TypeError, ValueError)] *)
Definition storage_exn {A} (r : ingest_exn + A) : ingest_exn + A :=
  match r with
  | inl (Invalid _) => inl (StorageError "observation_storage_unavailable")
  | r => r
  end.

Definition record (row : ObservationRow) : ingest_exn + Observation := storage_exn (reconstitute row).

Fixpoint records (rows : list ObservationRow) : ingest_exn + list Observation :=
  match rows with
  | [] => inr []
  | row :: rest =>
      match record row with
      | inl e => inl e
      | inr r => match records rest with inl e => inl e | inr rs => inr (r :: rs) end
      end
  end.
End Validation.

(** ** The repository *)
Abbreviation ObservationTable := (gmap string ObservationRow).

Definition row_le (a b : ObservationRow) : Prop := String.leb (row_identity_key a) (row_identity_key b) = true.

#[global] Instance row_le_dec a b : Decision (row_le a b).
Proof. unfold row_le. apply _. Defined.

(** [ORDER BY expires_at, identity_key] *)
Definition expiry_le (a b : ObservationRow) : Prop :=
  (row_expires_at a < row_expires_at b)%Z \/ (row_expires_at a = row_expires_at b /\ row_le a b).

#[global] Instance expiry_le_dec a b : Decision (expiry_le a b).
Proof. unfold expiry_le. apply _. Defined.

Definition rows_where (cond : ObservationRow -> bool) (t : ObservationTable) : list ObservationRow :=
  filter (fun r => cond r = true) (map_to_list t).*2.

Section Repository.
Context `{FloatText} (max_series : Z).

Definition observation_get (identity_key : string) (t : ObservationTable) : ingest_exn + option Observation :=
  match t !! identity_key with
  | None => inr None
  | Some row => match record row with inl e => inl e | inr r => inr (Some r) end
  end.

Definition observation_compare_and_swap (r : Observation) (expected : option time) (t : ObservationTable)
    : (ingest_exn + bool) * ObservationTable :=
  let row := values r in
  if negb (bindable (obs_value r)) then (inl Overflow, t)
  else match expected with
  | None =>
      match t !! obs_identity_key r with
      | None =>
          if (Z.of_nat (size t) <? max_series)%Z then (inr true, <[obs_identity_key r := row]> t)
          else (inl SeriesLimit, t)
      | Some _ => (inr false, t)
      end
  | Some at_ =>
      match t !! obs_identity_key r with
      | Some q => if (row_observed_at q =? at_)%Z then (inr true, <[obs_identity_key r := row]> t) else (inr false, t)
      | None => (inr false, t)
      end
  end.

Definition observation_list_all (t : ObservationTable) : ingest_exn + list Observation :=
  records (merge_sort row_le (map_to_list t).*2).

(** [SUM(CASE WHEN cond THEN 1 ELSE 0 END)] *)
Definition count_rows (cond : ObservationRow -> bool) (t : ObservationTable) : Z := Z.of_nat (length (rows_where cond t)).

Definition fresh_with (status : ObservationStatus) (now : time) (row : ObservationRow) : bool :=
  (now <? row_expires_at row)%Z && bool_decide (row_status row = status).

Definition observation_counts (now : time) (t : ObservationTable) : Z * Z * Z * Z :=
  (Z.of_nat (size t), count_rows (fresh_with WARNING now) t, count_rows (fresh_with CRITICAL now) t,
   count_rows (fun row => (row_expires_at row <=? now)%Z) t).

Definition matches {A} `{EqDecision A} (wanted : option A) (v : A) : bool :=
  match wanted with None => true | Some w => bool_decide (v = w) end.

Definition selected (query : ObservationQuery) (now : time) (row : ObservationRow) : bool :=
  matches (oq_namespace query) (row_namespace row) && matches (oq_name query) (row_name row) &&
  matches (oq_status query) (row_status row) &&
  (oq_include_stale query || (now <? row_expires_at row)%Z) &&
  match oq_cursor query with None => true | Some c => String.ltb c (row_identity_key row) end.

Definition observation_list (query : ObservationQuery) (now : time) (t : ObservationTable)
    : ingest_exn + (list Observation * option string) :=
  let limit := Z.to_nat (oq_limit query) in
  let rows := take (limit + 1) (merge_sort row_le (rows_where (selected query now) t)) in
  match records (take limit rows) with
  | inl e => inl e
  | inr items => inr (items, if limit <? length rows then obs_identity_key <$> last items else None)
  end.

(** The keys of the rows to delete, oldest first. *)
Definition expired_keys (cutoff : time) (limit : Z) (t : ObservationTable) : list string :=
  row_identity_key <$> take (Z.to_nat limit) (merge_sort expiry_le (rows_where (fun r => (row_expires_at r <=? cutoff)%Z) t)).

Definition observation_delete_expired (cutoff : time) (limit : Z) (t : ObservationTable) : nat * ObservationTable :=
  let keys := expired_keys cutoff limit t in
  (length keys, filter (fun kr => kr.1 ∉ keys) t).

(** ** The service *)
#[global] Instance observation_store : LatestStore ObservationTable Observation := {
  ls_key := obs_identity_key;
  ls_observed := obs_observed_at;
  ls_same_payload := same_payload;
  ls_stale_code := "stale_observation";
  ls_conflict_code := "observation_timestamp_conflict";
  ls_contention_code := "observation_storage_contention";
  ls_get := observation_get;
  ls_compare_and_swap := observation_compare_and_swap
}.

Definition new_record (p : ObservationInput) (now : time) : Observation :=
  mkObservation (identity_key p) (in_namespace p) (in_name p) (in_kind p) (in_value p) (in_unit p) (in_status p)
    (in_message p) (in_labels p) (in_details p) (in_observed_at p) (in_ttl_seconds p) now
    (in_observed_at p + seconds (in_ttl_seconds p))%Z "local" now.

Definition observation_upsert (payload : ObservationInput) (now : time)
    (other : nat -> ObservationTable -> ObservationTable) (t : ObservationTable)
    : (ingest_exn + Observation * bool) * ObservationTable :=
  if (now + seconds 60 <? in_observed_at payload)%Z then (inl (Invalid "observation_in_future"), t)
  else
    let candidate := new_record payload now in
    if (obs_expires_at candidate <=? now)%Z then (inl (Expired "observation_expired"), t)
    else cas_loop MAX_CAS_ATTEMPTS 0 other candidate t.

Definition observation_read (key : string) (now : time) (include_stale : bool) (t : ObservationTable)
    : ingest_exn + option Observation :=
  match observation_get key t with
  | inr (Some r) => if negb include_stale && is_stale now r then inr None else inr (Some r)
  | r => r
  end.

Definition delete_expired (cutoff : time) (limit : Z) (t : ObservationTable) : (ingest_exn + nat) * ObservationTable :=
  if (limit <? 1)%Z then (inl (Invalid "limit must be positive"), t)
  else let '(n, t) := observation_delete_expired cutoff limit t in (inr n, t).
End Repository.

(** The inner loop of [expiration_loop] in
    [src/backend/ic_env_guard/observations/cleanup.py]; [None] when the fuel
    runs out. *)
Fixpoint expiration_round (fuel : nat) (cutoff : time) (t : ObservationTable) : option ObservationTable :=
  match fuel with
  | 0 => None
  | S fuel =>
      match delete_expired cutoff 500 t with
      | (inl _, t) => Some t
      | (inr n, t) => if (n =? 500) then expiration_round fuel cutoff t else Some t
      end
  end.
