(* ===== verification/ObservationClaims.v ===== *)
(** * The observation table keeps its contract

    What is written reads back, the SQLite repository is an instance of
    [LatestContract], and the invariant of the table under every interleaving
    of reports and expirations. *)

From stdpp Require Import base tactics list gmap strings sorting.
From Stdlib Require Import ZArith Lia Ascii SpecFloat.
From S2P Require Import Prelude Text Digest Models CompactJson LatestValue Observations.

Section Facts.
Context `{FloatText}.

(** ** Reading back *)
(** The record of a row, whether or not the row passes its checks. *)
Definition of_row (row : ObservationRow) : Observation :=
  mkObservation (row_identity_key row) (row_namespace row) (row_name row) (row_kind row) (row_numeric_value row)
    (row_unit row) (row_status row) (row_message row) (row_labels_json row) (row_details_json row)
    (row_observed_at row) ((row_expires_at row - row_observed_at row) / 1000000)%Z (row_received_at row)
    (row_expires_at row) (row_producer_id row) (row_updated_at row).

Definition to_row (r : Observation) : ObservationRow :=
  mkObservationRow (obs_identity_key r) (obs_namespace r) (obs_name r) (obs_kind r) (obs_value r)
    (obs_unit r) (obs_status r) (obs_message r) (obs_labels r) (obs_details r) (obs_observed_at r)
    (obs_received_at r) (obs_expires_at r) (obs_producer_id r) (obs_updated_at r).

#[global] Instance of_row_inj : Inj (=) (=) of_row.
Proof.
  intros a b E.
  change (to_row (of_row a) = to_row (of_row b)). by rewrite E.
Qed.

Lemma model_validate_inr p q :
  model_validate p = inr q <-> q = p /\ fields_valid p = true /\ validate_value (in_kind p) (in_value p) = inr tt.
Proof.
  unfold model_validate. destruct (fields_valid p); [|naive_solver].
  destruct (validate_value _ _) as [|[]]; naive_solver.
Qed.

Lemma validate_value_exn k v e : validate_value k v = inl e -> e = Invalid "value" \/ e = Overflow.
Proof. unfold validate_value. repeat case_match; naive_solver. Qed.

Lemma record_inr row r : record row = inr r -> r = of_row row.
Proof.
  unfold record, storage_exn, reconstitute.
  destruct (negb _); [by intros [=]|].
  destruct (model_validate _) as [e|p] eqn:Em; [destruct e; by intros [=]|].
  apply model_validate_inr in Em as (-> & _ & _).
  destruct (negb _); [by intros [=]|]. destruct (negb _); [by intros [=]|]. by intros [= <-].
Qed.

Lemma record_own row e : record row = inl e -> e = StorageError "observation_storage_unavailable" \/ e = Overflow.
Proof.
  unfold record, storage_exn, reconstitute.
  destruct (negb _); [intros [= <-]; by left|].
  destruct (model_validate _) as [e'|p] eqn:Em.
  - unfold model_validate in Em. destruct (fields_valid _); [|injection Em as <-; intros [= <-]; by left].
    destruct (validate_value _ _) as [e2|] eqn:Ev; [|done]. injection Em as <-.
    apply validate_value_exn in Ev as [-> | ->]; intros [= <-]; auto.
  - destruct (negb _); [intros [= <-]; by left|]. destruct (negb _); [intros [= <-]; by left|]. done.
Qed.

(** The value that passed validation passes it again as a float. *)
Lemma real_valid k v : validate_value k v = inr tt -> validate_value k (real <$> v) = inr tt.
Proof. destruct v as [[n|f]|]; cbn; [|done..]. by destruct (finite (float_of_int n)). Qed.

Lemma record_values p now :
  model_validate p = inr p -> record (values (new_record p now)) = inr (of_row (values (new_record p now))).
Proof.
  intros Hv. apply model_validate_inr in Hv as (_ & Hf & Hval).
  set (row := values (new_record p now)).
  assert (Hspan : (row_expires_at row - row_observed_at row = in_ttl_seconds p * 1000000)%Z)
    by (unfold row, seconds; cbn; unfold seconds; lia).
  unfold record, reconstitute. rewrite Hspan, Z.mod_mul, Z.div_mul by done. cbn [Z.eqb negb].
  assert (Hm : model_validate (row_payload row (in_ttl_seconds p)) = inr (row_payload row (in_ttl_seconds p))).
  { apply model_validate_inr. split; [done|]. split; [exact Hf|]. by apply real_valid. }
  rewrite Hm. rewrite bool_decide_true by done. cbn [negb].
  rewrite bool_decide_true by done. cbn [negb storage_exn].
  unfold of_row. rewrite Hspan, Z.div_mul by done. reflexivity.
Qed.

(** ** The contract *)
Section Contract.
Context (max_series : Z).

#[local] Existing Instance observation_store.

Lemma get_inr k t o : observation_get k t = inr o -> o = of_row <$> t !! k.
Proof.
  unfold observation_get. destruct (t !! k) as [row|]; [|by intros [= <-]].
  destruct (record row) as [|r] eqn:Er; [done|]. apply record_inr in Er as ->. by intros [= <-].
Qed.

Lemma get_inl k t e : observation_get k t = inl e -> e = StorageError "observation_storage_unavailable" \/ e = Overflow.
Proof.
  unfold observation_get. destruct (t !! k) as [row|]; [|done].
  destruct (record row) as [e0|] eqn:Er; [|done]. intros [= <-]. by apply record_own in Er.
Qed.

Lemma rows_observed k (t : ObservationTable) :
  obs_observed_at <$> ((of_row <$> t) !! k) = row_observed_at <$> (t !! k).
Proof. rewrite lookup_fmap. by destruct (t !! k). Qed.

Lemma cas_cases r e t :
  let '(res, t') := observation_compare_and_swap max_series r e t in
  match res with
  | inl x => t' = t /\ (x = Overflow \/ x = SeriesLimit)
  | inr false => t' = t /\ row_observed_at <$> (t !! obs_identity_key r) <> e
  | inr true => row_observed_at <$> (t !! obs_identity_key r) = e /\ t' = <[obs_identity_key r := values r]> t /\
      (e = None -> (Z.of_nat (size t) < max_series)%Z)
  end.
Proof.
  unfold observation_compare_and_swap. destruct (negb _); [auto|].
  destruct e as [at_|], (t !! obs_identity_key r) as [q|] eqn:Et; try done.
  - destruct (row_observed_at q =? at_)%Z eqn:Eq; prop_hyps; cbn [fmap option_fmap option_map].
    + by subst at_.
    + split; [done|]. by intros [=].
  - destruct (Z.of_nat (size t) <? max_series)%Z eqn:El; prop_hyps; auto.
Qed.

(** With room for a new series, a write with a value that fits never raises. *)
Lemma cas_no_error r e t : bindable (obs_value r) = true ->
  (t !! obs_identity_key r = None -> (Z.of_nat (size t) < max_series)%Z) ->
  forall x t', observation_compare_and_swap max_series r e t <> (inl x, t').
Proof.
  intros Hb Hroom x t'. unfold observation_compare_and_swap. rewrite Hb. cbn [negb].
  destruct e, (t !! obs_identity_key r) as [q|]; try done.
  - by destruct (_ =? _)%Z.
  - by rewrite (proj2 (Z.ltb_lt _ _)) by by apply Hroom.
Qed.

#[global] Instance observation_contract : @LatestContract ObservationTable Observation (observation_store max_series).
Proof.
  refine {| ls_rows := fun t => of_row <$> t; ls_stored := fun r => of_row (values r) |}.
  - done.
  - done.
  - intros k t o. cbn. rewrite lookup_fmap. apply get_inr.
  - intros k t e He. apply get_inl in He as [-> | ->]; reflexivity.
  - intros r e t x t'. cbn. pose proof (cas_cases r e t) as Hc. intros E. rewrite E in Hc.
    destruct Hc as [-> [-> | ->]]; split; reflexivity.
  - intros r e t t' E. pose proof (cas_cases r e t) as Hc. cbn in E. rewrite E in Hc.
    destruct Hc as [-> Hne]. split; [done|]. by rewrite <- rows_observed in Hne.
  - intros r e t t' E. pose proof (cas_cases r e t) as Hc. cbn in E. rewrite E in Hc.
    destruct Hc as (He & -> & _). rewrite <- rows_observed in He. split; [done|]. apply fmap_insert.
Defined.

(** ** Steps of the table

    A guarded write of a validated report, or a batch of the clean-up. *)
Inductive obs_step : relation ObservationTable :=
| ObsWrite p now e t : model_validate p = inr p -> (forall at_, e = Some at_ -> (at_ < in_observed_at p)%Z) ->
    obs_step t (observation_compare_and_swap max_series (new_record p now) e t).2
| ObsExpire cutoff limit t : obs_step t (delete_expired cutoff limit t).2.

Lemma upsert_steps p now other t :
  model_validate p = inr p -> (forall i t, rtc obs_step t (other i t)) ->
  rtc obs_step t (observation_upsert max_series p now other t).2.
Proof.
  intros Hp Ho. unfold observation_upsert. destruct (_ <? _)%Z; [reflexivity|].
  destruct (_ <=? _)%Z; [reflexivity|]. apply (loop_respects (rtc obs_step)); [|done].
  intros e t' He. apply rtc_once. by apply ObsWrite.
Qed.

(** ** The invariant *)
Record table_ok (t : ObservationTable) : Prop := {
  table_keys k row : t !! k = Some row -> row_identity_key row = k;
  table_decodes k row : t !! k = Some row -> record row = inr (of_row row);
  table_bounded : (Z.of_nat (size t) <= max_series)%Z
}.

Lemma table_insert t p now :
  model_validate p = inr p -> table_ok t ->
  (t !! identity_key p = None -> (Z.of_nat (size t) < max_series)%Z) ->
  table_ok (<[identity_key p := values (new_record p now)]> t).
Proof.
  intros Hp [Hk Hd Hb] Hroom. split.
  - intros k row. rewrite lookup_insert_Some. intros [[<- <-]|[_ Hr]]; [done|by eapply Hk].
  - intros k row. rewrite lookup_insert_Some. intros [[<- <-]|[_ Hr]]; [by apply record_values|by eapply Hd].
  - destruct (t !! identity_key p) eqn:Et.
    + rewrite map_size_insert_Some by done. lia.
    + rewrite map_size_insert_None by done. specialize (Hroom eq_refl). lia.
Qed.

Lemma table_filter t P `{forall kr, Decision (P kr)} : table_ok t -> table_ok (filter P t).
Proof.
  intros [Hk Hd Hb]. split.
  - intros k row [Hr _]%map_lookup_filter_Some. by apply Hk.
  - intros k row [Hr _]%map_lookup_filter_Some. by eapply Hd.
  - pose proof (map_size_filter P t). lia.
Qed.

Lemma step_table_ok t t' : obs_step t t' -> table_ok t -> table_ok t'.
Proof.
  intros [p now e u Hp He|cutoff limit u] Hok.
  - pose proof (cas_cases (new_record p now) e u) as Hc.
    destruct (observation_compare_and_swap _ _ _ u) as [[x|[]] u']; cbn [snd].
    + by destruct Hc as [-> _].
    + destruct Hc as (E & -> & Hroom). apply table_insert; [done..|]. intros Hn.
      apply Hroom. rewrite <- E. change (obs_identity_key (new_record p now)) with (identity_key p). by rewrite Hn.
    + by destruct Hc as [-> _].
  - unfold delete_expired, observation_delete_expired. destruct (_ <? _)%Z; [done|]. by apply table_filter.
Qed.

Lemma steps_table_ok t t' : rtc obs_step t t' -> table_ok t -> table_ok t'.
Proof. induction 1; eauto using step_table_ok. Qed.

Lemma empty_table_ok : (0 <= max_series)%Z -> table_ok ∅.
Proof. intros. split; [by intros ? ? Hl; rewrite lookup_empty in Hl..|by rewrite map_size_empty]. Qed.

Lemma get_ok t k : table_ok t -> observation_get k t = inr (of_row <$> t !! k).
Proof.
  intros Hok. unfold observation_get. destruct (t !! k) as [row|] eqn:Et; [|done].
  by rewrite (table_decodes _ Hok _ _ Et).
Qed.
End Contract.
End Facts.

(** * Theorems about observations *)

(** ** The table *)
(** C25: the table under every interleaving.  From the empty table on, and
    however guarded writes of validated reports and batches of the clean-up
    follow each other, there are never more than [max_series] series, and
    every stored row passes the checks of [reconstitute] under its own key:
    reading it raises nothing.  A report, with such steps of other connections
    between its own reads and writes, is again a sequence of such steps. *)
Theorem observation_table_invariant `{FloatText} (max_series : Z) (t : ObservationTable) :
  (0 <= max_series)%Z -> rtc (obs_step max_series) ∅ t ->
  (Z.of_nat (size t) <= max_series)%Z /\
  (forall k row, t !! k = Some row -> exists r, observation_get k t = inr (Some r) /\ obs_identity_key r = k) /\
  (forall p now other, model_validate p = inr p -> (forall i u, rtc (obs_step max_series) u (other i u)) ->
     rtc (obs_step max_series) ∅ (observation_upsert max_series p now other t).2).
Proof.
  intros Hm Hr. assert (Hok : table_ok max_series t) by (eapply steps_table_ok; eauto using empty_table_ok).
  split; [apply Hok|split].
  - intros k row Hk. rewrite (get_ok max_series) by done. rewrite Hk. cbn. eexists. split; [done|].
    by apply (table_keys _ _ Hok).
  - intros p now other Hp Ho. etrans; [done|]. by apply upsert_steps.
Qed.

(** ** Answers *)
(** What a report is told is true.  With anything at all happening
    between its reads and writes: an accepted report is the stored row, or the
    stored row has the same time and the same payload; a stale report met a
    newer row, and a conflicting one a row of the same time with another
    payload; contention is reported only when in each of the eight rounds
    somebody changed the time of the row between the read and the write. *)
Theorem report_answers `{FloatText} (max_series : Z) (p : ObservationInput) (now : time)
    (other : nat -> ObservationTable -> ObservationTable) (t : ObservationTable) :
  let r := new_record p now in
  let res := observation_upsert max_series p now other t in
  match res.1 with
  | inr (q, created) =>
      q = r /\ res.2 !! identity_key p = Some (values r) \/
      created = false /\ of_row <$> res.2 !! identity_key p = Some q /\ same_payload r q = true
  | inl (Conflict code) => exists row, res.2 !! identity_key p = Some row /\
      (code = "stale_observation" /\ (in_observed_at p < row_observed_at row)%Z \/
       code = "observation_timestamp_conflict" /\ in_observed_at p = row_observed_at row /\
       same_payload r (of_row row) = false)
  | inl _ => True
  end /\
  (res.1 = inl (StorageError "observation_storage_contention") ->
     forall j, j < MAX_CAS_ATTEMPTS -> exists u,
       row_observed_at <$> (other (2 * j + 1) u !! identity_key p) <> row_observed_at <$> (u !! identity_key p)).
Proof.
  intros r res. unfold res, observation_upsert. fold r.
  destruct (_ <? _)%Z; [done|]. destruct (_ <=? _)%Z; [done|]. split.
  - pose proof (@loop_tells _ _ _ (observation_contract max_series) MAX_CAS_ATTEMPTS 0 other r t) as Ht. unfold tells in Ht.
    destruct (cas_loop _ _ _ _ _) as [[e|[q c]] t']; cbn [fst snd] in *.
    + destruct e; try done. destruct Ht as (q & Hq & Hcase). cbn in Hq. rewrite lookup_fmap in Hq.
      apply fmap_Some in Hq as (row & Hrow & ->). exists row. split; [done|]. exact Hcase.
    + destruct Ht as [[-> Hq]|(-> & Hq & _ & Hs)]; [left|right]; cbn in Hq; rewrite lookup_fmap in Hq; [|done].
      split; [done|]. apply fmap_Some in Hq as (row & Hrow & E). apply (inj of_row) in E as ->. done.
  - intros Hc j Hj.
    destruct (@loop_contended _ _ _ (observation_contract max_series) MAX_CAS_ATTEMPTS 0 other r t Hc j ltac:(lia)) as [u Hu].
    exists u. cbn in Hu. by rewrite !rows_observed in Hu.
Qed.

(** ** The latest report wins *)
Abbreviation Report := (ObservationInput * time)%type.

Section LatestWins.
Context `{FloatText} (max_series : Z).

#[local] Existing Instance observation_contract.

Definition receive (t : ObservationTable) (pn : Report) : ObservationTable :=
  (observation_upsert max_series pn.1 pn.2 (fun _ u => u) t).2.

(** A report that is valid, neither expired nor from the future, and whose
    value the database can hold. *)
Definition acceptable (pn : Report) : Prop :=
  model_validate pn.1 = inr pn.1 /\ bindable (in_value pn.1) = true /\
  (in_observed_at pn.1 <= pn.2 + seconds 60)%Z /\ (pn.2 < in_observed_at pn.1 + seconds (in_ttl_seconds pn.1))%Z.

Definition candidate (pn : Report) : Observation := new_record pn.1 pn.2.

(** There is room for the series of all reports. *)
Definition room_for (t : ObservationTable) (l : list Report) : Prop :=
  (Z.of_nat (size (dom t ∪ list_to_set (identity_key ∘ fst <$> l))) <= max_series)%Z.

Lemma upsert_alone pn t : acceptable pn ->
  observation_upsert max_series pn.1 pn.2 (fun _ u => u) t =
  cas_loop (H := observation_store max_series) MAX_CAS_ATTEMPTS 0 alone (candidate pn) t.
Proof.
  intros (_ & _ & Hf & He). unfold observation_upsert.
  rewrite (proj2 (Z.ltb_ge _ _)) by lia. by rewrite (proj2 (Z.leb_gt _ _)) by (cbn; lia).
Qed.

Lemma receive_quiet t pn : acceptable pn -> table_ok max_series t ->
  (t !! identity_key pn.1 = None -> (Z.of_nat (size t) < max_series)%Z) ->
  forall e, (cas_loop (H := observation_store max_series) MAX_CAS_ATTEMPTS 0 alone (candidate pn) t).1 = inl e ->
    own_exn (H := observation_store max_series) e = false.
Proof.
  intros (Hv & Hb & _) Hok Hroom. eapply alone_quiet; [exact (get_ok max_series t _ Hok)|].
  by apply cas_no_error.
Qed.

Lemma room_head t pn l : room_for t (pn :: l) ->
  (t !! identity_key pn.1 = None -> (Z.of_nat (size t) < max_series)%Z).
Proof.
  unfold room_for. intros Hr Hn. rewrite <- size_dom.
  assert (size (dom t) < size (dom t ∪ list_to_set (identity_key ∘ fst <$> pn :: l))); [|lia].
  apply subset_size. apply not_elem_of_dom in Hn. set_solver.
Qed.

Lemma receive_dom t pn : dom (receive t pn) ⊆ dom t ∪ {[identity_key pn.1]}.
Proof.
  unfold receive, observation_upsert. destruct (_ <? _)%Z; [set_solver|]. destruct (_ <=? _)%Z; [set_solver|].
  set (within := fun t u : ObservationTable => dom u ⊆ dom t ∪ {[identity_key pn.1]}).
  assert (PreOrder within) by (unfold within; split; [intros ?; set_solver|intros ?; set_solver]).
  apply (loop_respects (H := observation_store max_series) within); unfold within.
  - intros e u _. pose proof (cas_cases max_series (new_record pn.1 pn.2) e u) as Hc. cbn.
    destruct (observation_compare_and_swap _ _ _ u) as [[x|[]] u']; cbn [snd].
    + destruct Hc as [-> _]. set_solver.
    + destruct Hc as (_ & -> & _). rewrite dom_insert. cbn. set_solver.
    + destruct Hc as [-> _]. set_solver.
  - intros j u. set_solver.
Qed.

Lemma room_tail t pn l : room_for t (pn :: l) -> room_for (receive t pn) l.
Proof.
  unfold room_for. intros Hr. etrans; [|exact Hr]. apply inj_le, subseteq_size.
  pose proof (receive_dom t pn). set_solver.
Qed.

Lemma receive_ok t pn : acceptable pn -> table_ok max_series t -> table_ok max_series (receive t pn).
Proof.
  intros (Hv & _) Hok. eapply steps_table_ok; [|exact Hok].
  apply upsert_steps; [done|]. intros. reflexivity.
Qed.

Lemma receive_all t l : table_ok max_series t -> Forall acceptable l -> room_for t l ->
  quiet (H := observation_store max_series) t (candidate <$> l) /\
  foldl receive t l = foldl (offer (H := observation_store max_series)) t (candidate <$> l) /\
  table_ok max_series (foldl receive t l).
Proof.
  revert t. induction l as [|pn l IH]; intros t Hok Hl Hr; [done|].
  apply Forall_cons in Hl as [Hpn Hl]. cbn [foldl fmap list_fmap quiet].
  assert (E : offer (H := observation_store max_series) t (candidate pn) = receive t pn)
    by (unfold receive, offer; by rewrite upsert_alone).
  rewrite E. destruct (IH (receive t pn)) as (Hq & Hf & Hok'); eauto using receive_ok, room_tail.
  split; [split; [|done]|done]. eapply receive_quiet; eauto using room_head.
Qed.

Lemma reports_candidates k l :
  reports (H := observation_store max_series) k (candidate <$> l) =
  candidate <$> filter (fun pn => identity_key pn.1 = k) l.
Proof.
  unfold reports. induction l as [|pn l IH]; [done|]. rewrite fmap_cons, !filter_cons.
  change (ls_key (candidate pn)) with (identity_key pn.1). by case_decide; rewrite IH.
Qed.
End LatestWins.


(** ** The identity of a series *)
Definition series_text `{FloatText} (p : ObservationInput) : string :=
  compact_json (JList [JString (in_namespace p); JString (in_name p); labels_json (in_labels p)]) true.

(** The labels in the text: their pairs in some order, quoted. *)
Lemma labels_text `{FloatText} labels : exists l, l ≡ₚ map_to_list labels /\
  json_text (sort_keys (labels_json labels)) = braced (prod_map id quoted <$> l).
Proof.
  unfold labels_json. cbn [sort_keys]. rewrite <- list_fmap_compose.
  destruct (Permutation_map_inv (prod_map id JString) (map_to_list labels)
    (l1 := merge_sort key_le ((prod_map id sort_keys ∘ prod_map id JString) <$> map_to_list labels))) as (l & Hl & Hp).
  { rewrite merge_sort_Permutation. apply Permutation_refl', list_fmap_ext. by intros ? []. }
  exists l. split; [done|]. rewrite Hl. cbn [json_text]. f_equal. change map with (@fmap _ list_fmap).
  rewrite <- list_fmap_compose. apply list_fmap_ext. by intros ? [].
Qed.

(** Two reports are about one series exactly when they agree in
    namespace, name and labels, unless SHA-256 collides.  The canonical text
    that is hashed can be read back, whatever characters the labels hold, and
    does not depend on the order of the labels. *)
Theorem series_identity `{FloatText} (p q : ObservationInput) :
  (in_namespace p = in_namespace q /\ in_name p = in_name q /\ in_labels p = in_labels q <->
   series_text p = series_text q) /\
  (identity_key p = identity_key q ->
     in_namespace p = in_namespace q /\ in_name p = in_name q /\ in_labels p = in_labels q \/
     bytes_of (series_text p) <> bytes_of (series_text q) /\
     sha256_hex (bytes_of (series_text p)) = sha256_hex (bytes_of (series_text q))).
Proof.
  assert (Hiff : in_namespace p = in_namespace q /\ in_name p = in_name q /\ in_labels p = in_labels q <->
    series_text p = series_text q).
  { unfold series_text. split; [by intros (-> & -> & ->)|].
    destruct (labels_text (in_labels p)) as (lp & Hp & Ep), (labels_text (in_labels q)) as (lq & Hq & Eq).
    unfold compact_json. cbn [sort_keys fmap list_fmap json_text]. unfold bracketed. cbn [join].
    rewrite Ep, Eq, <- !string_app_assoc. intros E%(inj (String.append "[")).
    apply quoted_inj in E as [Hns E]. apply (inj (String.append ",")) in E.
    apply quoted_inj in E as [Hname E]. apply (inj (String.append ",")) in E.
    apply braced_inj in E as [-> _]. split_and!; [done..|]. apply map_to_list_inj. by rewrite <- Hp, <- Hq. }
  split; [exact Hiff|]. intros Hk. destruct (decide (series_text p = series_text q)) as [E|Hne].
  - left. by apply Hiff.
  - right. split; [by intros ?%bytes_of_inj|exact Hk].
Qed.

(** ** Retries *)
(** The value a REAL column returns equals the one that was written. *)
Definition value_survives (v : option number) : bool := opt_number_eq v (real <$> v).

Lemma SFeqb_refl f : finite f = true -> SFeqb f f = true.
Proof.
  destruct f as [s| | |s m e]; cbn; try done. unfold SFeqb. cbn.
  destruct s; rewrite Z.compare_refl; unfold Pos.compare; by rewrite Pos.compare_cont_refl.
Qed.

Lemma retry_payload `{FloatText} p now now' :
  same_payload (new_record p now') (of_row (values (new_record p now))) = value_survives (in_value p).
Proof.
  unfold same_payload, of_row, values, new_record, value_survives. cbn [obs_namespace obs_name obs_kind obs_value
    obs_unit obs_status obs_message obs_labels obs_details obs_observed_at obs_ttl_seconds row_namespace row_name
    row_kind row_numeric_value row_unit row_status row_message row_labels_json row_details_json row_observed_at
    row_expires_at obs_expires_at].
  replace (in_observed_at p + seconds (in_ttl_seconds p) - in_observed_at p)%Z with (in_ttl_seconds p * 1000000)%Z
    by (unfold seconds; lia).
  rewrite Z.div_mul, !Z.eqb_refl by done. repeat rewrite bool_decide_true by done.
  rewrite !andb_true_r. by rewrite !andb_true_l.
Qed.

(** A retry is accepted exactly when its value survives the database.
    When the stored row is the one this report wrote, sending the report again
    returns the stored record and changes nothing, provided the value equals
    its REAL form; an integer that a float cannot hold is refused as a
    conflicting report instead. *)
Theorem retry_accepted_iff `{FloatText} (max_series : Z) (t : ObservationTable) (p : ObservationInput) (now now' : time) :
  table_ok max_series t -> t !! identity_key p = Some (values (new_record p now)) -> acceptable (p, now') ->
  observation_upsert max_series p now' (fun _ u => u) t =
    ((if value_survives (in_value p) then inr (of_row (values (new_record p now)), false)
      else inl (Conflict "observation_timestamp_conflict")), t) /\
  (forall f, in_value p = Some (PyFloat f) -> value_survives (in_value p) = true).
Proof.
  intros Hok Ht Ha. split.
  - etrans; [exact (upsert_alone max_series (p, now') t Ha)|]. cbn [MAX_CAS_ATTEMPTS cas_loop]. unfold alone at 1 2.
    change (ls_get (LatestStore := observation_store max_series) (ls_key (candidate (p, now'))) t) with
      (observation_get (identity_key p) t).
    rewrite (get_ok max_series) by done. rewrite Ht. cbn [fmap option_fmap option_map].
    change (ls_observed (LatestStore := observation_store max_series) (candidate (p, now'))) with (in_observed_at p).
    change (ls_observed (LatestStore := observation_store max_series) (of_row (values (new_record p now)))) with (in_observed_at p).
    rewrite Z.ltb_irrefl, Z.eqb_refl.
    change (ls_same_payload (LatestStore := observation_store max_series)) with same_payload.
    unfold candidate. cbn [fst snd]. rewrite retry_payload. by destruct (value_survives _).
  - intros f Hf. destruct Ha as (Hv & _). apply model_validate_inr in Hv as (_ & _ & Hv). cbn [fst] in Hv.
    rewrite Hf in *. cbn in *. apply SFeqb_refl. by destruct (finite f).
Qed.

(** ** Expiration *)
Section Expiration.
Context (cutoff : time).

Definition own_keys (t : ObservationTable) : Prop := forall k row, t !! k = Some row -> row_identity_key row = k.

Definition due (row : ObservationRow) : bool := (row_expires_at row <=? cutoff)%Z.

Definition unexpired (t : ObservationTable) : ObservationTable := filter (fun kr => due kr.2 = false) t.

Lemma rows_where_elem t row : own_keys t ->
  row ∈ rows_where due t <-> t !! row_identity_key row = Some row /\ due row = true.
Proof.
  intros Hk. unfold rows_where. rewrite list_elem_of_filter, list_elem_of_fmap. split.
  - intros [Hd ([k r] & -> & Hr)]. apply elem_of_map_to_list in Hr. cbn in *. by rewrite (Hk _ _ Hr).
  - intros [Hr Hd]. split; [done|]. exists (row_identity_key row, row). by rewrite elem_of_map_to_list.
Qed.

Lemma rows_keys_nodup t : own_keys t -> NoDup (row_identity_key <$> rows_where due t).
Proof.
  intros Hk. unfold rows_where. apply (sublist_NoDup _ (row_identity_key <$> (map_to_list t).*2)).
  - rewrite <- list_fmap_compose, (list_fmap_ext _ fst).
    + apply NoDup_fst_map_to_list.
    + intros i [k r] Hr. cbn. apply Hk. by eapply elem_of_map_to_list, list_elem_of_lookup_2.
  - apply fmap_sublist, sublist_filter.
Qed.

Lemma expired_keys_facts t limit : own_keys t ->
  let keys := expired_keys cutoff limit t in
  NoDup keys /\ (forall k, k ∈ keys -> exists row, t !! k = Some row /\ due row = true) /\
  length keys = Z.to_nat limit `min` length (rows_where due t) /\
  (length keys < Z.to_nat limit -> forall k row, t !! k = Some row -> due row = true -> k ∈ keys).
Proof.
  intros Hk keys. unfold keys, expired_keys. fold due. change (fun r => (row_expires_at r <=? cutoff)%Z) with due.
  set (sorted := merge_sort expiry_le (rows_where due t)).
  assert (Hs : sorted ≡ₚ rows_where due t) by apply merge_sort_Permutation.
  assert (Hl : length (take (Z.to_nat limit) sorted) = Z.to_nat limit `min` length (rows_where due t))
    by (rewrite length_take, Hs; done).
  split_and!.
  - rewrite fmap_take. eapply sublist_NoDup; [|apply sublist_take]. rewrite Hs. by apply rows_keys_nodup.
  - intros k (row & -> & Hr)%list_elem_of_fmap. apply subseteq_take in Hr. rewrite Hs, rows_where_elem in Hr by done.
    eauto.
  - by rewrite length_fmap.
  - rewrite length_fmap. intros Hlt k row Hr Hd. rewrite take_ge by (rewrite Hs; lia).
    pose proof (Hk _ _ Hr) as <-. apply list_elem_of_fmap. exists row. split; [done|].
    by rewrite Hs, rows_where_elem.
Qed.

Lemma delete_batch t limit : own_keys t ->
  let '(n, t') := observation_delete_expired cutoff limit t in
  own_keys t' /\ unexpired t' = unexpired t /\ size t = n + size t' /\ n <= Z.to_nat limit /\
  (n < Z.to_nat limit -> t' = unexpired t).
Proof.
  intros Hk. unfold observation_delete_expired. destruct (expired_keys_facts t limit Hk) as (Hnd & Hex & Hlen & Hall).
  set (keys := expired_keys cutoff limit t) in *. set (t' := filter (fun kr => kr.1 ∉ keys) t).
  assert (Hun : unexpired t' = unexpired t).
  { apply map_eq. intros k. apply option_eq. intros row. unfold unexpired, t'. rewrite !map_lookup_filter_Some. cbn.
    split; [naive_solver|]. intros [Hr Hd]. split_and!; [done| |done].
    intros (row' & Hr' & Hd')%Hex. congruence. }
  split_and!.
  - intros k row [Hr _]%map_lookup_filter_Some. by apply Hk.
  - done.
  - assert (Hd : dom t' = dom t ∖ list_to_set keys).
    { apply set_eq. intros k. rewrite elem_of_difference, elem_of_list_to_set, !elem_of_dom. unfold t', is_Some.
      setoid_rewrite map_lookup_filter_Some. cbn. naive_solver. }
    rewrite <- (size_dom t'), Hd, size_difference, size_list_to_set, size_dom by
      (done || (intros k (row & Hr & _)%elem_of_list_to_set%Hex; by eapply elem_of_dom_2)).
    assert (length keys <= size t); [|lia].
    rewrite <- size_dom, <- (size_list_to_set (C := gset string)) by done. apply subseteq_size.
    intros k (row & Hr & _)%elem_of_list_to_set%Hex. by eapply elem_of_dom_2.
  - lia.
  - intros Hlt. rewrite <- Hun. unfold unexpired. symmetry. apply map_filter_id. intros k row Hr. cbn.
    apply map_lookup_filter_Some in Hr as [Hr Hn]. destruct (due row) eqn:Ed; [|done].
    destruct (Hn (Hall Hlt _ _ Hr Ed)).
Qed.
End Expiration.

(** A round of the clean-up ends and removes exactly what is due.  Each
    full batch takes 500 rows, so one iteration more than the table has
    batches is enough; the rows that are left are those that expire after the
    cutoff. *)
Theorem expiration_completes (cutoff : time) (t : ObservationTable) (fuel : nat) :
  own_keys t -> size t < 500 * fuel -> expiration_round fuel cutoff t = Some (unexpired cutoff t).
Proof.
  revert t. induction fuel as [|fuel IH]; intros t Hk Hf; [lia|].
  cbn [expiration_round]. unfold delete_expired. change (500 <? 1)%Z with false. cbv iota.
  pose proof (delete_batch cutoff t 500 Hk) as Hb.
  destruct (observation_delete_expired cutoff 500 t) as [n t']. destruct Hb as (Hk' & Hun & Hsz & Hle & Hall).
  change (Z.to_nat 500) with 500 in *.
  destruct (Nat.eqb_spec n 500) as [->|Hne].
  - rewrite <- Hun. apply IH; [done|lia].
  - rewrite Hall by lia. done.
Qed.

(** ** Samples *)
#[local] Open Scope Z_scope.
Definition sample_float_text : FloatText := {| float_repr := fun _ => "0.0" |}.
#[local] Existing Instance sample_float_text.

Definition sample_report (value : Z) (at_ : time) : ObservationInput :=
  mkObservationInput "eda" "jobs" GAUGE (Some (PyInt value)) None WARNING None {["queue" := "night"]} [] at_ 60.

Lemma sample_report_valid value at_ : finite (float_of_int value) = true ->
  model_validate (sample_report value at_) = inr (sample_report value at_).
Proof. intros Hf. apply model_validate_inr. split; [done|]. split; [by vm_compute|]. cbn. by rewrite Hf. Qed.

Lemma sample_acceptable value at_ : finite (float_of_int value) = true -> bindable (Some (PyInt value)) = true ->
  acceptable (sample_report value at_, at_).
Proof.
  intros Hf Hb. split; [by apply sample_report_valid|]. split; [done|]. unfold seconds. cbn. lia.
Qed.

Lemma observation_table_invariant_witness :
  let t := (observation_upsert 1 (sample_report 3 0) 0 (fun _ u => u) ∅).2 in
  Z.of_nat (size t) = 1%Z /\ (Z.of_nat (size t) <= 1)%Z.
Proof.
  intros t. split; [vm_compute; reflexivity|].
  refine (proj1 (observation_table_invariant 1 t _ _)); [lia|].
  apply upsert_steps; [by apply sample_report_valid|]. intros. reflexivity.
Defined.


Lemma retry_accepted_iff_witness :
  let p := sample_report (2 ^ 53 + 1) 0 in
  let t := {[identity_key p := values (new_record p 0)]} in
  observation_upsert 10 p 1 (fun _ u => u) t = (inl (Conflict "observation_timestamp_conflict"), t).
Proof.
  intros p t. assert (Hp : model_validate p = inr p) by by apply sample_report_valid.
  refine (proj1 (retry_accepted_iff 10 t p 0 1 _ _ _)).
  - apply table_insert; [done|by apply empty_table_ok|]. intros _. rewrite map_size_empty. lia.
  - apply lookup_singleton_eq.
  - split; [done|]. split; [done|]. unfold seconds. cbn. lia.
Defined.

Lemma expiration_completes_witness :
  let row := values (new_record (sample_report 1 0) 0) in
  expiration_round 1%nat 100000000 {[row_identity_key row := row]} = Some ∅.
Proof.
  intros row. rewrite (expiration_completes 100000000 {[row_identity_key row := row]} 1%nat).
  - vm_compute. reflexivity.
  - intros k r [<- <-]%lookup_singleton_Some. done.
  - rewrite map_size_singleton. lia.
Defined.
