(* ===== verification/LogSources.v ===== *)
(** * Log sources

    [src/backend/ic_env_guard/logs/models.py] and [service.py], and the table
    [log_sources] behind [src/backend/ic_env_guard/storage/log_sources.py]: the
    log files an Agent may be asked to show.  The second user of the loop of
    [LatestValue]. *)

From stdpp Require Import base tactics list gmap strings sorting.
From Stdlib Require Import ZArith Lia Ascii.
From S2P Require Import Prelude Text Models LatestValue.

#[local] Set Primitive Projections.

Record LogSourceInput := mkLogSourceInput {
  lin_path : string;
  lin_last_updated : time;
  lin_observed_at : time;
  lin_ttl_seconds : Z
}.

Record LogSource := mkLogSource {
  log_id : string;
  log_path : string;
  log_last_updated : time;
  log_observed_at : time;
  log_ttl_seconds : Z;
  log_received_at : time;
  log_expires_at : time;
  log_producer_id : string;
  log_updated_at : time
}.

(** A row of the table: the TTL is not stored. *)
Record LogRow := mkLogRow {
  lrow_id : string;
  lrow_path : string;
  lrow_last_updated : time;
  lrow_observed_at : time;
  lrow_received_at : time;
  lrow_expires_at : time;
  lrow_producer_id : string;
  lrow_updated_at : time
}.

#[local] Unset Primitive Projections.

(** ** Paths *)
(** The slashes [posixpath.normpath] keeps in front: two stay two. *)
Definition initial_slashes (s : string) : nat :=
  match s with
  | String a rest =>
      if is_char "/" a then
        match rest with
        | String b rest2 =>
            if is_char "/" b then
              match rest2 with String c _ => if is_char "/" c then 1 else 2 | EmptyString => 2 end
            else 1
        | EmptyString => 1
        end
      else 0
  | EmptyString => 0
  end.

(** One component, the result so far in reverse order. *)
Definition norm_step (slashes : nat) (acc : list string) (c : string) : list string :=
  if bool_decide (c = "") || bool_decide (c = ".") then acc
  else if negb (bool_decide (c = "..")) || ((slashes =? 0) && bool_decide (acc = [])) ||
          bool_decide (head acc = Some "..")
  then c :: acc
  else tail acc.

Definition slashes_text (n : nat) : string := match n with 0 => "" | 1 => "/" | _ => "//" end.

Definition normpath (s : string) : string :=
  if bool_decide (s = "") then "."
  else
    let n := initial_slashes s in
    let r := slashes_text n +:+ join "/" (reverse (foldl (norm_step n) [] (split_on "/" s))) in
    if bool_decide (r = "") then "." else r.

(** ** Validation *)
(** [^[a-z][a-z0-9_.-]{0,126}$] *)
Definition is_log_id (s : string) : bool :=
  match s with
  | EmptyString => false
  | String c rest =>
      is_lower c && (String.length rest <=? 126) &&
      all_chars (fun c => is_lower c || is_digit c || is_char "_" c || is_char "." c || is_char "-" c) rest
  end.

Definition is_nul (c : ascii) : bool := is_char "000" c.

Definition validate_path (value : string) : bool :=
  all_chars (fun c => negb (is_nul c)) value && String.prefix "/" value.

Definition log_input_valid (p : LogSourceInput) : bool :=
  validate_path (lin_path p) && (1 <=? lin_ttl_seconds p)%Z && (lin_ttl_seconds p <=? 604800)%Z.

Definition log_same_payload (a b : LogSource) : bool :=
  bool_decide (log_path a = log_path b) && (log_last_updated a =? log_last_updated b)%Z &&
  (log_observed_at a =? log_observed_at b)%Z && (log_ttl_seconds a =? log_ttl_seconds b)%Z.

Definition log_is_stale (now : time) (r : LogSource) : bool := (log_expires_at r <=? now)%Z.

(** ** Rows *)
Definition log_values (r : LogSource) : LogRow :=
  mkLogRow (log_id r) (log_path r) (log_last_updated r) (log_observed_at r) (log_received_at r) (log_expires_at r)
    "local" (log_updated_at r).

Definition log_reconstitute (row : LogRow) : ingest_exn + LogSource :=
  let span := (lrow_expires_at row - lrow_observed_at row)%Z in
  let ttl := (span / 1000000)%Z in
  let payload := mkLogSourceInput (lrow_path row) (lrow_last_updated row) (lrow_observed_at row) ttl in
  if negb (is_log_id (lrow_id row)) then inl (Invalid "invalid log id")
  else if negb (bool_decide (normpath (lrow_path row) = lrow_path row))
  then inl (Invalid "stored log source path must be normalized")
  else if negb (span mod 1000000 =? 0)%Z then inl (Invalid "stored log source TTL must be whole seconds")
  else if negb (log_input_valid payload) then inl (Invalid "fields")
  else if negb (bool_decide (lrow_producer_id row = "local"))
  then inl (Invalid "stored log source producer must be local")
  else inr (mkLogSource (lrow_id row) (lrow_path row) (lrow_last_updated row) (lrow_observed_at row) ttl
         (lrow_received_at row) (lrow_expires_at row) (lrow_producer_id row) (lrow_updated_at row)).

Definition log_record (row : LogRow) : ingest_exn + LogSource :=
  match log_reconstitute row with
  | inl (Invalid _) => inl (StorageError "log_storage_unavailable")
  | r => r
  end.

Fixpoint log_records (rows : list LogRow) : ingest_exn + list LogSource :=
  match rows with
  | [] => inr []
  | row :: rest =>
      match log_record row with
      | inl e => inl e
      | inr r => match log_records rest with inl e => inl e | inr rs => inr (r :: rs) end
      end
  end.

(** ** The repository *)
Abbreviation LogTable := (gmap string LogRow).

Definition log_get (id : string) (t : LogTable) : ingest_exn + option LogSource :=
  match t !! id with
  | None => inr None
  | Some row => match log_record row with inl e => inl e | inr r => inr (Some r) end
  end.

Definition log_compare_and_swap (r : LogSource) (expected : option time) (t : LogTable)
    : (ingest_exn + bool) * LogTable :=
  let row := log_values r in
  match expected, t !! log_id r with
  | None, None => (inr true, <[log_id r := row]> t)
  | Some at_, Some q => if (lrow_observed_at q =? at_)%Z then (inr true, <[log_id r := row]> t) else (inr false, t)
  | _, _ => (inr false, t)
  end.

Definition log_le (a b : LogRow) : Prop := String.leb (lrow_id a) (lrow_id b) = true.

#[global] Instance log_le_dec a b : Decision (log_le a b).
Proof. unfold log_le. apply _. Defined.

Definition log_expiry_le (a b : LogRow) : Prop :=
  (lrow_expires_at a < lrow_expires_at b)%Z \/ (lrow_expires_at a = lrow_expires_at b /\ log_le a b).

#[global] Instance log_expiry_le_dec a b : Decision (log_expiry_le a b).
Proof. unfold log_expiry_le. apply _. Defined.

Definition log_list_rows (t : LogTable) : ingest_exn + list LogSource :=
  log_records (merge_sort log_le (map_to_list t).*2).

Definition log_counts (now : time) (t : LogTable) : Z * Z :=
  (Z.of_nat (size t),
   Z.of_nat (length (filter (fun r => (lrow_expires_at r <=? now)%Z = true) (map_to_list t).*2))).

Definition log_delete_expired (cutoff : time) (limit : Z) (t : LogTable) : nat * LogTable :=
  let keys := lrow_id <$> take (Z.to_nat limit) (merge_sort log_expiry_le
                (filter (fun r => (lrow_expires_at r <=? cutoff)%Z = true) (map_to_list t).*2)) in
  (length keys, filter (fun kr => kr.1 ∉ keys) t).

(** ** The service *)
#[global] Instance log_store : LatestStore LogTable LogSource := {
  ls_key := log_id;
  ls_observed := log_observed_at;
  ls_same_payload := log_same_payload;
  ls_stale_code := "stale_log_source";
  ls_conflict_code := "log_source_timestamp_conflict";
  ls_contention_code := "log_storage_contention";
  ls_get := log_get;
  ls_compare_and_swap := log_compare_and_swap
}.

(** [resolve] is [LogPathPolicy.resolve_regular_file] on the file system of
    the call. *)
Definition log_upsert (resolve : string -> ingest_exn + string) (id : string) (payload : LogSourceInput) (now : time)
    (other : nat -> LogTable -> LogTable) (t : LogTable) : (ingest_exn + LogSource * bool) * LogTable :=
  if negb (is_log_id id) then (inl (Invalid "invalid log id"), t)
  else if (now + seconds 60 <? lin_observed_at payload)%Z then (inl (Invalid "log_source_in_future"), t)
  else match resolve (lin_path payload) with
  | inl e => (inl e, t)
  | inr normalized_path =>
      let candidate := mkLogSource id normalized_path (lin_last_updated payload) (lin_observed_at payload)
        (lin_ttl_seconds payload) now (lin_observed_at payload + seconds (lin_ttl_seconds payload))%Z "local" now in
      if (log_expires_at candidate <=? now)%Z then (inl (Expired "log_source_expired"), t)
      else cas_loop MAX_CAS_ATTEMPTS 0 other candidate t
  end.

Definition log_read (id : string) (now : time) (include_stale : bool) (t : LogTable) : ingest_exn + option LogSource :=
  if negb (is_log_id id) then inl (Invalid "invalid log id")
  else match log_get id t with
  | inr (Some r) => if negb include_stale && log_is_stale now r then inr None else inr (Some r)
  | r => r
  end.

Definition log_list (now : time) (include_stale : bool) (t : LogTable) : ingest_exn + list LogSource :=
  match log_list_rows t with
  | inl e => inl e
  | inr rs => inr (if include_stale then rs else filter (fun r => log_is_stale now r = false) rs)
  end.

(** * Theorems about log sources

    The repository is the second instance of [LatestContract]. *)

(** ** Reading back *)
Definition log_of_row (row : LogRow) : LogSource :=
  mkLogSource (lrow_id row) (lrow_path row) (lrow_last_updated row) (lrow_observed_at row)
    ((lrow_expires_at row - lrow_observed_at row) / 1000000)%Z (lrow_received_at row) (lrow_expires_at row)
    (lrow_producer_id row) (lrow_updated_at row).

Lemma log_record_inr row r : log_record row = inr r -> r = log_of_row row.
Proof.
  unfold log_record, log_reconstitute. do 5 (destruct (negb _); [done|]). by intros [= <-].
Qed.

Lemma log_record_inl row e : log_record row = inl e -> e = StorageError "log_storage_unavailable".
Proof. unfold log_record, log_reconstitute. do 5 (destruct (negb _); [by intros [= <-]|]). done. Qed.

(** A source as [upsert] writes it. *)
Record proper_source (r : LogSource) : Prop := {
  source_id : is_log_id (log_id r) = true;
  source_path : validate_path (log_path r) = true;
  source_normal : normpath (log_path r) = log_path r;
  source_ttl : (1 <= log_ttl_seconds r <= 604800)%Z;
  source_expiry : log_expires_at r = (log_observed_at r + seconds (log_ttl_seconds r))%Z
}.

Lemma log_record_values r : proper_source r -> log_record (log_values r) = inr (log_of_row (log_values r)).
Proof.
  intros [Hid Hpath Hnorm Httl Hexp].
  assert (Hspan : (lrow_expires_at (log_values r) - lrow_observed_at (log_values r) = log_ttl_seconds r * 1000000)%Z).
  { unfold seconds in Hexp. cbn. lia. }
  unfold log_record, log_reconstitute, log_of_row. rewrite Hspan, Z.mod_mul, Z.div_mul by done.
  cbn [lrow_id lrow_path lrow_producer_id log_values]. rewrite Hid, bool_decide_true by done. cbn [negb Z.eqb].
  unfold log_input_valid. cbn [lin_path lin_ttl_seconds]. rewrite Hpath.
  rewrite (proj2 (Z.leb_le 1 _)), (proj2 (Z.leb_le _ 604800)) by lia. by rewrite bool_decide_true.
Qed.

(** ** The contract *)
Lemma log_rows_observed k (t : LogTable) :
  log_observed_at <$> ((log_of_row <$> t) !! k) = lrow_observed_at <$> (t !! k).
Proof. rewrite lookup_fmap. by destruct (t !! k). Qed.

Lemma log_get_inr k t o : log_get k t = inr o -> o = log_of_row <$> t !! k.
Proof.
  unfold log_get. destruct (t !! k) as [row|]; [|by intros [= <-]].
  destruct (log_record row) eqn:Er; [done|]. apply log_record_inr in Er as ->. by intros [= <-].
Qed.

Lemma log_get_inl k t e : log_get k t = inl e -> e = StorageError "log_storage_unavailable".
Proof.
  unfold log_get. destruct (t !! k) as [row|]; [|done].
  destruct (log_record row) eqn:Er; [|done]. intros [= <-]. by apply log_record_inl in Er.
Qed.

Lemma log_cas_cases r e t :
  (exists at_, e = at_ /\ lrow_observed_at <$> (t !! log_id r) = at_ /\
     log_compare_and_swap r e t = (inr true, <[log_id r := log_values r]> t)) \/
  (lrow_observed_at <$> (t !! log_id r) <> e /\ log_compare_and_swap r e t = (inr false, t)).
Proof.
  unfold log_compare_and_swap. destruct e as [at_|], (t !! log_id r) as [q|]; cbn [fmap option_fmap option_map]; eauto.
  destruct (lrow_observed_at q =? at_)%Z eqn:E; prop_hyps; [left; subst; eauto|right]. split; [by intros [=]|done].
Qed.

#[global] Instance log_contract : LatestContract LogTable LogSource.
Proof.
  refine {| ls_rows := fun t => log_of_row <$> t; ls_stored := fun r => log_of_row (log_values r) |}.
  - done.
  - done.
  - intros k t o Hg. etrans; [exact (log_get_inr k t o Hg)|]. symmetry. apply lookup_fmap.
  - intros k t e Hg. by rewrite (log_get_inl k t e Hg).
  - intros r e t x t' E. cbn in E. destruct (log_cas_cases r e t) as [(? & _ & _ & E')|[_ E']]; by rewrite E' in E.
  - intros r e t t' E. cbn in E. destruct (log_cas_cases r e t) as [(? & _ & _ & E')|[Hne E']]; rewrite E' in E; [done|].
    injection E as <-. split; [done|]. by rewrite <- log_rows_observed in Hne.
  - intros r e t t' E. cbn in E. destruct (log_cas_cases r e t) as [(at_ & -> & Ho & E')|[_ E']]; rewrite E' in E; [|done].
    injection E as <-. rewrite <- log_rows_observed in Ho. split; [done|]. apply fmap_insert.
Defined.

(** ** Steps *)
Inductive log_step : relation LogTable :=
| LogWrite r e t : proper_source r -> (forall at_, e = Some at_ -> (at_ < log_observed_at r)%Z) ->
    log_step t (log_compare_and_swap r e t).2.

(** [Path.resolve(strict=True)] returns an absolute, normalized path. *)
Definition resolves_normal (resolve : string -> ingest_exn + string) : Prop :=
  forall p q, resolve p = inr q -> validate_path q = true /\ normpath q = q.

Lemma log_upsert_steps resolve id p now other t :
  resolves_normal resolve -> log_input_valid p = true -> (forall i t, rtc log_step t (other i t)) ->
  rtc log_step t (log_upsert resolve id p now other t).2.
Proof.
  intros Hres Hp Ho. unfold log_upsert. destruct (is_log_id id) eqn:Eid; cbn [negb]; [|reflexivity].
  destruct (_ <? _)%Z; [reflexivity|]. destruct (resolve (lin_path p)) as [|path] eqn:Er; [reflexivity|].
  destruct (_ <=? _)%Z; [reflexivity|]. apply (loop_respects (rtc log_step)); [|done].
  intros e t' He. apply rtc_once, LogWrite; [|done]. apply Hres in Er as [Hv Hn].
  unfold log_input_valid in Hp. prop_hyps. split; cbn; try done.
Qed.

Definition log_table_ok (t : LogTable) : Prop :=
  forall k row, t !! k = Some row -> lrow_id row = k /\ log_record row = inr (log_of_row row).

Lemma log_step_ok t t' : log_step t t' -> log_table_ok t -> log_table_ok t'.
Proof.
  intros [r e u Hr He] Hok. destruct (log_cas_cases r e u) as [(? & _ & _ & ->)|[_ ->]]; [|done]. cbn [snd].
  intros k row. rewrite lookup_insert_Some. intros [[<- <-]|[_ Hrow]]; [|by apply Hok].
  split; [done|]. by apply log_record_values.
Qed.

Lemma log_step_advances t t' : log_step t t' -> advances t t'.
Proof. intros [r e u Hr He]. exact (cas_advances r e u He). Qed.

(** A log source never goes back.  However the reports of several
    connections interleave, with any log paths their file systems resolve,
    every stored source keeps being readable under its own id, and its row
    stays or is replaced by one observed later; each report is itself such a
    sequence of steps. *)
Theorem log_source_never_goes_back (t t' : LogTable) :
  log_table_ok t -> rtc log_step t t' ->
  (forall k row, t !! k = Some row -> exists row', t' !! k = Some row' /\
     (log_of_row row' = log_of_row row \/ (lrow_observed_at row < lrow_observed_at row')%Z) /\
     log_get k t' = inr (Some (log_of_row row'))) /\
  (forall resolve id p now other, resolves_normal resolve -> log_input_valid p = true ->
     (forall i u, rtc log_step u (other i u)) -> rtc log_step t (log_upsert resolve id p now other t').2).
Proof.
  intros Hok Hs. split.
  - assert (Hok' : log_table_ok t') by (clear -Hok Hs; induction Hs; eauto using log_step_ok).
    assert (Ha : advances t t') by (clear -Hs; induction Hs; [reflexivity|etrans; eauto using log_step_advances]).
    intros k row Hrow. destruct (Ha k (log_of_row row)) as (r' & Hr' & Hcase); [cbn; by rewrite lookup_fmap, Hrow|].
    cbn in Hr'. rewrite lookup_fmap in Hr'. apply fmap_Some in Hr' as (row' & Hrow' & ->).
    exists row'. split; [done|]. split; [done|]. unfold log_get. rewrite Hrow'.
    by rewrite (proj2 (Hok' _ _ Hrow')).
  - intros resolve id p now other Hres Hp Ho. etrans; [exact Hs|]. by apply log_upsert_steps.
Qed.

(** ** Samples *)
#[local] Open Scope Z_scope.

Definition sample_source (at_ : time) : LogSource :=
  mkLogSource "build.log" "/var/log/build.log" 0 at_ 60 at_ (at_ + seconds 60) "local" at_.

Lemma sample_source_proper at_ : proper_source (sample_source at_).
Proof. split; try reflexivity. cbn. lia. Qed.

Lemma log_source_never_goes_back_witness :
  let t := {["build.log" := log_values (sample_source 0)]} in
  let t' := (log_compare_and_swap (sample_source 5) (Some 0) t).2 in
  lrow_observed_at <$> t' !! "build.log" = Some 5 /\
  exists row', t' !! "build.log" = Some row' /\ log_get "build.log" t' = inr (Some (log_of_row row')).
Proof.
  intros t t'. split; [vm_compute; reflexivity|].
  destruct (log_source_never_goes_back t t') as [Hrows _].
  - intros k row [<- <-]%lookup_singleton_Some. split; [done|]. apply log_record_values, sample_source_proper.
  - apply rtc_once, LogWrite; [apply sample_source_proper|]. by intros ? [= <-].
  - destruct (Hrows "build.log" (log_values (sample_source 0))) as (row' & Hrow & _ & Hget); [apply lookup_singleton_eq|].
    eauto.
Defined.
