(* ===== verification/LogTail.v ===== *)
(** * The end of a log file

    [src/backend/ic_env_guard/logs/policy.py]: which files may be read, and
    [LogTailReader.read], which reads a file backwards, decodes the bytes,
    splits them into lines and cuts the result to the limits of the response.
    A [str] is the list of its code points here, since the code slices it by
    character.  The file does not change while it is read. *)

From stdpp Require Import base tactics list gmap strings.
From Stdlib Require Import ZArith Lia Ascii.
From S2P Require Import Prelude Text Digest Models CompactJson LatestValue LogSources.

Definition MAX_TAIL_LINES : Z := 1000.
Definition MAX_TAIL_BYTES : Z := 983040.
Definition READ_CHUNK_BYTES : nat := Z.to_nat (64 * 1024).
Definition SERIALIZED_LINES_BUDGET : Z := 1024 * 1024 - 16 * 1024.

(** ** UTF-8 *)
Definition between (lo hi b : Z) : bool := (lo <=? b)%Z && (b <=? hi)%Z.
Definition continuation (b : Z) : bool := between 0x80 0xbf b.
Definition low6 (b : Z) : Z := Z.land b 63.

(** The second bytes that may follow the first byte [a]. *)
Definition second3 (a b : Z) : bool :=
  if (a =? 0xe0)%Z then between 0xa0 0xbf b else if (a =? 0xed)%Z then between 0x80 0x9f b else continuation b.
Definition second4 (a b : Z) : bool :=
  if (a =? 0xf0)%Z then between 0x90 0xbf b else if (a =? 0xf4)%Z then between 0x80 0x8f b else continuation b.

Definition REPLACEMENT : Z := 0xfffd.

(** One step of [bytes.decode("utf-8", errors="replace")]: the code point and
    the number of bytes it takes; what cannot be continued is replaced. *)
Definition decode_step (a : Z) (rest : list Z) : Z * nat :=
  if between 0 0x7f a then (a, 1)
  else if between 0xc2 0xdf a then
    match rest with
    | b :: _ => if continuation b then ((Z.land a 31 * 64 + low6 b)%Z, 2) else (REPLACEMENT, 1)
    | [] => (REPLACEMENT, 1)
    end
  else if between 0xe0 0xef a then
    match rest with
    | b :: rest2 =>
        if second3 a b then
          match rest2 with
          | c :: _ => if continuation c then ((Z.land a 15 * 4096 + low6 b * 64 + low6 c)%Z, 3) else (REPLACEMENT, 2)
          | [] => (REPLACEMENT, 2)
          end
        else (REPLACEMENT, 1)
    | [] => (REPLACEMENT, 1)
    end
  else if between 0xf0 0xf4 a then
    match rest with
    | b :: rest2 =>
        if second4 a b then
          match rest2 with
          | c :: rest3 =>
              if continuation c then
                match rest3 with
                | d :: _ =>
                    if continuation d
                    then ((Z.land a 7 * 262144 + low6 b * 4096 + low6 c * 64 + low6 d)%Z, 4)
                    else (REPLACEMENT, 3)
                | [] => (REPLACEMENT, 3)
                end
              else (REPLACEMENT, 2)
          | [] => (REPLACEMENT, 2)
          end
        else (REPLACEMENT, 1)
    | [] => (REPLACEMENT, 1)
    end
  else (REPLACEMENT, 1).

(** Every step takes a byte, so the length is enough fuel. *)
Fixpoint decode_fuel (fuel : nat) (l : list Z) : list Z :=
  match fuel, l with
  | S fuel, a :: rest => let '(c, n) := decode_step a rest in c :: decode_fuel fuel (drop n l)
  | _, _ => []
  end.

Definition decode (l : list Z) : list Z := decode_fuel (length l) l.

(** [str.encode("utf-8")] *)
Definition encode_char (c : Z) : list Z :=
  if (c <? 0x80)%Z then [c]
  else if (c <? 0x800)%Z then [Z.lor 0xc0 (Z.shiftr c 6); Z.lor 0x80 (low6 c)]
  else if (c <? 0x10000)%Z then
    [Z.lor 0xe0 (Z.shiftr c 12); Z.lor 0x80 (low6 (Z.shiftr c 6)); Z.lor 0x80 (low6 c)]
  else [Z.lor 0xf0 (Z.shiftr c 18); Z.lor 0x80 (low6 (Z.shiftr c 12)); Z.lor 0x80 (low6 (Z.shiftr c 6));
        Z.lor 0x80 (low6 c)].

Definition encode (s : list Z) : list Z := concat (encode_char <$> s).

Definition encoded_size (s : list Z) : Z := Z.of_nat (length (encode s)).

(** ** Lines *)
(** [str.splitlines()]: [\r\n] is one boundary, and what follows the last
    boundary is a line only if it is not empty. *)
Definition boundary (c : Z) : bool :=
  bool_decide (c ∈ [10; 11; 12; 13; 28; 29; 30; 133; 8232; 8233]%Z).

Fixpoint splitlines (s : list Z) : list (list Z) :=
  match s with
  | [] => []
  | c :: rest =>
      if boundary c then
        [] :: match rest with
              | d :: rest2 => if (c =? 13)%Z && (d =? 10)%Z then splitlines rest2 else splitlines rest
              | [] => []
              end
      else match splitlines rest with
           | [] => [[c]]
           | w :: ws => (c :: w) :: ws
           end
  end.

(** ["\n".join(lines)] *)
Fixpoint join_lines (l : list (list Z)) : list Z :=
  match l with
  | [] => []
  | [s] => s
  | s :: rest => s ++ 10%Z :: join_lines rest
  end.

(** [lines[-n:]] for a positive [n] *)
Definition last_n {A} (n : nat) (l : list A) : list A := drop (length l - n) l.

(** ** Cutting to a size *)
(** The [while low < high] loops of this module: [fits i] tests the suffix from
    index [i] on.  Each step shrinks the interval. *)
Fixpoint bisect (fuel : nat) (fits : nat -> bool) (low high : nat) : nat :=
  match fuel with
  | 0 => low
  | S fuel =>
      if low <? high then
        let midpoint := (low + high) / 2 in
        if fits midpoint then bisect fuel fits low midpoint else bisect fuel fits (midpoint + 1) high
      else low
  end.

Definition fit_utf8_suffix (value : list Z) (max_bytes : Z) : list Z * bool :=
  if (encoded_size value <=? max_bytes)%Z then (value, false)
  else
    let low := bisect (length value) (fun i => (encoded_size (drop i value) <=? max_bytes)%Z) 0 (length value) in
    (drop low value, true).

(** The text of a [str]. *)
Definition text_of (s : list Z) : string :=
  foldr (fun b acc => String (Ascii.ascii_of_nat (Z.to_nat b)) acc) "" (encode s).

(** [_serialized_lines_size]: the bytes of the JSON list *)
Definition serialized_lines_size (lines : list (list Z)) : Z :=
  Z.of_nat (String.length (bracketed ((fun s => quoted (text_of s)) <$> lines))).

Definition fits_budget (lines : list (list Z)) : bool := (serialized_lines_size lines <=? SERIALIZED_LINES_BUDGET)%Z.

Definition fit_json_budget (lines : list (list Z)) : list (list Z) * bool :=
  match last lines with
  | None => (lines, false)
  | Some line =>
      if fits_budget lines then (lines, false)
      else if fits_budget [line] then
        let low := bisect (length lines) (fun i => fits_budget (drop i lines)) 1 (length lines - 1) in
        (drop low lines, true)
      else
        let low := bisect (length line) (fun i => fits_budget [drop i line]) 0 (length line) in
        ([drop low line], true)
  end.

(** ** Which files *)
(** A resolved path, by its components. *)
Abbreviation Path := (list string).

Record FileInfo := mkFileInfo {
  info_regular : bool;
  info_identity : Z * Z
}.

(** The file system: what the [n]-th call of a read answers. *)
Class LogFs := {
  fs_resolve : nat -> string -> option Path;
  fs_stat : nat -> Path -> option FileInfo;
  fs_open : nat -> Path -> option nat;
  fs_fstat : nat -> nat -> option FileInfo;
  fs_proc : nat -> nat -> option (option Path)
}.

Section Policy.
Context `{LogFs} (roots : list Path).

(** [path.is_relative_to(root)] *)
Definition contains_path (path : Path) : bool := existsb (fun root => bool_decide (root `prefix_of` path)) roots.

(** The calls [n] and [n + 1]. *)
Definition resolve_regular_file (n : nat) (path : string) : ingest_exn + Path :=
  match fs_resolve n path with
  | None => inl FileUnavailable
  | Some resolved =>
      if negb (contains_path resolved) then inl PathForbidden
      else match fs_stat (n + 1) resolved with
           | None => inl FileUnavailable
           | Some i => if info_regular i then inr resolved else inl FileUnavailable
           end
  end.

(** [_open_verified] with the descriptors it closed: the calls from [n] on. *)
Definition open_verified (n : nat) (path : string) : (ingest_exn + nat) * list nat :=
  match resolve_regular_file n path with
  | inl e => (inl e, [])
  | inr resolved =>
      match fs_open (n + 2) resolved with
      | None => (inl (match resolve_regular_file (n + 3) path with inl e => e | inr _ => FileUnavailable end), [])
      | Some descriptor =>
          let fails e := (inl e, [descriptor]) in
          match fs_fstat (n + 3) descriptor with
          | None => fails OsError
          | Some opened =>
              if negb (info_regular opened) then fails FileUnavailable
              else match resolve_regular_file (n + 4) path with
              | inl e => fails e
              | inr verified_path =>
                  match fs_stat (n + 6) verified_path with
                  | None => fails OsError
                  | Some verified =>
                      if negb (bool_decide (info_identity opened = info_identity verified)) then fails FileUnavailable
                      else match fs_proc (n + 7) descriptor with
                      | None => (inr descriptor, [])
                      | Some None => fails OsError
                      | Some (Some opened_path) =>
                          if contains_path opened_path then (inr descriptor, []) else fails PathForbidden
                      end
                  end
              end
          end
      end
  end.
End Policy.

(** ** The tail *)
(** The backward loop: the bytes read and where it stopped.  Every iteration
    but an empty read takes a byte. *)
Fixpoint scan (fuel : nat) (content : list Z) (lines limit : nat) (position bytes_read newlines : nat) (raw : list Z)
    : list Z * nat * nat :=
  match fuel with
  | 0 => (raw, position, bytes_read)
  | S fuel =>
      if (0 <? position) && (bytes_read <? limit) && (newlines <=? lines) then
        let amount := (READ_CHUNK_BYTES `min` position) `min` (limit - bytes_read) in
        let position := position - amount in
        let chunk := take amount (drop position content) in
        if bool_decide (chunk = []) then (raw, position, bytes_read)
        else scan fuel content lines limit position (bytes_read + length chunk)
               (newlines + length (filter (fun b => b = 10%Z) chunk)) (chunk ++ raw)
      else (raw, position, bytes_read)
  end.

(** Lines that exceed the byte limit when they are joined again. *)
Definition trim_content (limit : Z) (selected : list (list Z)) : list (list Z) * bool :=
  if (limit <? encoded_size (join_lines selected))%Z then
    let low := bisect (length selected) (fun i => (encoded_size (join_lines (drop i selected)) <=? limit)%Z)
                 1 (length selected) in
    (drop low selected, true)
  else (selected, false).

(** [LogTailReader.read] after the checks, on the bytes of the opened file. *)
Definition read_content (content : list Z) (lines : nat) (limit : Z) : list (list Z) * bool :=
  let size := length content in
  let '(raw, position, bytes_read) := scan size content lines (Z.to_nat limit) size 0 0 [] in
  let '(decoded, byte_trimmed) := fit_utf8_suffix (decode raw) limit in
  let available := splitlines decoded in
  let '(selected, content_trimmed) := trim_content limit (last_n lines available) in
  let '(selected, wire_trimmed) := fit_json_budget selected in
  (selected, (0 <? position) || (lines <? length available) || (bytes_read <? size) || byte_trimmed ||
             content_trimmed || wire_trimmed).

(** [content] is what the descriptor reads. *)
Definition read_tail `{LogFs} (roots : list Path) (self_max_bytes : Z) (content : nat -> list Z) (path : string)
    (lines : Z) (max_bytes : option Z) : ingest_exn + list (list Z) * bool :=
  let limit := default self_max_bytes max_bytes in
  if negb ((1 <=? lines)%Z && (lines <=? MAX_TAIL_LINES)%Z) then inl (Invalid "lines must be between 1 and 1000")
  else if negb ((1 <=? limit)%Z && (limit <=? self_max_bytes)%Z) then inl (Invalid "max_bytes")
  else match (open_verified roots 0 path).1 with
  | inl e => inl e
  | inr descriptor => inr (read_content (content descriptor) (Z.to_nat lines) limit)
  end.

(** [LogSourceService.tail] *)
Definition log_tail `{LogFs} (roots : list Path) (max_bytes : Z) (content : nat -> list Z) (id : string) (lines : Z)
    (now : time) (t : LogTable) : ingest_exn + LogSource * (list (list Z) * bool) :=
  match log_read id now true t with
  | inl e => inl e
  | inr None => inl FileUnavailable
  | inr (Some r) =>
      if log_is_stale now r then inl (Expired "log_source_stale")
      else match read_tail roots max_bytes content (log_path r) lines None with
           | inl e => inl e
           | inr result => inr (r, result)
           end
  end.
