(* ===== verification/LogTailClaims.v ===== *)
(** * Theorems about log tails, and facts about decoding, lines and bisection *)

From stdpp Require Import base tactics list gmap strings.
From Stdlib Require Import ZArith Lia Ascii.
From S2P Require Import Prelude Text Digest Models CompactJson LatestValue LogSources LogTail.

(** ** Decoding *)
Lemma decode_step_pos a rest : 1 <= (decode_step a rest).2 <= S (length rest).
Proof. unfold decode_step. repeat case_match; cbn; lia. Qed.

Lemma decode_step_ascii a rest : between 0 0x7f a = true -> decode_step a rest = (a, 1).
Proof. unfold decode_step. by intros ->. Qed.

Lemma newline_no_continuation : continuation 10 = false /\ (forall a, second3 a 10 = false) /\ (forall a, second4 a 10 = false).
Proof. split; [done|]. unfold second3, second4. split; intros a; repeat case_match; done. Qed.

(** A newline ends a sequence exactly as the end of the input does. *)
Lemma decode_step_newline a rest y : decode_step a (rest ++ 10%Z :: y) = decode_step a rest.
Proof.
  destruct newline_no_continuation as (Hc & H3 & H4). unfold decode_step.
  destruct rest as [|b [|c [|d rest]]]; cbn [app]; rewrite ?Hc, ?H3, ?H4; repeat case_match; done.
Qed.

Lemma decode_fuel_enough n m l : length l <= n -> length l <= m -> decode_fuel n l = decode_fuel m l.
Proof.
  revert m l. induction n as [|n IH]; intros m l Hn Hm.
  - destruct l; [|cbn in Hn; lia]. by destruct m.
  - destruct l as [|a rest]; [by destruct m|]. destruct m as [|m]; [cbn in Hm; lia|]. cbn [decode_fuel].
    pose proof (decode_step_pos a rest) as Hp. destruct (decode_step a rest) as [c k]. cbn [snd] in Hp.
    f_equal. apply IH; rewrite length_drop; cbn in *; lia.
Qed.

Lemma decode_cons a rest :
  decode (a :: rest) = (decode_step a rest).1 :: decode (drop (decode_step a rest).2 (a :: rest)).
Proof.
  unfold decode at 1. cbn [length decode_fuel]. pose proof (decode_step_pos a rest) as Hp.
  destruct (decode_step a rest) as [c n] eqn:E. cbn [fst snd] in *. f_equal.
  apply decode_fuel_enough; rewrite length_drop; cbn; lia.
Qed.


Lemma decode_newline n x y : length x <= n -> decode (x ++ 10%Z :: y) = decode x ++ 10%Z :: decode y.
Proof.
  revert x. induction n as [|n IH]; intros [|a rest] Hl; try (cbn in Hl; lia).
  1, 2: cbn [app]; by rewrite decode_cons.
  cbn [app]. rewrite !decode_cons, decode_step_newline.
  pose proof (decode_step_pos a rest) as Hp. destruct (decode_step a rest) as [c k]. cbn [fst snd] in *.
  cbn [app]. f_equal. rewrite app_comm_cons, drop_app_le by (cbn; lia).
  apply IH. rewrite length_drop. cbn in *. lia.
Qed.

(** ** Lines *)
Lemma splitlines_cons c rest : boundary c = false ->
  splitlines (c :: rest) = match splitlines rest with [] => [[c]] | w :: ws => (c :: w) :: ws end.
Proof. intros Hb. cbn [splitlines]. by rewrite Hb. Qed.

Lemma splitlines_newline n s t : length s <= n ->
  splitlines (s ++ 10%Z :: t) = splitlines (s ++ [10%Z]) ++ splitlines t.
Proof.
  revert s. induction n as [|n IH]; intros s Hl.
  - destruct s; [|cbn in Hl; lia]. cbn. by destruct t.
  - destruct s as [|c s]; [cbn; by destruct t|]. cbn in Hl. cbn [app].
    destruct (boundary c) eqn:Eb.
    + cbn [splitlines]. rewrite Eb. cbn [app]. f_equal. destruct s as [|d s]; cbn [app].
      * destruct (c =? 13)%Z; cbn; [done|by destruct t].
      * destruct ((c =? 13)%Z && (d =? 10)%Z).
        -- apply IH. cbn in Hl. lia.
        -- apply (IH (d :: s)). lia.
    + rewrite !splitlines_cons by done. rewrite (IH s) by lia.
      destruct (splitlines (s ++ [10%Z])) as [|w ws] eqn:E; [|done].
      exfalso. destruct s as [|d s]; [done|]. cbn [app] in E. destruct (boundary d) eqn:Ed.
      * cbn [splitlines] in E. by rewrite Ed in E.
      * rewrite splitlines_cons in E by done. by destruct (splitlines (s ++ [10%Z])).
Qed.

Lemma splitlines_newline_pos s : 1 <= length (splitlines (s ++ [10%Z])).
Proof.
  destruct s as [|c s]; [apply le_n|]. cbn [app]. destruct (boundary c) eqn:Eb.
  - cbn [splitlines]. rewrite Eb. apply le_n_S, Nat.le_0_l.
  - rewrite splitlines_cons by done. destruct (splitlines (s ++ [10%Z])); apply le_n_S, Nat.le_0_l.
Qed.

Definition newlines (l : list Z) : nat := length (filter (fun b => b = 10%Z) l).

Lemma newlines_split l : 0 < newlines l -> exists x y, l = x ++ 10%Z :: y /\ newlines l = S (newlines y).
Proof.
  unfold newlines. induction l as [|b l IH]; [cbn; lia|]. rewrite filter_cons. case_decide as Hb.
  - subst b. exists [], l. done.
  - intros Hl. destruct (IH Hl) as (x & y & -> & E). exists (b :: x), y. done.
Qed.

Lemma newlines_lines n l : newlines l <= n -> newlines l <= length (splitlines (decode l)).
Proof.
  revert l. induction n as [|n IH]; intros l Hn; [lia|].
  destruct (decide (0 < newlines l)) as [Hl|]; [|lia].
  destruct (newlines_split l Hl) as (x & y & -> & E). rewrite (decode_newline (length x)) by done.
  rewrite (splitlines_newline (length (decode x))) by done. rewrite length_app.
  pose proof (splitlines_newline_pos (decode x)). specialize (IH y). lia.
Qed.

Lemma last_n_app {A} n (l k : list A) : n <= length k -> last_n n (l ++ k) = last_n n k.
Proof.
  intros Hn. unfold last_n. rewrite length_app, drop_app_ge by lia. f_equal. lia.
Qed.

(** With more than [n] newlines in the suffix, the last [n] lines do not
    depend on what is in front. *)
Lemma last_lines_suffix n pre raw : n < newlines raw ->
  last_n n (splitlines (decode (pre ++ raw))) = last_n n (splitlines (decode raw)).
Proof.
  intros Hn. destruct (newlines_split raw) as (x & y & -> & E); [lia|].
  assert (Hy : n <= length (splitlines (decode y))) by (pose proof (newlines_lines (newlines y) y); lia).
  rewrite (assoc_L (++)).
  rewrite (decode_newline (length (pre ++ x))), (decode_newline (length x)) by done.
  rewrite (splitlines_newline (length (decode (pre ++ x))) (decode (pre ++ x))) by lia.
  rewrite (splitlines_newline (length (decode x)) (decode x)) by lia.
  by rewrite !last_n_app by done.
Qed.

(** ** Bisection *)
Section Bisect.
Context (fits : nat -> bool) (high : nat).
Context (fits_mono : forall i j, i <= j <= high -> fits i = true -> fits j = true).

Lemma bisect_least fuel low top : top - low <= fuel -> low <= top <= high -> fits top = true ->
  let r := bisect fuel fits low top in
  low <= r <= top /\ fits r = true /\ (forall i, low <= i < r -> fits i = false).
Proof.
  revert low top. induction fuel as [|fuel IH]; intros low top Hf Hlt Htop; cbn [bisect].
  { replace top with low in * by lia. split; [lia|]. split; [done|lia]. }
  destruct (Nat.ltb_spec low top) as [Hl|Hg].
  2: { replace top with low in * by lia. split; [lia|]. split; [done|lia]. }
  set (mid := (low + top) / 2). assert (Hm : low <= mid < top) by (unfold mid; split; [apply Nat.div_le_lower_bound|apply Nat.Div0.div_lt_upper_bound]; lia).
  destruct (fits mid) eqn:Em.
  - destruct (IH low mid) as (Hr & Hfr & Hmin); [lia|lia|done|]. split; [lia|]. split; [done|]. exact Hmin.
  - destruct (IH (mid + 1) top) as (Hr & Hfr & Hmin); [lia|lia|done|]. split; [lia|]. split; [done|].
    intros i Hi. destruct (decide (i <= mid)) as [Hle|]; [|apply Hmin; lia].
    destruct (fits i) eqn:Ei; [|done]. rewrite (fits_mono i mid) in Em; [done|lia|done].
Qed.
End Bisect.

(** ** Sizes *)
Lemma encode_app s t : encode (s ++ t) = encode s ++ encode t.
Proof. unfold encode. by rewrite fmap_app, concat_app. Qed.

Lemma encoded_size_app s t : encoded_size (s ++ t) = (encoded_size s + encoded_size t)%Z.
Proof. unfold encoded_size. rewrite encode_app, length_app. lia. Qed.

Lemma encoded_size_nonneg s : (0 <= encoded_size s)%Z.
Proof. unfold encoded_size. lia. Qed.

Lemma encoded_size_cons c s : encoded_size (c :: s) = (encoded_size [c] + encoded_size s)%Z.
Proof. apply (encoded_size_app [c]). Qed.

Lemma encoded_size_char c : (1 <= encoded_size [c])%Z.
Proof. unfold encoded_size, encode. cbn. rewrite app_nil_r. unfold encode_char. repeat case_match; cbn; lia. Qed.

Lemma drop_split {A} i j (l : list A) : i <= j -> exists k, drop i l = k ++ drop j l.
Proof.
  intros Hij. exists (take (j - i) (drop i l)). replace (drop j l) with (drop (j - i) (drop i l)).
  - by rewrite take_drop.
  - rewrite drop_drop. f_equal. lia.
Qed.

Lemma encoded_size_drop i j s : i <= j -> (encoded_size (drop j s) <= encoded_size (drop i s))%Z.
Proof.
  intros [k ->]%(fun H => drop_split i j s H). rewrite encoded_size_app. pose proof (encoded_size_nonneg k). lia.
Qed.

(** ** The text on the wire *)
Lemma line_text_app s t : text_of (s ++ t) = text_of s +:+ text_of t.
Proof.
  unfold text_of. rewrite encode_app, foldr_app. generalize (encode s). intros l.
  induction l as [|b l IH]; [done|]. cbn [foldr]. by rewrite IH.
Qed.

Lemma escaped_app s t : escaped (s +:+ t) = escaped s +:+ escaped t.
Proof.
  induction s as [|c s IH]; [done|]. change (String c s +:+ t) with (String c (s +:+ t)). cbn [escaped].
  by rewrite IH, string_app_assoc.
Qed.

Definition line_size (s : list Z) : nat := String.length (quoted (text_of s)).

Lemma line_size_drop i j s : i <= j -> line_size (drop j s) <= line_size (drop i s).
Proof.
  intros [k ->]%(fun H => drop_split i j s H). unfold line_size, quoted.
  rewrite !string_length_app, line_text_app, escaped_app, !string_length_app. lia.
Qed.

Lemma serialized_cons s l :
  serialized_lines_size (s :: l) =
  match l with [] => Z.of_nat (line_size s + 2) | _ => (Z.of_nat (line_size s + 1) + serialized_lines_size l)%Z end.
Proof.
  unfold serialized_lines_size, bracketed, line_size. rewrite !string_length_app. destruct l as [|t l].
  - cbn [fmap list_fmap join String.length]. lia.
  - cbn [fmap list_fmap join]. rewrite !string_length_app. cbn [String.length]. lia.
Qed.

Lemma serialized_cons_le s l : (serialized_lines_size l <= serialized_lines_size (s :: l))%Z.
Proof.
  rewrite serialized_cons. destruct l; [|lia]. change (serialized_lines_size []) with 2%Z. lia.
Qed.

Lemma serialized_drop i j l : i <= j -> (serialized_lines_size (drop j l) <= serialized_lines_size (drop i l))%Z.
Proof.
  intros [k ->]%(fun H => drop_split i j l H). induction k as [|s k IH]; [done|].
  cbn [app]. etrans; [exact IH|apply serialized_cons_le].
Qed.

(** ** Joining the lines again *)
Lemma join_lines_cons s l : join_lines (s :: l) = s ++ match l with [] => [] | _ => 10%Z :: join_lines l end.
Proof. destruct l; cbn; [by rewrite app_nil_r|done]. Qed.

Lemma join_lines_cons_le s l : (encoded_size (join_lines l) <= encoded_size (join_lines (s :: l)))%Z.
Proof.
  rewrite join_lines_cons, encoded_size_app. pose proof (encoded_size_nonneg s). destruct l; [cbn; lia|].
  rewrite (encoded_size_cons 10). pose proof (encoded_size_char 10). lia.
Qed.

Lemma join_lines_drop i j l : i <= j -> (encoded_size (join_lines (drop j l)) <= encoded_size (join_lines (drop i l)))%Z.
Proof.
  intros [k ->]%(fun H => drop_split i j l H). induction k as [|s k IH]; [done|].
  cbn [app]. etrans; [exact IH|apply join_lines_cons_le].
Qed.

(** A boundary takes at least the byte of the newline it is replaced by. *)
Lemma join_splitlines n s : length s <= n -> (encoded_size (join_lines (splitlines s)) <= encoded_size s)%Z.
Proof.
  revert s. induction n as [|n IH]; intros [|c rest] Hl; try (cbn in *; lia).
  cbn in Hl. rewrite (encoded_size_cons c). pose proof (encoded_size_char c) as Hc.
  destruct (boundary c) eqn:Eb.
  - assert (Htail : forall l t, (encoded_size (join_lines l) <= encoded_size t)%Z ->
      (encoded_size (join_lines ([] :: l)) <= encoded_size [c] + encoded_size t)%Z).
    { intros l t Ht. rewrite join_lines_cons. cbn [app].
      destruct l; [change (encoded_size []) with 0%Z; pose proof (encoded_size_nonneg t); lia|].
      rewrite (encoded_size_cons 10). change (encoded_size [10%Z]) with 1%Z. lia. }
    cbn [splitlines]. rewrite Eb. apply Htail. destruct rest as [|d rest2]; [done|].
    destruct ((c =? 13)%Z && (d =? 10)%Z).
    + rewrite (encoded_size_cons d). pose proof (encoded_size_char d). cbn in Hl.
      specialize (IH rest2 ltac:(lia)). lia.
    + apply IH. lia.
  - rewrite splitlines_cons by done. specialize (IH rest ltac:(lia)).
    destruct (splitlines rest) as [|w ws]; [cbn [join_lines]; pose proof (encoded_size_nonneg rest); lia|].
    rewrite join_lines_cons in *. cbn [app]. rewrite (encoded_size_cons c). lia.
Qed.

(** * Theorems about the end of a log file *)

(** ** The backward loop *)
(** What it has read is a suffix, counted exactly; it stops for a reason. *)
Record scanned (content : list Z) (lines limit : nat) (res : list Z * nat * nat) : Prop := {
  scanned_raw : res.1.1 = drop res.1.2 content;
  scanned_position : res.1.2 <= length content;
  scanned_count : res.2 = length content - res.1.2;
  scanned_why : res.1.2 = 0 \/ limit <= res.2 \/ lines < newlines res.1.1
}.

Lemma scan_step (content : list Z) position amount : 0 < amount -> amount <= position <= length content ->
  let chunk := take amount (drop (position - amount) content) in
  length chunk = amount /\ chunk ++ drop position content = drop (position - amount) content.
Proof.
  intros Ha Hp chunk. unfold chunk. split; [rewrite length_take, length_drop; lia|].
  replace (drop position content) with (drop amount (drop (position - amount) content)).
  - apply take_drop.
  - rewrite drop_drop. f_equal. lia.
Qed.

Lemma scan_scanned fuel content lines limit position :
  position <= fuel -> position <= length content ->
  scanned content lines limit
    (scan fuel content lines limit position (length content - position) (newlines (drop position content))
       (drop position content)).
Proof.
  revert position. induction fuel as [|fuel IH]; intros position Hf Hp; cbn [scan].
  { replace position with 0 by lia. split; cbn [fst snd]; auto; lia. }
  set (read := length content - position). set (n := newlines (drop position content)).
  destruct (Nat.ltb_spec 0 position) as [Hpos|], (Nat.ltb_spec read limit) as [Hlim|], (Nat.leb_spec n lines) as [Hnl|];
    cbn [andb]; try (split; cbn [fst snd]; auto; unfold n in *; lia).
  set (amount := (READ_CHUNK_BYTES `min` position) `min` (limit - read)).
  assert (Ha : 0 < amount <= position).
  { unfold amount. assert (0 < READ_CHUNK_BYTES) by (unfold READ_CHUNK_BYTES; lia). lia. }
  destruct (scan_step content position amount) as [Hlen Happ]; [lia|lia|].
  set (chunk := take amount (drop (position - amount) content)) in *.
  rewrite bool_decide_false by (intros E; rewrite E in Hlen; cbn in Hlen; lia).
  rewrite Happ, Hlen. replace (read + amount) with (length content - (position - amount)) by (unfold read; lia).
  replace (n + length (filter (fun b => b = 10%Z) chunk)) with (newlines (drop (position - amount) content)).
  - apply IH; lia.
  - unfold n, newlines. rewrite <- Happ, filter_app, length_app. lia.
Qed.

Lemma scan_all content lines limit :
  scanned content lines limit (scan (length content) content lines limit (length content) 0 0 []).
Proof.
  pose proof (scan_scanned (length content) content lines limit (length content) ltac:(lia) ltac:(lia)) as Hs.
  by rewrite Nat.sub_diag, drop_all in Hs.
Qed.

(** ** The cuts *)
Lemma fit_utf8_longest value limit : (0 <= limit)%Z ->
  let '(res, cut) := fit_utf8_suffix value limit in
  (encoded_size res <= limit)%Z /\ (exists i, res = drop i value) /\ (cut = false -> res = value) /\
  (forall i, (encoded_size (drop i value) <= limit)%Z -> length (drop i value) <= length res).
Proof.
  intros Hl. unfold fit_utf8_suffix. destruct (Z.leb_spec (encoded_size value) limit) as [Hle|Hgt].
  { split; [done|]. split; [by exists 0|]. split; [done|]. intros i _. rewrite length_drop. lia. }
  set (fits i := (encoded_size (drop i value) <=? limit)%Z).
  destruct (bisect_least fits (length value)) with (fuel := length value) (low := 0) (top := length value)
    as (Hr & Hfr & Hmin); [|lia|lia|..].
  - intros i j Hij. unfold fits. rewrite !Z.leb_le. pose proof (encoded_size_drop i j value). lia.
  - unfold fits. rewrite drop_all. by apply Z.leb_le.
  - split; [by apply Z.leb_le|]. split; [by eexists|]. split; [done|]. intros i Hi. rewrite !length_drop.
    destruct (decide (i < bisect (length value) fits 0 (length value))) as [Hlt|]; [|lia].
    specialize (Hmin i ltac:(lia)). unfold fits in Hmin. apply Z.leb_gt in Hmin. lia.
Qed.

Lemma trim_content_never limit selected :
  (encoded_size (join_lines selected) <= limit)%Z -> trim_content limit selected = (selected, false).
Proof. intros Hl. unfold trim_content. by rewrite (proj2 (Z.ltb_ge _ _)) by lia. Qed.

(** [res] is what remains of [lines]: whole lines from the end on, or the end
    of the last line. *)
Definition line_suffix (lines res : list (list Z)) : Prop :=
  (exists i, res = drop i lines) \/ (exists line i, last lines = Some line /\ res = [drop i line]).

Lemma fit_json_cases lines :
  let '(res, cut) := fit_json_budget lines in
  fits_budget res = true /\ line_suffix lines res /\ (cut = false -> res = lines) /\
  (forall i, fits_budget (drop i lines) = true -> length (drop i lines) <= length res).
Proof.
  unfold fit_json_budget. destruct (last lines) as [line|] eqn:El.
  2: { apply last_None in El as ->. split; [done|]. split; [left; by exists 0|]. split; [done|]. intros i _. by rewrite drop_nil. }
  destruct (fits_budget lines) eqn:Ef.
  { split; [done|]. split; [left; by exists 0|]. split; [done|]. intros i _. rewrite length_drop. lia. }
  apply last_Some in El as [before ->]. set (lines := before ++ [line]) in *.
  assert (Hlast : drop (length lines - 1) lines = [line])
    by (unfold lines; rewrite length_app, Nat.add_sub; apply drop_app_length).
  destruct (fits_budget [line]) eqn:Efl.
  - assert (Hbefore : 1 <= length before) by (destruct before; [unfold lines in Ef; cbn in *; congruence|cbn; lia]).
    set (fits i := fits_budget (drop i lines)).
    destruct (bisect_least fits (length lines)) with (fuel := length lines) (low := 1) (top := length lines - 1)
      as (Hr & Hfr & Hmin).
    + intros i j Hij. unfold fits, fits_budget. rewrite !Z.leb_le. pose proof (serialized_drop i j lines). lia.
    + lia.
    + unfold lines. rewrite length_app. cbn. lia.
    + unfold fits. by rewrite Hlast.
    + split; [exact Hfr|]. split; [left; by eexists|]. split; [done|]. intros i Hi. rewrite !length_drop.
      destruct (decide (i < bisect (length lines) fits 1 (length lines - 1))) as [Hlt|]; [|lia].
      destruct i as [|i]; [by rewrite drop_0, Ef in Hi|].
      specialize (Hmin (S i) ltac:(lia)). unfold fits in Hmin. congruence.
  - set (fits i := fits_budget [drop i line]).
    destruct (bisect_least fits (length line)) with (fuel := length line) (low := 0) (top := length line)
      as (Hr & Hfr & Hmin); [|lia|lia|..].
    + intros i j Hij. unfold fits, fits_budget. rewrite !Z.leb_le, !serialized_cons.
      pose proof (line_size_drop i j line). lia.
    + unfold fits. by rewrite drop_all.
    + split; [exact Hfr|]. split; [right; eexists _, _; split; [apply last_snoc|done]|]. split; [done|].
      intros i Hi. cbn [length]. destruct (drop i lines) as [|s l] eqn:Ed; [cbn; lia|]. exfalso.
      assert (Hi' : i <= length lines - 1) by (apply (f_equal length) in Ed; rewrite length_drop in Ed; cbn in Ed; lia).
      pose proof (serialized_drop i (length lines - 1) lines Hi') as Hle. rewrite Hlast, Ed in Hle.
      unfold fits_budget in Hi, Efl. apply Z.leb_le in Hi. apply Z.leb_gt in Efl. lia.
Qed.

(** The joined lines of a suffix are no longer. *)
Lemma line_suffix_size lines res : line_suffix lines res ->
  (encoded_size (join_lines res) <= encoded_size (join_lines lines))%Z /\ length res <= length lines.
Proof.
  intros [[i ->]|(line & i & El & ->)].
  - split; [apply (join_lines_drop 0); lia|rewrite length_drop; lia].
  - apply last_Some in El as [before ->]. split.
    + pose proof (join_lines_drop 0 (length before) (before ++ [line]) ltac:(lia)) as Hd.
      rewrite drop_app_length in Hd. cbn [join_lines] in *. pose proof (encoded_size_drop 0 i line ltac:(lia)) as Hi.
      rewrite !drop_0 in *. lia.
    + rewrite length_app. cbn. lia.
Qed.

(** ** What is selected *)
Lemma available_size decoded lines :
  (encoded_size (join_lines (last_n lines (splitlines decoded))) <= encoded_size decoded)%Z.
Proof.
  etrans; [apply (join_lines_drop 0); lia|]. rewrite drop_0. by apply (join_splitlines (length decoded)).
Qed.

Lemma last_n_length {A} n (l : list A) : length (last_n n l) <= n.
Proof. unfold last_n. rewrite length_drop. lia. Qed.

(** The tail stays within its limits.  At most the requested number of
    lines is returned, joined they take no more than the byte limit, and the
    JSON list of the response takes no more than its budget, whatever the file
    holds: the cut in the middle, by joined size, never happens. *)
Theorem tail_within_limits (content : list Z) (lines : nat) (limit : Z) :
  (0 <= limit)%Z ->
  let '(res, truncated) := read_content content lines limit in
  length res <= lines /\ (encoded_size (join_lines res) <= limit)%Z /\
  (serialized_lines_size res <= SERIALIZED_LINES_BUDGET)%Z.
Proof.
  intros Hl. unfold read_content. destruct (scan _ _ _ _ _ _ _ _) as [[raw position] bytes_read].
  pose proof (fit_utf8_longest (decode raw) limit Hl) as Hu. destruct (fit_utf8_suffix _ _) as [decoded byte_trimmed].
  destruct Hu as (Hsize & _). pose proof (available_size decoded lines) as Ha.
  rewrite trim_content_never by lia.
  pose proof (fit_json_cases (last_n lines (splitlines decoded))) as Hj.
  destruct (fit_json_budget _) as [res cut]. destruct Hj as (Hfit & Hsuf & _).
  apply line_suffix_size in Hsuf as [Hs Hn]. pose proof (last_n_length lines (splitlines decoded)).
  split; [lia|]. split; [lia|]. by apply Z.leb_le.
Qed.

(** C27: the tail is the end of the file.  A result that is not marked as
    truncated is all lines of the file.  When the backward loop stopped before
    its byte limit (or at the start of the file) and nothing had to be cut to
    a size, the result is exactly the last [lines] lines of the decoded file,
    although only a suffix of its bytes was read and decoded. *)
Theorem tail_exact (content : list Z) (lines : nat) (limit : Z) :
  (0 <= limit)%Z ->
  let all := splitlines (decode content) in
  let '(raw, position, bytes_read) :=
    scan (length content) content lines (Z.to_nat limit) (length content) 0 0 [] in
  let '(res, truncated) := read_content content lines limit in
  (truncated = false -> res = all) /\
  (position = 0 \/ bytes_read < Z.to_nat limit -> (encoded_size (decode raw) <= limit)%Z ->
   (serialized_lines_size (last_n lines all) <= SERIALIZED_LINES_BUDGET)%Z -> res = last_n lines all).
Proof.
  intros Hl all. unfold read_content. pose proof (scan_all content lines (Z.to_nat limit)) as [Hraw Hpos Hcount Hwhy].
  destruct (scan _ _ _ _ _ _ _ _) as [[raw position] bytes_read]. cbn [fst snd] in *.
  pose proof (fit_utf8_longest (decode raw) limit Hl) as Hu.
  destruct (fit_utf8_suffix (decode raw) limit) as [decoded byte_trimmed] eqn:Efu. destruct Hu as (Hsize & _ & Hcut & _).
  pose proof (available_size decoded lines) as Ha. rewrite trim_content_never by lia.
  pose proof (fit_json_cases (last_n lines (splitlines decoded))) as Hj.
  destruct (fit_json_budget _) as [res cut] eqn:Ej. destruct Hj as (_ & _ & Hwire & _). split.
  - intros Htr. apply orb_false_iff in Htr as [Htr Hc]. apply orb_false_iff in Htr as [Htr _].
    apply orb_false_iff in Htr as [Htr Hb]. apply orb_false_iff in Htr as [Htr _]. apply orb_false_iff in Htr as [Hp Hn].
    apply Nat.ltb_ge in Hp, Hn. rewrite Hwire, Hcut in * by done. unfold last_n.
    replace (length (splitlines (decode raw)) - lines) with 0 by lia. rewrite drop_0. unfold all. do 2 f_equal.
    rewrite Hraw. replace position with 0 by lia. apply drop_0.
  - intros Hstop Hdec Hser.
    assert (decoded = decode raw) as ->.
    { unfold fit_utf8_suffix in Efu. rewrite (proj2 (Z.leb_le _ _)) in Efu by done. by injection Efu. }
    assert (Hlast : last_n lines (splitlines (decode raw)) = last_n lines all).
    { destruct (decide (position = 0)) as [->|Hp0]; [by rewrite Hraw, drop_0|].
      destruct Hwhy as [|[|Hnl]]; [done|lia|].
      rewrite <- (last_lines_suffix lines (take position content) raw) by done. unfold all. do 3 f_equal.
      by rewrite Hraw, take_drop. }
    rewrite Hlast in Ej. unfold fit_json_budget in Ej. unfold fits_budget at 1 in Ej.
    rewrite (proj2 (Z.leb_le _ _)) in Ej by done. destruct (last _); by injection Ej.
Qed.

(** The binary searches find the longest suffix that fits.  No suffix of
    the text within the byte limit is longer than the one
    [_fit_utf8_suffix] returns, and no suffix of the lines within the budget
    has more lines than the one [_fit_json_budget] returns; both return such a
    suffix, the second one a part of the last line when not even that line
    fits. *)
Theorem cuts_are_longest (value : list Z) (limit : Z) (lines : list (list Z)) :
  (0 <= limit)%Z ->
  let '(text, _) := fit_utf8_suffix value limit in
  let '(res, _) := fit_json_budget lines in
  (encoded_size text <= limit)%Z /\ (exists i, text = drop i value) /\
  (forall i, (encoded_size (drop i value) <= limit)%Z -> length (drop i value) <= length text) /\
  fits_budget res = true /\ line_suffix lines res /\
  (forall i, fits_budget (drop i lines) = true -> length (drop i lines) <= length res).
Proof.
  intros Hl. pose proof (fit_utf8_longest value limit Hl) as Hu. pose proof (fit_json_cases lines) as Hj.
  destruct (fit_utf8_suffix _ _), (fit_json_budget _). naive_solver.
Qed.


(** ** Samples *)
(** Three lines of two bytes, of which two are asked for. *)
Definition sample_log : list Z := [65; 10; 66; 10; 67; 10]%Z.

Lemma tail_within_limits_witness :
  (read_content sample_log 2 100).1 = [[66]; [67]]%Z /\ length (read_content sample_log 2 100).1 <= 2.
Proof.
  pose proof (tail_within_limits sample_log 2 100 ltac:(lia)) as Ht.
  split; [vm_compute; reflexivity|].
  destruct (read_content sample_log 2 100) as [res truncated]. exact (proj1 Ht).
Defined.

Lemma tail_exact_witness : (read_content sample_log 2 100).1 = last_n 2 (splitlines (decode sample_log)).
Proof.
  pose proof (tail_exact sample_log 2 100 ltac:(lia)) as Ht.
  destruct (scan _ _ _ _ _ _ _ _) as [[raw position] bytes_read] eqn:Es. vm_compute in Es. injection Es as <- <- <-.
  destruct (read_content sample_log 2 100) as [res truncated]. apply (proj2 Ht); [by left|..]; vm_compute; discriminate.
Defined.

Lemma cuts_are_longest_witness :
  (fit_utf8_suffix [8364; 65; 66]%Z 3).1 = [65; 66]%Z /\ (encoded_size (fit_utf8_suffix [8364; 65; 66]%Z 3).1 <= 3)%Z.
Proof.
  pose proof (cuts_are_longest [8364; 65; 66]%Z 3 [] ltac:(lia)) as Ht. split; [vm_compute; reflexivity|].
  destruct (fit_utf8_suffix _ _), (fit_json_budget _). exact (proj1 Ht).
Defined.
