(* ===== verification/DiscoveryService.v ===== *)
(** * The discovery service

    [DiscoveryService] of [src/backend/ic_env_guard/discovery/service.py] and
    the recorder of [discovery/audit.py].  A scan is a task with a queue of
    targets and several workers; a worker runs undisturbed between two
    [await]s, so the workers are a transition system: one transition is the
    code up to the next [await].  The semaphore is shared by all scans, the
    probe itself is the outside. *)

From stdpp Require Import base tactics list gmap strings pretty.
From Stdlib Require Import ZArith Lia Ascii.
From S2P Require Import Prelude Text Sql Models Schema EnrollmentJournal ManagerRegistry RemovalJournal TargetPolicy Discovery.

(** ** Scopes and targets *)
Record DiscoveryEndpoint := mkEndpoint {
  endpoint_port : Z;
  endpoint_transport_profile_id : string
}.

Record DiscoveryScope := mkScope {
  scope_id : string;
  scope_cidr : IPNetwork;
  scope_endpoints : list DiscoveryEndpoint
}.

Record DiscoveryConfig := mkDiscoveryConfig {
  max_concurrency : nat;
  job_timeout_seconds : Z;
  retention_seconds : Z;
  max_targets : Z
}.

Record DiscoveryService := mkDiscoveryService {
  svc_config : DiscoveryConfig;
  svc_scopes : list DiscoveryScope;
  svc_profiles : list TransportProfile;
  svc_self_targets : list string;
  svc_has_recorder : bool
}.

(** The [n] lowest base-[b] digits of a number, highest first. *)
Fixpoint digits (b : Z) (n : nat) (v : Z) : list Z :=
  match n with 0 => [] | S n => digits b n (v / b) ++ [(v mod b)%Z] end.

Definition address_of (v6 : bool) (v : Z) : IPAddress :=
  if v6 then V6 (digits 65536 8 v) None else V4 (digits 256 4 v).

(** [network.hosts()]: without the network address (and, for IPv4, the
    broadcast address) unless the network has one or two addresses. *)
Definition host_values (n : IPNetwork) : list Z :=
  let size := (2 ^ network_host_bits n)%Z in
  let first := network_address n in
  if (size <=? 2)%Z then seqZ first size
  else if network_v6 n then seqZ (first + 1) (size - 1) else seqZ (first + 1) (size - 2).

Definition hosts (n : IPNetwork) : list IPAddress := address_of (network_v6 n) <$> host_values n.

Section Service.
Context (self : DiscoveryService).

(** [self._profiles.get] and [self._scopes.get]: of two entries with one id the
    dictionary keeps the last. *)
Definition profile_by_id (id : string) : option TransportProfile :=
  list_find (fun p => profile_id p = id) (reverse (svc_profiles self)) ≫= fun found => Some found.2.

Definition expected_scheme (p : option TransportProfile) : string :=
  match p with Some (TrustedLanHttpProfile _ _) => "http" | _ => "https" end.

(** One endpoint of one address; [None] is the [KeyError] of an unknown
    profile. *)
Definition scope_target (address : IPAddress) (e : DiscoveryEndpoint) : option DiscoveryTarget :=
  match profile_by_id (endpoint_transport_profile_id e) with
  | None => None
  | Some p => Some (mkTarget (ip_text address) (endpoint_port e) (profile_id p) (expected_scheme (Some p)))
  end.

Definition scope_targets (scope : DiscoveryScope) : option (list DiscoveryTarget) :=
  mapM (fun ae => scope_target ae.1 ae.2)
    (address ← hosts (scope_cidr scope); e ← scope_endpoints scope; [(address, e)]).

Definition find_scope (id : string) : option DiscoveryScope :=
  list_find (fun s => scope_id s = id) (reverse (svc_scopes self)) ≫= fun found => Some found.2.

(** ** The outcome in the audit log *)
(** [bounded_text] of [db/repositories.py]: a
    long text keeps its first characters. *)
Fixpoint first_characters (n : nat) (s : string) : string :=
  match s with
  | EmptyString => ""
  | String c rest =>
      if in_range "128" "191" c then String c (first_characters n rest)
      else match n with 0 => "" | S n => String c (first_characters n rest) end
  end.

Definition bounded_text (limit : nat) (value : string) : string :=
  if characters value <=? limit then value else first_characters (limit - 15) value +:+ "<truncated>".

Definition dispatch_text (s : DiscoveryDispatchState) : string :=
  match s with NOT_DISPATCHED => "not_dispatched" | DISPATCH_UNKNOWN => "unknown" | DISPATCHED => "dispatched" end.

Definition failure_category (job : DiscoveryJob) : option string :=
  match discovery_state job with
  | D_CANCELLED => Some "discovery_cancelled"
  | D_FAILED => Some (if truthy (discovery_safe_error_code job) then default "" (discovery_safe_error_code job)
                      else "discovery_failed")
  | _ => None
  end.

Definition finalized (result dispatch_state : string) (category : option string) (e : AuditRow) : AuditRow :=
  e <| audit_result := result |> <| audit_dispatch_state := dispatch_state |>
    <| audit_failure_category := category |>.

(** [DiscoveryAuditOutcomeRecorder.__call__] and
    [ControlPlaneAuditRepository.finalize_pending] *)
Definition record_outcome (job : DiscoveryJob) (db : DB) : DB :=
  (write (A := nat) storage_error
    (update_audit
      (fun id e => (id =? discovery_start_audit_event_id job)%Z && bool_decide (audit_result e = "pending") &&
                   bool_decide (audit_operation e = bounded_text 255 "discovery.start") &&
                   bool_decide (audit_target e = bounded_text 255 ("discovery:" +:+ discovery_scope_id job)))
      (finalized (if discovery_is D_COMPLETED job then "success" else "failed")
         (dispatch_text (discovery_dispatch_state job)) (bounded_text 64 <$> failure_category job))) db).2.

Definition recorded (job : DiscoveryJob) (db : DB) : DB :=
  if svc_has_recorder self then record_outcome job db else db.

Definition recorded_all (jobs : list DiscoveryJob) (db : DB) : DB := foldl (fun db job => recorded job db) db jobs.

(** ** Starting *)
(** What the service raises: an error of the registry or the storage, or the
    [KeyError] of an unknown transport profile. *)
Inductive discovery_exn :=
| Raised (e : exn)
| KeyError.

Definition service_start (closing : bool) (id : string) (start_audit_event_id : Z) (uuid4 : string) (now now' : time)
    (db : DB) : (discovery_exn + DiscoveryJob * list DiscoveryTarget) * DB :=
  if closing then (inl (Raised (RegistryConflict "discovery_unavailable")), db)
  else match find_scope id with
  | None =>
      (inl (Raised (RegistryConflict (if bool_decide (svc_scopes self = []) then "discovery_disabled"
                                      else "discovery_scope_not_found"))), db)
  | Some scope =>
      match expire_deadlines now db with
      | (inl e, db) => (inl (Raised e), db)
      | (inr expired, db) =>
          let db := recorded_all expired db in
          match scope_targets scope with
          | None => (inl KeyError, db)
          | Some targets =>
              let n := Z.of_nat (length targets) in
              if (max_targets (svc_config self) <? n)%Z
              then (inl (Raised (RegistryConflict "discovery_target_limit")), db)
              else match create_job (new_discovery uuid4 id n start_audit_event_id now'
                                       (job_timeout_seconds (svc_config self))) 32 db with
                   | (inl e, db) => (inl (Raised e), db)
                   | (inr job, db) => (inr (job, targets), db)
                   end
          end
      end
  end.

(** ** Classification of a result *)
Definition classify (result : DiscoveryResult) (db : DB) : string * option string :=
  if result_found result &&
     match (find_duplicate None (result_canonical_url result) db).1 with inr (Some _) => true | _ => false end
  then ("already_registered", Some "already_registered")
  else
    let unlinked := if result_found result then ("new", Some "enrollment_required") else ("unavailable", None) in
    match result_linked_enrollment_id result with
    | None => unlinked
    | Some id =>
        if bool_decide (id = "") then unlinked
        else match (journal_get id db).1 with
        | inr (Some enrollment) =>
            match job_state enrollment with
            | VERIFIED => ("new", Some "verified")
            | CONSUMED => ("already_registered", Some "already_registered")
            | s => if negb (terminal s) then ("new", Some "enrolling") else unlinked
            end
        | _ => unlinked
        end
    end.

(** ** The workers of a scan *)
Inductive Worker :=
| Looping
| Waiting (target : DiscoveryTarget)
| Probing (target : DiscoveryTarget)
| Finished
| Died.

Inductive ProbeAnswer :=
| Fingerprint (version : option string)
| ProbeTimeout
| ProbeError (code : string)
| ProbeRaises.

Definition SAFE_PROBE_ERRORS : list string :=
  ["timeout"; "network_error"; "fingerprint_too_large"; "transport_profile_unknown"; "transport_profile_mismatch"].

Definition is_own_address (t : DiscoveryTarget) : bool := bool_decide (target_ip t ∈ svc_self_targets self).

Definition target_key (t : DiscoveryTarget) : string * Z * string :=
  (target_ip t, target_port t, target_transport_profile_id t).

Definition profile_fits (t : DiscoveryTarget) : bool :=
  let p := profile_by_id (target_transport_profile_id t) in
  is_some p && bool_decide (target_scheme t = expected_scheme p).

Section Workers.
Context (job_id : string) (deadline : Z).

(** [record_result]: an exception ends the worker. *)
Definition put_result (uuid4 : string) (target : DiscoveryTarget) (fingerprint error : option string) (now : time)
    (db : DB) : DB * Worker :=
  match record_result uuid4 job_id target fingerprint error now db with
  | (inl _, db) => (db, Died)
  | (inr _, db) => (db, Looping)
  end.

(** One iteration up to the semaphore. *)
Definition loop_head (uuid4 : string) (now : time) (monotonic : Z) (queue : list DiscoveryTarget) (db : DB)
    : DB * list DiscoveryTarget * Worker :=
  match queue with
  | [] => (db, [], Finished)
  | target :: rest =>
      match discovery_jobs db !! job_id with
      | None => (db, queue, Finished)
      | Some job =>
          if discovery_cancel_requested job || (deadline <=? monotonic)%Z then (db, queue, Finished)
          else if is_own_address target then
            let '(db, w) := put_result uuid4 target None (Some "self_target_forbidden") now db in (db, rest, w)
          else if negb (profile_fits target) then
            let '(db, w) := put_result uuid4 target None (Some "transport_profile_mismatch") now db in (db, rest, w)
          else (db, rest, Waiting target)
      end
  end.

Definition merged (state : DiscoveryDispatchState) (now : time) (db : DB) : bool * DB :=
  match merge_dispatch (fun db => db) job_id state now db with
  | (inl _, db) => (false, db)
  | (inr _, db) => (true, db)
  end.

(** The semaphore is acquired: the dispatch is announced, then the probe
    starts.  What is raised here counts as a network error. *)
Definition begin_probe (uuid4 : string) (target : DiscoveryTarget) (now : time) (db : DB) : DB * Worker :=
  match merged DISPATCH_UNKNOWN now db with
  | (true, db) => (db, Probing target)
  | (false, db) => put_result uuid4 target None (Some "network_error") now db
  end.

(** The probe has answered. *)
Definition end_probe (uuid4 : string) (target : DiscoveryTarget) (answer : ProbeAnswer) (now : time) (db : DB)
    : DB * Worker :=
  match answer with
  | Fingerprint version =>
      match merged DISPATCHED now db with
      | (true, db) =>
          put_result uuid4 target version (if is_none version then Some "fingerprint_mismatch" else None) now db
      | (false, db) => put_result uuid4 target version (Some "network_error") now db
      end
  | ProbeTimeout => put_result uuid4 target None (Some "timeout") now db
  | ProbeError code =>
      let error := if bool_decide (code ∈ SAFE_PROBE_ERRORS) then code else "fingerprint_error" in
      if bool_decide (code ∈ ["network_error"; "fingerprint_too_large"]) then
        match merged DISPATCHED now db with
        | (true, db) => put_result uuid4 target None (Some error) now db
        | (false, db) => (db, Died)
        end
      else put_result uuid4 target None (Some error) now db
  | ProbeRaises => put_result uuid4 target None (Some "network_error") now db
  end.

(** A scan between two steps; [scan_others] permits of the semaphore are held
    by other scans, [scan_probed] are the targets probed so far, and
    [scan_clock] is the last reading of [monotonic()]. *)
Record Scan := mkScan {
  scan_db : DB;
  scan_queue : list DiscoveryTarget;
  scan_workers : list Worker;
  scan_others : nat;
  scan_probed : list DiscoveryTarget;
  scan_clock : Z
}.

Definition probing (w : Worker) : bool := match w with Probing _ => true | _ => false end.

Definition in_flight (ws : list Worker) : nat := length (filter (fun w => probing w = true) ws).

(** [outside] is what other tasks and connections may do to the database. *)
Inductive scan_step (outside : relation DB) : Scan -> Scan -> Prop :=
| StepHead s i uuid4 now monotonic db queue w :
    scan_workers s !! i = Some Looping ->
    discovery_results (scan_db s) !! uuid4 = None ->
    (scan_clock s <= monotonic)%Z ->
    loop_head uuid4 now monotonic (scan_queue s) (scan_db s) = (db, queue, w) ->
    scan_step outside s
      (mkScan db queue (<[i := w]> (scan_workers s)) (scan_others s) (scan_probed s) monotonic)
| StepAcquire s i uuid4 target now db w :
    scan_workers s !! i = Some (Waiting target) ->
    in_flight (scan_workers s) + scan_others s < max_concurrency (svc_config self) ->
    discovery_results (scan_db s) !! uuid4 = None ->
    begin_probe uuid4 target now (scan_db s) = (db, w) ->
    scan_step outside s
      (mkScan db (scan_queue s) (<[i := w]> (scan_workers s)) (scan_others s)
         (if probing w then target :: scan_probed s else scan_probed s) (scan_clock s))
| StepAnswer s i uuid4 target answer now db w :
    scan_workers s !! i = Some (Probing target) ->
    discovery_results (scan_db s) !! uuid4 = None ->
    end_probe uuid4 target answer now (scan_db s) = (db, w) ->
    scan_step outside s
      (mkScan db (scan_queue s) (<[i := w]> (scan_workers s)) (scan_others s) (scan_probed s) (scan_clock s))
| StepOthers s n db :
    in_flight (scan_workers s) + n <= max_concurrency (svc_config self) -> outside (scan_db s) db ->
    scan_step outside s (mkScan db (scan_queue s) (scan_workers s) n (scan_probed s) (scan_clock s)).

(** The start of [_run] after a successful claim. *)
Definition unchecked (targets : list DiscoveryTarget) (checked : gset (string * Z * string)) : list DiscoveryTarget :=
  filter (fun t => target_key t ∉ checked) targets.

Definition scan_start (targets : list DiscoveryTarget) (others : nat) (monotonic : Z) (db : DB) : Scan :=
  let checked := match (result_keys job_id db).1 with inr keys => keys | inl _ => ∅ end in
  let targets := unchecked targets checked in
  mkScan db targets (replicate (max_concurrency (svc_config self) `min` length targets) Looping) others [] monotonic.

(** The end of [_run], when every worker has ended. *)
Definition scan_end (now : time) (monotonic : Z) (db : DB) : DB :=
  match discovery_jobs db !! job_id with
  | None => db
  | Some latest =>
      let '(state, error) :=
        if discovery_cancel_requested latest then (D_CANCELLED, None)
        else if (deadline <=? monotonic)%Z && (discovery_checked_targets latest <? discovery_total_targets latest)%Z
        then (D_FAILED, Some "job_timeout")
        else (D_COMPLETED, None) in
      match finish (fun db => db) job_id state now error db with
      | (inl _, db) => db
      | (inr finished, db) => if negb (discovery_active finished) then recorded finished db else db
      end
  end.

Definition ended (s : Scan) : Prop := Forall (fun w => w = Finished \/ w = Died) (scan_workers s).
End Workers.

(** ** Cancellation *)
(** [waited] is what happens while the cancelled task is awaited. *)
Definition service_cancel (job_id : string) (now now' : time) (waited : DB -> DB) (db : DB)
    : (discovery_exn + DiscoveryJob) * DB :=
  match request_cancel (fun db => db) job_id now db with
  | (inl e, db) => (inl (Raised e), db)
  | (inr _, db) =>
      match finish (fun db => db) job_id D_CANCELLED now' None (waited db) with
      | (inl e, db) => (inl (Raised e), db)
      | (inr finished, db) => (inr finished, recorded finished db)
      end
  end.

(** ** Recovery at start-up *)
(** The scans that are resumed, each with its targets; a scan without a scope
    ends.  An unknown profile stops the recovery. *)
Definition resume_scan (now : time) (job : DiscoveryJob) (tasks : list (string * list DiscoveryTarget)) (db : DB)
    : (discovery_exn + list (string * list DiscoveryTarget)) * DB :=
  match find_scope (discovery_scope_id job) with
  | None =>
      match finish (fun db => db) (discovery_job_id job) D_FAILED now (Some "scope_unavailable") db with
      | (inl e, db) => (inl (Raised e), db)
      | (inr finished, db) => (inr tasks, recorded finished db)
      end
  | Some scope =>
      match scope_targets scope with
      | None => (inl KeyError, db)
      | Some targets => (inr (tasks ++ [(discovery_job_id job, targets)]), db)
      end
  end.

Fixpoint resume_scans (now : time) (jobs : list DiscoveryJob) (tasks : list (string * list DiscoveryTarget)) (db : DB)
    : (discovery_exn + list (string * list DiscoveryTarget)) * DB :=
  match jobs with
  | [] => (inr tasks, db)
  | job :: jobs =>
      match resume_scan now job tasks db with
      | (inl e, db) => (inl e, db)
      | (inr tasks, db) => resume_scans now jobs tasks db
      end
  end.

Definition service_recover (now : time) (db : DB) : (discovery_exn + list (string * list DiscoveryTarget)) * DB :=
  match recover now db with
  | (inl e, db) => (inl (Raised e), db)
  | (inr (resumable, ended), db) =>
      let db := recorded_all ended db in
      match (if svc_has_recorder self then terminal_jobs_with_pending_audit db else (inr [], db)) with
      | (inl e, db) => (inl (Raised e), db)
      | (inr pending, db) =>
          let db := recorded_all pending db in
          match cleanup (now - seconds (retention_seconds (svc_config self)))%Z db with
          | (inl e, db) => (inl (Raised e), db)
          | (inr _, db) => resume_scans now resumable [] db
          end
      end
  end.
End Service.
