(* ===== verification/ScanFacts.v ===== *)
(** * Facts about a running scan

    What one call of the discovery repository does to the job of a scan and to
    the set of targets that have a result, and what follows for the workers. *)

From stdpp Require Import base tactics list gmap strings relations.
From Stdlib Require Import ZArith Lia.
From S2P Require Import Prelude Text Sql Models Schema JobValidation MutationFence.
From S2P Require Import EnrollmentJournal ManagerRegistry RemovalJournal Discovery Lifecycle DiscoveryInvariant.
From S2P Require Import TargetPolicy DiscoveryService.

(** ** Runs and lists *)
Lemma rtc_keeps {A} (R : relation A) (P : A -> Prop) x y :
  (forall a b, R a b -> P a -> P b) -> P x -> rtc R x y -> P y.
Proof. intros HR Hx Hxy. revert Hx. induction Hxy; eauto. Qed.

Lemma NoDup_submseteq_l {A} (l k : list A) : NoDup k -> l ⊆+ k -> NoDup l.
Proof. intros Hk [l' E]%submseteq_Permutation. rewrite E in Hk. by apply NoDup_app in Hk as [? _]. Qed.

(** ** The targets with a result *)
Definition key_of (r : DiscoveryResult) : string * Z * string :=
  (result_ip r, result_port r, result_transport_profile_id r).

Definition rows_of (job_id : string) (db : DB) : list DiscoveryResult :=
  filter (fun r => result_job_id r = job_id) (map_to_list (discovery_results db)).*2.

Definition checked_keys (job_id : string) (db : DB) : list (string * Z * string) := key_of <$> rows_of job_id db.

Lemma elem_rows_of id db r :
  r ∈ rows_of id db <-> result_job_id r = id /\ exists k, discovery_results db !! k = Some r.
Proof.
  unfold rows_of. rewrite list_elem_of_filter, list_elem_of_fmap. split.
  - intros [? ([k r'] & -> & Hx%elem_of_map_to_list)]. eauto.
  - intros (? & k & Hk%elem_of_map_to_list). split; [done|]. by exists (k, r).
Qed.

Lemma elem_checked id db x :
  x ∈ checked_keys id db <-> exists k r, discovery_results db !! k = Some r /\ result_job_id r = id /\ key_of r = x.
Proof.
  unfold checked_keys. rewrite list_elem_of_fmap. setoid_rewrite elem_rows_of. naive_solver.
Qed.

Lemma result_keys_elem id db keys db' x :
  result_keys id db = (inr keys, db') -> (x ∈ keys <-> x ∈ checked_keys id db).
Proof. intros [= <- _]. by rewrite elem_of_list_to_set. Qed.

Lemma count_where_rows (cond : DiscoveryResult -> bool) (t : gmap string DiscoveryResult) :
  count_where cond t = length (filter (fun r => cond r = true) (map_to_list t).*2).
Proof.
  unfold count_where. rewrite <- length_map_to_list, map_filter_alt, map_to_list_to_map.
  - induction (map_to_list t) as [|[k r] l IH]; [done|]. rewrite fmap_cons, !filter_cons. cbn.
    destruct (decide (cond r = true)); cbn; by rewrite IH.
  - apply NoDup_fmap_fst; [|apply NoDup_filter, NoDup_map_to_list].
    intros k r r' [_ H1%elem_of_map_to_list]%list_elem_of_filter [_ H2%elem_of_map_to_list]%list_elem_of_filter.
    congruence.
Qed.

Lemma results_of_length id db : results_of id (discovery_results db) = length (checked_keys id db).
Proof.
  unfold results_of, checked_keys, rows_of. rewrite count_where_rows, length_fmap. f_equal.
  apply list_filter_iff. intros r. by rewrite bool_decide_eq_true.
Qed.

Lemma found_le_results id t : found_of id t <= results_of id t.
Proof.
  unfold found_of, results_of. rewrite !count_where_rows.
  induction (map_to_list t) as [|[k r] l IH]; [done|]. rewrite fmap_cons, !filter_cons. cbn.
  destruct (bool_decide (result_job_id r = id)), (result_found r); cbn; repeat case_decide; cbn; try done; lia.
Qed.

(** One result per target. *)
Definition unique_keys (t : gmap string DiscoveryResult) : Prop :=
  forall k r k' r', t !! k = Some r -> t !! k' = Some r' -> result_key r = result_key r' -> k = k'.

Lemma checked_keys_NoDup id db : unique_keys (discovery_results db) -> NoDup (checked_keys id db).
Proof.
  intros W. unfold checked_keys, rows_of.
  assert (Hin : forall k r, (k, r) ∈ map_to_list (discovery_results db) -> discovery_results db !! k = Some r)
    by (intros k r; by rewrite elem_of_map_to_list).
  pose proof (NoDup_fst_map_to_list (discovery_results db)) as Hnd. revert Hin Hnd.
  induction (map_to_list (discovery_results db)) as [|[k r] l IH]; intros Hin Hnd; [constructor|].
  apply NoDup_cons in Hnd as [Hk Hnd]. rewrite fmap_cons, filter_cons. cbn.
  assert (Hl : NoDup (key_of <$> filter (fun r => result_job_id r = id) l.*2)).
  { apply IH; [|done]. intros k' r' H. apply Hin. by right. }
  case_decide as Hj; [|done]. cbn. constructor; [|done].
  intros (r' & E & [Hj' ([k' r''] & -> & Hx)%list_elem_of_fmap]%list_elem_of_filter)%list_elem_of_fmap.
  cbn in *. apply Hk. apply list_elem_of_fmap. exists (k', r''). split; [|done]. cbn.
  apply (W k r k' r''); [apply Hin; by left|apply Hin; by right|].
  unfold key_of in E. unfold result_key. congruence.
Qed.

(** ** The calls of the workers *)

(** What the workers look at in the row of their job. *)
Definition same_job (d d' : DiscoveryJob) : Prop :=
  discovery_state d' = discovery_state d /\ discovery_cancel_requested d' = discovery_cancel_requested d /\
  discovery_total_targets d' = discovery_total_targets d.

Lemma update_discovery_runs k cond f db d :
  discovery_jobs db !! k = Some d -> cond d = true -> discovery_check (f d) = true ->
  update_discovery k cond f db = inr (1, db <| discovery_jobs := <[k := f d]> (discovery_jobs db) |>).
Proof. intros Hd Hc Hk. unfold update_discovery, tx_bind, update_pk. rewrite Hd, Hc, Hk. done. Qed.

Lemma update_discovery_skips k cond f db d :
  discovery_jobs db !! k = Some d -> cond d = false -> update_discovery k cond f db = inr (0, db).
Proof. intros Hd Hc. unfold update_discovery, tx_bind, update_pk. rewrite Hd, Hc. cbn. by destruct db. Qed.

Lemma merged_runs id st now db d :
  discovery_wf db -> discovery_jobs db !! id = Some d ->
  exists db' d', merged id st now db = (true, db') /\ discovery_wf db' /\
    discovery_results db' = discovery_results db /\ discovery_jobs db' !! id = Some d' /\ same_job d d'.
Proof.
  intros W Hd. destruct (dw_job _ W _ _ Hd) as (_ & Hchk & _).
  assert (W' : discovery_wf (merge_dispatch id_other id st now db).2)
    by apply (discovery_run_dw (CallMerge id st now) db W).
  revert W'. unfold merged, merge_dispatch, read_back, write, id_other.
  destruct (discovery_is D_RUNNING d) eqn:Er.
  - rewrite (update_discovery_runs _ _ _ _ d) by done. cbn. rewrite lookup_insert_eq. intros W'.
    do 2 eexists. split_and!; [done|exact W'|done|cbn; by rewrite lookup_insert_eq|done].
  - rewrite (update_discovery_skips _ _ _ _ d) by done. rewrite Hd. intros W'.
    exists db, d. split_and!; done.
Qed.

Lemma set_counts_check checked found now d n :
  discovery_check d = true -> discovery_total_targets d = Z.of_nat n -> checked <= n -> found <= checked ->
  discovery_check (set_counts checked found now d) = true.
Proof.
  unfold discovery_check, between. intros Hc Ht. rewrite Ht in Hc.
  assert (discovery_total_targets (set_counts checked found now d) = Z.of_nat n) as -> by exact Ht. cbn.
  rewrite !andb_true_iff, !Z.leb_le in *. lia.
Qed.

Lemma record_result_skips u id t fp err now db d :
  discovery_jobs db !! id = Some d -> discovery_state d <> D_RUNNING ->
  record_result u id t fp err now db = (inr tt, db).
Proof.
  intros Hd Hr. unfold record_result, write, tx_bind, reads. rewrite Hd.
  unfold discovery_is. by rewrite bool_decide_false.
Qed.

(** The keys after a row with key [x] was put at [k]. *)
Lemma checked_insert id db k q x :
  discovery_wf db -> result_job_id q = id ->
  (forall q0, discovery_results db !! k = Some q0 -> result_key q0 = result_key q) ->
  x ∈ checked_keys id (db <| discovery_results := <[k := q]> (discovery_results db) |>) <->
  x = key_of q \/ x ∈ checked_keys id db.
Proof.
  intros W Hj Hold. rewrite !elem_checked. cbn. split.
  - intros (k' & r & [[<- <-]|[? ?]]%lookup_insert_Some & ? & <-); [by left|right; eauto 10].
  - intros [->|(k' & r & Hr & Hjr & <-)]; [exists k, q; by rewrite lookup_insert_eq|].
    destruct (decide (k' = k)) as [->|Hne]; [|exists k', r; by rewrite lookup_insert_ne].
    exists k, q. rewrite lookup_insert_eq. split_and!; [done..|]. specialize (Hold r Hr).
    unfold result_key in Hold. unfold key_of. congruence.
Qed.

Section Targets.
Context (id : string) (targets : list DiscoveryTarget).

Definition keys : list (string * Z * string) := target_key <$> targets.

(** Every port of a target is a port. *)
Definition ports_ok : Prop := Forall (fun t => between 1 (target_port t) 65535 = true) targets.

(** The database as the scan of [targets] expects it. *)
Definition scan_db_ok (db : DB) (d : DiscoveryJob) : Prop :=
  discovery_wf db /\ discovery_jobs db !! id = Some d /\
  discovery_total_targets d = Z.of_nat (length targets) /\ checked_keys id db ⊆ keys.

Lemma scan_db_bound db :
  unique_keys (discovery_results db) -> checked_keys id db ⊆ keys ->
  results_of id (discovery_results db) <= length targets.
Proof.
  intros W Hin. rewrite results_of_length, <- (length_fmap target_key targets).
  apply submseteq_length, NoDup_submseteq; [by apply checked_keys_NoDup|exact Hin].
Qed.

Lemma record_result_runs u t fp err now db d :
  ports_ok -> scan_db_ok db d -> discovery_state d = D_RUNNING -> t ∈ targets ->
  discovery_results db !! u = None ->
  exists db' d', record_result u id t fp err now db = (inr tt, db') /\ scan_db_ok db' d' /\ same_job d d' /\
    (forall x, x ∈ checked_keys id db' <-> x = target_key t \/ x ∈ checked_keys id db).
Proof.
  intros Hp Hok Hr Ht Hu. pose proof Hok as (W & Hd & Htot & Hin).
  pose proof (record_result_dw u id t fp err now db W) as W'. revert W'.
  unfold record_result, write, tx_bind, reads. rewrite Hd. unfold discovery_is at 1 3. rewrite Hr, bool_decide_true by done.
  set (r := new_result u id t fp err now).
  assert (exists db1, upsert_result r db = inr (tt, db1)) as [db1 Hup].
  { unfold upsert_result, tx_bind, guard_integrity. unfold ports_ok in Hp. rewrite Forall_forall in Hp.
    rewrite bool_decide_true by done. unfold result_check. cbn. rewrite (Hp t Ht), Hd.
    rewrite bool_decide_true by done. cbn. eauto. }
  rewrite Hup. destruct (upsert_result_inr _ _ _ _ W Hup) as (_ & k & q & -> & _ & Hk & Hold & Huniq).
  assert (Hjob : result_job_id q = id) by (exact (f_equal (fun x => x.1.1.1) Hk)).
  assert (Hkey : key_of q = target_key t) by (unfold result_key in Hk; unfold key_of, target_key; cbn in Hk; congruence).
  set (db1 := db <| discovery_results := _ |>).
  assert (Hck : forall x, x ∈ checked_keys id db1 <-> x = target_key t \/ x ∈ checked_keys id db).
  { intros x. unfold db1. rewrite checked_insert, Hkey; [done|done|done|].
    intros q0 Hq0. rewrite Hq0 in Hold. destruct Hold as [-> _]. by rewrite Hk. }
  assert (Hin1 : checked_keys id db1 ⊆ keys).
  { intros x [->|?]%Hck; [|by apply Hin]. unfold keys. by apply list_elem_of_fmap_2. }
  assert (Hb : results_of id (discovery_results db1) <= length targets).
  { apply scan_db_bound; [|done]. intros k1 r1 k2 r2. cbn.
    intros [[<- <-]|[? Hr1]]%lookup_insert_Some [[<- <-]|[? Hr2]]%lookup_insert_Some E;
      [done|symmetry; apply (Huniq k2 r2)|apply (Huniq k1 r1)|by apply (dw_key _ W k1 r1 k2 r2)]; congruence. }
  set (d' := set_counts (results_of id (discovery_results db1)) (found_of id (discovery_results db1)) now d).
  assert (Hchk : discovery_check d' = true).
  { destruct (dw_job _ W _ _ Hd) as (_ & Hc & _).
    by apply (set_counts_check _ _ _ _ (length targets)), found_le_results. }
  rewrite (update_discovery_runs _ _ _ db1 d Hd) by (done || by apply bool_decide_true). cbn. intros W'.
  exists (db1 <| discovery_jobs := <[id := d']> (discovery_jobs db1) |>), d'.
  split_and!; [done|split_and!; [exact W'|cbn; apply lookup_insert_eq|exact Htot|exact Hin1]|done|exact Hck].
Qed.

(** A worker stores its result and goes on. *)
Lemma put_result_runs u t fp err now db d :
  ports_ok -> scan_db_ok db d -> t ∈ targets -> discovery_results db !! u = None ->
  exists db' d', put_result id u t fp err now db = (db', Looping) /\ scan_db_ok db' d' /\ same_job d d' /\
    checked_keys id db ⊆ checked_keys id db' /\
    (discovery_state d = D_RUNNING -> target_key t ∈ checked_keys id db').
Proof.
  intros Hp Hok Ht Hu. unfold put_result. destruct (decide (discovery_state d = D_RUNNING)) as [Hr|Hr].
  - destruct (record_result_runs u t fp err now db d) as (db' & d' & -> & Hok' & Hs & Hck); [done..|].
    exists db', d'. split_and!; [done..| |]; [intros x Hx|intros _]; apply Hck; auto.
  - destruct Hok as (W & Hd & ?). rewrite (record_result_skips _ _ _ _ _ _ _ d) by done.
    exists db, d. split_and!; done.
Qed.

Lemma merged_ok st now db d :
  scan_db_ok db d -> exists db' d', merged id st now db = (true, db') /\ scan_db_ok db' d' /\ same_job d d' /\
    discovery_results db' = discovery_results db /\ checked_keys id db' = checked_keys id db.
Proof.
  intros (W & Hd & Ht & Hin). destruct (merged_runs id st now db d W Hd) as (db' & d' & E & W' & Hres & Hd' & Hs).
  assert (Hck : checked_keys id db' = checked_keys id db) by (unfold checked_keys, rows_of; by rewrite Hres).
  exists db', d'. split_and!; [done| |done..]. split_and!; [done..| |by rewrite Hck].
  destruct Hs as (_ & _ & ->). done.
Qed.

Lemma same_job_trans d1 d2 d3 : same_job d1 d2 -> same_job d2 d3 -> same_job d1 d3.
Proof. unfold same_job. intros (-> & -> & ->) (-> & -> & ->). done. Qed.

(** The answer to a probe is stored, whatever it is. *)
Lemma end_probe_runs u t answer now db d :
  ports_ok -> scan_db_ok db d -> t ∈ targets -> discovery_results db !! u = None ->
  exists db' d', end_probe id u t answer now db = (db', Looping) /\ scan_db_ok db' d' /\ same_job d d' /\
    checked_keys id db ⊆ checked_keys id db' /\
    (discovery_state d = D_RUNNING -> target_key t ∈ checked_keys id db').
Proof.
  intros Hp Hok Ht Hu. unfold end_probe.
  destruct (merged_ok DISPATCHED now db d Hok) as (db1 & d1 & E & Hok1 & Hs1 & Hres & Hck).
  assert (Hgo : forall fp err, exists db' d', put_result id u t fp err now db1 = (db', Looping) /\
    scan_db_ok db' d' /\ same_job d d' /\ checked_keys id db ⊆ checked_keys id db' /\
    (discovery_state d = D_RUNNING -> target_key t ∈ checked_keys id db')).
  { intros fp err. destruct (put_result_runs u t fp err now db1 d1) as (db' & d' & ? & ? & ? & ? & Hd');
      [done..|by rewrite Hres|]. exists db', d'. split_and!; [done|done|by eapply same_job_trans|by rewrite <- Hck|].
    intros Hr. apply Hd'. destruct Hs1 as (-> & _). done. }
  destruct answer as [v| |code|]; rewrite ?E; try by apply put_result_runs.
  - apply Hgo.
  - destruct (bool_decide _); [|by apply put_result_runs]. apply Hgo.
Qed.
End Targets.

(** ** The workers *)
Definition in_hand (w : Worker) : option DiscoveryTarget :=
  match w with Waiting t | Probing t => Some t | _ => None end.

Definition waiting (w : Worker) : option DiscoveryTarget :=
  match w with Waiting t => Some t | _ => None end.

Lemma omap_insert_perm {A B} (f : A -> option B) l i x y :
  l !! i = Some x -> option_list (f x) ++ omap f (<[i := y]> l) ≡ₚ option_list (f y) ++ omap f l.
Proof.
  revert i. induction l as [|z l IH]; intros [|i]; cbn; try done.
  - intros [= ->]. destruct (f x), (f y); cbn; try done. constructor.
  - intros Hi. specialize (IH i Hi). destruct (f z) as [b|]; [|done]. cbn.
    by rewrite <- !Permutation_middle, IH.
Qed.

Lemma in_flight_cons w ws : in_flight (w :: ws) = (if probing w then 1 else 0) + in_flight ws.
Proof. unfold in_flight. rewrite filter_cons. destruct (probing w); case_decide; done. Qed.

Lemma in_flight_insert ws i w0 w :
  ws !! i = Some w0 ->
  (if probing w0 then 1 else 0) + in_flight (<[i := w]> ws) = (if probing w then 1 else 0) + in_flight ws.
Proof.
  revert i. induction ws as [|w1 ws IH]; intros [|i]; try done.
  - intros [= ->]. change (<[0 := w]> (w0 :: ws)) with (w :: ws). rewrite !in_flight_cons. lia.
  - intros Hi. change (<[S i := w]> (w1 :: ws)) with (w1 :: <[i := w]> ws). rewrite !in_flight_cons.
    specialize (IH i Hi). lia.
Qed.

Definition weight (w : Worker) : nat :=
  match w with Looping => 1 | Waiting _ => 3 | Probing _ => 2 | Finished | Died => 0 end.

(** What is left to do, in steps of the scan. *)
Definition effort (s : Scan) : nat := 3 * length (scan_queue s) + sum_list_with weight (scan_workers s).

Lemma weights_insert ws i w0 w :
  ws !! i = Some w0 -> weight w0 + sum_list_with weight (<[i := w]> ws) = weight w + sum_list_with weight ws.
Proof.
  revert i. induction ws as [|w1 ws IH]; intros [|i]; try done.
  - intros [= ->]. change (<[0 := w]> (w0 :: ws)) with (w :: ws). cbn. lia.
  - intros Hi. change (<[S i := w]> (w1 :: ws)) with (w1 :: <[i := w]> ws). specialize (IH i Hi).
    unfold sum_list_with in *. fold (sum_list_with weight) in *. lia.
Qed.

Section Steps.
Context (self : DiscoveryService) (id : string) (deadline : Z).

Lemma put_result_worker u t fp err now db :
  (put_result id u t fp err now db).2 = Looping \/ (put_result id u t fp err now db).2 = Died.
Proof. unfold put_result. destruct (record_result _ _ _ _ _ _ _) as [[?|?] ?]; auto. Qed.

(** Where the head of the loop can lead. *)
Lemma loop_head_cases u now mono queue db db' queue' w :
  loop_head self id deadline u now mono queue db = (db', queue', w) ->
  (w = Finished /\ queue' = queue /\ db' = db) \/
  (exists t, queue = t :: queue' /\
    ((w = Looping \/ w = Died) \/
     w = Waiting t /\ is_own_address self t = false /\ profile_fits self t = true)).
Proof.
  unfold loop_head. destruct queue as [|t rest]; [intros [= <- <- <-]; by left|].
  destruct (discovery_jobs db !! id) as [d|]; [|intros [= <- <- <-]; by left].
  destruct (_ || _); [intros [= <- <- <-]; by left|].
  destruct (is_own_address self t) eqn:Eo; [|destruct (profile_fits self t) eqn:Ep; cbn].
  2: { intros [= <- <- <-]. right. exists t. split; [done|]. by right. }
  all: match goal with |- context [put_result ?a ?b ?c ?e ?f ?g ?h] =>
      pose proof (put_result_worker b c e f g h) as Hw; destruct (put_result a b c e f g h) as [db1 w1] end.
  all: intros [= <- <- <-]; right; exists t; auto.
Qed.

Lemma begin_probe_cases u t now db db' w :
  begin_probe id u t now db = (db', w) -> w = Probing t \/ w = Looping \/ w = Died.
Proof.
  unfold begin_probe. destruct (merged _ _ _ _) as [[] ?]; [intros [= <- <-]; auto|].
  intros E. pose proof (put_result_worker u t None (Some "network_error") now d) as Hw. rewrite E in Hw. auto.
Qed.

Lemma end_probe_cases u t answer now db db' w :
  end_probe id u t answer now db = (db', w) -> w = Looping \/ w = Died.
Proof.
  unfold end_probe. destruct (merged _ _ _ _) as [ok db1].
  assert (Hp : forall fp err db, put_result id u t fp err now db = (db', w) -> w = Looping \/ w = Died).
  { intros fp err db0 E. pose proof (put_result_worker u t fp err now db0) as Hw. by rewrite E in Hw. }
  destruct answer, ok; repeat case_match; eauto; intros [= <- <-]; auto.
Qed.

(** Every step of the scan itself does a part of the work. *)
Lemma step_effort s s' : scan_step self id deadline (fun _ _ => False) s s' -> effort s' < effort s.
Proof.
  intros [s0 i u now mono db queue w Hi _ _ E|s0 i u t now db w Hi _ _ E|s0 i u t answer now db w Hi _ E|s0 n db _ []];
    unfold effort; cbn [scan_queue scan_workers]; pose proof (weights_insert _ _ _ w Hi) as Hsum.
  - destruct (loop_head_cases _ _ _ _ _ _ _ _ E) as [(-> & -> & _)|(t & -> & [[->| ->]|[-> _]])]; cbn in *; lia.
  - destruct (begin_probe_cases _ _ _ _ _ _ E) as [->|[->| ->]]; cbn in *; lia.
  - destruct (end_probe_cases _ _ _ _ _ _ _ E) as [->| ->]; cbn in *; lia.
Qed.
End Steps.
