(* ===== verification/ScanClaims.v ===== *)
(** * What a discovery scan guarantees

    The theorems about the workers of [DiscoveryService._run]: which targets
    they probe and how many at a time, that they end, and what a scan that has
    ended tells about its targets. *)

From stdpp Require Import base tactics list gmap strings relations infinite.
From Stdlib Require Import ZArith Lia.
From S2P Require Import Prelude Text Sql Models Schema JobValidation MutationFence.
From S2P Require Import EnrollmentJournal ManagerRegistry RemovalJournal Discovery Samples Lifecycle.
From S2P Require Import DiscoveryInvariant DiscoveryClaims TargetPolicy DiscoveryService ScanFacts.

#[local] Arguments in_flight : simpl never.

(** A scan of two addresses with one worker at a time. *)
Definition lab_profile : TransportProfile := TrustedLanHttpProfile "plain" [].

Definition lab_service : DiscoveryService :=
  mkDiscoveryService (mkDiscoveryConfig 1 60 3600 16) [] [lab_profile] ["10.0.0.8"] true.

Definition target_b : DiscoveryTarget := mkTarget "10.0.0.8" 8765%Z "plain" "http".

Definition lab_targets : list DiscoveryTarget := [target_a; target_b].

(** ** The probes *)
Section Probes.
Context (self : DiscoveryService) (id : string) (deadline : Z) (outside : relation DB).

(** A target the workers may probe. *)
Definition allowed (t : DiscoveryTarget) : Prop :=
  is_own_address self t = false /\ profile_fits self t = true.

(** The targets not yet dealt with and those probed are targets of the scan,
    each once. *)
Record probes_inv (targets : list DiscoveryTarget) (s : Scan) : Prop := {
  pi_once : scan_queue s ++ omap waiting (scan_workers s) ++ scan_probed s ⊆+ targets;
  pi_allowed t : t ∈ omap waiting (scan_workers s) ++ scan_probed s -> allowed t;
  pi_permits : in_flight (scan_workers s) + scan_others s <= max_concurrency (svc_config self)
}.

Lemma head_once queue queue' ws (probed targets : list DiscoveryTarget) i w :
  ws !! i = Some Looping ->
  queue ++ omap waiting ws ++ probed ⊆+ targets ->
  (waiting w = None /\ (queue' = queue \/ exists t, queue = t :: queue')) \/
  (exists t, w = Waiting t /\ queue = t :: queue') ->
  queue' ++ omap waiting (<[i := w]> ws) ++ probed ⊆+ targets.
Proof.
  intros Hi Hsub Hw. pose proof (omap_insert_perm waiting ws i Looping w Hi) as E. cbn in E. rewrite E.
  destruct Hw as [[-> Hq]|(t & -> & ->)]; cbn.
  - destruct Hq as [->|[t ->]]; [done|]. etrans; [|exact Hsub]. by apply submseteq_cons.
  - by rewrite <- Permutation_middle.
Qed.

Lemma waiting_insert (ws : list Worker) i w0 w t :
  ws !! i = Some w0 -> t ∈ omap waiting (<[i := w]> ws) -> waiting w = Some t \/ t ∈ omap waiting ws.
Proof.
  intros Hi Ht. pose proof (omap_insert_perm waiting ws i w0 w Hi) as E.
  assert (Hin : t ∈ option_list (waiting w0) ++ omap waiting (<[i := w]> ws)) by (apply elem_of_app; by right).
  rewrite E in Hin. apply elem_of_app in Hin as [Hin|?]; [|by right]. destruct (waiting w); cbn in Hin; set_solver.
Qed.

Lemma probes_head targets s i u now mono db queue w :
  scan_workers s !! i = Some Looping ->
  loop_head self id deadline u now mono (scan_queue s) (scan_db s) = (db, queue, w) ->
  probes_inv targets s ->
  probes_inv targets (mkScan db queue (<[i := w]> (scan_workers s)) (scan_others s) (scan_probed s) mono).
Proof.
  intros Hi E [Ho Ha Hp]. pose proof (in_flight_insert _ _ _ w Hi) as Hf.
  pose proof (loop_head_cases _ _ _ _ _ _ _ _ _ _ _ E) as Hc. split; cbn.
  - eapply head_once; [done..|]. destruct Hc as [(-> & -> & _)|(t & -> & [[->| ->]|[-> _]])]; eauto 10.
  - intros t [Ht|Ht]%elem_of_app; [|apply Ha, elem_of_app; by right].
    destruct (waiting_insert _ _ _ _ _ Hi Ht) as [Hw|?]; [|apply Ha, elem_of_app; by left].
    destruct Hc as [(-> & _)|(t' & _ & [[->| ->]|[-> Hok]])]; try done. cbn in Hw. by simplify_eq.
  - destruct Hc as [(-> & _)|(t' & _ & [[->| ->]|[-> _]])]; cbn in *; lia.
Qed.

Lemma probes_acquire targets s i u t now db w :
  scan_workers s !! i = Some (Waiting t) ->
  in_flight (scan_workers s) + scan_others s < max_concurrency (svc_config self) ->
  begin_probe id u t now (scan_db s) = (db, w) ->
  probes_inv targets s ->
  probes_inv targets (mkScan db (scan_queue s) (<[i := w]> (scan_workers s)) (scan_others s)
    (if probing w then t :: scan_probed s else scan_probed s) (scan_clock s)).
Proof.
  intros Hi Hlt E [Ho Ha Hp]. pose proof (in_flight_insert _ _ _ w Hi) as Hf.
  pose proof (begin_probe_cases _ _ _ _ _ _ _ E) as Hc.
  pose proof (omap_insert_perm waiting _ i _ w Hi) as Ep.
  assert (Hok : allowed t).
  { apply Ha, elem_of_app. left. apply list_elem_of_omap. exists (Waiting t). split; [|done].
    by eapply list_elem_of_lookup_2. }
  split; cbn.
  - destruct Hc as [->|[->| ->]]; cbn in Ep |- *; [rewrite <- Ep in Ho; by rewrite <- (Permutation_middle _ _ t)|..].
    all: etrans; [|exact Ho]; rewrite <- Ep; apply submseteq_app; [done|]; apply submseteq_app; [|done];
      by apply submseteq_cons.
  - intros t' [Ht|Ht]%elem_of_app.
    + destruct (waiting_insert _ _ _ _ _ Hi Ht) as [Hw|?]; [|apply Ha, elem_of_app; by left].
      by destruct Hc as [->|[->| ->]].
    + destruct Hc as [->|[->| ->]]; cbn in Ht; [apply elem_of_cons in Ht as [->|?]; [done|]|..];
        apply Ha, elem_of_app; by right.
  - destruct Hc as [->|[->| ->]]; cbn in *; lia.
Qed.

Lemma probes_step targets s s' :
  scan_step self id deadline outside s s' -> probes_inv targets s -> probes_inv targets s'.
Proof.
  intros [s0 i u now mono db queue w Hi _ _ E|s0 i u t now db w Hi Hlt _ E|s0 i u t answer now db w Hi _ E|s0 n db Hn _].
  - by eapply probes_head.
  - by eapply probes_acquire.
  - intros [Ho Ha Hp]. pose proof (in_flight_insert _ _ _ w Hi) as Hf.
    pose proof (end_probe_cases _ _ _ _ _ _ _ _ E) as Hc.
    pose proof (omap_insert_perm waiting _ i _ w Hi) as Ep.
    assert (Hw : waiting w = None) by (by destruct Hc as [->| ->]). rewrite Hw in Ep. cbn in Ep.
    split; cbn; [by rewrite Ep|intros t'; rewrite Ep; apply Ha|]. destruct Hc as [->| ->]; cbn in *; lia.
  - intros [Ho Ha Hp]. by split.
Qed.

Lemma in_flight_replicate n : in_flight (replicate n Looping) = 0.
Proof. induction n as [|n IH]; [done|]. change (replicate (S n) Looping) with (Looping :: replicate n Looping).
  by rewrite in_flight_cons, IH. Qed.

Lemma waiting_replicate n : omap waiting (replicate n Looping) = [].
Proof. by induction n. Qed.

Lemma unchecked_sub targets checked : unchecked targets checked ⊆+ targets.
Proof. apply sublist_submseteq, sublist_filter. Qed.

Lemma probes_start targets others mono db :
  others <= max_concurrency (svc_config self) ->
  probes_inv (unchecked targets (list_to_set (checked_keys id db))) (scan_start self id targets others mono db).
Proof.
  intros Hn. unfold scan_start. split; cbn; rewrite ?waiting_replicate, ?in_flight_replicate; cbn.
  - by rewrite app_nil_r.
  - set_solver.
  - done.
Qed.

(** C24: a scan probes within its bounds.  Whatever happens to the database
    meanwhile, a scan and the scans beside it never have more probes under way
    than [max_concurrency]; a scan probes no target twice, none outside its
    scope, none that already had a result when it began, none of the manager's
    own addresses, and none whose scheme is not that of its transport
    profile. *)
Theorem scan_probes_bounded targets others mono db s :
  NoDup (target_key <$> targets) -> others <= max_concurrency (svc_config self) ->
  rtc (scan_step self id deadline outside) (scan_start self id targets others mono db) s ->
  in_flight (scan_workers s) + scan_others s <= max_concurrency (svc_config self) /\
  NoDup (target_key <$> scan_probed s) /\
  forall t, t ∈ scan_probed s ->
    t ∈ targets /\ ~ target_key t ∈ checked_keys id db /\ ~ target_ip t ∈ svc_self_targets self /\
    exists p, profile_by_id self (target_transport_profile_id t) = Some p /\
      target_scheme t = expected_scheme (Some p).
Proof.
  intros Hnd Hn Hrun.
  assert (Hinv : probes_inv (unchecked targets (list_to_set (checked_keys id db))) s).
  { eapply rtc_keeps; [|by apply probes_start|exact Hrun]. intros s1 s2. apply probes_step. }
  destruct Hinv as [Ho Ha Hp].
  assert (Hsub : scan_probed s ⊆+ unchecked targets (list_to_set (checked_keys id db))).
  { etrans; [|exact Ho]. rewrite app_assoc. by apply submseteq_inserts_l. }
  split_and!; [done| |].
  - apply (NoDup_submseteq_l _ (target_key <$> targets)); [done|]. apply fmap_submseteq. etrans; [done|].
    apply unchecked_sub.
  - intros t Ht. assert (Hu : t ∈ unchecked targets (list_to_set (checked_keys id db)))
      by (by eapply elem_of_submseteq).
    apply list_elem_of_filter in Hu as [Hk Ht']. rewrite elem_of_list_to_set in Hk.
    destruct (Ha t) as [Hown Hfit]; [apply elem_of_app; by right|].
    unfold is_own_address in Hown. apply bool_decide_eq_false in Hown.
    unfold profile_fits in Hfit. destruct (profile_by_id self _) as [p|] eqn:Ep; [|done].
    cbn in Hfit. apply bool_decide_eq_true in Hfit. eauto 10.
Qed.
End Probes.

(** ** The end of the workers *)
(** A run of a scan, with the number of its own steps. *)
Inductive scan_run (self : DiscoveryService) (id : string) (deadline : Z) : nat -> Scan -> Scan -> Prop :=
| run_done s : scan_run self id deadline 0 s s
| run_own n s s' s'' :
    scan_step self id deadline (fun _ _ => False) s s' -> scan_run self id deadline n s' s'' ->
    scan_run self id deadline (S n) s s''
| run_others n s k db s'' :
    scan_run self id deadline n
      (mkScan db (scan_queue s) (scan_workers s) k (scan_probed s) (scan_clock s)) s'' ->
    scan_run self id deadline n s s''.

Lemma run_effort self id deadline n s s' : scan_run self id deadline n s s' -> n + effort s' <= effort s.
Proof.
  induction 1 as [s|n s s1 s2 Hs _ IH|n s k db s2 _ IH]; [done| |exact IH].
  apply step_effort in Hs. lia.
Qed.

Lemma weights_replicate n : sum_list_with weight (replicate n Looping) = n.
Proof. induction n as [|n IH]; [done|]. cbn. by rewrite IH. Qed.

Lemma fresh_result (db : DB) : exists u, discovery_results db !! u = None.
Proof. exists (fresh (dom (discovery_results db))). apply not_elem_of_dom, is_fresh. Qed.

Lemma some_probing ws : 0 < in_flight ws -> exists i t, ws !! i = Some (Probing t).
Proof.
  unfold in_flight. destruct (filter _ ws) as [|w l] eqn:E; cbn; [lia|]. intros _.
  assert (Hw : w ∈ filter (fun w => probing w = true) ws) by (rewrite E; by left).
  apply list_elem_of_filter in Hw as [Hp [i Hi]%list_elem_of_lookup]. destruct w; try done. eauto.
Qed.

#[local] Instance worker_ended_dec w : Decision (w = Finished \/ w = Died).
Proof. destruct w; first [left; solve [auto] | right; intros [|]; discriminate]. Defined.

(** A scan ends.  The workers of a scan take at most four steps per target,
    whatever other tasks do between their steps; and as long as not all of them
    have ended, one of them can take a step, unless other scans hold every
    permit of the semaphore. *)
Theorem scan_ends self id deadline targets others mono db n s :
  scan_run self id deadline n (scan_start self id targets others mono db) s ->
  n <= 4 * length targets /\
  (ended s \/ max_concurrency (svc_config self) <= scan_others s \/
   exists s', scan_step self id deadline (fun _ _ => False) s s').
Proof.
  intros Hrun. split.
  - apply run_effort in Hrun. revert Hrun. unfold effort, scan_start. cbn [scan_queue scan_workers].
    rewrite weights_replicate.
    assert (length (unchecked targets match (result_keys id db).1 with inl _ => ∅ | inr keys => keys end) <= length targets)
      by apply submseteq_length, unchecked_sub.
    lia.
  - destruct (fresh_result (scan_db s)) as [u Hu].
    destruct (decide (0 < in_flight (scan_workers s))) as [(i & t & Hi)%some_probing|Hz].
    { right. right. eexists. eapply (StepAnswer _ _ _ _ s i u t ProbeTimeout 0%Z); [done..|]. apply surjective_pairing. }
    destruct (decide (max_concurrency (svc_config self) <= scan_others s)) as [?|Hlt]; [by right; left|].
    destruct (decide (ended s)) as [?|He]; [by left|]. right. right.
    unfold ended in He. apply not_Forall_Exists in He; [|apply _].
    apply Exists_exists in He as (w & [i Hi]%list_elem_of_lookup & Hw). destruct w as [|t|t| |]; try naive_solver.
    + destruct (loop_head self id deadline u 0%Z (scan_clock s) (scan_queue s) (scan_db s)) as [[db' q] w] eqn:E.
      eexists. eapply (StepHead _ _ _ _ s i u); done.
    + eexists. eapply (StepAcquire _ _ _ _ s i u t 0%Z); [done|lia|done|]. apply surjective_pairing.
    + exfalso. apply Hz. pose proof (in_flight_insert _ _ _ Looping Hi) as Hf. cbn in Hf. lia.
Qed.

(** ** The outcome *)
(** What the rest of the system may do to a scan under way: it stores no result
    of the scan and takes none away, and the scan's job is at most cancelled or
    ended as failed; a request to cancel stays. *)
Definition lawful (id : string) (targets : list DiscoveryTarget) : relation DB := fun db db' =>
  forall d, scan_db_ok id targets db d -> exists d', scan_db_ok id targets db' d' /\
    (discovery_cancel_requested d = true -> discovery_cancel_requested d' = true) /\
    (discovery_state d' = discovery_state d \/ discovery_state d' = D_FAILED \/ discovery_state d' = D_CANCELLED) /\
    (forall x, x ∈ checked_keys id db -> x ∈ checked_keys id db').

Section Outcome.
Context (self : DiscoveryService) (id : string) (deadline : Z) (targets : list DiscoveryTarget).

(** Every target has its result or is still to come, unless the job was ended
    from outside. *)
Record scan_inv (s : Scan) (d : DiscoveryJob) : Prop := {
  si_db : scan_db_ok id targets (scan_db s) d;
  si_state : discovery_state d = D_RUNNING \/ discovery_state d = D_FAILED \/ discovery_state d = D_CANCELLED;
  si_queue : scan_queue s ⊆ targets;
  si_hand : omap in_hand (scan_workers s) ⊆ targets;
  si_alive : ~ Died ∈ scan_workers s;
  si_some : scan_workers s = [] -> scan_queue s = [];
  si_finished : Finished ∈ scan_workers s ->
    scan_queue s = [] \/ discovery_cancel_requested d = true \/ (deadline <= scan_clock s)%Z;
  si_cover t : discovery_state d = D_RUNNING -> t ∈ targets ->
    target_key t ∈ checked_keys id (scan_db s) \/ t ∈ scan_queue s \/ t ∈ omap in_hand (scan_workers s)
}.

Lemma hand_insert (ws : list Worker) i w0 w t :
  ws !! i = Some w0 ->
  (t ∈ omap in_hand (<[i := w]> ws) -> in_hand w = Some t \/ t ∈ omap in_hand ws) /\
  (t ∈ omap in_hand ws -> in_hand w0 = Some t \/ t ∈ omap in_hand (<[i := w]> ws)) /\
  (in_hand w = Some t -> t ∈ omap in_hand (<[i := w]> ws)).
Proof.
  intros Hi. pose proof (omap_insert_perm in_hand ws i w0 w Hi) as E.
  assert (Hiff : t ∈ option_list (in_hand w0) ++ omap in_hand (<[i := w]> ws) <->
                 t ∈ option_list (in_hand w) ++ omap in_hand ws) by (by rewrite E).
  rewrite !elem_of_app in Hiff.
  assert (Ho : forall o : option DiscoveryTarget, t ∈ option_list o <-> o = Some t) by (intros [?|]; cbn; set_solver).
  rewrite !Ho in Hiff. split_and!; [naive_solver..|]. intros Hw. apply list_elem_of_omap. exists w. split; [|done].
  eapply list_elem_of_lookup_2, list_lookup_insert_eq. by eapply lookup_lt_Some.
Qed.

Lemma elem_insert (ws : list Worker) i (w0 w w' : Worker) : ws !! i = Some w0 -> w' ∈ <[i := w]> ws -> w' = w \/ w' ∈ ws.
Proof.
  intros Hi [j Hj]%list_elem_of_lookup. destruct (decide (i = j)) as [<-|Hne].
  - rewrite list_lookup_insert_eq in Hj by (by eapply lookup_lt_Some). left. congruence.
  - rewrite list_lookup_insert_ne in Hj by done. right. by eapply list_elem_of_lookup_2.
Qed.

(** Worker [i] goes on with [w], the target [t] it had in hand, if any, being
    dealt with. *)
Lemma scan_inv_move s d i w0 w db d' queue probed clock :
  scan_inv s d -> scan_workers s !! i = Some w0 -> (scan_clock s <= clock)%Z ->
  scan_db_ok id targets db d' -> same_job d d' ->
  (forall x, x ∈ checked_keys id (scan_db s) -> x ∈ checked_keys id db) ->
  w <> Died ->
  (w = Finished -> queue = [] \/ discovery_cancel_requested d = true \/ (deadline <= clock)%Z) ->
  queue ⊆ scan_queue s ->
  (forall t, in_hand w = Some t -> t ∈ targets) ->
  (forall t, discovery_state d = D_RUNNING -> t ∈ scan_queue s \/ in_hand w0 = Some t ->
     target_key t ∈ checked_keys id db \/ t ∈ queue \/ in_hand w = Some t) ->
  scan_inv (mkScan db queue (<[i := w]> (scan_workers s)) (scan_others s) probed clock) d'.
Proof.
  intros [Hdb Hst Hq Hh Ha Hsome Hf Hc] Hi Hclk Hdb' (Es & Ec & _) Hck Hw Hfin Hsub Hin Hmv.
  split; cbn; rewrite ?Es, ?Ec; [done|done|set_solver| | | | |].
  - intros t Ht. apply (hand_insert _ _ _ w t Hi) in Ht as [?|?]; auto.
  - intros Hd. by apply (elem_insert _ _ _ _ _ Hi) in Hd as [?|?].
  - intros E. apply (f_equal length) in E. rewrite length_insert in E. apply lookup_lt_Some in Hi. cbn in E. lia.
  - intros [Hfw|Hfw]%(elem_insert _ _ _ _ _ Hi); [by apply Hfin|].
    destruct (Hf Hfw) as [E|[?|?]]; [|auto|right; right; lia]. rewrite E in Hsub.
    left. destruct queue as [|t q]; [done|]. specialize (Hsub t). set_solver.
  - intros t Hr Ht. destruct (Hc t Hr Ht) as [?|Hqt]; [auto|].
    assert (Hcase : (t ∈ scan_queue s \/ in_hand w0 = Some t) \/ t ∈ omap in_hand (<[i := w]> (scan_workers s))).
    { destruct Hqt as [?|Ht']; [auto|]. apply (hand_insert _ _ _ w t Hi) in Ht' as [?|?]; auto. }
    destruct Hcase as [Hcase|?]; [|auto]. destruct (Hmv t Hr Hcase) as [?|[?|?]]; [auto..|].
    right. right. by apply (hand_insert _ _ _ w t Hi).
Qed.

Context (Hports : ports_ok targets).

Lemma scan_inv_head s d i u now mono db queue w :
  scan_inv s d -> scan_workers s !! i = Some Looping -> discovery_results (scan_db s) !! u = None ->
  (scan_clock s <= mono)%Z -> loop_head self id deadline u now mono (scan_queue s) (scan_db s) = (db, queue, w) ->
  exists d', scan_inv (mkScan db queue (<[i := w]> (scan_workers s)) (scan_others s) (scan_probed s) mono) d'.
Proof.
  intros Hinv Hi Hu Hm. pose proof (si_db _ _ Hinv) as Hdb. pose proof (si_queue _ _ Hinv) as Hq.
  unfold loop_head. destruct (scan_queue s) as [|t rest] eqn:Eq.
  { intros [= <- <- <-]. exists d. eapply scan_inv_move; try done; rewrite ?Eq; naive_solver. }
  assert (Ht : t ∈ targets) by (apply Hq; by left).
  pose proof Hdb as (W & Hd & Htot & Hin). rewrite Hd.
  destruct (discovery_cancel_requested d || (deadline <=? mono)%Z) eqn:Estop.
  { intros [= <- <- <-]. exists d. apply orb_true_iff in Estop. rewrite Z.leb_le in Estop.
    eapply scan_inv_move; try done; rewrite ?Eq; naive_solver. }
  assert (Hput : forall err, put_result id u t None err now (scan_db s) = (db, w) -> queue = rest ->
    exists d', scan_inv (mkScan db queue (<[i := w]> (scan_workers s)) (scan_others s) (scan_probed s) mono) d').
  { intros err E ->. destruct (put_result_runs id targets u t None err now (scan_db s) d) as (db' & d' & E' & Hok & Hs & Hk & Ht');
      [done..|]. rewrite E in E'. simplify_eq. exists d'.
    eapply scan_inv_move; try done; rewrite ?Eq; [set_solver|]. intros t' Hr [[->|?]%elem_of_cons|?]; [|auto|done].
    left. by apply Ht'. }
  destruct (is_own_address self t).
  { destruct (put_result id u t None (Some "self_target_forbidden") now (scan_db s)) as [db1 w1] eqn:E.
    intros [= <- <- <-]. by apply (Hput _ E). }
  destruct (profile_fits self t); cbn.
  - intros [= <- <- <-]. exists d. eapply scan_inv_move; try done; rewrite ?Eq; [set_solver| |].
    + by intros t' [= <-].
    + intros t' _ [[->|?]%elem_of_cons|?]; [|auto|done]. by right; right.
  - destruct (put_result id u t None (Some "transport_profile_mismatch") now (scan_db s)) as [db1 w1] eqn:E.
    intros [= <- <- <-]. by apply (Hput _ E).
Qed.

Lemma hand_in s d i w t : scan_inv s d -> scan_workers s !! i = Some w -> in_hand w = Some t -> t ∈ targets.
Proof.
  intros Hinv Hi Hw. apply (si_hand _ _ Hinv), list_elem_of_omap. exists w. split; [|done].
  by eapply list_elem_of_lookup_2.
Qed.

Lemma scan_inv_step s s' d :
  scan_step self id deadline (lawful id targets) s s' -> scan_inv s d -> exists d', scan_inv s' d'.
Proof.
  intros [s0 i u now mono db queue w Hi Hu Hm E|s0 i u t now db w Hi Hlt Hu E|s0 i u t a now db w Hi Hu E|s0 n db Hn Hl] Hinv.
  - by eapply scan_inv_head.
  - revert E. unfold begin_probe.
    destruct (merged_ok id targets DISPATCH_UNKNOWN now (scan_db s0) d (si_db _ _ Hinv)) as (db' & d' & -> & Hok & Hs & _ & Hk).
    intros [= <- <-]. exists d'. eapply scan_inv_move; try done; rewrite ?Hk; try done.
    + intros t' [= <-]. by eapply hand_in.
    + naive_solver.
  - assert (Ht : t ∈ targets) by (by eapply hand_in).
    destruct (end_probe_runs id targets u t a now (scan_db s0) d) as (db' & d' & E' & Hok & Hs & Hk & Ht');
      [done|apply Hinv|done|done|]. rewrite E in E'. simplify_eq. exists d'.
    eapply scan_inv_move; try done. naive_solver.
  - destruct Hinv as [Hdb Hst Hq Hh Ha Hsome Hf Hc]. destruct (Hl d Hdb) as (d' & Hdb' & Hcan & Hst' & Hk).
    exists d'. split; cbn; try done.
    + destruct Hst' as [->|?]; auto.
    + intros Hw. destruct (Hf Hw) as [?|[?|?]]; auto.
    + intros t Hr Ht. assert (Hr0 : discovery_state d = D_RUNNING) by (destruct Hst' as [<-|[?|?]]; congruence).
      destruct (Hc t Hr0 Ht) as [?|?]; auto.
Qed.

Lemma scan_inv_start others mono db d :
  0 < max_concurrency (svc_config self) -> scan_db_ok id targets db d -> discovery_state d = D_RUNNING ->
  scan_inv (scan_start self id targets others mono db) d.
Proof.
  intros Hmc Hok Hr. unfold scan_start.
  assert (Hno : forall n, omap in_hand (replicate n Looping) = []) by (induction n; done).
  split; cbn; rewrite ?Hno; [done|by left| |set_solver| | | |].
  - intros t [_ ?]%list_elem_of_filter. done.
  - intros [? _]%elem_of_replicate. done.
  - intros E. apply (f_equal length) in E. rewrite length_replicate in E. apply length_zero_iff_nil. cbn in E. lia.
  - intros [? _]%elem_of_replicate. done.
  - intros t _ Ht. destruct (decide (target_key t ∈ checked_keys id db)) as [?|Hn]; [by left|].
    right. left. apply list_elem_of_filter. split; [|done]. by rewrite elem_of_list_to_set.
Qed.

(** All targets have a result exactly when the counter says so. *)
Lemma all_checked db d :
  NoDup (target_key <$> targets) -> scan_db_ok id targets db d ->
  ((forall t, t ∈ targets -> target_key t ∈ checked_keys id db) <->
   discovery_checked_targets d = discovery_total_targets d) /\
  (discovery_checked_targets d <= discovery_total_targets d)%Z.
Proof.
  intros Hnd (W & Hd & Htot & Hin). destruct (dw_counts _ W _ _ Hd) as [Hck _].
  destruct (dw_job _ W _ _ Hd) as (Hid & _). rewrite Hid, results_of_length in Hck. rewrite Hck, Htot.
  assert (Hck' : NoDup (checked_keys id db)) by (apply checked_keys_NoDup; exact (dw_key _ W)).
  assert (Hle : checked_keys id db ⊆+ keys targets) by (by apply NoDup_submseteq).
  pose proof (submseteq_length _ _ Hle) as Hlen. unfold keys in *. rewrite length_fmap in Hlen. split; [|lia].
  split.
  - intros Hall. assert (Hge : (target_key <$> targets) ⊆+ checked_keys id db).
    { apply NoDup_submseteq; [done|]. intros x (t & -> & Ht)%list_elem_of_fmap. auto. }
    apply submseteq_length in Hge. rewrite length_fmap in Hge. lia.
  - intros E t Ht. apply submseteq_length_Permutation in Hle; [|rewrite length_fmap; lia].
    rewrite Hle. by apply list_elem_of_fmap_2.
Qed.

Lemma finished_checked s d t :
  scan_inv s d -> Forall (eq Finished) (scan_workers s) -> discovery_state d = D_RUNNING ->
  discovery_cancel_requested d = false -> (scan_clock s < deadline)%Z -> t ∈ targets ->
  target_key t ∈ checked_keys id (scan_db s).
Proof.
  intros Hinv Hfin Hr Hc Hclk Ht. rewrite Forall_forall in Hfin.
  assert (Hq : scan_queue s = []).
  { destruct (scan_workers s) as [|w ws] eqn:Ew; [by apply (si_some _ _ Hinv)|].
    assert (Hw : Finished ∈ scan_workers s) by (rewrite Ew, (Hfin w (list_elem_of_here _ _)); by left).
    destruct (si_finished _ _ Hinv Hw) as [?|[?|?]]; [done|congruence|lia]. }
  destruct (si_cover _ _ Hinv t Hr Ht) as [?|[Hin|Hin]]; [done|rewrite Hq in Hin; set_solver|].
  apply list_elem_of_omap in Hin as (w & Hw & E). by rewrite <- (Hfin w Hw) in E.
Qed.

Lemma recorded_tables job db :
  discovery_jobs (recorded self job db) = discovery_jobs db /\
  discovery_results (recorded self job db) = discovery_results db.
Proof. unfold recorded. by destruct (svc_has_recorder self). Qed.

(** How the scan leaves its job. *)
Definition verdict (mono : Z) (d : DiscoveryJob) : DiscoveryState * option string :=
  if discovery_cancel_requested d then (D_CANCELLED, None)
  else if (deadline <=? mono)%Z && (discovery_checked_targets d <? discovery_total_targets d)%Z
  then (D_FAILED, Some "job_timeout") else (D_COMPLETED, None).

Lemma scan_end_job now mono db d :
  scan_db_ok id targets db d ->
  let db' := scan_end self id deadline now mono db in
  discovery_results db' = discovery_results db /\
  (discovery_active d = false -> discovery_jobs db' !! id = Some d) /\
  (discovery_active d = true -> exists d', discovery_jobs db' !! id = Some d' /\
     discovery_state d' = (verdict mono d).1 /\ discovery_safe_error_code d' = (verdict mono d).2 /\
     discovery_checked_targets d' = discovery_checked_targets d /\
     discovery_total_targets d' = discovery_total_targets d).
Proof.
  intros (W & Hd & _). destruct (dw_job _ W _ _ Hd) as (_ & Hchk & _). cbv zeta.
  unfold scan_end. rewrite Hd. fold (verdict mono d). destruct (verdict mono d) as [st err] eqn:Ev.
  assert (Hcan : Bool.eqb (discovery_cancel_requested d) (bool_decide (st = D_CANCELLED)) = true).
  { unfold verdict in Ev. destruct (discovery_cancel_requested d); [by simplify_eq|].
    destruct (_ && _); by simplify_eq. }
  unfold finish, read_back, write. destruct (discovery_active d) eqn:Ea.
  - rewrite (update_discovery_runs _ _ _ _ d Hd); [|by rewrite Ea|done]. cbn. rewrite lookup_insert_eq.
    set (d1 := end_discovery st now _).
    set (db1 := db <| discovery_jobs := _ |>).
    assert (Hl : forall db', discovery_jobs db' = discovery_jobs db1 -> discovery_jobs db' !! id = Some d1)
      by (intros db' ->; cbn; apply lookup_insert_eq).
    destruct (recorded_tables d1 db1) as [Ej Er].
    destruct (negb (discovery_active d1)); split_and!; try done; intros _; exists d1; (split; [by apply Hl|done]).
  - rewrite (update_discovery_skips _ _ _ _ d Hd) by (by rewrite Ea). rewrite Hd, Ea.
    destruct (recorded_tables d db) as [Ej Er]. cbn. rewrite Ej, Er. done.
Qed.
End Outcome.


(** ** A scan of two targets, one of them the manager's own address *)
Definition do_head (u : string) (s : Scan) : Scan :=
  let '(db, queue, w) := loop_head lab_service "scan-1" 100 u 2%Z (scan_clock s + 1) (scan_queue s) (scan_db s) in
  mkScan db queue (<[0 := w]> (scan_workers s)) (scan_others s) (scan_probed s) (scan_clock s + 1).

Definition do_acquire (u : string) (t : DiscoveryTarget) (s : Scan) : Scan :=
  let '(db, w) := begin_probe "scan-1" u t 2%Z (scan_db s) in
  mkScan db (scan_queue s) (<[0 := w]> (scan_workers s)) (scan_others s)
    (if probing w then t :: scan_probed s else scan_probed s) (scan_clock s).

Definition do_answer (u : string) (t : DiscoveryTarget) (answer : ProbeAnswer) (s : Scan) : Scan :=
  let '(db, w) := end_probe "scan-1" u t answer 2%Z (scan_db s) in
  mkScan db (scan_queue s) (<[0 := w]> (scan_workers s)) (scan_others s) (scan_probed s) (scan_clock s).

Definition lab_start : Scan := scan_start lab_service "scan-1" lab_targets 0 0 scans_db.

Definition lab_waiting : Scan := do_head "res-0" lab_start.

Definition lab_probing : Scan := do_acquire "res-0" target_a lab_waiting.

Definition lab_probed : Scan := do_answer "res-1" target_a (Fingerprint (Some "v1")) lab_probing.

Definition lab_checked : Scan := do_head "res-2" lab_probed.

Definition lab_end : Scan := do_head "res-3" lab_checked.

Section LabRun.
Context (outside : relation DB).

Lemma do_head_step u s :
  scan_workers s !! 0 = Some Looping -> discovery_results (scan_db s) !! u = None ->
  scan_step lab_service "scan-1" 100 outside s (do_head u s).
Proof.
  intros Hi Hu. unfold do_head. destruct (loop_head _ _ _ _ _ _ _ _) as [[db q] w] eqn:E.
  eapply StepHead; [exact Hi|exact Hu|lia|exact E].
Qed.

Lemma do_acquire_step u t s :
  scan_workers s !! 0 = Some (Waiting t) -> in_flight (scan_workers s) + scan_others s < 1 ->
  discovery_results (scan_db s) !! u = None ->
  scan_step lab_service "scan-1" 100 outside s (do_acquire u t s).
Proof.
  intros Hi Hf Hu. unfold do_acquire. destruct (begin_probe _ _ _ _ _) as [db w] eqn:E.
  eapply StepAcquire; [exact Hi|exact Hf|exact Hu|exact E].
Qed.

Lemma do_answer_step u t answer s :
  scan_workers s !! 0 = Some (Probing t) -> discovery_results (scan_db s) !! u = None ->
  scan_step lab_service "scan-1" 100 outside s (do_answer u t answer s).
Proof.
  intros Hi Hu. unfold do_answer. destruct (end_probe _ _ _ _ _ _) as [db w] eqn:E.
  eapply StepAnswer; [exact Hi|exact Hu|exact E].
Qed.

Lemma lab_step_1 : scan_step lab_service "scan-1" 100 outside lab_start lab_waiting.
Proof. apply do_head_step; vm_compute; reflexivity. Qed.

Lemma lab_step_2 : scan_step lab_service "scan-1" 100 outside lab_waiting lab_probing.
Proof. apply do_acquire_step; vm_compute; [reflexivity|lia|reflexivity]. Qed.

Lemma lab_step_3 : scan_step lab_service "scan-1" 100 outside lab_probing lab_probed.
Proof. apply do_answer_step; vm_compute; reflexivity. Qed.

Lemma lab_step_4 : scan_step lab_service "scan-1" 100 outside lab_probed lab_checked.
Proof. apply do_head_step; vm_compute; reflexivity. Qed.

Lemma lab_step_5 : scan_step lab_service "scan-1" 100 outside lab_checked lab_end.
Proof. apply do_head_step; vm_compute; reflexivity. Qed.

Lemma lab_run : rtc (scan_step lab_service "scan-1" 100 outside) lab_start lab_end.
Proof.
  apply (rtc_l _ _ lab_waiting), (rtc_l _ _ lab_probing), (rtc_l _ _ lab_probed), (rtc_l _ _ lab_checked), rtc_once.
  - apply lab_step_1.
  - apply lab_step_2.
  - apply lab_step_3.
  - apply lab_step_4.
  - apply lab_step_5.
Qed.
End LabRun.

Lemma lab_distinct : NoDup (target_key <$> lab_targets).
Proof. apply (bool_decide_unpack _). vm_compute. exact I. Qed.

Definition lab_job : DiscoveryJob := default (new_discovery "" "" 0 0 0%Z 0) (discovery_jobs scans_db !! "scan-1").

Lemma lab_db_ok : scan_db_ok "scan-1" lab_targets scans_db lab_job.
Proof.
  split_and!; [exact scans_db_wf|vm_compute; reflexivity|vm_compute; reflexivity|].
  assert (checked_keys "scan-1" scans_db = []) as -> by (vm_compute; reflexivity). set_solver.
Qed.

Lemma scan_probes_bounded_witness :
  NoDup (target_key <$> scan_probed lab_end) /\ target_key <$> scan_probed lab_end = [target_key target_a].
Proof.
  split; [|vm_compute; reflexivity].
  apply (scan_probes_bounded lab_service "scan-1" 100 (fun _ _ => True) lab_targets 0 0 scans_db lab_end);
    [apply lab_distinct|vm_compute; lia|apply lab_run].
Defined.

Lemma scan_ends_witness :
  5 <= 4 * length lab_targets /\ ended lab_end.
Proof.
  split; [|vm_compute; repeat constructor].
  apply (scan_ends lab_service "scan-1" 100 lab_targets 0 0 scans_db 5 lab_end).
  apply (run_own _ _ _ _ _ lab_waiting); [apply lab_step_1|].
  apply (run_own _ _ _ _ _ lab_probing); [apply lab_step_2|].
  apply (run_own _ _ _ _ _ lab_probed); [apply lab_step_3|].
  apply (run_own _ _ _ _ _ lab_checked); [apply lab_step_4|].
  apply (run_own _ _ _ _ _ lab_end); [apply lab_step_5|apply run_done].
Defined.


(** ** A scope that has grown *)
(** The targets are computed anew after a restart, the number of targets in the
    job is the old one. *)
Definition own_target (port : Z) : DiscoveryTarget := mkTarget "10.0.0.8" port "plain" "http".

Definition grown_targets : list DiscoveryTarget := own_target <$> [8765; 8766; 8767]%Z.

Definition grown_start : Scan := scan_start lab_service "scan-1" grown_targets 0 0 scans_db.
Definition grown_one : Scan := do_head "res-1" grown_start.
Definition grown_two : Scan := do_head "res-2" grown_one.
Definition grown_end : Scan := do_head "res-3" grown_two.

(** The result of a target beyond the recorded number violates the CHECK of the
    job table; the exception ends the worker, [gather] discards it, and the
    scan is stored as completed, before its deadline, with that target
    unreported. *)
Theorem grown_scope_completed_short :
  rtc (scan_step lab_service "scan-1" 100 (fun _ _ => False)) grown_start grown_end /\
  scan_workers grown_end = [Died] /\
  let db' := scan_end lab_service "scan-1" 100 4%Z 4 (scan_db grown_end) in
  (discovery_state <$> discovery_jobs db' !! "scan-1") = Some D_COMPLETED /\
  ~ target_key (own_target 8767) ∈ checked_keys "scan-1" db'.
Proof.
  split; [|split; [vm_compute; reflexivity|split; [vm_compute; reflexivity|]]].
  - apply (rtc_l _ _ grown_one), (rtc_l _ _ grown_two), rtc_once; apply do_head_step; vm_compute; reflexivity.
  - apply (bool_decide_unpack _). vm_compute. exact I.
Qed.
