(* ===== verification/FleetStatus.v ===== *)
(** * The status of the fleet

    [FleetStatusService] of [src/backend/ic_env_guard/fleet/status.py]: what the
    Manager shows of its Agents.  The n-th page query of a walk through the
    registry sees the database [dbs n]; other connections may write in between.
    The text form of a cursor is not modelled: [list] takes and returns the
    identifier it carries. *)

From stdpp Require Import base tactics list gmap strings sorting.
From Stdlib Require Import ZArith Lia Ascii.
From S2P Require Import Prelude Text Sql Models Schema JobValidation MutationFence.
From S2P Require Import EnrollmentJournal ManagerRegistry TargetPolicy AgentClient.

(** ** Derived statuses *)
Definition due_at (stale_after : option time) (now : time) : bool :=
  match stale_after with Some t => (t <=? now)%Z | None => false end.

Definition derive_connection_status (agent_enabled : bool) (probe : option AgentStatus) (now : time) : string :=
  if negb agent_enabled then "disabled"
  else match probe with
  | None => "unknown"
  | Some probe =>
      if bool_decide (status_last_error_code probe = Some "agent_identity_conflict") then "unavailable"
      else if due_at (status_stale_after probe) now then "unknown"
      else status_connection_status probe
  end.

(** [_mapping] and [_count]; a bool is an int in Python, but not here. *)
Definition mapping (value : option json) : list (string * json) :=
  match value with Some (JDict d) => d | _ => [] end.

Definition count (d : list (string * json)) (key : string) : Z :=
  match json_get key d with Some (JInt n) => n | _ => 0%Z end.

Definition counts_any (d : list (string * json)) (key : string) : bool := negb (count d key =? 0)%Z.

Definition derive_workload_status (summary : option (list (string * json))) (now stale_after : option time) : string :=
  match summary with
  | None => "unknown"
  | Some d =>
      if match now with Some now => due_at stale_after now | None => false end then "stale"
      else if bool_decide (d.*1 = []) then "unknown"
      else
        let observations := mapping (json_get "observations" d) in
        let services := mapping (json_get "services" d) in
        let logs := mapping (json_get "logs" d) in
        if counts_any observations "critical" || counts_any services "unhealthy" then "critical"
        else if counts_any observations "warning" || counts_any observations "stale" || counts_any logs "stale"
        then "warning"
        else "healthy"
  end.

(** ** Projection *)
#[local] Set Primitive Projections.
Record FleetItem := mkItem {
  item_agent_id : string;
  item_instance_id : option string;
  item_display_name : string;
  item_endpoint : string;
  item_enabled : bool;
  item_revision : Z;
  item_transport_profile_id : string;
  item_transport_warning : option string;
  item_connection_status : string;
  item_workload_status : string;
  item_observed_at : option time;
  item_stale_after : option time;
  item_api_version : option string;
  item_agent_version : option string;
  item_capabilities : list string;
  item_summary : json;
  item_last_error_code : option string
}.
#[local] Unset Primitive Projections.

Record FleetStatusService := mkFleetStatus { fs_profiles : list TransportProfile }.

(** Python's [str.casefold] and [str.strip]. *)
Class TextLib := { casefold : string -> string; strip : string -> string }.

Section Service.
Context (self : FleetStatusService).

Definition fleet_profile (id : string) : option TransportProfile :=
  list_find (fun p => profile_id p = id) (reverse (fs_profiles self)) ≫= fun found => Some found.2.

(** The stored status, if it is about this revision of the Agent. *)
Definition current_status (record : AgentRecord) (db : DB) : option AgentStatus :=
  match agent_status db !! agent_id record with
  | Some status => if (status_target_revision status =? agent_revision record)%Z then Some status else None
  | None => None
  end.

Definition project (record : AgentRecord) (now : time) (db : DB) : FleetItem :=
  let status := current_status record db in
  mkItem (agent_id record) (agent_instance_id record) (agent_display_name record) (agent_normalized_endpoint record)
    (agent_enabled record) (agent_revision record) (agent_transport_profile_id record)
    (match fleet_profile (agent_transport_profile_id record) with
     | Some (TrustedLanHttpProfile _ _) => Some "trusted_lan_http_unencrypted"
     | _ => None
     end)
    (derive_connection_status (agent_enabled record) status now)
    (match status with
     | None => "unknown"
     | Some status => if due_at (status_stale_after status) now then "stale" else status_workload_status status
     end)
    (status ≫= status_observed_at) (status ≫= status_stale_after) (status ≫= status_api_version)
    (status ≫= status_agent_version) (from_option status_capabilities [] status)
    (from_option status_summary (JDict []) status) (status ≫= status_last_error_code).

Definition fleet_get (id : string) (now : time) (db : DB) : option FleetItem :=
  match agents db !! id with Some record => Some (project record now db) | None => None end.

(** ** Walking through the registry *)
Inductive walk_error := PaginationDidNotAdvance | RegistryRaises (e : exn) | OutOfFuel.

Fixpoint all_agents (fuel n : nat) (cursor : option string) (seen : list string) (dbs : nat -> DB)
    : walk_error + list AgentRecord :=
  match fuel with
  | 0 => inl OutOfFuel
  | S fuel =>
      match (registry_list (mkQuery 1000 cursor) (dbs n)).1 with
      | inl e => inl (RegistryRaises e)
      | inr page =>
          match page_next_cursor page with
          | None => inr (page_items page)
          | Some next =>
              if bool_decide (Some next = cursor) || bool_decide (next ∈ seen) then inl PaginationDidNotAdvance
              else match all_agents fuel (S n) (Some next) (next :: seen) dbs with
                   | inl e => inl e
                   | inr rest => inr (page_items page ++ rest)
                   end
          end
      end
  end.

(** ** Lists *)
Record FleetQuery := mkFleetQuery {
  fq_query : option string;
  fq_connection_status : option string;
  fq_workload_status : option string;
  fq_capability : option string;
  fq_limit : Z
}.

Definition opt_is (filter : option string) (value : string) : bool :=
  match filter with None => true | Some f => bool_decide (value = f) end.

Definition has_text (needle s : string) : bool :=
  match String.index 0 needle s with Some _ => true | None => false end.

Section Lists.
Context `{TextLib}.

(** [query.casefold().strip() if query else None] *)
Definition needle_of (query : option string) : option string :=
  match query with Some q => if bool_decide (q = "") then None else Some (strip (casefold q)) | None => None end.

Definition item_matches (q : FleetQuery) (item : FleetItem) : bool :=
  match needle_of (fq_query q) with
  | None => true
  | Some needle =>
      has_text needle (casefold (item_agent_id item)) || has_text needle (casefold (item_display_name item)) ||
      has_text needle (casefold (item_endpoint item))
  end &&
  opt_is (fq_connection_status q) (item_connection_status item) &&
  opt_is (fq_workload_status q) (item_workload_status item) &&
  match fq_capability q with None => true | Some c => bool_decide (c ∈ item_capabilities item) end.

Definition after_id (after : option string) (item : FleetItem) : bool :=
  match after with None => true | Some a => String.ltb a (item_agent_id item) end.

(** The page, and the identifier in the next cursor. *)
Definition fleet_page (q : FleetQuery) (after : option string) (projected : list FleetItem)
    : list FleetItem * option string :=
  let limit := Z.to_nat (fq_limit q) in
  let filtered := filter (fun item => after_id after item && item_matches q item = true) projected in
  let page := take limit filtered in
  (page, if (limit <? length filtered)%nat then item_agent_id <$> last page else None).

Inductive list_error := InvalidLimit | WalkError (e : walk_error).

Definition fleet_list (fuel : nat) (q : FleetQuery) (after : option string) (now : time) (dbs : nat -> DB) (db : DB)
    : list_error + list FleetItem * option string :=
  if negb ((1 <=? fq_limit q)%Z && (fq_limit q <=? 1000)%Z) then inl InvalidLimit
  else match all_agents fuel 0 None [] dbs with
  | inl e => inl (WalkError e)
  | inr records => inr (fleet_page q after ((fun r => project r now db) <$> records))
  end.

(** ** Overview *)
Definition connection_severity (s : string) : option nat :=
  match list_find (fun x => x = s) ["unavailable"; "unknown"; "degraded"; "disabled"; "ready"] with
  | Some (i, _) => Some i
  | None => None
  end.

Definition workload_severity (s : string) : option nat :=
  match list_find (fun x => x = s) ["critical"; "warning"; "stale"; "unknown"; "healthy"] with
  | Some (i, _) => Some i
  | None => None
  end.

Definition severity (item : FleetItem) : option (nat * nat) :=
  c ← connection_severity (item_connection_status item); w ← workload_severity (item_workload_status item); Some (c, w).

(** The order of the keys [(connection, workload, name, id)]; the severities
    are there for every item that is compared. *)
Definition item_le (a b : FleetItem) : Prop :=
  let key item := default (0, 0) (severity item) in
  let name item := casefold (item_display_name item) in
  (key a).1 < (key b).1 \/ (key a).1 = (key b).1 /\
  ((key a).2 < (key b).2 \/ (key a).2 = (key b).2 /\
   (String.ltb (name a) (name b) = true \/ name a = name b /\
    String.leb (item_agent_id a) (item_agent_id b) = true)).

#[global] Instance item_le_dec a b : Decision (item_le a b).
Proof. unfold item_le. apply _. Defined.

(** [None] is the [KeyError] of a status the tables do not have. *)
Definition overview (fuel : nat) (now : time) (dbs : nat -> DB) (db : DB) : option (walk_error + list FleetItem) :=
  match all_agents fuel 0 None [] dbs with
  | inl e => Some (inl e)
  | inr records =>
      let items := (fun r => project r now db) <$> records in
      if forallb (fun item => is_some (severity item)) items then Some (inr (merge_sort item_le items)) else None
  end.
End Lists.
End Service.
