(* ===== verification/FleetStatusClaims.v ===== *)
(** * What the fleet view guarantees

    The walk through the registry is complete under concurrent writes, the
    pages of the fleet list partition the matching Agents, and the overview is
    a sorted permutation of the registry. *)

From stdpp Require Import base tactics list gmap strings sorting.
From Stdlib Require Import ZArith Lia Ascii.
From S2P Require Import Prelude Text Sql Models Schema JobValidation MutationFence.
From S2P Require Import EnrollmentJournal ManagerRegistry Samples Paging TargetPolicy AgentClient FleetStatus.

(** ** One page *)
Definition rows_after (cursor : option string) (db : DB) : list AgentRecord :=
  filter (fun a => after_cursor cursor a = true) (sorted_agents db).

Lemma elem_sorted_agents db a : a ∈ sorted_agents db <-> exists k, agents db !! k = Some a.
Proof.
  unfold sorted_agents. rewrite (merge_sort_Permutation agent_le), list_elem_of_fmap. split.
  - intros ([k a'] & -> & Hk%elem_of_map_to_list). eauto.
  - intros [k Hk%elem_of_map_to_list]. by exists (k, a).
Qed.

Lemma elem_rows_after cursor db a :
  db_wf db -> a ∈ rows_after cursor db <-> agents db !! agent_id a = Some a /\ after_cursor cursor a = true.
Proof.
  intros W. unfold rows_after. rewrite list_elem_of_filter, elem_sorted_agents. split.
  - intros [Ha [k Hk]]. by destruct (wf_agents _ W _ _ Hk) as [-> _].
  - intros [? ?]. eauto.
Qed.

Lemma filter_sorted {A} (R : relation A) (P : A -> Prop) `{forall x, Decision (P x)} l :
  StronglySorted R l -> StronglySorted R (filter P l).
Proof.
  induction 1 as [|a l Hs IH Ha]; [constructor|]. rewrite filter_cons. case_decide; [|done].
  constructor; [done|]. rewrite Forall_forall in *. intros x [_ Hx]%list_elem_of_filter. auto.
Qed.

Lemma filter_keep {A} (P : A -> Prop) `{forall x, Decision (P x)} l : Forall P l -> filter P l = l.
Proof. induction 1 as [|a l Ha _ IH]; [done|]. by rewrite filter_cons_True, IH. Qed.

Lemma filter_drop {A} (P : A -> Prop) `{forall x, Decision (P x)} l : Forall (fun x => ~ P x) l -> filter P l = [].
Proof. induction 1 as [|a l Ha _ IH]; [done|]. by rewrite filter_cons_False. Qed.

Lemma rows_after_sorted cursor db : db_wf db -> StronglySorted agent_lt (rows_after cursor db).
Proof. intros W. by apply filter_sorted, sorted_agents_strict. Qed.

Lemma sorted_app_lt l1 l2 a b :
  StronglySorted agent_lt (l1 ++ l2) -> a ∈ l1 -> b ∈ l2 -> String.ltb (agent_id a) (agent_id b) = true.
Proof.
  induction l1 as [|x l1 IH]; cbn; [by intros _ ?%not_elem_of_nil|].
  intros Hs [->|Ha]%elem_of_cons Hb; inversion_clear Hs as [|? ? Hs' Hall]; [|auto].
  rewrite Forall_forall in Hall. apply Hall, elem_of_app. by right.
Qed.

(** A page holds the first rows after its cursor; a next cursor is the
    identifier of its last row, which separates it from the rest. *)
Lemma page_cases cursor db :
  db_wf db -> exists items rest, rows_after cursor db = items ++ rest /\
    ((registry_list (mkQuery 1000 cursor) db).1 = inr (mkPage items None) /\ rest = [] \/
     exists x, x ∈ items /\ (registry_list (mkQuery 1000 cursor) db).1 = inr (mkPage items (Some (agent_id x))) /\
       (forall a, a ∈ items -> a = x \/ agent_lt a x) /\ (forall a, a ∈ rest -> agent_lt x a)).
Proof.
  intros W. pose proof (rows_after_sorted cursor db W) as Hs.
  rewrite (registry_list_page 1000 cursor db (rows_after cursor db)) by (lia || done).
  set (rows := rows_after cursor db) in *. assert (Hk : 0 < Z.to_nat 1000) by lia.
  revert Hk. generalize (Z.to_nat 1000). intros k Hk.
  exists (take k rows), (drop k rows). rewrite take_drop. split; [done|].
  destruct (Nat.ltb_spec k (length rows)) as [Hlt|Hge]; [right|left].
  - destruct (last (take k rows)) as [x|] eqn:Ex.
    2: { apply last_None, (f_equal length) in Ex. rewrite length_take in Ex. cbn in Ex. lia. }
    apply last_Some in Ex as [l0 Ex]. exists x. rewrite <- (take_drop k rows), Ex, <- app_assoc in Hs.
    rewrite Ex. split_and!; [set_solver|done| |].
    + intros a [Ha|Ha]%elem_of_app; [right; eapply sorted_app_lt; [exact Hs|done|set_solver]|left; set_solver].
    + intros a Ha. apply StronglySorted_app_1_r in Hs. inversion_clear Hs as [|? ? _ Hall].
      rewrite Forall_forall in Hall. auto.
  - split; [by rewrite take_ge|by apply drop_ge].
Qed.

(** ** The walk *)

Definition beyond (cursor : option string) (id : string) : bool :=
  match cursor with None => true | Some c => String.ltb c id end.

(** What the walk from [cursor] on must give. *)
Definition walked (n : nat) (cursor : option string) (dbs : nat -> DB) (l : list AgentRecord) : Prop :=
  StronglySorted agent_lt l /\
  (forall r, r ∈ l -> after_cursor cursor r = true /\ exists i, n <= i /\ agents (dbs i) !! agent_id r = Some r) /\
  (forall id, (forall i, n <= i -> is_Some (agents (dbs i) !! id)) ->
     beyond cursor id = true -> id ∈ agent_id <$> l).

Lemma sorted_app_intro l1 l2 :
  StronglySorted agent_lt l1 -> StronglySorted agent_lt l2 ->
  (forall a b, a ∈ l1 -> b ∈ l2 -> agent_lt a b) -> StronglySorted agent_lt (l1 ++ l2).
Proof.
  intros H1 H2 H. induction H1 as [|a l1 Hs IH Ha]; [done|]. cbn. constructor; [apply IH; set_solver|].
  apply Forall_app. split; [done|]. apply Forall_forall. intros b Hb. apply H; set_solver.
Qed.

Lemma agent_lt_trans a b c : agent_lt a b -> agent_lt b c -> agent_lt a c.
Proof. unfold agent_lt. apply ltb_trans. Qed.

Lemma walked_last n cursor dbs items :
  db_wf (dbs n) -> rows_after cursor (dbs n) = items -> walked n cursor dbs items.
Proof.
  intros W <-. split_and!; [by apply rows_after_sorted|..].
  - intros r [? ?]%elem_rows_after; [|done]. eauto.
  - intros id Hall Hc. destruct (Hall n) as [r Hr]; [lia|]. destruct (wf_agents _ W _ _ Hr) as [Hid _].
    rewrite <- Hid. apply list_elem_of_fmap_2, elem_rows_after; [done|]. rewrite Hid. split; [done|].
    unfold after_cursor. destruct cursor; [|done]. by rewrite Hid.
Qed.

Lemma walked_more n cursor dbs items rest x l :
  db_wf (dbs n) -> rows_after cursor (dbs n) = items ++ rest -> x ∈ items ->
  (forall a, a ∈ items -> a = x \/ agent_lt a x) -> (forall a, a ∈ rest -> agent_lt x a) ->
  walked (S n) (Some (agent_id x)) dbs l -> walked n cursor dbs (items ++ l).
Proof.
  intros W Er Hx Hle Hgt (Hs & Hin & Hall).
  assert (Hrows : forall a, a ∈ items -> agents (dbs n) !! agent_id a = Some a /\ after_cursor cursor a = true).
  { intros a Ha. apply elem_rows_after; [done|]. rewrite Er. apply elem_of_app. by left. }
  assert (Hcut : forall r, after_cursor (Some (agent_id x)) r = true -> agent_lt x r) by done.
  split_and!.
  - apply sorted_app_intro; [|done|].
    + pose proof (rows_after_sorted cursor _ W) as Hr. rewrite Er in Hr. by apply StronglySorted_app_1_l in Hr.
    + intros a b Ha Hb. destruct (Hin b Hb) as [Hb' _]. apply Hcut in Hb'.
      destruct (Hle a Ha) as [->|?]; [done|by eapply agent_lt_trans].
  - intros r [Hr|Hr]%elem_of_app.
    + destruct (Hrows r Hr). eauto.
    + destruct (Hin r Hr) as [Hr' (i & ? & ?)]. split; [|exists i; split; [lia|done]].
      apply Hcut in Hr'. destruct (Hrows x Hx) as [_ Hc]. destruct cursor as [c|]; [|done].
      cbn in *. by eapply ltb_trans.
  - intros id Hid Hc. rewrite fmap_app, elem_of_app.
    destruct (Hid n) as [r Hr]; [lia|]. destruct (wf_agents _ W _ _ Hr) as [Er' _].
    assert (Hrow : r ∈ items ++ rest).
    { rewrite <- Er. apply elem_rows_after; [done|]. rewrite Er'. split; [done|].
      destruct cursor; [|done]. cbn. by rewrite Er'. }
    apply elem_of_app in Hrow as [Hr'|Hr'].
    + left. rewrite <- Er'. by apply list_elem_of_fmap_2.
    + right. apply Hall; [intros i ?; apply Hid; lia|]. rewrite <- Er'. by apply Hgt.
Qed.

(** The identifiers of [ids] that are still ahead. *)
Definition ahead (cursor : option string) (ids : gset string) : gset string :=
  filter (fun id => beyond cursor id = true) ids.

Lemma all_agents_walk fuel n cursor seen dbs ids :
  (forall i, db_wf (dbs i)) -> (forall i, dom (agents (dbs i)) ⊆ ids) ->
  (forall s, s ∈ seen -> exists c, cursor = Some c /\ (s = c \/ String.ltb s c = true)) ->
  size (ahead cursor ids) < fuel ->
  exists l, all_agents fuel n cursor seen dbs = inr l /\ walked n cursor dbs l.
Proof.
  intros W Hids. revert n cursor seen. induction fuel as [|fuel IH]; intros n cursor seen Hseen Hf; [lia|].
  cbn [all_agents]. destruct (page_cases cursor (dbs n) (W n)) as (items & rest & Er & Hp).
  destruct Hp as [[-> ->]|(x & Hx & -> & Hle & Hgt)]; cbn [page_next_cursor page_items].
  { exists items. split; [done|]. apply walked_last; [done|]. by rewrite Er, app_nil_r. }
  assert (Hxr : agents (dbs n) !! agent_id x = Some x /\ after_cursor cursor x = true).
  { apply elem_rows_after; [done|]. rewrite Er. apply elem_of_app. by left. }
  destruct Hxr as [Hxa Hxc].
  assert (Hnew : forall c s, cursor = Some c -> s = c \/ String.ltb s c = true -> String.ltb s (agent_id x) = true).
  { intros c s -> [->|Hs]; cbn in Hxc; [done|by eapply ltb_trans]. }
  rewrite bool_decide_false; [|intros E; destruct cursor as [c|]; [|done]; injection E as E;
    specialize (Hnew c c eq_refl (or_introl eq_refl)); rewrite E, ltb_irrefl in Hnew; done].
  rewrite bool_decide_false; [|intros Hs; destruct (Hseen _ Hs) as (c & Ec & Hs');
    specialize (Hnew c _ Ec Hs'); by rewrite ltb_irrefl in Hnew]. cbn.
  destruct (IH (S n) (Some (agent_id x)) (agent_id x :: seen)) as (l & -> & Hl).
  - intros s [->|Hs]%elem_of_cons; [by eauto|]. exists (agent_id x). split; [done|]. right.
    destruct (Hseen s Hs) as (c & Ec & Hs'). by eapply Hnew.
  - assert (ahead (Some (agent_id x)) ids ⊂ ahead cursor ids); [|pose proof (subset_size _ _ H); lia].
    apply strict_spec_alt. split.
    + intros id. unfold ahead. rewrite !elem_of_filter. intros [Hlt ?]. split; [|done].
      destruct cursor as [c|]; [|done]. by eapply ltb_trans.
    + intros E. assert (Hin : agent_id x ∈ ahead (Some (agent_id x)) ids).
      { rewrite E. unfold ahead. rewrite elem_of_filter. split; [by destruct cursor|].
        apply (Hids n). by eapply elem_of_dom_2. }
      unfold ahead in Hin. rewrite elem_of_filter in Hin. cbn in Hin. rewrite ltb_irrefl in Hin. by destruct Hin.
  - exists (items ++ l). split; [done|]. by eapply walked_more.
Qed.

Lemma walk_complete (ids : gset string) dbs fuel :
  (forall i, db_wf (dbs i)) -> (forall i, dom (agents (dbs i)) ⊆ ids) -> size ids < fuel ->
  exists l, all_agents fuel 0 None [] dbs = inr l /\
    StronglySorted agent_lt l /\ NoDup (agent_id <$> l) /\
    (forall id, (forall i, is_Some (agents (dbs i) !! id)) -> id ∈ agent_id <$> l) /\
    (forall r, r ∈ l -> exists i, agents (dbs i) !! agent_id r = Some r).
Proof.
  intros W Hids Hf. destruct (all_agents_walk fuel 0 None [] dbs ids) as (l & El & Hs & Hin & Hall);
    [done|done|by intros s ?%not_elem_of_nil| |].
  { eapply Nat.le_lt_trans, Hf. apply subseteq_size. intros id. unfold ahead. by rewrite elem_of_filter; intros [_ ?]. }
  exists l. split_and!; [done|done| |intros id H; apply Hall; auto|intros r Hr; destruct (Hin r Hr) as [_ (i & _ & ?)]; eauto].
  clear El Hin Hall. induction Hs as [|a l Hs IH Ha]; [constructor|]. cbn. constructor; [|done].
  intros (b & E & Hb)%list_elem_of_fmap. rewrite Forall_forall in Ha. specialize (Ha b Hb).
  unfold agent_lt in Ha. destruct a, b. cbn in *. subst. by rewrite ltb_irrefl in Ha.
Qed.

(** The walk through the registry is complete although it is not atomic.
    While other connections write between its page queries, in well-formed
    databases whose Agents come from a bounded set of identifiers, the walk
    ends, never reports that the paging did not advance, and returns every
    Agent at most once, in the order of the identifiers; an Agent that is
    registered the whole time is returned, and every record returned was
    registered in that form at some page. *)
Theorem fleet_walk_complete (ids : gset string) dbs fuel :
  (forall i, db_wf (dbs i)) -> (forall i, dom (agents (dbs i)) ⊆ ids) -> size ids < fuel ->
  exists l, all_agents fuel 0 None [] dbs = inr l /\
    StronglySorted agent_lt l /\ NoDup (agent_id <$> l) /\
    (forall id, (forall i, is_Some (agents (dbs i) !! id)) -> id ∈ agent_id <$> l) /\
    (forall r, r ∈ l -> exists i, agents (dbs i) !! agent_id r = Some r).
Proof. apply walk_complete. Qed.

(** In a registry that does not change, the walk is a sorted permutation. *)
Lemma all_agents_still db fuel :
  db_wf db -> size (agents db) < fuel ->
  exists l, all_agents fuel 0 None [] (fun _ => db) = inr l /\ StronglySorted agent_lt l /\
    l ≡ₚ (map_to_list (agents db)).*2.
Proof.
  intros W Hf. destruct (walk_complete (dom (agents db)) (fun _ => db) fuel) as (l & El & Hs & Hnd & Hall & Hin);
    [done|done|by rewrite size_dom|].
  exists l. split_and!; [done..|]. apply NoDup_Permutation.
  - by apply NoDup_fmap_1 in Hnd.
  - pose proof (agents_nodup db W) as H. by apply NoDup_fmap_1 in H.
  - intros r. rewrite list_elem_of_fmap. split.
    + intros Hr. destruct (Hin r Hr) as [_ Hr']. exists (agent_id r, r). by rewrite elem_of_map_to_list.
    + intros ([k r'] & -> & Hk%elem_of_map_to_list). cbn. destruct (wf_agents _ W _ _ Hk) as [Hid _].
      assert (Hk' : k ∈ agent_id <$> l) by (apply Hall; intros _; eauto).
      apply list_elem_of_fmap in Hk' as (r & Ek & Hr). destruct (Hin r Hr) as [_ Hr'].
      assert (E : agents db !! k = Some r) by (rewrite Ek; exact Hr'). by simplify_eq.
Qed.

(** ** Pages of the fleet list *)
Section Pages.
Context `{TextLib} (self : FleetStatusService).

Definition item_lt (a b : FleetItem) : Prop := String.ltb (item_agent_id a) (item_agent_id b) = true.

(** A client that asks for pages until there is no next cursor. *)
Fixpoint walk_list (steps fuel : nat) (q : FleetQuery) (after : option string) (now : time) (db : DB)
    : option (list FleetItem) :=
  match steps with
  | 0 => None
  | S steps =>
      match fleet_list self fuel q after now (fun _ => db) db with
      | inl _ => None
      | inr (page, None) => Some page
      | inr (page, Some next) => app page <$> walk_list steps fuel q (Some next) now db
      end
  end.

Definition wanted (q : FleetQuery) (after : option string) (items : list FleetItem) : list FleetItem :=
  filter (fun item => after_id after item && item_matches q item = true) items.

Lemma wanted_none q items : wanted q None items = filter (fun item => item_matches q item = true) items.
Proof. done. Qed.

(** The items after an item of the list are those behind it. *)
Lemma wanted_after q items l1 x l2 :
  StronglySorted item_lt items -> wanted q None items = l1 ++ x :: l2 ->
  wanted q (Some (item_agent_id x)) items = l2.
Proof.
  intros Hs E. assert (Hw : StronglySorted item_lt (l1 ++ x :: l2)) by (rewrite <- E; by apply filter_sorted).
  transitivity (filter (fun item => String.ltb (item_agent_id x) (item_agent_id item) = true) (wanted q None items)).
  - unfold wanted. rewrite list_filter_filter. apply list_filter_iff. intros a. cbn [after_id andb].
    by rewrite andb_true_iff.
  - rewrite E, filter_app, filter_cons_False by (by rewrite ltb_irrefl).
    rewrite (filter_drop _ l1), (filter_keep _ l2); [done|..].
    + apply StronglySorted_app_1_r in Hw. inversion_clear Hw as [|? ? _ Hall]. exact Hall.
    + apply Forall_forall. intros a Ha. assert (item_lt a x) as Hax.
      { clear E. induction l1 as [|b l1 IH]; [by apply not_elem_of_nil in Ha|].
        inversion_clear Hw as [|? ? Hw' Hall]. apply elem_of_cons in Ha as [->|Ha]; [|auto].
        rewrite Forall_forall in Hall. apply Hall. set_solver. }
      unfold item_lt in Hax. by rewrite (ltb_asym _ _ Hax).
Qed.

Lemma walk_list_rest steps fuel q after now db items l1 l :
  (1 <= fq_limit q <= 1000)%Z -> StronglySorted item_lt items ->
  (forall after', fleet_list self fuel q after' now (fun _ => db) db = inr (fleet_page q after' items)) ->
  wanted q None items = l1 ++ l -> wanted q after items = l -> length l < steps ->
  walk_list steps fuel q after now db = Some l.
Proof.
  intros Hlim Hs Hpage. revert after l1 l. induction steps as [|steps IH]; intros after l1 l El Ea Hlt; [lia|].
  cbn [walk_list]. rewrite Hpage. unfold fleet_page. fold (wanted q after items). rewrite Ea.
  set (n := Z.to_nat (fq_limit q)). assert (Hn : 0 < n) by (unfold n; lia).
  destruct (Nat.ltb_spec n (length l)) as [Hl|Hl]; [|by rewrite take_ge].
  destruct (last (take n l)) as [x|] eqn:Ex.
  - apply last_Some in Ex as [l0 Ex].
    change (app (take n l) <$> walk_list steps fuel q (Some (item_agent_id x)) now db = Some l).
    assert (El' : wanted q None items = (l1 ++ l0) ++ x :: drop n l).
    { rewrite El, <- (take_drop n l) at 1. rewrite Ex. by rewrite <- !app_assoc. }
    rewrite (IH (Some (item_agent_id x)) ((l1 ++ l0) ++ [x]) (drop n l)).
    + cbn. by rewrite take_drop.
    + by rewrite El', <- !app_assoc.
    + by eapply wanted_after.
    + rewrite length_drop. lia.
  - apply last_None, (f_equal length) in Ex. rewrite length_take in Ex. cbn in Ex. lia.
Qed.

Lemma project_sorted l now db :
  StronglySorted agent_lt l -> StronglySorted item_lt ((fun r => project self r now db) <$> l).
Proof.
  induction 1 as [|a l Hs IH Ha]; [constructor|]. cbn. constructor; [done|].
  rewrite Forall_fmap. exact Ha.
Qed.

(** The pages of the fleet list hold every matching Agent once.  A client
    that follows the cursors from the start, with any filter and any page size
    the API accepts, needs at most one request per Agent and one more, and has
    received exactly the Agents whose projection matches, in the order of their
    identifiers. *)
Theorem fleet_pages_partition steps fuel q now db :
  db_wf db -> (1 <= fq_limit q <= 1000)%Z -> size (agents db) < fuel -> size (agents db) < steps ->
  exists l, walk_list steps fuel q None now db = Some l /\ StronglySorted item_lt l /\
    l ≡ₚ filter (fun item => item_matches q item = true)
           ((fun r => project self r now db) <$> (map_to_list (agents db)).*2).
Proof.
  intros W Hl Hf Hst. destruct (all_agents_still db fuel W Hf) as (records & Er & Hs & Hp).
  set (items := (fun r => project self r now db) <$> records).
  assert (Hi : StronglySorted item_lt items) by (by apply project_sorted).
  exists (wanted q None items). split_and!.
  - eapply (walk_list_rest _ _ _ _ _ _ items []); [done|done| |done|done|].
    + intros after'. unfold fleet_list. rewrite (proj2 (Z.leb_le 1 _)), (proj2 (Z.leb_le _ 1000)), Er by lia. done.
    + eapply Nat.le_lt_trans, Hst. unfold wanted. etrans; [apply length_filter|].
      unfold items. by rewrite length_fmap, Hp, length_fmap, length_map_to_list.
  - by apply filter_sorted.
  - rewrite wanted_none. unfold items. by rewrite Hp.
Qed.

(** ** Overview *)
#[local] Instance item_le_trans : Transitive item_le.
Proof.
  intros a b c. unfold item_le. cbv zeta. intros H1 H2.
  destruct H1 as [?|[E1 [?|[E2 [L1|[E3 L1]]]]]], H2 as [?|[F1 [?|[F2 [L2|[F3 L2]]]]]]; try (left; lia); right;
    (split; [lia|]); try (left; lia); right; (split; [lia|]).
  - left. by eapply ltb_trans.
  - left. by rewrite <- F3.
  - left. by rewrite E3.
  - right. split; [congruence|]. rewrite leb_cases in *. destruct L1 as [->|L1], L2 as [<-|L2]; auto.
    right. by eapply ltb_trans.
Qed.

#[local] Instance item_le_total : Total item_le.
Proof.
  intros a b. unfold item_le. cbv zeta.
  set (ka := default _ (severity a)). set (kb := default _ (severity b)).
  destruct (Nat.lt_trichotomy ka.1 kb.1) as [?|[E1|?]]; [by left; left| |by right; left].
  assert (E1' : kb.1 = ka.1) by done.
  destruct (Nat.lt_trichotomy ka.2 kb.2) as [?|[E2|?]]; [left; right; auto| |right; right; auto].
  assert (E2' : kb.2 = ka.2) by done.
  destruct (String.leb_total (casefold (item_display_name a)) (casefold (item_display_name b))) as [L|L];
    apply leb_cases in L as [E3|L]; [|left; right; auto| |right; right; auto].
  all: assert (E3' := eq_sym E3); destruct (String.leb_total (item_agent_id a) (item_agent_id b));
    [left; right|right; right]; auto 6.
Qed.

Lemma severity_total record now db : db_wf db -> is_some (severity (project self record now db)) = true.
Proof.
  intros W. unfold severity. cbn [item_connection_status item_workload_status project].
  assert (Hst : forall st, current_status record db = Some st ->
    status_connection_status st ∈ connection_statuses /\ status_workload_status st ∈ workload_statuses).
  { intros st. unfold current_status. destruct (agent_status db !! agent_id record) as [s0|] eqn:E; [|done].
    destruct (_ =? _)%Z; [|done]. intros [= <-]. destruct (wf_status _ W _ _ E) as (_ & Hc & _).
    unfold status_check in Hc. by prop_hyps. }
  assert (Hc : derive_connection_status (agent_enabled record) (current_status record db) now ∈ connection_statuses).
  { unfold derive_connection_status. destruct (negb _); [set_solver|].
    destruct (current_status record db) as [st|]; [|set_solver]. case_bool_decide; [set_solver|].
    destruct (due_at _ _); [set_solver|]. by apply Hst. }
  assert (Hw : match current_status record db with
     | None => "unknown"
     | Some status => if due_at (status_stale_after status) now then "stale" else status_workload_status status
     end ∈ workload_statuses).
  { destruct (current_status record db) as [st|]; [|set_solver].
    destruct (due_at _ _); [set_solver|]. by apply Hst. }
  revert Hc Hw. generalize (derive_connection_status (agent_enabled record) (current_status record db) now).
  generalize (match current_status record db with
     | None => "unknown"
     | Some status => if due_at (status_stale_after status) now then "stale" else status_workload_status status
     end).
  intros w c Hc Hw. unfold connection_statuses, workload_statuses in *.
  repeat (apply elem_of_cons in Hc as [->|Hc]); [..|by apply not_elem_of_nil in Hc];
    repeat (apply elem_of_cons in Hw as [->|Hw]); try (by apply not_elem_of_nil in Hw); vm_compute; reflexivity.
Qed.

(** The overview shows every Agent, worst first.  In a well-formed database
    [overview] raises nothing; it holds each registered Agent's projection
    exactly once, sorted by connection status, workload status, name and
    identifier. *)
Theorem overview_complete fuel now db :
  db_wf db -> size (agents db) < fuel ->
  exists l, overview self fuel now (fun _ => db) db = Some (inr l) /\ StronglySorted item_le l /\
    l ≡ₚ (fun r => project self r now db) <$> (map_to_list (agents db)).*2.
Proof.
  intros W Hf. destruct (all_agents_still db fuel W Hf) as (records & Er & _ & Hp).
  set (items := (fun r => project self r now db) <$> records).
  exists (merge_sort item_le items). unfold overview. rewrite Er. fold items. split_and!.
  - replace (forallb (fun item => is_some (severity item)) items) with true; [done|]. symmetry.
    apply forallb_forall. intros item Hi%list_elem_of_In.
    apply list_elem_of_fmap in Hi as (r & -> & _). by apply severity_total.
  - apply (StronglySorted_merge_sort item_le).
  - rewrite (merge_sort_Permutation item_le). unfold items. by rewrite Hp.
Qed.

(** What is shown of an Agent is current.  An Agent shown as ready or
    degraded is enabled and has a stored status with that connection status
    that is about its present revision, is not stale and does not report an
    identity conflict; a workload status other than unknown and stale is that
    of such a status as well; and while a stored identity conflict is about
    the present revision, the enabled Agent is shown as unavailable, however
    old the conflict is. *)
Theorem shown_status_current record now db :
  let item := project self record now db in
  (item_connection_status item ∈ ["ready"; "degraded"] ->
   agent_enabled record = true /\ exists st, agent_status db !! agent_id record = Some st /\
     status_target_revision st = agent_revision record /\ due_at (status_stale_after st) now = false /\
     status_last_error_code st <> Some "agent_identity_conflict" /\
     status_connection_status st = item_connection_status item) /\
  (~ item_workload_status item ∈ ["unknown"; "stale"] ->
   exists st, agent_status db !! agent_id record = Some st /\
     status_target_revision st = agent_revision record /\ due_at (status_stale_after st) now = false /\
     status_workload_status st = item_workload_status item) /\
  (agent_enabled record = true ->
   (exists st, agent_status db !! agent_id record = Some st /\ status_target_revision st = agent_revision record /\
      status_last_error_code st = Some "agent_identity_conflict") ->
   item_connection_status item = "unavailable").
Proof.
  cbn [item_connection_status item_workload_status project]. unfold derive_connection_status, current_status.
  destruct (agent_status db !! agent_id record) as [st|].
  2: { split_and!; [destruct (agent_enabled record); cbn; set_solver|set_solver|naive_solver]. }
  destruct (Z.eqb_spec (status_target_revision st) (agent_revision record)) as [E|E].
  2: { split_and!; [destruct (agent_enabled record); cbn; set_solver|set_solver|naive_solver]. }
  split_and!.
  - destruct (agent_enabled record); cbn; [|set_solver]. case_bool_decide; [set_solver|].
    destruct (due_at _ _) eqn:Ed; [set_solver|]. intros _. eauto 10.
  - destruct (due_at _ _) eqn:Ed; [set_solver|]. eauto 10.
  - intros -> (st' & [= ->] & _ & ->). cbn. by rewrite bool_decide_true.
Qed.
End Pages.

(** ** Examples *)
#[local] Instance ascii_text : TextLib := {| casefold := lower; strip := fun s => s |}.

Definition any_item : FleetQuery := mkFleetQuery None None None None 1.

Definition bare_service : FleetStatusService := mkFleetStatus [].

Lemma fleet_walk_complete_witness :
  exists l, all_agents 2 0 None [] (fun _ => fleet_db) = inr l /\ StronglySorted agent_lt l.
Proof.
  destruct (fleet_walk_complete (dom (agents fleet_db)) (fun _ => fleet_db) 2) as (l & El & Hs & _);
    [intros _; exact fleet_db_wf|intros _; reflexivity|vm_compute; lia|]. exists l. split; [exact El|exact Hs].
Defined.

Lemma fleet_pages_partition_witness :
  exists l, walk_list bare_service 2 2 any_item None 0%Z fleet_db = Some l /\ length l = 1.
Proof.
  destruct (fleet_pages_partition bare_service 2 2 any_item 0%Z fleet_db fleet_db_wf) as (l & El & _ & Hp);
    [cbn; lia|vm_compute; lia|vm_compute; lia|].
  exists l. split; [exact El|]. apply Permutation_length in Hp. rewrite Hp. vm_compute. reflexivity.
Defined.

Lemma overview_complete_witness :
  exists l, overview bare_service 2 0%Z (fun _ => fleet_db) fleet_db = Some (inr l) /\ length l = 1.
Proof.
  destruct (overview_complete bare_service 2 0%Z fleet_db fleet_db_wf) as (l & El & _ & Hp); [vm_compute; lia|].
  exists l. split; [exact El|]. apply Permutation_length in Hp. rewrite Hp. vm_compute. reflexivity.
Defined.
