(* ===== verification/FleetProbes.v ===== *)
(** * Probing the Agents

    [FleetProbeService] of [src/backend/ic_env_guard/fleet/probes.py]: one probe
    asks an Agent for its capabilities and its summary, checks that it is the
    Agent that is registered, and stores what it learned.  The HTTP client, the
    prober of the first API version and the credential files are inputs; at
    each [await], other tasks and connections change the database. *)

From stdpp Require Import base tactics list gmap strings.
From Stdlib Require Import ZArith Lia Ascii.
From S2P Require Import Prelude Text Sql Models Schema JobValidation MutationFence.
From S2P Require Import EnrollmentJournal ManagerRegistry TargetPolicy AgentClient FleetStatus.

(** ** Dispatch states *)
(** The three literals of [DispatchState]. *)
Definition dispatch_state (value : string) : DiscoveryDispatchState :=
  if bool_decide (value = "not_dispatched") then NOT_DISPATCHED
  else if bool_decide (value = "dispatched") then DISPATCHED
  else DISPATCH_UNKNOWN.

Definition priority (s : DiscoveryDispatchState) : nat :=
  match s with NOT_DISPATCHED => 0 | DISPATCH_UNKNOWN => 1 | DISPATCHED => 2 end.

Definition combine_dispatch (left right : DiscoveryDispatchState) : DiscoveryDispatchState :=
  if priority right <=? priority left then left else right.

(** ** Answers of the Agent *)
Record ProbedCapabilities := mkProbed {
  probed_instance_id : string;
  probed_agent_version : string;
  probed_capabilities : list string
}.

(** [tuple(dict.fromkeys(values))] *)
Fixpoint first_occurrences (seen : list string) (l : list string) : list string :=
  match l with
  | [] => []
  | x :: l => if bool_decide (x ∈ seen) then first_occurrences seen l else x :: first_occurrences (x :: seen) l
  end.

Definition capability_text (v : json) : option string :=
  match v with
  | JString s => if (characters s <=? 128) && is_capability s then Some s else None
  | _ => None
  end.

Definition probe_capabilities (payload : option json) : option ProbedCapabilities :=
  match payload with
  | Some (JDict d) =>
      match as_string (json_get "instance_id" d) with
      | None => None
      | Some instance =>
          if negb (is_canonical_uuid instance) then None
          else if negb (bool_decide (as_string (json_get "api_version" d) = Some "2")) then None
          else match as_string (json_get "agent_version" d), json_get "capabilities" d with
          | Some version, Some (JList items) =>
              if negb (is_version version) || (256 <? length items) then None
              else match mapM capability_text items with
                   | None => None
                   | Some values => Some (mkProbed instance version (first_occurrences [] values))
                   end
          | _, _ => None
          end
      end
  | _ => None
  end.

Definition probe_count (d : list (string * json)) (field : string) : option (string * json) :=
  match json_get field d with
  | Some (JInt n) => if (0 <=? n)%Z then Some (field, JInt n) else None
  | _ => None
  end.

Definition probe_section (payload : list (string * json)) (section : string * list string) : option (string * json) :=
  match json_get section.1 payload with
  | Some (JDict raw) => (fun counts => (section.1, JDict counts)) <$> mapM (probe_count raw) section.2
  | _ => None
  end.

Definition probe_summary `{IsoTime} (payload : option json) : option (list (string * json)) :=
  match payload with
  | Some (JDict d) =>
      match as_string (json_get "observed_at" d) ≫= iso_utc with
      | None => None
      | Some observed =>
          (fun sections => ("observed_at", JString observed) :: sections) <$> mapM (probe_section d) summary_sections
      end
  | _ => None
  end.

(** ** The prober of the first API version *)
Record AgentObservation := mkObservation {
  aobs_status : string;
  aobs_api_version : option string;
  aobs_agent_version : option string;
  aobs_capabilities : list string;
  aobs_last_error : option string;
  aobs_dispatch_state : string
}.

Definition validate_legacy_observation (o : AgentObservation) : bool :=
  bool_decide (aobs_api_version o = Some "1") &&
  match aobs_agent_version o with Some v => is_version v | None => false end &&
  (length (aobs_capabilities o) <=? 256) &&
  forallb (fun v => (characters v <=? 128) && is_capability v) (aobs_capabilities o).

(** ** Effects *)
Inductive probe_exn :=
| AgentProbeError (code : string) (dispatch : DiscoveryDispatchState)
| AgentProbeDisabled (code : string) (dispatch : DiscoveryDispatchState)
| ProfileKeyError
| CredentialStoreError
| TargetPolicyError (code : string)
| AgentClientError (category : string) (dispatch : string)
| BadAnswer
| RegistryRaised (e : exn)
| ClientBroken
| LegacyRaised
| ProbeCancelled.

(** The database, the in-memory table of published statuses, the requests sent
    so far (the newest first), the variable [aggregate_dispatch] of the probe,
    and the number of [await]s passed. *)
Record ProbeWorld := mkWorld {
  pw_db : DB;
  pw_published : gmap string AgentStatus;
  pw_sent : list (ValidatedTarget * string);
  pw_dispatch : DiscoveryDispatchState;
  pw_moment : nat
}.

Definition Probe (A : Type) : Type := ProbeWorld -> (probe_exn + A) * ProbeWorld.

Definition pr_ret {A} (a : A) : Probe A := fun w => (inr a, w).
Definition pr_raise {A} (e : probe_exn) : Probe A := fun w => (inl e, w).

Definition pr_bind {A B} (m : Probe A) (k : A -> Probe B) : Probe B := fun w =>
  match m w with
  | (inl e, w) => (inl e, w)
  | (inr a, w) => k a w
  end.

Definition pr_catch {A} (m : Probe A) (h : probe_exn -> Probe A) : Probe A := fun w =>
  match m w with
  | (inl e, w) => h e w
  | r => r
  end.

Declare Scope probe_scope.
Delimit Scope probe_scope with probe.
Notation "'let~' x ':=' m 'in' k" := (pr_bind m (fun x => k))
  (at level 10, x pattern, m at level 100, k at level 200) : probe_scope.
Notation "m ';;~' k" := (pr_bind m (fun _ => k)) (at level 199, right associativity) : probe_scope.
Local Open Scope probe_scope.

Definition pr_reads {A} (f : DB -> A) : Probe A := fun w => (inr (f (pw_db w)), w).

(** A call of a repository. *)
Definition pr_method {A} (m : Method A) : Probe A := fun w =>
  match m (pw_db w) with
  | (inl e, db) => (inl (RegistryRaised e), mkWorld db (pw_published w) (pw_sent w) (pw_dispatch w) (pw_moment w))
  | (inr a, db) => (inr a, mkWorld db (pw_published w) (pw_sent w) (pw_dispatch w) (pw_moment w))
  end.

Definition pr_policy {A} (r : Checked A) : Probe A :=
  match r with inl code => pr_raise (TargetPolicyError code) | inr a => pr_ret a end.

Definition add_dispatch (d : DiscoveryDispatchState) : Probe unit := fun w =>
  (inr tt, mkWorld (pw_db w) (pw_published w) (pw_sent w) (combine_dispatch (pw_dispatch w) d) (pw_moment w)).

Definition get_dispatch : Probe DiscoveryDispatchState := fun w => (inr (pw_dispatch w), w).

Definition publish (s : AgentStatus) : Probe unit := fun w =>
  (inr tt, mkWorld (pw_db w) (<[status_agent_id s := s]> (pw_published w)) (pw_sent w) (pw_dispatch w) (pw_moment w)).

(** ** The service *)
Record FleetProbeService := mkFleetProbes {
  fp_policy : AgentTargetPolicy;
  fp_profiles : list TransportProfile;
  fp_stale_after_seconds : Z;
  fp_has_legacy : bool;
  fp_allow_import_without_dynamic_allowlist : bool;
  fp_local_bootstrap_enabled : bool
}.

Record ProbeResult := mkProbeResult { result_status : AgentStatus; result_dispatch : DiscoveryDispatchState }.

Section Service.
Context `{PythonIp} `{UrlLib} `{IsoTime} (self : FleetProbeService) (resolver : Resolver) (http : Http).
Context (read_credential : string -> option string) (probe_legacy : string -> option AgentObservation).
Context (other : nat -> DB -> DB).

(** An [await]. *)
Definition pr_await : Probe unit := fun w =>
  (inr tt, mkWorld (other (pw_moment w) (pw_db w)) (pw_published w) (pw_sent w) (pw_dispatch w) (S (pw_moment w))).

Definition probe_profile (id : string) : option TransportProfile :=
  list_find (fun p => profile_id p = id) (reverse (fp_profiles self)) ≫= fun found => Some found.2.

Definition need_profile (id : string) : Probe TransportProfile :=
  match probe_profile id with Some p => pr_ret p | None => pr_raise ProfileKeyError end.

(** [urlsplit(record.normalized_endpoint).scheme], which may raise [ValueError]. *)
Definition endpoint_scheme (record : AgentRecord) : Probe string :=
  match urlsplit (agent_normalized_endpoint record) with
  | Some parts => pr_ret (split_scheme parts)
  | None => pr_raise BadAnswer
  end.

Definition imported_legacy (record : AgentRecord) : bool :=
  bool_decide (agent_source record = "config_import") &&
  bool_decide (agent_enrollment_method record = LEGACY_ADMIN_TOKEN).

Definition legacy_http_marker_allowed (record : AgentRecord) : Probe bool :=
  if imported_legacy record && bool_decide (agent_transport_profile_id record = "legacy-config-http") then
    let~ scheme := endpoint_scheme record in pr_ret (bool_decide (scheme = "http"))
  else pr_ret false.

Definition legacy_fallback_allowed (record : AgentRecord) : Probe bool :=
  if negb (imported_legacy record) then pr_ret false
  else
    let~ marker := legacy_http_marker_allowed record in
    if marker then pr_ret true
    else
      let~ scheme := endpoint_scheme record in
      if bool_decide (agent_transport_profile_id record = "legacy-disabled-no-credential") then pr_ret false
      else match probe_profile (agent_transport_profile_id record) with
      | Some (VerifiedTlsProfile _ _) => pr_ret (bool_decide (scheme = "https"))
      | Some (TrustedLanHttpProfile _ _) => pr_ret (bool_decide (scheme = "http"))
      | None => pr_ret false
      end.

(** ** Failures *)
Definition previous_status (record : AgentRecord) (db : DB) : option AgentStatus := current_status record db.

Definition summary_empty (v : json) : bool := match v with JDict [] => true | _ => false end.

Definition failure_status (record : AgentRecord) (now : time) (code : string) (db : DB) : AgentStatus :=
  let previous := previous_status record db in
  let summary := from_option status_summary (JDict []) previous in
  mkStatus (agent_id record) (agent_revision record) "unavailable"
    (if summary_empty summary then "unknown" else "stale")
    (Some now) (Some (now + seconds (fp_stale_after_seconds self))%Z)
    (previous ≫= status_api_version) (previous ≫= status_agent_version)
    (from_option status_capabilities [] previous) summary (Some code) now.

Definition store_status (s : AgentStatus) (expected_revision : Z) (dispatch : DiscoveryDispatchState) : Probe unit :=
  let~ stored := pr_method (update_if_target_revision s expected_revision) in
  if stored then publish s else pr_raise (AgentProbeError "agent_target_changed" dispatch).

Definition record_failure (captured : AgentRecord) (now : time) (code : string) (dispatch : DiscoveryDispatchState)
    : Probe AgentStatus :=
  let~ s := pr_reads (failure_status captured now code) in
  store_status s (agent_revision captured) dispatch ;;~
  pr_ret s.

Fixpoint publish_all (l : list AgentStatus) : Probe unit :=
  match l with [] => pr_ret tt | s :: l => publish s ;;~ publish_all l end.

Definition mark_identity_conflicts (records : list AgentRecord) (now : time) : Probe unit :=
  let~ statuses := pr_reads (fun db => (fun r => failure_status r now "agent_identity_conflict" db) <$> records) in
  let~ stored := pr_method (update_many_if_target_revisions statuses) in
  if stored then publish_all statuses else pr_raise (AgentProbeError "agent_target_changed" DISPATCHED).

(** ** Agents of the first API version *)
Definition legacy_status (captured : AgentRecord) (now : time) (o : AgentObservation) (db : DB) : AgentStatus :=
  let successful := bool_decide (aobs_status o ∈ ["ready"; "degraded"]) in
  if successful && negb (validate_legacy_observation o)
  then failure_status captured now "agent_protocol_error" db
  else
    let summary := from_option status_summary (JDict []) (previous_status captured db) in
    mkStatus (agent_id captured) (agent_revision captured) (if successful then "degraded" else "unavailable")
      (if summary_empty summary then "unknown" else "stale")
      (Some now) (Some (now + seconds (fp_stale_after_seconds self))%Z)
      (aobs_api_version o) (aobs_agent_version o) (aobs_capabilities o) summary
      (Some (if successful then "legacy_identity_unavailable"
             else if truthy (aobs_last_error o) then default "" (aobs_last_error o) else "agent_unavailable"))
      now.

Definition legacy_observed (captured : AgentRecord) (now : time) (prior : DiscoveryDispatchState)
    : Probe (option ProbeResult) :=
  pr_await ;;~
  match probe_legacy (agent_id captured) with
  | None => pr_raise LegacyRaised
  | Some o =>
      let dispatch := combine_dispatch prior (dispatch_state (aobs_dispatch_state o)) in
      let~ s := pr_reads (legacy_status captured now o) in
      store_status s (agent_revision captured) dispatch ;;~
      pr_ret (Some (mkProbeResult s dispatch))
  end.

Definition legacy_fallback (captured : AgentRecord) (now : time) (prior : DiscoveryDispatchState)
    : Probe (option ProbeResult) :=
  if negb (fp_has_legacy self) then pr_ret None
  else
    let~ allowed := legacy_fallback_allowed captured in
    if allowed then legacy_observed captured now prior else pr_ret None.

(** ** The requests *)
Definition probe_target (captured : AgentRecord) : Probe ValidatedTarget :=
  let~ marker := legacy_http_marker_allowed captured in
  if marker then
    let~ safety := pr_policy (validate_legacy_import_http_safety (fp_policy self) resolver
                                (agent_normalized_endpoint captured)) in
    let~ profile := need_profile (agent_transport_profile_id captured) in
    pr_policy (resolve_validated (fp_policy self) safety profile)
  else if bool_decide (agent_enrollment_method captured = LOCAL_SOCKET) then
    let~ profile := need_profile (agent_transport_profile_id captured) in
    pr_policy (resolve_registered_target (fp_policy self) resolver captured profile (fp_local_bootstrap_enabled self))
  else
    let~ safety := pr_policy (validate_safety (fp_policy self) resolver (agent_normalized_endpoint captured)) in
    let~ profile := need_profile (agent_transport_profile_id captured) in
    pr_policy (resolve_validated (fp_policy self) safety profile).

Definition request (target : ValidatedTarget) (token path : string) : Probe (Z * option json) :=
  (fun w => (inr tt, mkWorld (pw_db w) (pw_published w) ((target, path) :: pw_sent w) (pw_dispatch w) (pw_moment w))) ;;~
  pr_await ;;~
  match http target token "GET" path None with
  | Response status body => pr_ret (status, body)
  | ClientError category dispatch => pr_raise (AgentClientError category dispatch)
  | HttpBroken => pr_raise ClientBroken
  | HttpCancelled => pr_raise ProbeCancelled
  end.

(** The body of the [try]: what the Agent said, or the early return. *)
Definition ask_agent (captured : AgentRecord) (now : time)
    : Probe (ProbeResult + ProbedCapabilities * list (string * json)) :=
  let~ target := probe_target captured in
  let~ token := match read_credential (agent_credential_ref captured) with
                | Some token => pr_ret token
                | None => pr_raise CredentialStoreError
                end in
  let~ (status, body) := request target token "/api/v2/capabilities" in
  add_dispatch DISPATCHED ;;~
  let~ fallback := (if bool_decide (status ∈ [404; 405]%Z) then
                      let~ dispatch := get_dispatch in legacy_fallback captured now dispatch
                    else pr_ret None) in
  match fallback with
  | Some result => pr_ret (inl result)
  | None =>
      match probe_capabilities body with
      | None => pr_raise BadAnswer
      | Some capabilities =>
          let~ (_, body) := request target token "/api/v2/summary" in
          add_dispatch DISPATCHED ;;~
          match probe_summary body with
          | None => pr_raise BadAnswer
          | Some summary => pr_ret (inr (capabilities, summary))
          end
      end
  end.

Definition failed (captured : AgentRecord) (now : time) (code : string) (dispatch : DiscoveryDispatchState)
    : Probe ProbeResult :=
  let~ s := record_failure captured now code dispatch in pr_ret (mkProbeResult s dispatch).

(** The [except] clauses. *)
Definition explain (captured : AgentRecord) (now : time) (e : probe_exn) : Probe ProbeResult :=
  let~ dispatch := get_dispatch in
  match e with
  | ProfileKeyError =>
      let~ fallback := legacy_fallback captured now dispatch in
      match fallback with
      | Some result => pr_ret result
      | None => failed captured now "transport_profile_invalid" NOT_DISPATCHED
      end
  | CredentialStoreError => failed captured now "agent_auth_error" NOT_DISPATCHED
  | TargetPolicyError code =>
      let~ fallback := (if bool_decide (code = "target_address_not_allowed") &&
                           fp_allow_import_without_dynamic_allowlist self
                        then legacy_fallback captured now dispatch else pr_ret None) in
      match fallback with
      | Some result => pr_ret result
      | None => failed captured now code NOT_DISPATCHED
      end
  | AgentClientError category said =>
      add_dispatch (dispatch_state said) ;;~
      let~ dispatch := get_dispatch in
      failed captured now category dispatch
  | BadAnswer | RegistryRaised ValueError => failed captured now "agent_protocol_error" dispatch
  | e => pr_raise e
  end.

(** ** Identity *)
(** [_all_agents] within one transaction-free stretch: the registry is read
    from the database as it is. *)
Definition namesakes (id instance : string) (db : DB) : walk_error + list AgentRecord :=
  match all_agents (S (size (agents db))) 0 None [] (fun _ => db) with
  | inl e => inl e
  | inr records =>
      inr (filter (fun r => agent_id r <> id /\ agent_instance_id r = Some instance) records)
  end.

Definition need_namesakes (id instance : string) : Probe (list AgentRecord) :=
  let~ found := pr_reads (namesakes id instance) in
  match found with
  | inr records => pr_ret records
  | inl (RegistryRaises e) => pr_raise (RegistryRaised e)
  | inl _ => pr_raise (AgentProbeError "agent_registry_pagination_invalid" DISPATCH_UNKNOWN)
  end.

(** The first probe of an Agent without instance adopts the one that answers. *)
Definition adopt_instance (id : string) (current : AgentRecord) (instance : string) (now : time) : Probe AgentRecord :=
  pr_catch
    (pr_method (update_if_revision
       (current <| agent_instance_id := Some instance |> <| agent_updated_at := now |>)
       (agent_revision current) None None))
    (fun e =>
       match e with
       | RegistryRaised (RegistryConflict _) =>
           let~ refreshed := pr_reads (fun db => agents db !! id) in
           let~ conflicts := need_namesakes id instance in
           match refreshed, conflicts with
           | Some refreshed, _ :: _ =>
               mark_identity_conflicts (refreshed :: conflicts) now ;;~
               pr_raise (AgentProbeError "agent_identity_conflict" DISPATCHED)
           | _, _ => pr_raise (AgentProbeError "agent_target_changed" DISPATCHED)
           end
       | RegistryRaised RevisionConflict => pr_raise (AgentProbeError "agent_target_changed" DISPATCHED)
       | e => pr_raise e
       end).

Definition MISSING_CHECKED : list string := ["runtime.v2"; "summary.v2"].

Definition ready_status (id : string) (current : AgentRecord) (now : time) (c : ProbedCapabilities) (summary : list (string * json))
    : AgentStatus :=
  let missing := negb (forallb (fun k => bool_decide (k ∈ probed_capabilities c)) MISSING_CHECKED) in
  mkStatus id (agent_revision current) (if missing then "degraded" else "ready")
    (derive_workload_status (Some summary) None None)
    (Some now) (Some (now + seconds (fp_stale_after_seconds self))%Z)
    (Some "2") (Some (probed_agent_version c)) (probed_capabilities c) (JDict summary)
    (if missing then Some "missing_capabilities" else None) now.

(** Under the identity lock. *)
Definition settle (id : string) (captured : AgentRecord) (now : time) (c : ProbedCapabilities) (summary : list (string * json))
    : Probe ProbeResult :=
  pr_await ;;~
  let~ current := pr_reads (fun db => agents db !! id) in
  match current with
  | None => pr_raise (AgentProbeError "agent_target_changed" DISPATCHED)
  | Some current =>
      if negb (agent_revision current =? agent_revision captured)%Z
      then pr_raise (AgentProbeError "agent_target_changed" DISPATCHED)
      else
        let~ matching := need_namesakes id (probed_instance_id c) in
        match matching with
        | _ :: _ =>
            mark_identity_conflicts (current :: matching) now ;;~
            pr_raise (AgentProbeError "agent_identity_conflict" DISPATCHED)
        | [] =>
            let~ current :=
              match agent_instance_id current with
              | Some instance =>
                  if bool_decide (instance = probed_instance_id c) then pr_ret current
                  else record_failure current now "agent_identity_changed" DISPATCHED ;;~
                       pr_raise (AgentProbeError "agent_identity_changed" DISPATCHED)
              | None => adopt_instance id current (probed_instance_id c) now
              end in
            let s := ready_status id current now c summary in
            store_status s (agent_revision current) DISPATCHED ;;~
            let~ dispatch := get_dispatch in
            pr_ret (mkProbeResult s dispatch)
        end
  end.

(** [_probe] *)
Definition probe_agent (id : string) (now : time) : Probe ProbeResult :=
  let~ found := pr_reads (fun db => agents db !! id) in
  match found with
  | None => pr_raise (AgentProbeError "agent_not_found" NOT_DISPATCHED)
  | Some captured =>
      if negb (agent_enabled captured) then pr_raise (AgentProbeDisabled "agent_disabled" NOT_DISPATCHED)
      else
        let~ status := pr_reads (current_status captured) in
        if match status with
           | Some s => bool_decide (status_last_error_code s = Some "agent_identity_conflict")
           | None => false
           end
        then pr_raise (AgentProbeError "agent_identity_conflict" NOT_DISPATCHED)
        else
          let~ answer := pr_catch (ask_agent captured now)
                           (fun e => let~ r := explain captured now e in pr_ret (inl r)) in
          match answer with
          | inl result => pr_ret result
          | inr (c, summary) => settle id captured now c summary
          end
  end.
End Service.
