(* ===== verification/FleetProbeClaims.v ===== *)
(** * What a probe guarantees

    A probe stores what the registered Agent said about itself, in the revision
    it was asked for; it says truthfully whether anything was sent; and a known
    identity conflict stops every further probe. *)

From stdpp Require Import base tactics list gmap strings.
From Stdlib Require Import ZArith Lia Ascii.
From S2P Require Import Prelude Text Sql Models Schema JobValidation MutationFence.
From S2P Require Import EnrollmentJournal ManagerRegistry RemovalJournal Samples Lifecycle RegistryClaims TargetPolicy AgentClient FleetStatus FleetProbes.

Local Open Scope probe_scope.

(** ** The effects *)
Lemma pr_bind_inr {A B} (m : Probe A) (k : A -> Probe B) w b w' :
  pr_bind m k w = (inr b, w') -> exists a w1, m w = (inr a, w1) /\ k a w1 = (inr b, w').
Proof. unfold pr_bind. destruct (m w) as [[e|a] w1]; [done|eauto]. Qed.

Lemma pr_bind_inl {A B} (m : Probe A) (k : A -> Probe B) w e w' :
  pr_bind m k w = (inl e, w') -> m w = (inl e, w') \/ exists a w1, m w = (inr a, w1) /\ k a w1 = (inl e, w').
Proof. unfold pr_bind. destruct (m w) as [[e'|a] w1]; [intros [= -> ->]; auto|eauto]. Qed.

Lemma pr_ret_inr {A} (a : A) w r w' : pr_ret a w = (inr r, w') -> r = a /\ w' = w.
Proof. by intros [= -> ->]. Qed.

Ltac pr_step := match goal with
  | H : pr_bind _ _ _ = (inr _, _) |- _ => apply pr_bind_inr in H as (? & ? & ? & H)
  | H : pr_reads _ _ = (inr _, _) |- _ => injection H as <- <-
  | H : pr_ret _ _ = (inr _, _) |- _ => apply pr_ret_inr in H as [? ?]; simplify_eq
  | H : pr_raise _ _ = (inr _, _) |- _ => discriminate H
  | H : get_dispatch _ = (inr _, _) |- _ => injection H as <- <-
  end.
Ltac pr_inv := repeat pr_step.

(** ** Stored statuses *)
Lemma update_many_one s db db' :
  update_many_if_target_revisions [s] db = (inr true, db') ->
  db' = db <| agent_status := <[status_agent_id s := s]> (agent_status db) |> /\
  exists a, agents db !! status_agent_id s = Some a /\ agent_revision a = status_target_revision s.
Proof.
  unfold update_many_if_target_revisions, checked.
  do 3 (match goal with |- context [require ?b] => destruct (require b); [done|] end).
  unfold write, tx_bind, reads. destruct (forallb (observation_current db) [s]) eqn:Ec; [|by intros [= ]].
  cbn in Ec. rewrite andb_true_r in Ec. cbn [upsert_all]. unfold tx_bind, tx_ret.
  destruct (upsert_status s db) as [e|[[] db1]] eqn:Eu; [done|]. intros [= <-].
  unfold upsert_status in Eu. db_inv. split; [done|].
  unfold observation_current in Ec. destruct (agents db !! status_agent_id s) as [a|]; [|done].
  apply andb_true_iff in Ec as [Er _]. apply Z.eqb_eq in Er. eauto.
Qed.

(** [s] is what the database and the published table hold of its Agent, whose
    registered revision it is about. *)
Definition stored_now (id : string) (s : AgentStatus) (w : ProbeWorld) : Prop :=
  status_agent_id s = id /\ agent_status (pw_db w) !! id = Some s /\ pw_published w !! id = Some s /\
  exists a, agents (pw_db w) !! id = Some a /\ status_target_revision s = agent_revision a.

Lemma store_status_inr s rev d w u w' :
  store_status s rev d w = (inr u, w') ->
  stored_now (status_agent_id s) s w' /\ agents (pw_db w') = agents (pw_db w) /\
  pw_sent w' = pw_sent w /\ pw_dispatch w' = pw_dispatch w.
Proof.
  unfold store_status. intros H. pr_inv. destruct x; [|pr_inv].
  unfold pr_method in H0. destruct (update_if_target_revision s rev (pw_db w)) as [[e|b] db] eqn:E; [done|].
  injection H0 as -> <-. injection H as <- <-. cbn. unfold update_if_target_revision, checked in E.
  match goal with E : context [require ?b] |- _ => destruct (require b); [done|] end.
  apply update_many_one in E as (-> & a & Ha & Hr). cbn.
  split_and!; [|done..]. unfold stored_now. cbn. rewrite !lookup_insert_eq. eauto 10.
Qed.

Section Probes.
Context `{PythonIp} `{UrlLib} `{IsoTime} (self : FleetProbeService) (resolver : Resolver) (http : Http).
Context (read_credential : string -> option string) (probe_legacy : string -> option AgentObservation).
Context (other : nat -> DB -> DB).

(** A status that tells of a failure, or of an Agent of the first version. *)
Definition not_verified (now : time) (s : AgentStatus) : Prop :=
  status_observed_at s = Some now /\
  (status_connection_status s = "unavailable" \/
   status_connection_status s = "degraded" /\ status_last_error_code s = Some "legacy_identity_unavailable").

Lemma failed_stored captured now code d w r w' :
  failed self captured now code d w = (inr r, w') ->
  stored_now (agent_id captured) (result_status r) w' /\ not_verified now (result_status r).
Proof.
  unfold failed, record_failure. intros E. pr_inv.
  match goal with E : store_status _ _ _ _ = _ |- _ => apply store_status_inr in E as (Hs & _) end.
  split; [exact Hs|]. split; [done|by left].
Qed.

Lemma legacy_status_not_verified captured now o db :
  status_agent_id (legacy_status self captured now o db) = agent_id captured /\
  not_verified now (legacy_status self captured now o db).
Proof.
  unfold legacy_status, not_verified. destruct (bool_decide (aobs_status o ∈ _)); cbn.
  - destruct (negb _); cbn; auto 10.
  - auto 10.
Qed.

Lemma legacy_fallback_stored captured now prior w r w' :
  legacy_fallback self probe_legacy other captured now prior w = (inr (Some r), w') ->
  stored_now (agent_id captured) (result_status r) w' /\ not_verified now (result_status r).
Proof.
  unfold legacy_fallback. destruct (negb _); intros E; pr_inv; try done.
  destruct x; [|by pr_inv]. unfold legacy_observed in E. pr_inv.
  destruct (probe_legacy (agent_id captured)) as [o|]; [|by pr_inv]. pr_inv.
  match goal with E : store_status (legacy_status self captured now o ?db) _ _ _ = _ |- _ =>
    apply store_status_inr in E as (Hs & _); destruct (legacy_status_not_verified captured now o db) as [Hid Hn] end.
  rewrite Hid in Hs. done.
Qed.

Lemma explain_stored captured now e w r w' :
  explain self probe_legacy other captured now e w = (inr r, w') ->
  stored_now (agent_id captured) (result_status r) w' /\ not_verified now (result_status r).
Proof.
  unfold explain. intros E. pr_inv.
  destruct e as [| | | |code|cat said| |[]| | |]; pr_inv; try (by eapply failed_stored).
  - destruct x as [r0|]; [pr_inv; by eapply legacy_fallback_stored|by eapply failed_stored].
  - destruct x as [r0|]; [pr_inv|by eapply failed_stored].
    destruct (_ && _); [by eapply legacy_fallback_stored|by pr_inv].
Qed.

(** Decisions that only read. *)
Definition reads_only {A} (m : Probe A) : Prop := forall w, (m w).2 = w.

Lemma reads_only_ret {A} (a : A) : reads_only (pr_ret a). Proof. done. Qed.
Lemma reads_only_raise {A} e : reads_only (pr_raise (A := A) e). Proof. done. Qed.

Lemma reads_only_bind {A B} (m : Probe A) (k : A -> Probe B) :
  reads_only m -> (forall a, reads_only (k a)) -> reads_only (pr_bind m k).
Proof.
  intros Hm Hk w. unfold pr_bind. specialize (Hm w). destruct (m w) as [[e|a] w1]; cbn in Hm; [done|].
  rewrite Hk. done.
Qed.

Lemma reads_only_policy {A} (r : Checked A) : reads_only (pr_policy r).
Proof. by destruct r. Qed.

Lemma need_profile_reads id : reads_only (need_profile self id).
Proof. unfold need_profile. by destruct (probe_profile self id). Qed.

Lemma scheme_reads record : reads_only (endpoint_scheme record).
Proof. unfold endpoint_scheme. by destruct (urlsplit _). Qed.

#[local] Hint Resolve reads_only_ret reads_only_raise reads_only_bind reads_only_policy need_profile_reads
  scheme_reads : core.

Lemma marker_reads record : reads_only (legacy_http_marker_allowed record).
Proof. unfold legacy_http_marker_allowed. destruct (_ && _); auto. Qed.
#[local] Hint Resolve marker_reads : core.

Lemma allowed_reads record : reads_only (legacy_fallback_allowed self record).
Proof.
  unfold legacy_fallback_allowed. destruct (negb _); [auto|]. apply reads_only_bind; [auto|]. intros [|]; [auto|].
  apply reads_only_bind; [auto|]. intros scheme. case_bool_decide; [auto|].
  destruct (probe_profile self _) as [[|]|]; auto.
Qed.

Lemma target_reads captured : reads_only (probe_target self resolver captured).
Proof.
  unfold probe_target. apply reads_only_bind; [auto|]. intros [|]; [auto 10|]. case_bool_decide; auto 10.
Qed.

Lemma reads_only_inv {A} (m : Probe A) w r w' : reads_only m -> m w = (r, w') -> w' = w.
Proof. intros Hm E. specialize (Hm w). by rewrite E in Hm. Qed.

Lemma legacy_fallback_none captured now prior w w' :
  legacy_fallback self probe_legacy other captured now prior w = (inr None, w') -> w' = w.
Proof.
  unfold legacy_fallback. destruct (negb _); intros E; pr_inv; try done.
  match goal with E : legacy_fallback_allowed _ _ _ = _ |- _ => apply reads_only_inv in E; [|apply allowed_reads] end.
  subst. destruct x; pr_inv; [|done]. unfold legacy_observed in E. pr_inv.
  destruct (probe_legacy _); by pr_inv.
Qed.

(** A request that was answered. *)
Lemma request_inr target token path w status body w' :
  request http other target token path w = (inr (status, body), w') ->
  http target token "GET" path None = Response status body /\
  w' = mkWorld (other (pw_moment w) (pw_db w)) (pw_published w) ((target, path) :: pw_sent w) (pw_dispatch w)
         (S (pw_moment w)).
Proof.
  unfold request, pr_await. intros E. do 2 (apply pr_bind_inr in E as (? & ? & [= <- <-] & E)).
  destruct (http target token "GET" path None); try discriminate E. by injection E as <- <- <-.
Qed.

(** What the two requests established. *)
Definition answered (captured : AgentRecord) (c : ProbedCapabilities) (summary : list (string * json)) (w : ProbeWorld) : Prop :=
  exists target token status body status' body',
    read_credential (agent_credential_ref captured) = Some token /\
    (target, "/api/v2/capabilities") ∈ pw_sent w /\
    http target token "GET" "/api/v2/capabilities" None = Response status body /\ probe_capabilities body = Some c /\
    http target token "GET" "/api/v2/summary" None = Response status' body' /\ probe_summary body' = Some summary.

Definition probing_agent := ask_agent self resolver http read_credential probe_legacy other.

Lemma ask_agent_inr captured now w answer w' :
  (forall n db, db_wf db -> db_wf (other n db)) -> db_wf (pw_db w) ->
  probing_agent captured now w = (inr answer, w') ->
  match answer with
  | inl r => stored_now (agent_id captured) (result_status r) w' /\ not_verified now (result_status r)
  | inr (c, summary) => answered captured c summary w' /\ db_wf (pw_db w')
  end.
Proof.
  intros Ho W. unfold probing_agent, ask_agent. intros E. apply pr_bind_inr in E as (target & w1 & Et & E).
  apply reads_only_inv in Et; [|apply target_reads]. subst w1.
  apply pr_bind_inr in E as (token & w1 & Ec & E).
  destruct (read_credential (agent_credential_ref captured)) as [tok|] eqn:Etok; [|discriminate Ec].
  injection Ec as <- <-. apply pr_bind_inr in E as ([status body] & w1 & Er & E).
  apply request_inr in Er as [Eh ->]. apply pr_bind_inr in E as ([] & w2 & [= <-] & E).
  apply pr_bind_inr in E as (fallback & w3 & Ef & E). destruct fallback as [r|].
  { injection E as <- <-. case_bool_decide; [|by pr_inv]. pr_inv. by eapply legacy_fallback_stored. }
  assert (w3 = mkWorld (other (pw_moment w) (pw_db w)) (pw_published w) ((target, "/api/v2/capabilities") :: pw_sent w)
      (combine_dispatch (pw_dispatch w) DISPATCHED) (S (pw_moment w))) as ->.
  { case_bool_decide; [|by pr_inv]. pr_inv. by eapply legacy_fallback_none. }
  destruct (probe_capabilities body) as [c|] eqn:Ep; [|discriminate E].
  apply pr_bind_inr in E as ([status' body'] & w4 & Er & E). apply request_inr in Er as [Eh' ->].
  apply pr_bind_inr in E as ([] & w5 & [= <-] & E).
  destruct (probe_summary body') as [summary|] eqn:Es; [|discriminate E]. injection E as <- <-. cbn.
  split; [|auto]. exists target, tok, status, body, status', body'. cbn. split_and!; [done| |done..].
  right. by left.
Qed.

Lemma adopt_instance_inr id current instance now w rec w' :
  adopt_instance self id current instance now w = (inr rec, w') ->
  pw_sent w' = pw_sent w /\
  exists a, agents (pw_db w') !! agent_id current = Some a /\ agent_instance_id a = Some instance.
Proof.
  unfold adopt_instance, pr_catch.
  destruct (pr_method _ w) as [[e|a] w1] eqn:Em.
  - intros E. exfalso. destruct e as [| | | | | | |[]| | |]; try discriminate E. pr_inv.
    repeat (case_match; pr_inv).
  - intros [= <- <-]. unfold pr_method in Em.
    destruct (update_if_revision _ _ _ _ _) as [[e|a1] db] eqn:Eu; [done|]. injection Em as -> <-.
    apply update_if_revision_spec in Eu as (b & _ & _ & -> & _ & _ & ->). cbn.
    split; [done|]. rewrite lookup_insert_eq. eexists. split; [reflexivity|done].
Qed.

Lemma namesakes_reads id instance : reads_only (need_namesakes id instance).
Proof.
  unfold need_namesakes. apply reads_only_bind; [done|]. intros [[| |]|]; done.
Qed.

Lemma settle_inr id captured now c summary w r w' :
  (forall n db, db_wf db -> db_wf (other n db)) -> db_wf (pw_db w) ->
  settle self other id captured now c summary w = (inr r, w') ->
  stored_now id (result_status r) w' /\ pw_sent w' = pw_sent w /\
  (exists current, result_status r = ready_status self id current now c summary) /\
  exists a, agents (pw_db w') !! id = Some a /\ agent_instance_id a = Some (probed_instance_id c).
Proof.
  intros Ho W. unfold settle. intros E. apply pr_bind_inr in E as ([] & w1 & [= <-] & E).
  apply pr_bind_inr in E as (found & w1 & [= <- <-] & E). cbn [pw_db] in E.
  destruct (agents (other (pw_moment w) (pw_db w)) !! id) as [current|] eqn:Hc; [|discriminate E].
  destruct (wf_agents _ (Ho _ _ W) _ _ Hc) as [Hid _].
  destruct (negb _); [discriminate E|]. apply pr_bind_inr in E as (matching & w1 & En & E).
  apply reads_only_inv in En; [|apply namesakes_reads]. subst w1. destruct matching as [|m ms]; [|by pr_inv].
  apply pr_bind_inr in E as (rec & w1 & Ea & E).
  assert (Hw1 : pw_sent w1 = pw_sent w /\ exists a, agents (pw_db w1) !! id = Some a /\
      agent_instance_id a = Some (probed_instance_id c)).
  { destruct (agent_instance_id current) as [instance|] eqn:Ei.
    - case_bool_decide as Hb; [|by pr_inv]. pr_inv. cbn. split; [done|]. exists current. by rewrite Hc, Ei.
    - apply adopt_instance_inr in Ea as (? & a & Ha & ?). rewrite Hid in Ha. eauto. }
  destruct Hw1 as (Hs1 & a & Ha & Hi). apply pr_bind_inr in E as ([] & w2 & Es & E).
  apply store_status_inr in Es as (Hst & Hag & Hsent & _). apply pr_bind_inr in E as (d & w3 & [= <- <-] & E).
  injection E as <- <-. cbn. split_and!; [exact Hst|congruence|eauto|]. rewrite Hag. eauto.
Qed.

Definition probe := probe_agent self resolver http read_credential probe_legacy other.


(** A known identity conflict stops the probes.  As long as the stored
    status of an Agent reports an identity conflict for its present revision,
    and for an Agent that is disabled, a probe sends nothing, waits for
    nothing, changes nothing and says so. *)
Theorem conflict_stops_probes id now w a :
  agents (pw_db w) !! id = Some a ->
  (agent_enabled a = false ->
   probe id now w = (inl (AgentProbeDisabled "agent_disabled" NOT_DISPATCHED), w)) /\
  (agent_enabled a = true ->
   (exists st, agent_status (pw_db w) !! agent_id a = Some st /\ status_target_revision st = agent_revision a /\
      status_last_error_code st = Some "agent_identity_conflict") ->
   probe id now w = (inl (AgentProbeError "agent_identity_conflict" NOT_DISPATCHED), w)).
Proof.
  intros Ha. unfold probe, probe_agent, pr_bind, pr_reads. rewrite Ha. split.
  - intros ->. done.
  - intros -> (st & Hst & Hr & He). cbn. unfold current_status. rewrite Hst, Hr, Z.eqb_refl, He. done.
Qed.

(** ** What is said about the dispatch *)

(** The dispatch state that an error carries. *)
Definition said_by (e : probe_exn) : option DiscoveryDispatchState :=
  match e with AgentProbeError _ d | AgentProbeDisabled _ d => Some d | _ => None end.

(** [m] sends nothing, leaves the aggregate alone, and its errors say [d], if
    anything, or that they do not know. *)
Definition quiet {A} (d : DiscoveryDispatchState) (m : Probe A) : Prop := forall w,
  pw_sent (m w).2 = pw_sent w /\ pw_dispatch (m w).2 = pw_dispatch w /\
  forall e, (m w).1 = inl e -> said_by e = None \/ said_by e = Some d \/ said_by e = Some DISPATCH_UNKNOWN.

Lemma quiet_ret {A} d (a : A) : quiet d (pr_ret a). Proof. done. Qed.

Lemma quiet_raise {A} d e :
  said_by e = None \/ said_by e = Some d \/ said_by e = Some DISPATCH_UNKNOWN -> quiet d (pr_raise (A := A) e).
Proof. intros He w. split_and!; [done..|]. by intros e' [= <-]. Qed.

Lemma quiet_bind {A B} d (m : Probe A) (k : A -> Probe B) :
  quiet d m -> (forall a, quiet d (k a)) -> quiet d (pr_bind m k).
Proof.
  intros Hm Hk w. unfold pr_bind. destruct (Hm w) as (Q1 & Q2 & Q3). destruct (m w) as [[e|a] w1]; cbn in *.
  - split_and!; [done..|]. intros e' [= <-]. by apply Q3.
  - destruct (Hk a w1) as (K1 & K2 & K3). rewrite K1, K2. done.
Qed.

Lemma quiet_catch {A} d (m : Probe A) h : quiet d m -> (forall e, said_by e = None \/ said_by e = Some d \/
  said_by e = Some DISPATCH_UNKNOWN -> quiet d (h e)) -> quiet d (pr_catch m h).
Proof.
  intros Hm Hh w. unfold pr_catch. destruct (Hm w) as (Q1 & Q2 & Q3). destruct (m w) as [[e|a] w1]; cbn in *.
  - destruct (Hh e (Q3 e eq_refl) w1) as (K1 & K2 & K3). rewrite K1, K2. done.
  - done.
Qed.

Lemma quiet_method {A} d (m : Method A) : quiet d (pr_method m).
Proof. intros w. unfold pr_method. destruct (m (pw_db w)) as [[e|a] db]; split_and!; try done. intros e' [= <-]. by left. Qed.

Lemma quiet_reads {A} d (f : DB -> A) : quiet d (pr_reads f). Proof. done. Qed.
Lemma quiet_publish d s : quiet d (publish s). Proof. done. Qed.
Lemma quiet_await d : quiet d (pr_await other). Proof. done. Qed.

#[local] Hint Resolve quiet_ret quiet_raise quiet_bind quiet_method quiet_reads quiet_publish quiet_await : core.

Lemma quiet_store d s rev : quiet d (store_status s rev d).
Proof. unfold store_status. apply quiet_bind; [auto|]. intros [|]; auto. Qed.
#[local] Hint Resolve quiet_store : core.

Lemma quiet_failed d captured now code : quiet d (failed self captured now code d).
Proof. unfold failed, record_failure. auto 10. Qed.

Lemma quiet_scheme d record : quiet d (endpoint_scheme record).
Proof. unfold endpoint_scheme. destruct (urlsplit _); auto. Qed.
#[local] Hint Resolve quiet_scheme : core.

Lemma quiet_marker d record : quiet d (legacy_http_marker_allowed record).
Proof. unfold legacy_http_marker_allowed. destruct (_ && _); auto. Qed.
#[local] Hint Resolve quiet_marker : core.

Lemma quiet_allowed d record : quiet d (legacy_fallback_allowed self record).
Proof.
  unfold legacy_fallback_allowed. destruct (negb _); [auto|]. apply quiet_bind; [auto|]. intros [|]; [auto|].
  apply quiet_bind; [auto|]. intros scheme. case_bool_decide; [auto|].
  destruct (probe_profile self _) as [[|]|]; auto.
Qed.

Lemma quiet_fallback prior captured now :
  prior = DISPATCHED -> quiet prior (legacy_fallback self probe_legacy other captured now prior).
Proof.
  intros ->. unfold legacy_fallback. destruct (negb _); [auto|]. apply quiet_bind.
  - apply quiet_allowed.
  - intros [|]; [|auto]. unfold legacy_observed. apply quiet_bind; [auto|]. intros _.
    destruct (probe_legacy _) as [o|]; [|auto].
    assert (combine_dispatch DISPATCHED (dispatch_state (aobs_dispatch_state o)) = DISPATCHED) as ->.
    { unfold combine_dispatch. by destruct (dispatch_state _). }
    apply quiet_bind; [auto|]. auto.
Qed.

Lemma quiet_namesakes d id instance : quiet d (need_namesakes id instance).
Proof. unfold need_namesakes. apply quiet_bind; [auto|]. intros [[| |]|]; auto. Qed.
#[local] Hint Resolve quiet_namesakes : core.

Lemma quiet_publish_all d l : quiet d (publish_all l).
Proof. induction l; cbn; auto. Qed.
#[local] Hint Resolve quiet_publish_all : core.

Lemma quiet_mark records now : quiet DISPATCHED (mark_identity_conflicts self records now).
Proof. unfold mark_identity_conflicts. apply quiet_bind; [auto|]. intros l. apply quiet_bind; [auto|]. intros [|]; auto. Qed.
#[local] Hint Resolve quiet_mark : core.

Lemma quiet_adopt id current instance now : quiet DISPATCHED (adopt_instance self id current instance now).
Proof.
  unfold adopt_instance. apply quiet_catch; [auto|]. intros e He.
  destruct e as [| | | | | | |[]| | |]; auto. apply quiet_bind; [auto|]. intros refreshed.
  apply quiet_bind; [auto|]. intros conflicts. destruct refreshed, conflicts; auto.
Qed.
#[local] Hint Resolve quiet_adopt : core.

Lemma settle_says id captured now c summary w r w' :
  settle self other id captured now c summary w = (inr r, w') -> result_dispatch r = pw_dispatch w'.
Proof.
  unfold settle. intros E. apply pr_bind_inr in E as ([] & w1 & _ & E). apply pr_bind_inr in E as (found & w2 & _ & E).
  destruct found as [current|]; [|discriminate E]. destruct (negb _); [discriminate E|].
  apply pr_bind_inr in E as (matching & w3 & _ & E). destruct matching as [|m ms]; [|by pr_inv].
  apply pr_bind_inr in E as (rec & w4 & _ & E). apply pr_bind_inr in E as ([] & w5 & _ & E).
  apply pr_bind_inr in E as (d & w6 & [= <- <-] & E). by injection E as <- <-.
Qed.

Lemma quiet_settle id captured now c summary w :
  pw_dispatch w = DISPATCHED ->
  let out := settle self other id captured now c summary w in
  pw_sent out.2 = pw_sent w /\
  match out.1 with
  | inl e => said_by e = None \/ said_by e = Some DISPATCHED \/ said_by e = Some DISPATCH_UNKNOWN
  | inr r => result_dispatch r = DISPATCHED
  end.
Proof.
  intros Hd. assert (Hq : quiet DISPATCHED (settle self other id captured now c summary)).
  { unfold settle. apply quiet_bind; [auto|]. intros _. apply quiet_bind; [auto|]. intros [current|]; [|auto].
    destruct (negb _); [auto|]. apply quiet_bind; [auto|]. intros [|m ms]; [|auto].
    apply quiet_bind.
    - destruct (agent_instance_id current); [|auto]. case_bool_decide; [auto|]. unfold record_failure. auto 10.
    - intros rec. apply quiet_bind; [auto|]. intros _. apply quiet_bind; [done|auto]. }
  cbv zeta. destruct (Hq w) as (Q1 & Q2 & Q3).
  destruct (settle self other id captured now c summary w) as [[e|r] w'] eqn:E; cbn [fst snd] in *; [auto|].
  split; [done|]. apply settle_says in E. congruence.
Qed.

(** The errors of the [try] body that come before any request. *)
Definition before_request (e : probe_exn) : Prop :=
  e = ProfileKeyError \/ e = CredentialStoreError \/ (exists code, e = TargetPolicyError code) \/ e = BadAnswer.

(** The errors that can come after an answer. *)
Definition after_answer (e : probe_exn) : Prop :=
  e = BadAnswer \/ (exists cat said, e = AgentClientError cat said) \/ (exists x, e = RegistryRaised x) \/
  e = ClientBroken \/ e = LegacyRaised \/ e = ProbeCancelled \/ (exists code, e = AgentProbeError code DISPATCHED).

Lemma target_errors captured w e w' : probe_target self resolver captured w = (inl e, w') -> before_request e.
Proof.
  assert (Hpol : forall A (r : Checked A) w e w', pr_policy r w = (inl e, w') -> before_request e).
  { intros A [code|a] ? ? ?; [intros [= <- <-]; unfold before_request; eauto|discriminate]. }
  assert (Hprof : forall id w e w', need_profile self id w = (inl e, w') -> before_request e).
  { intros id ? ? ?. unfold need_profile. destruct (probe_profile self id); [discriminate|].
    intros [= <- <-]. by left. }
  unfold probe_target. intros E. apply pr_bind_inl in E as [E|(m & w1 & _ & E)].
  { unfold legacy_http_marker_allowed, endpoint_scheme in E. destruct (_ && _); [|discriminate E].
    apply pr_bind_inl in E as [E|(s1 & w1 & _ & E)]; [|discriminate E].
    destruct (urlsplit _); [discriminate E|]. injection E as <- <-. unfold before_request. auto. }
  destruct m; [|case_bool_decide].
  all: repeat (apply pr_bind_inl in E as [E|(? & ? & _ & E)]; [eauto|]); eauto.
Qed.

Lemma fallback_errors captured now w e w' :
  legacy_fallback self probe_legacy other captured now DISPATCHED w = (inl e, w') -> after_answer e.
Proof.
  unfold legacy_fallback, after_answer. destruct (negb _); [discriminate|]. intros E.
  apply pr_bind_inl in E as [E|(allowed & w1 & _ & E)].
  { unfold legacy_fallback_allowed, legacy_http_marker_allowed, endpoint_scheme in E.
    repeat (match type of E with
      | pr_bind _ _ _ = _ => apply pr_bind_inl in E as [E|(? & ? & _ & E)]
      | context [match ?x with _ => _ end] => destruct x
      end; try discriminate E); try (injection E as <- <-; auto). }
  destruct allowed; [|discriminate E]. unfold legacy_observed in E.
  apply pr_bind_inl in E as [E|([] & w2 & _ & E)]; [discriminate E|].
  destruct (probe_legacy _) as [o|]; [|injection E as <- <-; auto 10].
  apply pr_bind_inl in E as [E|(st & w3 & _ & E)]; [discriminate E|].
  apply pr_bind_inl in E as [E|([] & w4 & _ & E)]; [|discriminate E].
  unfold store_status in E. apply pr_bind_inl in E as [E|(b & w4 & _ & E)].
  - unfold pr_method in E. destruct (update_if_target_revision _ _ _) as [[x|x] db]; [|discriminate E].
    injection E as <- <-. eauto 10.
  - destruct b; [discriminate E|]. injection E as <- <-.
    assert (combine_dispatch DISPATCHED (dispatch_state (aobs_dispatch_state o)) = DISPATCHED) as ->.
    { unfold combine_dispatch. by destruct (dispatch_state _). }
    eauto 10.
Qed.

Lemma fallback_says captured now w r w' :
  legacy_fallback self probe_legacy other captured now DISPATCHED w = (inr (Some r), w') ->
  result_dispatch r = DISPATCHED.
Proof.
  unfold legacy_fallback. destruct (negb _); intros E; [discriminate E|].
  apply pr_bind_inr in E as (allowed & w1 & _ & E). destruct allowed; [|discriminate E].
  unfold legacy_observed in E. apply pr_bind_inr in E as ([] & w2 & _ & E).
  destruct (probe_legacy _) as [o|]; [|discriminate E]. apply pr_bind_inr in E as (st & w3 & _ & E).
  apply pr_bind_inr in E as ([] & w4 & _ & E). injection E as <- <-. cbn.
  unfold combine_dispatch. by destruct (dispatch_state _).
Qed.

(** What follows the first answer. *)
Definition after_first (captured : AgentRecord) (now : time) (target : ValidatedTarget) (token : string)
    (status : Z) (body : option json) : Probe (ProbeResult + ProbedCapabilities * list (string * json)) :=
  let~ fallback := (if bool_decide (status ∈ [404; 405]%Z) then
                      let~ dispatch := get_dispatch in
                      legacy_fallback self probe_legacy other captured now dispatch
                    else pr_ret None) in
  match fallback with
  | Some result => pr_ret (inl result)
  | None =>
      match probe_capabilities body with
      | None => pr_raise BadAnswer
      | Some capabilities =>
          let~ (_, body) := request http other target token "/api/v2/summary" in
          add_dispatch DISPATCHED ;;~
          match probe_summary body with
          | None => pr_raise BadAnswer
          | Some summary => pr_ret (inr (capabilities, summary))
          end
      end
  end.

Lemma after_first_outcome captured now target token status body w x :
  pw_dispatch w = DISPATCHED -> x ∈ pw_sent w ->
  let out := after_first captured now target token status body w in
  x ∈ pw_sent out.2 /\ pw_dispatch out.2 = DISPATCHED /\
  match out.1 with
  | inl e => after_answer e
  | inr (inl r) => result_dispatch r = DISPATCHED
  | inr (inr _) => True
  end.
Proof.
  intros Hd Hx. cbv zeta. destruct (after_first captured now target token status body w) as [res w'] eqn:E.
  cbn [fst snd]. unfold after_first in E. unfold pr_bind at 1 in E. revert E.
  set (m := if bool_decide _ then _ else _).
  assert (Hm : forall f w1, m w = (f, w1) -> pw_sent w1 = pw_sent w /\ pw_dispatch w1 = DISPATCHED /\
    match f with inl e => after_answer e | inr (Some r) => result_dispatch r = DISPATCHED | _ => True end).
  { intros f w1. unfold m. case_bool_decide; [|intros [= <- <-]; done].
    unfold pr_bind, get_dispatch. rewrite Hd. intros E.
    destruct (quiet_fallback DISPATCHED captured now eq_refl w) as (Q1 & Q2 & _). rewrite E in Q1, Q2. cbn in Q1, Q2.
    split_and!; [done|by rewrite Q2|]. destruct f as [e|[r|]]; [by eapply fallback_errors|by eapply fallback_says|done]. }
  destruct (m w) as [f w1]. destruct (Hm f w1 eq_refl) as (Hs1 & Hd1 & Hf).
  rewrite <- Hs1 in Hx. destruct f as [e|[r|]]; [intros [= <- <-]; auto|intros [= <- <-]; auto|].
  destruct (probe_capabilities body) as [c|]; [|intros [= <- <-]; unfold after_answer; auto].
  unfold request, pr_bind, pr_await, add_dispatch.
  assert (Hc : combine_dispatch (pw_dispatch w1) DISPATCHED = DISPATCHED) by (by rewrite Hd1).
  assert (Hx' : x ∈ (target, "/api/v2/summary") :: pw_sent w1) by (by right).
  destruct (http target token "GET" "/api/v2/summary" None) as [status' body'|cat said| |];
    [|intros [= <- <-]; cbn; unfold after_answer; eauto 10..].
  cbn. destruct (probe_summary body'); intros [= <- <-]; cbn; unfold after_answer; auto.
Qed.

(** The requests of the [try] body and the aggregate they leave. *)
Lemma ask_agent_cases captured now w :
  pw_sent w = [] -> pw_dispatch w = NOT_DISPATCHED ->
  let out := probing_agent captured now w in
  (exists e, out = (inl e, w) /\ before_request e) \/
  (exists t token, pw_sent out.2 = [(t, "/api/v2/capabilities")] /\ pw_dispatch out.2 = NOT_DISPATCHED /\
     ((exists cat said, out.1 = inl (AgentClientError cat said) /\
         http t token "GET" "/api/v2/capabilities" None = ClientError cat said) \/
      out.1 = inl ClientBroken \/ out.1 = inl ProbeCancelled)) \/
  (exists t token status body, (t, "/api/v2/capabilities") ∈ pw_sent out.2 /\
     http t token "GET" "/api/v2/capabilities" None = Response status body /\ pw_dispatch out.2 = DISPATCHED /\
     match out.1 with
     | inl e => after_answer e
     | inr (inl r) => result_dispatch r = DISPATCHED
     | inr (inr _) => True
     end).
Proof.
  intros Hs Hd. cbv zeta. destruct (probing_agent captured now w) as [res w'] eqn:E. cbn [fst snd].
  unfold probing_agent, ask_agent in E. unfold pr_bind at 1 in E.
  destruct (probe_target self resolver captured w) as [[e|target] w1] eqn:Et;
    apply reads_only_inv in Et as Hw1; [|apply target_reads| |apply target_reads]; subst w1.
  { left. injection E as <- <-. eauto using target_errors. }
  destruct (read_credential (agent_credential_ref captured)) as [token|].
  2: { left. injection E as <- <-. unfold before_request. eauto. }
  unfold pr_bind at 1, pr_ret at 1 in E. right. unfold pr_bind at 1 in E.
  unfold request at 1, pr_await, pr_bind at 1 2 in E.
  destruct (http target token "GET" "/api/v2/capabilities" None) as [status body|cat said| |] eqn:Eh;
    unfold pr_ret at 1, pr_raise at 1 in E; cbn [pw_db pw_published pw_sent pw_dispatch pw_moment] in E; rewrite Hs in E.
  2-4: left; injection E as <- <-; exists target, token; split_and!; [done|done|]; eauto.
  right. exists target, token, status, body. unfold pr_bind at 1, add_dispatch at 1 in E. cbn [pw_dispatch] in E.
  revert E. set (w2 := mkWorld _ _ _ (combine_dispatch (pw_dispatch w) DISPATCHED) _).
  assert (Hd2 : pw_dispatch w2 = DISPATCHED) by (cbn; by rewrite Hd).
  assert (Hs2 : (target, "/api/v2/capabilities") ∈ pw_sent w2) by (by left).
  clearbody w2. intros E. change (after_first captured now target token status body w2 = (res, w')) in E.
  destruct (after_first_outcome captured now target token status body w2 _ Hd2 Hs2) as (Hx & Hd' & Ho).
  rewrite E in Hx, Hd', Ho. auto.
Qed.

(** ** Honesty *)
Definition reported (res : probe_exn + ProbeResult) : option DiscoveryDispatchState :=
  match res with inl e => said_by e | inr r => Some (result_dispatch r) end.

(** A request whose client says that nothing left the Manager, and one that
    reached the Agent. *)
Definition kept_back (x : ValidatedTarget * string) : Prop :=
  exists token cat said, http x.1 token "GET" x.2 None = ClientError cat said /\ dispatch_state said = NOT_DISPATCHED.

Definition reached (x : ValidatedTarget * string) : Prop :=
  exists token, (exists status body, http x.1 token "GET" x.2 None = Response status body) \/
    (exists cat said, http x.1 token "GET" x.2 None = ClientError cat said /\ dispatch_state said = DISPATCHED).

Definition legacy_reached (id : string) : Prop :=
  exists o, probe_legacy id = Some o /\ dispatch_state (aobs_dispatch_state o) = DISPATCHED.

Definition honest (id : string) (out : (probe_exn + ProbeResult) * ProbeWorld) : Prop :=
  (reported out.1 = Some NOT_DISPATCHED -> forall x, x ∈ pw_sent out.2 -> kept_back x) /\
  (reported out.1 = Some DISPATCHED -> (exists x, x ∈ pw_sent out.2 /\ reached x) \/ legacy_reached id).

(** Nothing was sent before, and the report is [d] or unknown. *)
Lemma failed_honest id captured now code d w :
  (d = NOT_DISPATCHED -> forall x, x ∈ pw_sent w -> kept_back x) ->
  (d = DISPATCHED -> (exists x, x ∈ pw_sent w /\ reached x) \/ legacy_reached id) ->
  honest id (failed self captured now code d w).
Proof.
  intros H1' H2'. destruct (quiet_failed d captured now code w) as (Q1 & _ & Q3).
  unfold honest. rewrite Q1. destruct (failed self captured now code d w) as [[e|r] w'] eqn:E; cbn [fst reported] in *.
  - destruct (Q3 e eq_refl) as [->|[->| ->]]; (split; [intros [= ?]|intros [= ?]]); auto.
  - unfold failed in E. pr_inv. cbn. split; intros [= ?]; auto.
Qed.

Lemma fallback_honest id captured now w r w' :
  agent_id captured = id ->
  legacy_fallback self probe_legacy other captured now NOT_DISPATCHED w = (r, w') ->
  pw_sent w' = pw_sent w /\ pw_dispatch w' = pw_dispatch w /\
  match r with
  | inl e => said_by e = Some DISPATCHED -> legacy_reached id
  | inr (Some r) => result_dispatch r = DISPATCHED -> legacy_reached id
  | inr None => True
  end.
Proof.
  intros <-. unfold legacy_fallback. destruct (negb _); [intros [= <- <-]; done|].
  unfold pr_bind at 1. destruct (quiet_allowed NOT_DISPATCHED captured w) as (Q1 & Q2 & Q3).
  destruct (legacy_fallback_allowed self captured w) as [[e|b] w1]; cbn in Q1, Q2, Q3.
  { intros [= <- <-]. split_and!; [done..|]. destruct (Q3 e eq_refl) as [->|[->| ->]]; done. }
  destruct b; [|intros [= <- <-]; done]. unfold legacy_observed. unfold pr_bind at 1, pr_await.
  destruct (probe_legacy (agent_id captured)) as [o|] eqn:Eo; [|intros [= <- <-]; done].
  set (d := combine_dispatch NOT_DISPATCHED (dispatch_state (aobs_dispatch_state o))).
  assert (Hd : d = DISPATCHED -> legacy_reached (agent_id captured)).
  { unfold d, combine_dispatch. intros E. exists o. split; [done|]. by destruct (dispatch_state _). }
  set (w2 := mkWorld _ _ _ _ _). assert (Hw2 : pw_sent w2 = pw_sent w /\ pw_dispatch w2 = pw_dispatch w) by done.
  clearbody w2. destruct Hw2 as [Hs2 Hd2]. unfold pr_bind, pr_reads. intros E.
  match type of E with context [store_status ?s ?rev d w2] =>
    destruct (quiet_store d s rev w2) as (K1 & K2 & K3); destruct (store_status s rev d w2) as [[e|[]] w3] end;
    cbn in K1, K2, K3; injection E as <- <-; (split; [congruence|split; [congruence|]]).
  - destruct (K3 e eq_refl) as [->|[->| ->]]; [done| |done]. intros [= E]. auto.
  - exact Hd.
Qed.

Lemma honest_raise id e w : (said_by e = Some NOT_DISPATCHED -> pw_sent w = []) ->
  (said_by e = Some DISPATCHED -> (exists x, x ∈ pw_sent w /\ reached x) \/ legacy_reached id) -> honest id (inl e, w).
Proof. intros H1' H2'. split; cbn; [|done]. intros E x. rewrite (H1' E). by intros ?%not_elem_of_nil. Qed.

(** The handlers, when nothing was sent. *)
Lemma explain_unsent id captured now e w :
  agent_id captured = id -> pw_sent w = [] -> pw_dispatch w = NOT_DISPATCHED -> before_request e ->
  honest id (explain self probe_legacy other captured now e w).
Proof.
  intros Hid Hs Hd He. unfold explain. unfold pr_bind at 1, get_dispatch. rewrite Hd.
  assert (Hfail : forall code w', pw_sent w' = [] -> honest id (failed self captured now code NOT_DISPATCHED w')).
  { intros code w' Hw'. apply failed_honest; [|done]. intros _ x. rewrite Hw'. by intros ?%not_elem_of_nil. }
  assert (Hfall : forall code, honest id ((let~ fallback := legacy_fallback self probe_legacy other captured now NOT_DISPATCHED in
      match fallback with Some result => pr_ret result | None => failed self captured now code NOT_DISPATCHED end) w)).
  { intros code. unfold pr_bind.
    destruct (legacy_fallback self probe_legacy other captured now NOT_DISPATCHED w) as [r w'] eqn:E.
    apply (fallback_honest id) in E as (Q1 & _ & Q3); [|done]. rewrite Hs in Q1.
    destruct r as [e'|[r|]]; [apply honest_raise; auto| |by apply Hfail].
    split; cbn; [|intros [= ?]; auto]. intros _ x. rewrite Q1. by intros ?%not_elem_of_nil. }
  destruct He as [->|[->|[[code ->]| ->]]]; [apply Hfall|by apply Hfail| |by apply Hfail].
  destruct (_ && _); [apply Hfall|by apply Hfail].
Qed.

(** The handlers, after an answer. *)
Lemma explain_answered captured now e w :
  pw_dispatch w = DISPATCHED -> after_answer e ->
  let out := explain self probe_legacy other captured now e w in
  pw_sent out.2 = pw_sent w /\ reported out.1 <> Some NOT_DISPATCHED.
Proof.
  intros Hd He. cbv zeta. remember (explain self probe_legacy other captured now e w) as out eqn:Eout.
  unfold explain in Eout. unfold pr_bind at 1, get_dispatch in Eout. rewrite Hd in Eout.
  assert (Hfail : forall code w', pw_sent w' = pw_sent w ->
    pw_sent (failed self captured now code DISPATCHED w').2 = pw_sent w /\
    reported (failed self captured now code DISPATCHED w').1 <> Some NOT_DISPATCHED).
  { intros code w' Hw'. destruct (quiet_failed DISPATCHED captured now code w') as (Q1 & _ & Q3).
    split; [by rewrite Q1|].
    destruct (failed self captured now code DISPATCHED w') as [[e'|r] w''] eqn:E; cbn [fst reported].
    - by destruct (Q3 e' eq_refl) as [->|[->| ->]].
    - unfold failed in E. pr_inv. done. }
  destruct He as [->|[(cat & said & ->)|[[x ->]|[->|[->|[->|[code ->]]]]]]]; subst out; try done; [by apply Hfail| |].
  - unfold pr_bind, add_dispatch, get_dispatch. cbn [pw_dispatch]. rewrite Hd.
    assert (combine_dispatch DISPATCHED (dispatch_state said) = DISPATCHED) as ->
      by (unfold combine_dispatch; by destruct (dispatch_state said)).
    by apply Hfail.
  - destruct x; try done. by apply Hfail.
Qed.

(** A probe says truthfully whether it reached the Agent.  When a probe, or
    the error it ends with, says [not_dispatched], then every request it made
    was held back according to the HTTP client; when it says [dispatched], then
    a request of it was answered or sent according to the client, or the prober
    of the first API version said so. *)
Theorem probe_dispatch_honest id now w :
  db_wf (pw_db w) -> pw_sent w = [] -> pw_dispatch w = NOT_DISPATCHED -> honest id (probe id now w).
Proof.
  intros W Hs Hd. unfold probe, probe_agent. unfold pr_bind at 1, pr_reads at 1.
  destruct (agents (pw_db w) !! id) as [captured|] eqn:Hc; [|by apply honest_raise].
  destruct (wf_agents _ W _ _ Hc) as [Hid _]. destruct (negb (agent_enabled captured)); [by apply honest_raise|].
  unfold pr_bind at 1, pr_reads at 1.
  match goal with |- honest _ ((if ?b then _ else _) _) => destruct b; [by apply honest_raise|] end.
  unfold pr_bind at 1, pr_catch. fold probing_agent.
  destruct (ask_agent_cases captured now w Hs Hd) as [(e & -> & He)|[(t & token & Hs' & Hd' & Hc')|(t & token & st & body & Hin & Eh & Hd' & Ho)]].
  - pose proof (explain_unsent id captured now e w Hid Hs Hd He) as Hx. unfold pr_bind.
    destruct (explain self probe_legacy other captured now e w) as [[e'|r] w'] eqn:E; exact Hx.
  - destruct (probing_agent captured now w) as [res w1]. cbn [fst snd] in *.
    destruct Hc' as [(cat & said & -> & Eh)|[->| ->]].
    + unfold explain, pr_bind, get_dispatch, add_dispatch. cbn [pw_dispatch]. rewrite Hd'.
      set (d := combine_dispatch NOT_DISPATCHED (dispatch_state said)).
      assert (Hds : d = dispatch_state said) by (unfold d, combine_dispatch; by destruct (dispatch_state said)).
      set (w2 := mkWorld _ _ _ _ _).
      assert (Hx : honest id (failed self captured now cat d w2)).
      { apply failed_honest; cbn; rewrite Hs', Hds.
        - intros E x ->%list_elem_of_singleton. exists token, cat, said. auto.
        - intros E. left. exists (t, "/api/v2/capabilities"). split; [by left|]. exists token. right. eauto. }
      change (pw_dispatch w2) with d. destruct (failed self captured now cat d w2) as [[e'|r] w'] eqn:E; exact Hx.
    + by apply honest_raise.
    + by apply honest_raise.
  - assert (Hr : reached (t, "/api/v2/capabilities")) by (exists token; eauto).
    destruct (probing_agent captured now w) as [res w1]. cbn [fst snd] in *.
    destruct res as [e|[r|[c summary]]].
    + pose proof (explain_answered captured now e w1 Hd' Ho) as (Hsent & Hrep). unfold pr_bind.
      destruct (explain self probe_legacy other captured now e w1) as [[e'|r] w'] eqn:E; cbn [fst snd] in *;
        (split; [done|intros _; left; eexists; split; [cbn; rewrite Hsent; exact Hin|exact Hr]]).
    + split; cbn; [by rewrite Ho|]. intros _. left. eauto.
    + pose proof (quiet_settle id captured now c summary w1 Hd') as (Hsent & Hrep).
      destruct (settle self other id captured now c summary w1) as [[e|r] w'] eqn:E; cbn [fst snd] in *.
      * split; cbn; [by destruct Hrep as [->|[->| ->]]|]. intros _. left. rewrite Hsent. eauto.
      * split; cbn; [by rewrite Hrep|]. intros _. left. rewrite Hsent. eauto.
Qed.
End Probes.

(** ** Examples *)
Definition home_network : IPNetwork := mkNetwork false (10 * 2 ^ 24) 24.

#[local] Instance probing_python : PythonIp := {| judges_mapped := true |}.
#[local] Instance same_text : IsoTime := {| iso_utc s := Some s |}.

Definition home_service : FleetProbeService :=
  mkFleetProbes (mkPolicy [home_network] [(V4 [10; 0; 0; 1]%Z, 8000%Z)]) [TrustedLanHttpProfile "plain" [home_network]]
    60 false false false.

Definition home_agent : AgentRecord := agent_one <| agent_instance_id := Some uuid_p |>.

Definition home_db : DB := with_agent home_agent empty_db.

Lemma home_db_wf : db_wf home_db.
Proof. apply (insert_agent_wf home_agent empty_db tt _ empty_db_wf). vm_compute. reflexivity. Qed.

Definition counts_json (fields : list string) : json := JDict ((fun f => (f, JInt 0)) <$> fields).

Definition home_http : Http := fun _ _ _ path _ =>
  if bool_decide (path = "/api/v2/capabilities")
  then Response 200 (Some (JDict [("instance_id", JString uuid_p); ("api_version", JString "2");
         ("agent_version", JString "1.0"); ("capabilities", JList [JString "runtime.v2"; JString "summary.v2"])]))
  else Response 200 (Some (JDict (("observed_at", JString "now") ::
         ((fun s => (s.1, counts_json s.2)) <$> summary_sections)))).

Definition home_probe : Probe ProbeResult :=
  probe home_service (fun _ _ => Some ["10.0.0.7"]) home_http (fun _ => Some "token") (fun _ => None) (fun _ db => db)
    "agent-1" 5%Z.

Definition home_world : ProbeWorld := mkWorld home_db ∅ [] NOT_DISPATCHED 0.


Lemma probe_dispatch_honest_witness :
  reported (home_probe home_world).1 = Some DISPATCHED /\
  ((exists x, x ∈ pw_sent (home_probe home_world).2 /\ reached home_http x) \/ legacy_reached (fun _ => None) "agent-1").
Proof.
  assert (K : reported (home_probe home_world).1 = Some DISPATCHED) by (vm_compute; reflexivity).
  destruct (probe_dispatch_honest home_service (fun _ _ => Some ["10.0.0.7"]) home_http (fun _ => Some "token")
    (fun _ => None) (fun _ db => db) "agent-1" 5%Z home_world home_db_wf eq_refl eq_refl) as [_ Hd].
  split; [exact K|exact (Hd K)].
Defined.

Lemma conflict_stops_probes_witness :
  probe home_service (fun _ _ => None) home_http (fun _ => None) (fun _ => None) (fun _ db => db) "agent-1" 5%Z
    (mkWorld (with_agent (home_agent <| agent_enabled := false |>) empty_db) ∅ [] NOT_DISPATCHED 0) =
  (inl (AgentProbeDisabled "agent_disabled" NOT_DISPATCHED),
   mkWorld (with_agent (home_agent <| agent_enabled := false |>) empty_db) ∅ [] NOT_DISPATCHED 0).
Proof.
  apply (conflict_stops_probes home_service (fun _ _ => None) home_http (fun _ => None) (fun _ => None) (fun _ db => db)
    "agent-1" 5%Z _ (home_agent <| agent_enabled := false |>)); [vm_compute; reflexivity|reflexivity].
Defined.
