(* ===== verification/TerminalSessions.v ===== *)
(** * Terminal sessions

    [TerminalManager] of [src/backend/ic_env_guard/terminal/manager.py].  The
    clock, the pseudo-terminals and the random identifiers are oracles, asked
    at numbered moments.  A reading of [time.time()] is a whole number of
    2^-22 seconds, which is what floats of today's magnitude are; differences
    of such floats are exact. *)

From stdpp Require Import base tactics list gmap strings.
From Stdlib Require Import ZArith Lia.
From S2P Require Import Prelude Text Digest Models Terminal CompactJson LatestValue LogSources LogTail.

Definition minutes (n : Z) : Z := n * 60 * 2 ^ 22.

(** ** Sessions *)
Inductive TerminalStatus := T_RUNNING | T_EXITED | T_CLOSED | T_TIMED_OUT.

#[global] Instance TerminalStatus_eq : EqDecision TerminalStatus.
Proof. solve_decision. Defined.

(** [process] is the pseudo-terminal, by the pid of its shell. *)
Record TerminalSession := mkSession {
  session_owner : string;
  session_title : string;
  session_command : string;
  session_process : option Z;
  session_pid : option Z;
  session_rows : Z;
  session_cols : Z;
  session_status : TerminalStatus;
  session_output_cursor : Z;
  session_replay_buffer_start_cursor : Z;
  session_idle_timeout_minutes : Z;
  session_created_at : Z;
  session_last_active_at : Z;
  session_exited_at : option Z;
  session_closed_at : option Z;
  session_close_reason : option string
}.

Record TerminalConfig := mkTerminalConfig {
  shell : string;
  idle_timeout_minutes : Z;
  replay_buffer_bytes : Z;
  exited_retention_minutes : Z
}.

(** The checks of [TerminalManager.__init__]. *)
Definition config_valid (c : TerminalConfig) : bool :=
  (30 <=? idle_timeout_minutes c)%Z && (idle_timeout_minutes c <=? 120)%Z &&
  (0 <=? exited_retention_minutes c)%Z && (exited_retention_minutes c <=? 120)%Z.

(** [sessions] in the order of the dictionary; [started] are the pids of the
    shells that were started, [ended] those of the shells that were terminated
    or found to have ended, both kept for the statements only. *)
Record Manager := mkManager {
  sessions : list (string * TerminalSession);
  buffers : gmap string Replay.ReplayBuffer;
  started : list Z;
  ended : list Z;
  moment : nat
}.

Inductive texn := TKeyError (terminal_id : string) | NotRunning | PtyError.

(** What [select] and [os.read] give. *)
Inductive ReadResult := NotReady | ReadFails | EndOfFile | ReadData (data : list Z).

Class Ptys := {
  clock : nat -> Z;
  new_id : nat -> string;
  spawn : nat -> option Z;
  is_alive : nat -> Z -> bool;
  pty_accepts : nat -> Z -> bool;
  pty_reads : nat -> Z -> ReadResult
}.

Definition Term (A : Type) : Type := Manager -> (texn + A) * Manager.

Definition t_ret {A} (a : A) : Term A := fun m => (inr a, m).
Definition t_raise {A} (e : texn) : Term A := fun m => (inl e, m).

Definition t_bind {A B} (x : Term A) (k : A -> Term B) : Term B := fun m =>
  match x m with
  | (inl e, m) => (inl e, m)
  | (inr a, m) => k a m
  end.

Declare Scope term_scope.
Notation "'let@' x ':=' m 'in' k" := (t_bind m (fun x => k))
  (at level 10, x pattern, m at level 100, k at level 200) : term_scope.
Notation "m ';;@' k" := (t_bind m (fun _ => k)) (at level 199, right associativity) : term_scope.
Local Open Scope term_scope.

(** ** The dictionary of sessions *)
Definition find_session (id : string) (l : list (string * TerminalSession)) : option TerminalSession :=
  list_find (fun kv => kv.1 = id) l ≫= fun found => Some found.2.2.

Definition alter_session (f : TerminalSession -> TerminalSession) (id : string) (l : list (string * TerminalSession))
    : list (string * TerminalSession) :=
  (fun kv => if bool_decide (kv.1 = id) then (kv.1, f kv.2) else kv) <$> l.

(** [self.sessions[id] = s] for an identifier that is not there yet. *)
Definition add_session (id : string) (s : TerminalSession) (l : list (string * TerminalSession))
    : list (string * TerminalSession) := l ++ [(id, s)].

Definition running (s : TerminalSession) : bool := bool_decide (session_status s = T_RUNNING).

Definition mark_exited (reason : string) (now : Z) (s : TerminalSession) : TerminalSession :=
  mkSession (session_owner s) (session_title s) (session_command s) None (session_pid s) (session_rows s)
    (session_cols s) T_EXITED (session_output_cursor s) (session_replay_buffer_start_cursor s)
    (session_idle_timeout_minutes s) (session_created_at s) (session_last_active_at s) (Some now)
    (session_closed_at s) (Some reason).

Definition set_active (now : Z) (s : TerminalSession) : TerminalSession :=
  mkSession (session_owner s) (session_title s) (session_command s) (session_process s) (session_pid s) (session_rows s)
    (session_cols s) (session_status s) (session_output_cursor s) (session_replay_buffer_start_cursor s)
    (session_idle_timeout_minutes s) (session_created_at s) now (session_exited_at s)
    (session_closed_at s) (session_close_reason s).

Definition set_size (rows cols : Z) (s : TerminalSession) : TerminalSession :=
  mkSession (session_owner s) (session_title s) (session_command s) (session_process s) (session_pid s) rows
    cols (session_status s) (session_output_cursor s) (session_replay_buffer_start_cursor s)
    (session_idle_timeout_minutes s) (session_created_at s) (session_last_active_at s) (session_exited_at s)
    (session_closed_at s) (session_close_reason s).

Definition set_cursors (b : Replay.ReplayBuffer) (s : TerminalSession) : TerminalSession :=
  mkSession (session_owner s) (session_title s) (session_command s) (session_process s) (session_pid s) (session_rows s)
    (session_cols s) (session_status s) (Replay.cursor b) (Replay.start_cursor b)
    (session_idle_timeout_minutes s) (session_created_at s) (session_last_active_at s) (session_exited_at s)
    (session_closed_at s) (session_close_reason s).

Definition set_closed (reason : string) (now : Z) (s : TerminalSession) : TerminalSession :=
  mkSession (session_owner s) (session_title s) (session_command s) None (session_pid s) (session_rows s)
    (session_cols s) (if bool_decide (reason = "user_closed") then T_CLOSED else T_TIMED_OUT)
    (session_output_cursor s) (session_replay_buffer_start_cursor s)
    (session_idle_timeout_minutes s) (session_created_at s) (session_last_active_at s) (session_exited_at s)
    (Some now) (Some reason).

Section Manager.
Context `{Ptys} (self : TerminalConfig).

(** Asking an oracle passes the moment. *)
Definition now : Term Z := fun m => (inr (clock (moment m)), mkManager (sessions m) (buffers m) (started m) (ended m) (S (moment m))).

Definition update_sessions (f : list (string * TerminalSession) -> list (string * TerminalSession)) : Term unit := fun m =>
  (inr tt, mkManager (f (sessions m)) (buffers m) (started m) (ended m) (moment m)).

Definition has_ended (pid : Z) : Term unit := fun m =>
  (inr tt, mkManager (sessions m) (buffers m) (started m) (pid :: ended m) (moment m)).

Definition ask {A} (oracle : nat -> A) : Term A := fun m =>
  (inr (oracle (moment m)), mkManager (sessions m) (buffers m) (started m) (ended m) (S (moment m))).

(** ** Clean-up *)
(** [_poll_exits], session by session *)
Fixpoint poll_exits (l : list (string * TerminalSession)) : Term unit :=
  match l with
  | [] => t_ret tt
  | (id, s) :: l =>
      match session_process s with
      | Some pid =>
          if running s then
            let@ alive := ask (fun n => is_alive n pid) in
            (if alive then t_ret tt
             else has_ended pid ;;@
                  let@ t := now in update_sessions (alter_session (mark_exited "shell_exited" t) id)) ;;@
            poll_exits l
          else poll_exits l
      | None => poll_exits l
      end
  end.

Definition terminal_at (s : TerminalSession) : option Z :=
  match session_status s with
  | T_CLOSED => session_closed_at s
  | T_EXITED => session_exited_at s
  | _ => None
  end.

Definition expired_at (t : Z) (s : TerminalSession) : bool :=
  match terminal_at s with
  | Some at_ => (minutes (exited_retention_minutes self) <=? t - at_)%Z
  | None => false
  end.

Definition purge_expired : Term unit :=
  let@ t := now in
  fun m =>
    let gone := (filter (fun kv => expired_at t kv.2 = true) (sessions m)).*1 in
    (inr tt, mkManager (filter (fun kv => expired_at t kv.2 = false) (sessions m))
               (foldr delete (buffers m) gone) (started m) (ended m) (moment m)).

Definition tidy : Term unit := (fun m => poll_exits (sessions m) m) ;;@ purge_expired.

(** ** Operations *)
Definition create_terminal (title : string) (rows cols : Z) (owner : string) : Term string :=
  let@ id := ask new_id in
  let@ process := ask spawn in
  match process with
  | None => t_raise PtyError
  | Some pid =>
      let@ t := now in
      fun m =>
        (inr id, mkManager
          (add_session id (mkSession owner (if bool_decide (title = "") then "Terminal" else title) (shell self)
             (Some pid) (Some pid) rows cols T_RUNNING 0 0 (idle_timeout_minutes self) t t None None None) (sessions m))
          (<[id := Replay.new_buffer (replay_buffer_bytes self)]> (buffers m)) (pid :: started m) (ended m) (moment m))
  end.

Definition terminal_list : Term (list (string * TerminalSession)) := tidy ;;@ fun m => (inr (sessions m), m).

Definition terminal_get (id : string) : Term TerminalSession :=
  tidy ;;@
  fun m => match find_session id (sessions m) with
           | Some s => (inr s, m)
           | None => (inl (TKeyError id), m)
           end.

Definition terminal_write (id : string) : Term unit :=
  let@ s := terminal_get id in
  match session_process s with
  | Some pid =>
      if running s then
        let@ ok := ask (fun n => pty_accepts n pid) in
        if ok then let@ t := now in update_sessions (alter_session (set_active t) id) else t_raise PtyError
      else t_raise NotRunning
  | None => t_raise NotRunning
  end.

Definition set_buffer (id : string) (b : Replay.ReplayBuffer) : Term unit := fun m =>
  (inr tt, mkManager (sessions m) (<[id := b]> (buffers m)) (started m) (ended m) (moment m)).

(** One chunk of output: decoded on its own, then stored. *)
Definition take_output (id : string) (data : list Z) : Term (list Z) :=
  let text := encode (decode data) in
  fun m =>
    match buffers m !! id with
    | None => (inl (TKeyError id), m)
    | Some b =>
        let b := Replay.append text b in
        (set_buffer id b ;;@
         update_sessions (alter_session (set_cursors b) id) ;;@
         let@ t := now in
         update_sessions (alter_session (set_active t) id) ;;@
         t_ret text) m
    end.

(** The loop of [read_available]: at most [fuel] chunks. *)
Fixpoint read_loop (fuel : nat) (id : string) (pid : Z) (output : list Z) : Term (list Z) :=
  match fuel with
  | 0 => t_ret output
  | S fuel =>
      let exits := has_ended pid ;;@
                   let@ t := now in
                   update_sessions (alter_session (mark_exited "shell_exited" t) id) ;;@
                   t_ret output in
      let@ r := ask (fun n => pty_reads n pid) in
      match r with
      | NotReady => t_ret output
      | ReadFails | EndOfFile => exits
      | ReadData data =>
          let@ text := take_output id data in
          read_loop fuel id pid (output ++ text)
      end
  end.

Definition read_available (fuel : nat) (id : string) : Term (list Z) :=
  let@ s := terminal_get id in
  match session_process s with
  | None => t_ret []
  | Some pid => read_loop fuel id pid []
  end.

Definition resize (id : string) (rows cols : Z) : Term unit :=
  let@ s := terminal_get id in
  update_sessions (alter_session (set_size rows cols) id) ;;@
  (match session_process s with
   | Some pid =>
       if running s then
         let@ ok := ask (fun n => pty_accepts n pid) in
         if ok then t_ret tt else t_raise PtyError
       else t_ret tt
   | None => t_ret tt
   end) ;;@
  let@ t := now in
  update_sessions (alter_session (set_active t) id).

Record ReplayHistory := mkHistory {
  history_from_cursor : Z;
  history_to_cursor : Z;
  history_buffer_start_cursor : Z;
  history_truncated : bool;
  history_status : TerminalStatus;
  history_output : list Z
}.

Definition history (id : string) (at_ : Z) : Term ReplayHistory :=
  let@ s := terminal_get id in
  fun m =>
    match buffers m !! id with
    | None => (inl (TKeyError id), m)
    | Some b =>
        let '(output, from, truncated) := Replay.read_from at_ b in
        (inr (mkHistory from (Replay.cursor b) (Replay.start_cursor b) truncated (session_status s) output), m)
    end.

(** The process is terminated by force, or killed when that raises. *)
Definition terminal_close (id reason : string) : Term unit :=
  let@ s := terminal_get id in
  (match session_process s with
   | Some pid => if running s then has_ended pid else t_ret tt
   | None => t_ret tt
   end) ;;@
  let@ t := now in
  update_sessions (alter_session (set_closed reason t) id).

Fixpoint close_idle (t : Z) (l : list (string * TerminalSession)) : Term unit :=
  match l with
  | [] => t_ret tt
  | (id, _) :: l =>
      (fun m => match find_session id (sessions m) with
       | Some s =>
           if running s && (minutes (session_idle_timeout_minutes s) <? t - session_last_active_at s)%Z
           then terminal_close id "idle_timeout" m
           else (inr tt, m)
       | None => (inr tt, m)
       end) ;;@
      close_idle t l
  end.

Definition cleanup_idle_sessions : Term unit :=
  let@ t := now in fun m => close_idle t (sessions m) m.
End Manager.
