(* ===== verification/SessionClaims.v ===== *)
(** * What the terminal manager guarantees *)

From stdpp Require Import base tactics list gmap strings pretty.
From Stdlib Require Import ZArith Lia.
From S2P Require Import Prelude Text Digest Models Terminal CompactJson LatestValue LogSources LogTail TerminalSessions.

Local Open Scope term_scope.

(** ** Calls *)
Inductive TerminalCall :=
| CallCreate (title : string) (rows cols : Z) (owner : string)
| CallList
| CallGet (id : string)
| CallWrite (id : string)
| CallRead (fuel : nat) (id : string)
| CallResize (id : string) (rows cols : Z)
| CallHistory (id : string) (at_ : Z)
| CallClose (id reason : string)
| CallCleanup.

Section Sessions.
Context `{Ptys} (self : TerminalConfig).

Definition terminal_run (c : TerminalCall) (m : Manager) : Manager :=
  match c with
  | CallCreate title rows cols owner => (create_terminal self title rows cols owner m).2
  | CallList => (terminal_list self m).2
  | CallGet id => (terminal_get self id m).2
  | CallWrite id => (terminal_write self id m).2
  | CallRead fuel id => (read_available self fuel id m).2
  | CallResize id rows cols => (resize self id rows cols m).2
  | CallHistory id at_ => (history self id at_ m).2
  | CallClose id reason => (terminal_close self id reason m).2
  | CallCleanup => (cleanup_idle_sessions self m).2
  end.

(** ** The invariant *)
Record session_ok (bs : gmap string Replay.ReplayBuffer) (gone : list Z) (id : string) (s : TerminalSession) : Prop := {
  so_process : session_process s = if running s then session_pid s else None;
  so_pid : exists p, session_pid s = Some p /\ (running s = false -> p ∈ gone);
  so_ended : match session_status s with
             | T_RUNNING => session_exited_at s = None /\ session_closed_at s = None
             | T_EXITED => is_Some (session_exited_at s)
             | T_CLOSED | T_TIMED_OUT => is_Some (session_closed_at s)
             end;
  so_buffer : exists b, bs !! id = Some b /\ session_output_cursor s = Replay.cursor b /\
    session_replay_buffer_start_cursor s = Replay.start_cursor b
}.

(** The shells that sessions hold. *)
Definition live (l : list (string * TerminalSession)) : list Z := omap (fun kv => session_process kv.2) l.

(** Every shell that was started has been ended once, or is held by one session. *)
Record manager_ok (m : Manager) : Prop := {
  mo_ids : NoDup (sessions m).*1;
  mo_old id : id ∈ (sessions m).*1 -> exists n, n < moment m /\ id = new_id n;
  mo_sessions id s : (id, s) ∈ sessions m -> session_ok (buffers m) (ended m) id s;
  mo_buffers id b : buffers m !! id = Some b -> id ∈ (sessions m).*1;
  mo_started : started m ≡ₚ ended m ++ live (sessions m)
}.

(** An operation that keeps the invariant. *)
Definition keeps {A} (x : Term A) : Prop := forall m, manager_ok m -> manager_ok (x m).2.

Lemma keeps_ret {A} (a : A) : keeps (t_ret a). Proof. by intros m. Qed.
Lemma keeps_raise {A} e : keeps (t_raise (A := A) e). Proof. by intros m. Qed.

Lemma keeps_bind {A B} (x : Term A) (k : A -> Term B) : keeps x -> (forall a, keeps (k a)) -> keeps (t_bind x k).
Proof.
  intros Hx Hk m Hm. unfold t_bind. specialize (Hx m Hm). destruct (x m) as [[e|a] m']; [done|]. by apply Hk.
Qed.

(** A later moment changes nothing. *)
Lemma later_ok m n : manager_ok m -> moment m <= n ->
  manager_ok (mkManager (sessions m) (buffers m) (started m) (ended m) n).
Proof.
  intros [I O S B T] Hn. split; cbn; try done. intros id Hid. destruct (O id Hid) as (k & ? & ->).
  exists k. split; [lia|done].
Qed.

Lemma keeps_now : keeps now. Proof. intros m Hm. apply later_ok; [done|lia]. Qed.

Lemma keeps_ask {A} (f : nat -> A) : keeps (ask f). Proof. intros m Hm. apply later_ok; [done|lia]. Qed.

#[local] Hint Resolve keeps_ret keeps_raise keeps_bind keeps_now keeps_ask : core.

(** ** Changes of one session *)
Lemma alter_keys f id l : (alter_session f id l).*1 = l.*1.
Proof.
  unfold alter_session. rewrite <- list_fmap_compose. apply list_fmap_ext. intros i [k s] _. cbn.
  by case_bool_decide.
Qed.

Lemma elem_alter f id l k s :
  (k, s) ∈ alter_session f id l <->
  exists s0, (k, s0) ∈ l /\ s = if bool_decide (k = id) then f s0 else s0.
Proof.
  unfold alter_session. rewrite list_elem_of_fmap. split.
  - intros ([k0 s0] & E & Hs). cbn in E. case_bool_decide; simplify_eq; exists s0; (split; [done|]);
      [by rewrite bool_decide_true|by rewrite bool_decide_false].
  - intros (s0 & Hs & ->). exists (k, s0). split; [|done]. cbn. by case_bool_decide.
Qed.

Lemma live_cons k s l : live ((k, s) :: l) = option_list (session_process s) ++ live l.
Proof. unfold live. cbn. by destruct (session_process s). Qed.

Lemma alter_cons f id k s l :
  alter_session f id ((k, s) :: l) = (k, if bool_decide (k = id) then f s else s) :: alter_session f id l.
Proof. unfold alter_session. cbn. by case_bool_decide. Qed.

Lemma live_alter f id l :
  (forall s, (id, s) ∈ l -> session_process (f s) = session_process s) -> live (alter_session f id l) = live l.
Proof.
  induction l as [|[k s] l IH]; [done|]. intros Hf. unfold live, alter_session in *. cbn.
  rewrite IH by (intros s' ?; apply Hf; by right). case_bool_decide as E; [|done]. cbn in E. subst. cbn.
  rewrite Hf; [done|by left].
Qed.

Lemma alter_other f id l : id ∉ l.*1 -> alter_session f id l = l.
Proof.
  induction l as [|[k s] l IH]; [done|]. cbn. intros [Hk Hl]%not_elem_of_cons. unfold alter_session in *. cbn.
  rewrite IH by done. by rewrite bool_decide_false.
Qed.

(** A session lets go of its shell. *)
Lemma live_drop f id l s : NoDup l.*1 -> (id, s) ∈ l -> session_process (f s) = None ->
  live l ≡ₚ option_list (session_process s) ++ live (alter_session f id l).
Proof.
  induction l as [|[k s'] l IH]; [by intros _ ?%elem_of_nil|]. rewrite alter_cons, !live_cons. cbn. intros [Hk Hnd]%NoDup_cons Hin Hf.
  apply elem_of_cons in Hin as [[= <- <-]|Hin].
  - rewrite alter_other by done. rewrite bool_decide_true by done. by rewrite Hf.
  - assert (k <> id) by (intros ->; apply Hk, list_elem_of_fmap; by exists (id, s)).
    rewrite bool_decide_false by done. rewrite (IH Hnd Hin Hf), !(assoc_L (++)). f_equiv. apply Permutation_app_comm.
Qed.

(** The session changes; the shell that it no longer holds is among the ended ones. *)
Lemma alter_ok f id m bs gone :
  manager_ok m -> dom bs = dom (buffers m) -> (forall k, k <> id -> bs !! k = buffers m !! k) ->
  (forall s, (id, s) ∈ sessions m -> session_ok bs gone id (f s)) ->
  ended m ⊆ gone -> ended m ++ live (sessions m) ≡ₚ gone ++ live (alter_session f id (sessions m)) ->
  manager_ok (mkManager (alter_session f id (sessions m)) bs (started m) gone (moment m)).
Proof.
  intros [I O S B T] Hdom Hother Hf Hg Hlive. split; cbn; rewrite ?alter_keys; try done.
  - intros k s (s0 & Hs & ->)%elem_alter. case_bool_decide as E; [subst; by apply Hf|].
    destruct (S k s0 Hs) as [P1 (p & Hp & Hpg) P3 (b & Hb & ?)]. split; [done|by eauto|done|]. exists b. by rewrite Hother.
  - intros k b Hb. assert (Hk : k ∈ dom (buffers m)) by (rewrite <- Hdom; by eapply elem_of_dom_2).
    apply elem_of_dom in Hk as [b' Hb']. by eapply B.
  - by rewrite T, Hlive.
Qed.

(** Changes that leave the process, the status and the cursors alone. *)
Definition harmless (f : TerminalSession -> TerminalSession) : Prop := forall s,
  session_process (f s) = session_process s /\ session_pid (f s) = session_pid s /\
  session_status (f s) = session_status s /\ session_exited_at (f s) = session_exited_at s /\
  session_closed_at (f s) = session_closed_at s /\ session_output_cursor (f s) = session_output_cursor s /\
  session_replay_buffer_start_cursor (f s) = session_replay_buffer_start_cursor s.

Lemma harmless_ok f bs gone id s : harmless f -> session_ok bs gone id s -> session_ok bs gone id (f s).
Proof.
  intros Hf [P1 P2 P3 P4]. destruct (Hf s) as (E1 & E2 & E3 & E4 & E5 & E6 & E7).
  split; unfold running in *; rewrite ?E1, ?E2, ?E3, ?E4, ?E5, ?E6, ?E7; done.
Qed.

Lemma keeps_harmless f id : harmless f -> keeps (update_sessions (alter_session f id)).
Proof.
  intros Hf m Hm. apply alter_ok; [done|done|done| |done|].
  - intros s Hs. apply harmless_ok; [done|]. by apply mo_sessions.
  - rewrite live_alter; [done|]. intros s _. by destruct (Hf s) as [-> _].
Qed.

Lemma harmless_active t : harmless (set_active t). Proof. done. Qed.
Lemma harmless_size r c : harmless (set_size r c). Proof. done. Qed.
#[local] Hint Resolve keeps_harmless harmless_active harmless_size : core.

(** ** The end of a shell *)
Definition has_process (id : string) (pid : Z) (m : Manager) : Prop :=
  exists s, (id, s) ∈ sessions m /\ session_process s = Some pid.

Lemma same_session m id s s' : manager_ok m -> (id, s) ∈ sessions m -> (id, s') ∈ sessions m -> s = s'.
Proof.
  intros Hm Hs Hs'. pose proof (mo_ids _ Hm) as Hnd. apply list_elem_of_lookup in Hs as [i Hi].
  apply list_elem_of_lookup in Hs' as [j Hj].
  assert (i = j) as ->; [|congruence].
  apply (NoDup_lookup _ _ _ id Hnd); rewrite list_lookup_fmap; [by rewrite Hi|by rewrite Hj].
Qed.

Lemma process_running bs gone id s pid :
  session_ok bs gone id s -> session_process s = Some pid -> running s = true /\ session_pid s = Some pid.
Proof. intros [P1 _ _ _] E. rewrite E in P1. by destruct (running s). Qed.

(** A session lets go of its shell, which has ended. *)
Lemma finish_ok f id s m :
  manager_ok m -> (id, s) ∈ sessions m -> session_process (f s) = None ->
  (forall bs gone, session_ok bs gone id s -> (forall p, session_pid s = Some p -> p ∈ gone) -> session_ok bs gone id (f s)) ->
  manager_ok (mkManager (alter_session f id (sessions m)) (buffers m) (started m)
                (option_list (session_process s) ++ ended m) (moment m)).
Proof.
  intros Hm Hs Hnone Hf. pose proof (mo_sessions _ Hm id s Hs) as Hok. apply alter_ok; [done|done|done| | |].
  - intros s' Hs'. assert (s' = s) as -> by (by eapply same_session). destruct Hok as [P1 (p0 & Hp0 & Hg) P3 P4].
    apply Hf; [split; try done; exists p0; split; [done|]; intros; apply elem_of_app; auto|].
    intros p Hp. rewrite P1. apply elem_of_app. destruct (running s); [left; rewrite Hp; by left|].
    right. assert (p = p0) as -> by congruence. by apply Hg.
  - intros p Hp. apply elem_of_app. by right.
  - rewrite (live_drop f id _ s) by (done || apply (mo_ids _ Hm)). rewrite !(assoc_L (++)). f_equiv. apply Permutation_app_comm.
Qed.

Lemma exited_session t bs gone id s :
  session_ok bs gone id s -> (forall p, session_pid s = Some p -> p ∈ gone) ->
  session_ok bs gone id (mark_exited "shell_exited" t s).
Proof. intros [P1 (p & Hp & _) P3 P4] Hg. split; cbn; [done| |done|done]. exists p. auto. Qed.

Lemma exit_ok id pid t m :
  manager_ok m -> has_process id pid m ->
  manager_ok (mkManager (alter_session (mark_exited "shell_exited" t) id (sessions m)) (buffers m) (started m)
                (pid :: ended m) (moment m)).
Proof.
  intros Hm (s & Hs & Hp). pose proof (finish_ok (mark_exited "shell_exited" t) id s m Hm Hs) as F.
  rewrite Hp in F. apply F; [done|]. intros. by apply exited_session.
Qed.

Lemma poll_ok l m :
  manager_ok m -> NoDup l.*1 -> (forall kv, kv ∈ l -> kv ∈ sessions m) -> manager_ok (poll_exits l m).2.
Proof.
  revert m. induction l as [|[id s] l IH]; intros m Hm Hnd Hl; [done|]. cbn [poll_exits].
  apply NoDup_cons in Hnd as [Hid Hnd].
  assert (Hrest : forall kv, kv ∈ l -> kv ∈ sessions m) by (intros kv ?; apply Hl; by right).
  destruct (session_process s) as [pid|] eqn:Hp; [|by apply IH]. destruct (running s); [|by apply IH].
  unfold t_bind at 1, ask. set (m1 := mkManager _ _ _ _ _).
  assert (Hm1 : manager_ok m1) by (apply later_ok; [done|lia]).
  destruct (is_alive (moment m) pid); [by apply IH|]. unfold t_bind, has_ended, now, update_sessions. cbn.
  apply IH; [|done|].
  - apply (later_ok (mkManager (alter_session (mark_exited "shell_exited" (clock (S (moment m)))) id (sessions m)) (buffers m)
      (started m) (pid :: ended m) (S (moment m)))); [|cbn; lia].
    apply (exit_ok id pid _ m1 Hm1). exists s. split; [apply Hl; by left|done].
  - intros [k s'] Hk. cbn. apply elem_alter. exists s'. split; [by apply Hrest|].
    rewrite bool_decide_false; [done|]. intros ->. apply Hid. apply list_elem_of_fmap. by exists (id, s').
Qed.

(** ** Purging *)
Lemma foldr_delete_lookup (gone : list string) (bs : gmap string Replay.ReplayBuffer) k :
  foldr delete bs gone !! k = if bool_decide (k ∈ gone) then None else bs !! k.
Proof.
  induction gone as [|g gone IH]; cbn; [by rewrite bool_decide_false by apply not_elem_of_nil|].
  destruct (decide (k = g)) as [->|Hne].
  - rewrite lookup_delete_eq, bool_decide_true; [done|by left].
  - rewrite lookup_delete_ne, IH by done. by rewrite (bool_decide_ext (k ∈ g :: gone) (k ∈ gone)) by set_solver.
Qed.

Lemma live_filter (P : string * TerminalSession -> Prop) `{forall kv, Decision (P kv)} l :
  (forall k s p, (k, s) ∈ l -> session_process s = Some p -> P (k, s)) -> live (filter P l) = live l.
Proof.
  induction l as [|[k s] l IH]; [done|]. intros HP. rewrite filter_cons. unfold live in *.
  assert (Hl : omap (fun kv => session_process kv.2) (filter P l) = omap (fun kv => session_process kv.2) l).
  { apply IH. intros k' s' p ?. apply HP. by right. }
  case_decide as E; cbn; rewrite Hl; [done|]. destruct (session_process s) as [p|] eqn:Ep; [|done].
  exfalso. apply E, (HP k s p); [by left|done].
Qed.

Lemma keeps_purge : keeps (purge_expired self).
Proof.
  unfold purge_expired. apply keeps_bind; [auto|]. intros t m Hm. pose proof Hm as [I O S B T]. cbn.
  set (keep := filter (fun kv => expired_at self t kv.2 = false) (sessions m)).
  assert (Hkeep : forall k s, (k, s) ∈ keep <-> (k, s) ∈ sessions m /\ expired_at self t s = false).
  { intros k s. unfold keep. rewrite list_elem_of_filter. cbn. naive_solver. }
  assert (Hgone : forall k s, (k, s) ∈ keep -> ~ k ∈ (filter (fun kv => expired_at self t kv.2 = true) (sessions m)).*1).
  { intros k s [Hs He]%Hkeep ([k' s'] & -> & [He' Hs']%list_elem_of_filter)%list_elem_of_fmap. cbn in *.
    assert (s' = s) as -> by (by eapply same_session). congruence. }
  split; cbn.
  - eapply sublist_NoDup; [exact I|]. apply fmap_sublist, sublist_filter.
  - intros id ([k s] & -> & [Hs _]%Hkeep)%list_elem_of_fmap. apply O, list_elem_of_fmap. by exists (k, s).
  - intros k s Hk. pose proof Hk as [Hs He]%Hkeep. destruct (S k s Hs) as [P1 P2 P3 (b & Hb & ?)].
    split; [done..|]. exists b. rewrite foldr_delete_lookup, bool_decide_false by (by eapply Hgone). done.
  - intros k b. rewrite foldr_delete_lookup. case_bool_decide as Hg; [done|]. intros Hb%B.
    apply list_elem_of_fmap in Hb as ([k' s] & -> & Hs). apply list_elem_of_fmap. exists (k', s). split; [done|].
    apply Hkeep. split; [done|]. destruct (expired_at self t s) eqn:Ee; [|done]. exfalso. apply Hg.
    apply list_elem_of_fmap. exists (k', s). split; [done|]. by apply list_elem_of_filter.
  - rewrite T. unfold keep. rewrite live_filter; [done|]. intros k s p Hs Hp.
    destruct (process_running _ _ _ _ _ (S k s Hs) Hp) as [Hr _].
    unfold running in Hr. apply bool_decide_eq_true in Hr. cbn. unfold expired_at, terminal_at. by rewrite Hr.
Qed.

Lemma keeps_tidy : keeps (tidy self).
Proof.
  unfold tidy. apply keeps_bind; [|intros _; apply keeps_purge]. intros m Hm.
  apply poll_ok; [done|apply (mo_ids _ Hm)|done].
Qed.

(** Clean-up raises nothing, and leaves the buffers it keeps alone. *)
Lemma poll_inr l m : exists m', poll_exits l m = (inr tt, m') /\ buffers m' = buffers m.
Proof.
  revert m. induction l as [|[id s] l IH]; intros m; cbn [poll_exits]; [by exists m|].
  destruct (session_process s); [|apply IH]. destruct (running s); [|apply IH]. unfold t_bind, ask.
  destruct (is_alive _ _); [apply (IH (mkManager _ _ _ _ _))|]. apply (IH (mkManager _ _ _ _ _)).
Qed.

Lemma tidy_inr m : exists m', tidy self m = (inr tt, m') /\
  forall id, buffers m' !! id = None \/ buffers m' !! id = buffers m !! id.
Proof.
  unfold tidy, t_bind at 1. destruct (poll_inr (sessions m) m) as (m1 & -> & <-). eexists. split; [reflexivity|].
  intros id. cbn [buffers]. rewrite foldr_delete_lookup. case_bool_decide; [by left|by right].
Qed.
#[local] Hint Resolve keeps_tidy : core.

(** ** The operations *)
Lemma find_elem id l s : find_session id l = Some s -> (id, s) ∈ l.
Proof.
  unfold find_session. destruct (list_find _ l) as [[i [k s']]|] eqn:E; [|done]. intros [= <-].
  apply list_find_Some in E as (Hi & Hk & _). cbn in Hk. subst. by eapply list_elem_of_lookup_2.
Qed.

Lemma terminal_get_inr id m s m' :
  manager_ok m -> terminal_get self id m = (inr s, m') -> manager_ok m' /\ (id, s) ∈ sessions m'.
Proof.
  intros Hm. unfold terminal_get, t_bind. pose proof (keeps_tidy m Hm) as Ht.
  destruct (tidy self m) as [[e|[]] m1]; [done|]. cbn in Ht.
  destruct (find_session id (sessions m1)) as [s0|] eqn:E; [|done]. intros [= <- <-]. eauto using find_elem.
Qed.

Lemma terminal_get_inl id m e m' : terminal_get self id m = (inl e, m') -> e = TKeyError id.
Proof.
  unfold terminal_get, t_bind. destruct (tidy_inr m) as (m1 & -> & _).
  destruct (find_session id (sessions m1)); [done|]. by intros [= <- _].
Qed.

Lemma terminal_get_buffer id m s m' b :
  terminal_get self id m = (inr s, m') -> buffers m' !! id = Some b -> buffers m !! id = Some b.
Proof.
  unfold terminal_get, t_bind. destruct (tidy_inr m) as (m1 & -> & Hb).
  destruct (find_session id (sessions m1)); [|done]. intros [= _ <-] E1. destruct (Hb id); congruence.
Qed.

Lemma keeps_get id : keeps (terminal_get self id).
Proof.
  unfold terminal_get. apply keeps_bind; [auto|]. intros _ m Hm. by destruct (find_session id (sessions m)).
Qed.
#[local] Hint Resolve keeps_get : core.

(** The rest of an operation that begins with [get]. *)
Lemma keeps_from_get {A} id (k : TerminalSession -> Term A) :
  (forall s m, manager_ok m -> (id, s) ∈ sessions m -> manager_ok (k s m).2) ->
  keeps (t_bind (terminal_get self id) k).
Proof.
  intros Hk m Hm. unfold t_bind. pose proof (keeps_get id m Hm) as Hg.
  destruct (terminal_get self id m) as [[e|s] m'] eqn:E; [done|].
  apply terminal_get_inr in E as [Hm' Hs]; [|done]. by apply Hk.
Qed.

Lemma keeps_create title rows cols owner :
  Inj (=) (=) new_id -> keeps (create_terminal self title rows cols owner).
Proof.
  intros Hinj m Hm. unfold create_terminal, t_bind, ask, now. cbn.
  destruct (spawn (S (moment m))) as [pid|]; [|by apply later_ok; [|cbn; lia]].
  pose proof Hm as [I O S B T]. cbn.
  assert (Hnew : ~ new_id (moment m) ∈ (sessions m).*1).
  { intros (n & Hn & E%Hinj)%O. lia. }
  assert (Hnb : buffers m !! new_id (moment m) = None).
  { destruct (buffers m !! new_id (moment m)) eqn:Eb; [|done]. by apply B in Eb. }
  split; cbn; unfold add_session; rewrite ?fmap_app; cbn.
  - apply NoDup_app. split_and!; [done| |apply NoDup_singleton]. set_solver.
  - intros id [Hid|Hid]%elem_of_app; [destruct (O id Hid) as (n & ? & ?); exists n; split; [lia|done]|].
    apply list_elem_of_singleton in Hid as ->. exists (moment m). split; [lia|done].
  - intros id s [Hs|Hs]%elem_of_app.
    + destruct (S id s Hs) as [P1 P2 P3 (b & Hb & ?)]. split; [done..|]. exists b.
      rewrite lookup_insert_ne; [done|]. intros <-. congruence.
    + apply list_elem_of_singleton in Hs as [= -> ->]. split; cbn; [done| |done|].
      * exists pid. split; [done|]. intros ?; discriminate.
      * eexists. by rewrite lookup_insert_eq.
  - intros id b [[<- _]|[_ Hb]]%lookup_insert_Some; apply elem_of_app; [right; by left|left; by eapply B].
  - unfold live. rewrite omap_app. cbn. rewrite T, (assoc_L (++)). apply Permutation_cons_append.
Qed.

Lemma keeps_list : keeps (terminal_list self).
Proof. unfold terminal_list. apply keeps_bind; [auto|]. by intros _ m. Qed.

Lemma keeps_write id : keeps (terminal_write self id).
Proof.
  unfold terminal_write. apply keeps_bind; [auto|]. intros s. destruct (session_process s); [|auto].
  destruct (running s); [|auto]. apply keeps_bind; [auto|]. intros [|]; auto.
Qed.

Lemma keeps_resize id rows cols : keeps (resize self id rows cols).
Proof.
  unfold resize. apply keeps_bind; [auto|]. intros s. apply keeps_bind; [auto|]. intros _. apply keeps_bind; [|auto].
  destruct (session_process s); [|auto]. destruct (running s); [|auto]. apply keeps_bind; [auto|]. intros [|]; auto.
Qed.

Lemma keeps_history id at_ : keeps (history self id at_).
Proof.
  unfold history. apply keeps_bind; [auto|]. intros s m Hm. destruct (buffers m !! id); [|done].
  by destruct (Replay.read_from _ _) as [[? ?] ?].
Qed.

Lemma closed_session reason t bs gone id s :
  session_ok bs gone id s -> (forall p, session_pid s = Some p -> p ∈ gone) ->
  session_ok bs gone id (set_closed reason t s).
Proof.
  intros [P1 (p & Hp & _) P3 P4] Hg. split; unfold running; cbn; [|exists p; auto| |done];
    by destruct (bool_decide (reason = "user_closed")); try eexists.
Qed.

Lemma close_ok id reason : keeps (terminal_close self id reason).
Proof.
  apply keeps_from_get. intros s m Hm Hs.
  pose proof (mo_sessions _ Hm id s Hs) as Hok.
  set (x := match session_process s with Some _ => _ | None => _ end).
  assert (Hx : x m = (inr tt, mkManager (sessions m) (buffers m) (started m) (option_list (session_process s) ++ ended m) (moment m))).
  { unfold x. destruct (session_process s) as [p|] eqn:Hp; [|by destruct m].
    destruct (process_running _ _ _ _ _ Hok Hp) as [-> _]. done. }
  unfold t_bind. rewrite Hx. cbn.
  apply (later_ok (mkManager (alter_session (set_closed reason (clock (moment m))) id (sessions m)) (buffers m)
    (started m) (option_list (session_process s) ++ ended m) (moment m))); [|cbn; lia].
  apply (finish_ok _ id s m Hm Hs); [done|]. intros. by apply closed_session.
Qed.
#[local] Hint Resolve close_ok : core.

Lemma keeps_cleanup : keeps (cleanup_idle_sessions self).
Proof.
  unfold cleanup_idle_sessions. apply keeps_bind; [auto|]. intros t m Hm. generalize (sessions m) as l.
  intros l. revert m Hm. induction l as [|[id s0] l IH]; [by intros m|]. cbn [close_idle].
  apply keeps_bind; [|by intros _]. intros m Hm. destruct (find_session id (sessions m)) as [s|]; [|done].
  destruct (_ && _); [by apply close_ok|done].
Qed.

(** ** Reading *)
(** One chunk: the buffer takes the text, and the session keeps its shell. *)
Lemma take_output_ok id pid data m :
  manager_ok m -> has_process id pid m ->
  exists b m', buffers m !! id = Some b /\ take_output id data m = (inr (encode (decode data)), m') /\
    manager_ok m' /\ has_process id pid m' /\
    buffers m' !! id = Some (Replay.append (encode (decode data)) b).
Proof.
  intros Hm (s & Hs & Hp). pose proof (mo_sessions _ Hm id s Hs) as Hok.
  pose proof (so_buffer _ _ _ _ Hok) as (b & Hb & _). exists b. unfold take_output. rewrite Hb.
  set (b' := Replay.append _ b).
  assert (Hb' : manager_ok (mkManager (alter_session (set_cursors b') id (sessions m)) (<[id := b']> (buffers m)) (started m)
      (ended m) (moment m))).
  { apply alter_ok; [done| | | |done|].
    - rewrite dom_insert_L. apply elem_of_dom_2 in Hb. set_solver.
    - intros k Hk. by rewrite lookup_insert_ne.
    - intros s' Hs'. assert (s' = s) as -> by (by eapply same_session). destruct Hok as [P1 P2 P3 _]. split; try done.
      exists b'. by rewrite lookup_insert_eq.
    - by rewrite live_alter. }
  eexists. split_and!; [done|reflexivity| | |].
  - exact (keeps_harmless (set_active _) id (harmless_active _) _ (later_ok _ (S (moment m)) Hb' (Nat.le_succ_diag_r _))).
  - cbn. exists (set_active (clock (moment m)) (set_cursors b' s)). split; [|done]. apply elem_alter.
    exists (set_cursors b' s). rewrite bool_decide_true by done. split; [|done]. apply elem_alter. exists s.
    by rewrite bool_decide_true.
  - cbn. by rewrite lookup_insert_eq.
Qed.

(** What a reading gives is what it stored. *)
Lemma read_loop_ok fuel id pid out m b :
  manager_ok m -> has_process id pid m -> buffers m !! id = Some b ->
  exists texts m', read_loop fuel id pid out m = (inr (out ++ concat texts), m') /\
    manager_ok m' /\ buffers m' !! id = Some (Replay.append_all texts b).
Proof.
  revert out m b. induction fuel as [|fuel IH]; intros out m b Hm Hp Hb; cbn [read_loop].
  { exists [], m. by rewrite app_nil_r. }
  unfold t_bind at 1, ask. set (m1 := mkManager _ _ _ _ _).
  assert (Hm1 : manager_ok m1) by (apply later_ok; [done|lia]).
  destruct (pty_reads (moment m) pid) as [| | |data].
  - exists [], m1. by rewrite app_nil_r.
  - exists []. eexists. rewrite app_nil_r. split; [reflexivity|]. split; [|done]. cbn.
    apply (later_ok (mkManager _ _ _ _ (moment m1))); [|cbn; lia]. by apply (exit_ok id pid _ m1).
  - exists []. eexists. rewrite app_nil_r. split; [reflexivity|]. split; [|done]. cbn.
    apply (later_ok (mkManager _ _ _ _ (moment m1))); [|cbn; lia]. by apply (exit_ok id pid _ m1).
  - destruct (take_output_ok id pid data m1 Hm1 Hp) as (b1 & m2 & Hb1 & Ht & Hm2 & Hp2 & Hb2).
    cbn in Hb1. assert (b1 = b) as -> by congruence. unfold t_bind at 1. rewrite Ht.
    destruct (IH (out ++ encode (decode data)) m2 _ Hm2 Hp2 Hb2) as (texts & m3 & Hr & Hm3 & Hb3).
    exists (encode (decode data) :: texts), m3. rewrite Hr. cbn. by rewrite (assoc_L (++)).
Qed.

Lemma keeps_read fuel id : keeps (read_available self fuel id).
Proof.
  apply keeps_from_get. intros s m Hm Hs. destruct (session_process s) as [pid|] eqn:Hp; [|done].
  pose proof (mo_sessions _ Hm id s Hs) as [_ _ _ (b & Hb & _)].
  destruct (read_loop_ok fuel id pid [] m b Hm) as (texts & m' & -> & ? & _); [by exists s|done|done].
Qed.

Lemma run_ok c : Inj (=) (=) new_id -> keeps (fun m => (inr (A := texn) tt, terminal_run c m)).
Proof.
  intros Hinj m Hm. destruct c; cbn;
    [by apply keeps_create|by apply keeps_list|by apply keeps_get|by apply keeps_write|by apply keeps_read|
     by apply keeps_resize|by apply keeps_history|by apply close_ok|by apply keeps_cleanup].
Qed.

Definition empty_manager : Manager := mkManager [] ∅ [] [] 0.

Lemma empty_ok : manager_ok empty_manager.
Proof. split; cbn; [apply NoDup_nil_2|by intros ? ?%elem_of_nil|by intros ? ? ?%elem_of_nil|done|done]. Qed.

Definition run_calls (calls : list TerminalCall) : Manager := foldl (fun m c => terminal_run c m) empty_manager calls.

Lemma run_calls_ok calls : Inj (=) (=) new_id -> manager_ok (run_calls calls).
Proof.
  intros Hinj. unfold run_calls. generalize empty_manager, empty_ok. induction calls as [|c calls IH]; intros m Hm; [done|].
  cbn. apply IH. by apply (run_ok c Hinj m).
Qed.

(** ** Claims *)
(** C29: Whatever sequence of calls a terminal manager gets (creations, readings, writings, resizings, closings, the
    idle clean-up), started from no session: the shells it started are, counted with multiplicity, those it ended and
    those that running sessions still hold, so none is lost and none is ended twice; a session holds a shell exactly
    while it is running, and one that is not running carries the time it ended; and sessions and replay buffers have
    the same identifiers, with the session's cursors those of its buffer.  Identifiers ([uuid4]) are distinct. *)
Theorem terminal_sessions_invariant (calls : list TerminalCall) :
  Inj (=) (=) new_id ->
  let m := run_calls calls in
  started m ≡ₚ ended m ++ live (sessions m) /\
  NoDup (sessions m).*1 /\ dom (buffers m) = list_to_set (sessions m).*1 /\
  forall id s, (id, s) ∈ sessions m ->
    (is_Some (session_process s) <-> session_status s = T_RUNNING) /\
    (session_status s = T_EXITED -> is_Some (session_exited_at s)) /\
    (session_status s = T_CLOSED \/ session_status s = T_TIMED_OUT -> is_Some (session_closed_at s)) /\
    exists b, buffers m !! id = Some b /\ session_output_cursor s = Replay.cursor b /\
      session_replay_buffer_start_cursor s = Replay.start_cursor b.
Proof.
  intros Hinj m. destruct (run_calls_ok calls Hinj) as [I O S B T]. fold m in I, O, S, B, T. split_and!; [done|done| |].
  - apply set_eq. intros id. rewrite elem_of_dom, elem_of_list_to_set. split; [by intros [b Hb]; eapply B|].
    intros ([k s] & -> & Hs)%list_elem_of_fmap. destruct (S _ _ Hs) as [_ _ _ (b & Hb & _)]. by exists b.
  - intros id s Hs. destruct (S id s Hs) as [P1 (p & Hp & _) P3 P4]. split_and!; [|intros E; by rewrite E in P3| |done].
    + rewrite P1, Hp. unfold running. case_bool_decide as E; [by split|]. split; [by intros []|done].
    + intros [E|E]; by rewrite E in P3.
Qed.

(** A reading that returns gives the concatenation of the texts that it appended to the terminal's replay buffer,
    in order, and nothing else: what a client is shown live is what it can replay. *)
Theorem reading_is_replayed (calls : list TerminalCall) (fuel : nat) (id : string) :
  Inj (=) (=) new_id ->
  let m := run_calls calls in
  match read_available self fuel id m with
  | (inr output, m') =>
      exists b texts, output = concat texts /\ buffers m !! id = Some b /\
        buffers m' !! id = Some (Replay.append_all texts b)
  | (inl e, _) => e = TKeyError id
  end.
Proof.
  intros Hinj m. pose proof (run_calls_ok calls Hinj : manager_ok m) as Hm. clearbody m. unfold read_available, t_bind.
  destruct (terminal_get self id m) as [[e|s] m1] eqn:E; [by apply terminal_get_inl in E|].
  destruct (terminal_get_inr _ _ _ _ Hm E) as [Hm1 Hs].
  pose proof (mo_sessions _ Hm1 id s Hs) as [_ _ _ (b & Hb & _)].
  assert (Hbm : buffers m !! id = Some b) by (by eapply terminal_get_buffer).
  destruct (session_process s) as [pid|] eqn:Hp; [|by exists b, []].
  destruct (read_loop_ok fuel id pid [] m1 b Hm1) as (texts & m' & -> & ? & ?); [by exists s|done|].
  by exists b, texts.
Qed.

(** A session that timed out is never purged: [_purge_expired] knows the times of closed and exited sessions only. *)
Theorem timed_out_never_purged (t : Z) (s : TerminalSession) :
  expired_at self t (set_closed "idle_timeout" t s) = false /\
  (session_status s = T_TIMED_OUT -> forall t', expired_at self t' s = false).
Proof. split; [done|]. intros E t'. unfold expired_at, terminal_at. by rewrite E. Qed.
End Sessions.

(** ** Samples *)
(** A shell that prints "bye" and ends at moment [dies]. *)
#[local] Instance sample_ptys (dies : nat) : Ptys := {
  clock := fun n => (Z.of_nat n * 2 ^ 22)%Z;
  new_id := fun n => pretty n;
  spawn := fun n => Some (Z.of_nat n);
  is_alive := fun n _ => n <? dies;
  pty_accepts := fun _ _ => true;
  pty_reads := fun n _ => ReadData [98%Z; 121%Z; 101%Z]
}.

Definition sample_config : TerminalConfig := mkTerminalConfig "/bin/sh" 60 1024 30.

Definition sample_calls : list TerminalCall :=
  [CallCreate "build" 24 80 "local-admin"; CallCreate "" 24 80 "local-admin"; CallWrite "0"; CallRead 3 "0";
   CallClose "3" "user_closed"; CallCleanup].

Lemma sample_ids (dies : nat) : Inj (=) (=) (@new_id (sample_ptys dies)).
Proof. apply _. Qed.

Lemma terminal_sessions_invariant_witness :
  let m := run_calls (H := sample_ptys 100) sample_config sample_calls in
  (session_status <$> (sessions m).*2) = [T_RUNNING; T_CLOSED] /\
  started m ≡ₚ ended m ++ live (sessions m).
Proof.
  split; [vm_compute; reflexivity|].
  exact (proj1 (terminal_sessions_invariant (H := sample_ptys 100) sample_config sample_calls (sample_ids 100))).
Defined.

Lemma reading_is_replayed_witness :
  match read_available (H := sample_ptys 100) sample_config 3 "0" (run_calls (H := sample_ptys 100) sample_config sample_calls) with
  | (inr output, m') => length output = 9 /\ exists b texts, output = concat texts /\
      buffers m' !! "0" = Some (Replay.append_all texts b)
  | (inl e, _) => False
  end.
Proof.
  pose proof (reading_is_replayed (H := sample_ptys 100) sample_config sample_calls 3 "0" (sample_ids 100)) as R.
  cbv zeta in R.
  assert (E : match read_available (H := sample_ptys 100) sample_config 3 "0"
      (run_calls (H := sample_ptys 100) sample_config sample_calls) with
    | (inr output, _) => length output = 9 | (inl _, _) => False end) by (vm_compute; reflexivity).
  destruct (read_available (H := sample_ptys 100) sample_config 3 "0" _) as [[e|output] m']; [done|].
  split; [exact E|]. destruct R as (b & texts & Ho & _ & Hb). by exists b, texts.
Defined.

(** The output that a shell leaves behind when it ends is never read: [get] finds the shell ended and drops its
    process before the reading starts, although the terminal still has data. *)
Example dead_shell_output_lost :
  let m := run_calls (H := sample_ptys 3) sample_config [CallCreate "" 24 80 "local-admin"] in
  (forall n, pty_reads (Ptys := sample_ptys 3) n 1 = ReadData [98%Z; 121%Z; 101%Z]) /\
  (read_available (H := sample_ptys 3) sample_config 5 "0" m).1 = inr [] /\
  (session_status <$> (sessions (read_available (H := sample_ptys 3) sample_config 5 "0" m).2).*2) = [T_EXITED].
Proof.
  split; [done|split; vm_compute; reflexivity].
Qed.
