(* ===== verification/FleetImport.v ===== *)
(** * The one-time import of configured Agents

    [import_yaml_agents_once] of [src/backend/ic_env_guard/fleet/importer.py]:
    the Agents of a configuration file become rows of the manager database and
    files of the credential directory, together with a marker, once.  The two
    stores have no common transaction, so the importer compensates.  What it
    does not control is the class [Importing], asked at numbered moments: what
    other connections commit before each of its transactions, whether a
    statement, a commit or a rollback raises (and whether a commit that raises
    took place), the random names, the token files and the death of the
    process.  The directory has its own failures. *)

From stdpp Require Import base tactics list gmap strings pretty.
From Stdlib Require Import ZArith Lia Ascii.
From S2P Require Import Prelude Text Sql Digest Models Schema JobValidation MutationFence EnrollmentJournal ManagerRegistry.
From S2P Require Import SecretFiles TargetPolicy CompactJson LatestValue LogSources LogTail.

(** ** Data *)
#[local] Set Primitive Projections.
Record AgentConfig := mkAgentConfig {
  config_id : string;
  config_name : string;
  config_base_url : string;
  config_token_file : option string;
  config_tls_verify : bool;
  config_tls_ca_bundle : option string;
  config_enabled : bool
}.

Record PreparedAgent := mkPrepared {
  prepared_config : AgentConfig;
  prepared_endpoint : string;
  prepared_token : string;
  prepared_transport_profile_id : string
}.

Record CommitVerification := mkVerification {
  marker_complete : bool;
  own_references : gset string;
  referenced_references : gset string;
  unreferenced_references : gset string
}.

(** A token file: what [lstat] tells before it is opened, what [fstat] tells of
    the descriptor, and its bytes; [None] is an [OSError] of the call. *)
Record SourceOpened := mkOpened {
  opened_regular : bool;
  opened_identity : Z * Z;
  opened_owned : bool;
  opened_mode : Z;
  opened_size : Z;
  opened_data : option (list Z)
}.

Record SourceFile := mkSource {
  source_symlink : bool;
  source_regular : bool;
  source_identity : Z * Z;
  source_opened : option SourceOpened
}.

(** [iw_new] is the local variable [new_references]. *)
Record ImportWorld := mkImport {
  iw_db : DB;
  iw_dir : Dir;
  iw_new : list string;
  iw_moment : nat
}.
#[local] Unset Primitive Projections.

(** [AgentConfigImportOutcomeUncertain] is a subclass of
    [AgentConfigImportError]; [DatabaseRaised] is any error of SQLite. *)
Inductive import_exn :=
| AgentConfigImportError
| AgentConfigImportOutcomeUncertain
| ConcurrentImportComplete
| VerifiedCommitMismatch (verification : CommitVerification)
| StoreRaised (e : os_exn)
| DatabaseRaised
| ProcessDied.

(** A commit returns, raises without effect, or raises although it took place. *)
Inductive commit_outcome := CommitReturns | CommitRaises | CommitRaisesLate.

Class Importing := {
  im_other : nat -> DB -> DB;
  im_statement : nat -> bool;
  im_commit : nat -> commit_outcome;
  im_rollback : nat -> bool;
  im_now : nat -> time;
  im_tokens : nat -> Tokens;
  im_random : nat -> string;
  im_source : nat -> string -> option SourceFile;
  im_dies : nat -> bool
}.

(** ** Programs *)
Definition Import (A : Type) : Type := ImportWorld -> (import_exn + A) * ImportWorld.

Definition i_ret {A} (a : A) : Import A := fun w => (inr a, w).
Definition i_raise {A} (e : import_exn) : Import A := fun w => (inl e, w).

Definition i_bind {A B} (m : Import A) (k : A -> Import B) : Import B := fun w =>
  match m w with
  | (inl e, w) => (inl e, w)
  | (inr a, w) => k a w
  end.

Declare Scope import_scope.
Notation "'let%' x ':=' m 'in' k" := (i_bind m (fun x => k))
  (at level 10, x pattern, m at level 100, k at level 200) : import_scope.
Notation "m ';;%' k" := (i_bind m (fun _ => k)) (at level 199, right associativity) : import_scope.
Local Open Scope import_scope.

(** [try: m except ...: handler]; nothing catches the death of the process. *)
Definition i_catch {A} (m : Import A) (handler : import_exn -> Import A) : Import A := fun w =>
  match m w with
  | (inl ProcessDied, w) => (inl ProcessDied, w)
  | (inl e, w) => handler e w
  | (inr a, w) => (inr a, w)
  end.

Definition i_finally {A} (m : Import A) (f : Import unit) : Import A := fun w =>
  match m w with
  | (inl ProcessDied, w) => (inl ProcessDied, w)
  | (r, w) => match f w with
              | (inl e, w) => (inl e, w)
              | (inr _, w) => (r, w)
              end
  end.

Definition store_exn (e : os_exn) : import_exn :=
  match e with Crashed => ProcessDied | e => StoreRaised e end.

(** An operation of the credential directory. *)
Definition in_dir {A} (m : FS A) : Import A := fun w =>
  match m (iw_dir w) with
  | (inl e, d) => (inl (store_exn e), mkImport (iw_db w) d (iw_new w) (iw_moment w))
  | (inr a, d) => (inr a, mkImport (iw_db w) d (iw_new w) (iw_moment w))
  end.

(** [except OSError as exc: raise CredentialStoreError] of the lease. *)
Definition lease_error {A} (e : import_exn) : Import A :=
  match e with
  | StoreRaised _ => i_raise (StoreRaised CredentialStoreError)
  | e => i_raise e
  end.

(** [with credential_store.lifecycle_lease(): body] *)
Definition import_lease {A} (body : Import A) : Import A := fun w =>
  match depth (iw_dir w) with
  | S n => i_finally (in_dir (set_depth (S (S n))) ;;% body) (in_dir (set_depth (S n))) w
  | 0 =>
      (in_dir open_lock ;;%
       i_catch
         (in_dir sys ;;%
          i_finally (in_dir (set_depth 1) ;;% body) (in_dir (set_depth 0) ;;% in_dir sys))
         lease_error) w
  end.

(** ** Validation *)
Definition IMPORT_MARKER_KEY : string := "yaml_agents_imported_v1".
Definition IMPORT_MARKER_VALUE : string := "complete".
Definition MAX_TOKEN_BYTES : Z := 64 * 1024.

(** [^[a-z0-9][a-z0-9_-]{0,63}$] *)
Definition is_agent_id (s : string) : bool :=
  let tail c := is_lower c || is_digit c || bool_decide (c = "_"%char) || bool_decide (c = "-"%char) in
  match s with
  | EmptyString => false
  | String c rest => (is_lower c || is_digit c) && all_chars tail rest && (String.length rest <=? 63)
  end.

(** [raw.decode("utf-8")] raises unless the bytes are those of a text. *)
Definition strict_utf8 (raw : list Z) : bool := bool_decide (encode (decode raw) = raw).

(** The loop of [os.read]: at most [n] bytes of the file. *)
Definition read_up_to (n : Z) (data : list Z) : list Z :=
  if (Z.of_nat (length data) <=? n)%Z then data else take (Z.to_nat n) data.

(** [_read_source_token]; [None] is [AgentConfigImportError]. *)
Definition read_source_token (file : option SourceFile) : option string :=
  before ← file;
  if source_symlink before || negb (source_regular before) then None
  else
    opened ← source_opened before;
    if negb (opened_regular opened) || negb (bool_decide (opened_identity opened = source_identity before)) then None
    else if negb (opened_owned opened) then None
    else if negb (Z.land (opened_mode opened) 63 =? 0)%Z then None
    else if (MAX_TOKEN_BYTES <? opened_size opened)%Z then None
    else
      data ← opened_data opened;
      let raw := read_up_to (MAX_TOKEN_BYTES + 1) data in
      if (MAX_TOKEN_BYTES <? Z.of_nat (length raw))%Z then None
      else if negb (strict_utf8 raw) then None
      else
        let token := string_of_bytes (encode (strip_points (decode raw))) in
        if bool_decide (token = "") then None else Some token.

Section Validation.
Context `{UrlLib}.

(** [_canonical_endpoint] of the importer. *)
Definition import_endpoint (value : string) : option string :=
  parsed ← urlsplit value;
  let scheme := lower (split_scheme parsed) in
  let default_port := if bool_decide (scheme = "https") then 443%Z else 80%Z in
  let port := match split_port parsed with
              | Some p => if (p =? 0)%Z then default_port else p
              | None => default_port
              end in
  hostname ← split_hostname parsed;
  encoded ← idna hostname;
  let hostname := lower encoded in
  if bool_decide (scheme ∉ ["http"; "https"]) || is_some (split_username parsed) || is_some (split_password parsed) ||
     bool_decide (split_path parsed ∉ [""; "/"]) || nonempty (split_query parsed) || nonempty (split_fragment parsed)
  then None
  else
    let rendered_host := if has_char ":" hostname then "[" +:+ hostname +:+ "]" else hostname in
    Some (scheme +:+ "://" +:+ rendered_host +:+ ":" +:+ pretty port).

(** [_profile_for] *)
Definition tls_profile_with (bundle : string) (p : TransportProfile) : bool :=
  match p with VerifiedTlsProfile _ b => bool_decide (b = Some bundle) | TrustedLanHttpProfile _ _ => false end.

Definition profile_for (agent : AgentConfig) (profiles : list TransportProfile) : option string :=
  if String.prefix "https://" (lower (config_base_url agent)) then
    if negb (config_tls_verify agent) then None
    else match config_tls_ca_bundle agent with
         | None => Some "system-tls"
         | Some bundle => profile_id <$> List.find (tls_profile_with bundle) profiles
         end
  else match List.find is_trusted_lan profiles with
       | Some p => Some (profile_id p)
       | None => Some "legacy-config-http"
       end.

Context `{Importing}.

(** The loop of [_prepare_all], from position [n] on. *)
Fixpoint prepare_agents (manager_token : string) (profiles : list TransportProfile) (n : nat)
    (ids endpoints : gset string) (agents : list AgentConfig) : option (list PreparedAgent) :=
  match agents with
  | [] => Some []
  | agent :: rest =>
      if negb (is_agent_id (config_id agent)) || blank (config_name agent) then None
      else
        endpoint ← import_endpoint (config_base_url agent);
        if bool_decide (config_id agent ∈ ids) || bool_decide (endpoint ∈ endpoints) then None
        else
          token ← match config_token_file agent with
                  | None => if config_enabled agent then None else Some (im_random n)
                  | Some path => read_source_token (im_source n path)
                  end;
          if is_some (config_token_file agent) && bool_decide (token = manager_token) then None
          else
            profile ← (if is_some (config_token_file agent) then profile_for agent profiles
                       else Some "legacy-disabled-no-credential");
            prepared ← prepare_agents manager_token profiles (S n) ({[config_id agent]} ∪ ids) ({[endpoint]} ∪ endpoints) rest;
            Some (mkPrepared agent endpoint token profile :: prepared)
  end.

(** [_prepare_all] *)
Definition prepare_all (manager_token : string) (profiles : list TransportProfile) (agents : list AgentConfig)
    : option (list PreparedAgent) :=
  if bool_decide (manager_token = "") then None else prepare_agents manager_token profiles 0 ∅ ∅ agents.
End Validation.

(** ** The database *)
Definition is_marked (db : DB) : bool :=
  bool_decide (manager_metadata db !! IMPORT_MARKER_KEY = Some IMPORT_MARKER_VALUE).

Definition insert_marker (db : DB) : DB :=
  db <| manager_metadata := <[IMPORT_MARKER_KEY := IMPORT_MARKER_VALUE]> (manager_metadata db) |>.

Definition has_agents (db : DB) : bool := negb (bool_decide (agents db = ∅)).

Definition imported_record (item : PreparedAgent) (reference : string) (now : time) : AgentRecord :=
  mkAgent (config_id (prepared_config item)) None (config_name (prepared_config item)) (prepared_endpoint item)
    reference None (prepared_transport_profile_id item) LEGACY_ADMIN_TOKEN (config_enabled (prepared_config item))
    "config_import" 1 now now.

Definition initial_status (item : PreparedAgent) (now : time) : AgentStatus :=
  unknown_status (config_id (prepared_config item)) 1
    (if config_enabled (prepared_config item) then "unknown" else "disabled") now.

(** [INSERT INTO agent_status]: the primary key must be new. *)
Definition insert_status (s : AgentStatus) : TxDB unit := fun db =>
  match agent_status db !! status_agent_id s with
  | Some _ => inl IntegrityError
  | None => upsert_status s db
  end.

(** [_insert_agent] and [_insert_initial_status] for every prepared Agent *)
Fixpoint insert_all (now : time) (items : list (PreparedAgent * string)) : TxDB unit :=
  match items with
  | [] => tx_ret tt
  | (item, reference) :: rest =>
      insert_agent (imported_record item reference now) ;;;
      insert_status (initial_status item now) ;;;
      insert_all now rest
  end.

(** Every credential reference that an Agent or an enrollment job has. *)
Definition all_references (db : DB) : gset string :=
  list_to_set ((fun a => agent_credential_ref a) <$> (map_to_list (agents db)).*2) ∪
  list_to_set (mjoin ((fun row => option_list (job_credential_temp_ref (row_job row)) ++
                                  option_list (job_old_credential_ref (row_job row)))
                        <$> (map_to_list (agent_enrollment_jobs db)).*2)).

(** [_verify_committed_import] on the database it sees; [expected] are the
    identifiers with their references. *)
Definition verify_import (expected : list (string * string)) (db : DB) : CommitVerification :=
  let new := list_to_set expected.*2 in
  let is_own '(id, reference) :=
    match agents db !! id with
    | Some a => bool_decide (agent_credential_ref a = reference) && bool_decide (agent_source a = "config_import")
    | None => false
    end in
  let own := list_to_set (filter (fun e => is_own e = true) expected).*2 in
  let referenced := all_references db ∩ new in
  mkVerification (is_marked db) own referenced (new ∖ referenced).

Section Running.
Context `{Importing}.

(** The next moment; others have committed what they had to. *)
Definition next_moment : Import nat := fun w =>
  let n := iw_moment w in
  if im_dies n then (inl ProcessDied, w)
  else (inr n, mkImport (im_other n (iw_db w)) (iw_dir w) (iw_new w) (S n)).

Definition get_db : Import DB := fun w => (inr (iw_db w), w).
Definition put_db (db : DB) : Import unit := fun w => (inr tt, mkImport db (iw_dir w) (iw_new w) (iw_moment w)).

(** [connection.commit()] of a transaction that leads to [db]. *)
Definition commit_transaction (n : nat) (db : DB) : Import unit :=
  match im_commit n with
  | CommitReturns => put_db db
  | CommitRaises => i_raise DatabaseRaised
  | CommitRaisesLate => put_db db ;;% i_raise DatabaseRaised
  end.

Definition rollback (n : nat) : Import unit := if im_rollback n then i_raise DatabaseRaised else i_ret tt.

Definition statement (n : nat) : Import unit := if im_statement n then i_raise DatabaseRaised else i_ret tt.

(** [_prepare_import_if_needed] *)
Definition prepare_import_if_needed : Import bool :=
  let% n := next_moment in
  i_catch
    (statement n ;;%
     let% db := get_db in
     if is_marked db then rollback n ;;% i_ret false
     else if has_agents db then commit_transaction n (insert_marker db) ;;% i_ret false
     else rollback n ;;% i_ret true)
    (fun _ => i_raise AgentConfigImportError).

(** [_verify_committed_import] *)
Definition verify_committed_import (expected : list (string * string)) : Import CommitVerification :=
  let% n := next_moment in
  statement n ;;%
  let% db := get_db in
  i_ret (verify_import expected db).

(** The transaction of [_commit_import] up to its commit: the database it leads to. *)
Definition import_transaction (n : nat) (items : list (PreparedAgent * string)) : Import DB :=
  i_catch
    (statement n ;;%
     let% db := get_db in
     if is_marked db then i_raise ConcurrentImportComplete
     else if has_agents db then commit_transaction n (insert_marker db) ;;% i_raise ConcurrentImportComplete
     else match insert_all (im_now n) items db with
          | inl _ => i_raise DatabaseRaised
          | inr (_, db) => i_ret (insert_marker db)
          end)
    (fun operation_error =>
       i_catch (rollback n) (fun _ => i_raise AgentConfigImportOutcomeUncertain) ;;% i_raise operation_error).

Definition expected_of (items : list (PreparedAgent * string)) : list (string * string) :=
  (fun item => (config_id (prepared_config item.1), item.2)) <$> items.

(** [_commit_import] *)
Definition commit_import (items : list (PreparedAgent * string)) : Import unit :=
  let% n := next_moment in
  let% db := import_transaction n items in
  i_catch (commit_transaction n db)
    (fun commit_error =>
       let% verification :=
         i_catch (verify_committed_import (expected_of items)) (fun _ => i_raise AgentConfigImportOutcomeUncertain) in
       if marker_complete verification &&
          bool_decide (own_references verification = list_to_set (expected_of items).*2)
       then i_ret tt
       else i_raise (VerifiedCommitMismatch verification)).

(** [_delete_new_credentials]: whether there were errors. *)
Fixpoint delete_new_credentials (references : list string) : Import bool :=
  match references with
  | [] => i_ret false
  | reference :: rest =>
      let% failed := i_catch (in_dir (delete_file reference) ;;% i_ret false) (fun _ => i_ret true) in
      let% more := delete_new_credentials rest in
      i_ret (failed || more)
  end.

(** [new_references.append(credential_store.put(item.token))] for every item *)
Fixpoint put_all (items : list PreparedAgent) : Import unit :=
  match items with
  | [] => i_ret tt
  | item :: rest =>
      let% n := next_moment in
      let% reference := in_dir (put (im_tokens n) (prepared_token item)) in
      (fun w => (inr tt, mkImport (iw_db w) (iw_dir w) (iw_new w ++ [reference]) (iw_moment w))) ;;%
      put_all rest
  end.

Definition new_references : Import (list string) := fun w => (inr (iw_new w), w).

Definition store_and_commit (prepared : list PreparedAgent) : Import unit :=
  import_lease
    (put_all prepared ;;%
     let% references := new_references in
     commit_import (zip prepared references)).

(** The handlers of [import_yaml_agents_once]; the order of a set is that of
    [elements]. *)
Definition handle_import_error (prepared : list PreparedAgent) (e : import_exn) : Import bool :=
  let% references := new_references in
  match e with
  | ConcurrentImportComplete =>
      let% verification :=
        i_catch (verify_committed_import (expected_of (zip prepared references)))
          (fun _ => i_raise AgentConfigImportOutcomeUncertain) in
      let% errors := delete_new_credentials (elements (unreferenced_references verification)) in
      if errors : bool then i_raise AgentConfigImportError else i_ret false
  | VerifiedCommitMismatch verification =>
      let% errors := delete_new_credentials (elements (unreferenced_references verification)) in
      if errors : bool then i_raise AgentConfigImportError
      else if marker_complete verification then i_ret false
      else if negb (bool_decide (referenced_references verification = ∅)) then i_raise AgentConfigImportOutcomeUncertain
      else i_raise AgentConfigImportError
  | AgentConfigImportOutcomeUncertain => i_raise AgentConfigImportOutcomeUncertain
  | _ =>
      delete_new_credentials references ;;%
      i_raise AgentConfigImportError
  end.

Context `{UrlLib}.

Definition import_yaml_agents_once (agents : list AgentConfig) (manager_token : string)
    (profiles : list TransportProfile) : Import bool :=
  let% needed := prepare_import_if_needed in
  if negb needed then i_ret false
  else match prepare_all manager_token profiles agents with
       | None => i_raise AgentConfigImportError
       | Some prepared =>
           i_catch (store_and_commit prepared ;;% i_ret true) (handle_import_error prepared)
       end.
End Running.
