(* ===== verification/ImportFacts.v ===== *)
(** * The credential directory under the importer

    Facts about runs in which no system call fails, and what a series of
    publications and deletions leaves in the directory, whatever fails. *)

From stdpp Require Import base tactics list gmap strings.
From Stdlib Require Import ZArith Lia.
From S2P Require Import Prelude Text Models Schema SecretFiles SecretFacts SecretRecovery SagaSamples SecretClaims.

(** ** Failures a run meets *)
(** [m] meets the failures in their order; where none is to come, it does not
    die. *)
Definition Calm {A} (m : FS A) : Prop := forall d,
  faults (m d).2 `suffix_of` faults d /\ (calm d -> dead (m d).2 = false /\ (m d).1 <> inl Crashed).

Lemma calm_after {A} (m : FS A) d : Calm m -> calm d -> calm (m d).2 /\ (m d).1 <> inl Crashed.
Proof.
  intros Hm Hd. destruct (Hm d) as [Hs Hc]. destruct (Hc Hd) as [? ?]. split; [|done]. split; [|done].
  destruct Hd as [E _]. rewrite E in Hs. by apply suffix_nil_inv in Hs.
Qed.

Lemma calm_ret {A} (a : A) : Calm (fs_ret a). Proof. intros d. split; [done|]. by intros []. Qed.

Lemma calm_raise {A} e : e <> Crashed -> Calm (fs_raise (A := A) e).
Proof. intros He d. split; [done|]. intros [? ?]. split; [done|]. cbn. congruence. Qed.

Lemma calm_bind {A B} (m : FS A) (k : A -> FS B) : Calm m -> (forall a, Calm (k a)) -> Calm (fs_bind m k).
Proof.
  intros Hm Hk d. unfold fs_bind. pose proof (calm_after m d Hm) as Hc. destruct (Hm d) as [Hs _].
  destruct (m d) as [[e|a] d']; cbn in *.
  - split; [done|]. intros Hd. destruct (Hc Hd) as [[? ?] ?]. split; [done|]. congruence.
  - destruct (Hk a d') as [Hs' Hc']. split; [by etrans|]. intros Hd. by apply Hc', Hc.
Qed.

Lemma calm_try {A} (m : FS A) h : Calm m -> (forall e, e <> Crashed -> Calm (h e)) -> Calm (fs_try m h).
Proof.
  intros Hm Hh d. unfold fs_try. pose proof (calm_after m d Hm) as Hc. destruct (Hm d) as [Hs Hc0].
  destruct (m d) as [[e|a] d']; cbn in *; [|done].
  assert (Hx : e <> Crashed -> faults (h e d').2 `suffix_of` faults d /\
    (calm d -> dead (h e d').2 = false /\ (h e d').1 <> inl Crashed)).
  { intros He. destruct (Hh e He d') as [Hs' Hc']. split; [by etrans|]. intros Hd. by apply Hc', Hc. }
  destruct e; try (by apply Hx). split; [done|]. intros Hd. by destruct (Hc Hd).
Qed.

Lemma calm_finally {A} (m : FS A) f : Calm m -> Calm f -> Calm (fs_finally m f).
Proof.
  intros Hm Hf d. unfold fs_finally. pose proof (calm_after m d Hm) as Hc. destruct (Hm d) as [Hs _].
  destruct (m d) as [r d']. cbn in *. destruct (Hf d') as [Hs' Hc'].
  destruct (f d') as [[e|u] d2]; cbn in *; (split; [by etrans|]); intros Hd; destruct (Hc Hd) as [Hd' ?];
    destruct (Hc' Hd') as [? ?]; split; try done; congruence.
Qed.

Lemma calm_sys : Calm sys.
Proof.
  intros d. split; [|intros Hd; rewrite sys_run by done; split; [apply Hd|done]].
  unfold sys. destruct (dead d); [done|]. destruct (faults d) as [|[] l] eqn:E; cbn; rewrite ?E; first [done|by apply suffix_cons_r].
Qed.

(** A step that changes neither the faults nor the life of the process. *)
Lemma calm_step {A} (f : Dir -> (os_exn + A) * Dir) :
  (forall d, faults (f d).2 = faults d /\ dead (f d).2 = dead d /\ (f d).1 <> inl Crashed) -> Calm f.
Proof. intros Hf d. destruct (Hf d) as (E1 & E2 & E3). rewrite E1, E2. split; [done|]. by intros []. Qed.

Lemma calm_assert b e : e <> Crashed -> Calm (fs_assert b e).
Proof. intros He. destruct b; [apply calm_ret|by apply calm_raise]. Qed.

Ltac calm_step := apply calm_step; intros ?; repeat (case_match; cbn); done.

Create HintDb calm.
#[export] Hint Resolve calm_ret calm_sys : calm.
#[export] Hint Extern 1 (Calm (fs_raise _)) => apply calm_raise; done : calm.
#[export] Hint Extern 1 (Calm (fs_assert _ _)) => apply calm_assert; done : calm.

Ltac calms :=
  repeat first
  [ progress intros
  | solve [auto 2 with calm]
  | apply calm_bind | apply calm_try | apply calm_finally
  | match goal with |- Calm (match ?x with _ => _ end) => destruct x end
  | calm_step ].

Lemma translate_calm {A} (m : FS A) : Calm m -> Calm (translate m).
Proof. intros Hm. apply calm_try; [done|]. intros e He. apply calm_raise. by destruct e. Qed.

Lemma lstat_calm n : Calm (lstat n). Proof. unfold lstat. calms. Qed.
Lemma metadata_calm i : Calm (metadata i). Proof. unfold metadata. calms. Qed.
Lemma unlink_calm n : Calm (unlink n). Proof. unfold unlink. calms. Qed.
Lemma link_calm a b : Calm (link a b). Proof. unfold link. calms. Qed.
Lemma os_create_calm n : Calm (os_create n). Proof. unfold os_create. calms. Qed.
Lemma set_inode_calm i f : Calm (set_inode i f). Proof. unfold set_inode. calms. Qed.
Lemma os_write_calm i s : Calm (os_write i s). Proof. unfold os_write. calms. Qed.
Lemma set_depth_calm n : Calm (set_depth n). Proof. unfold set_depth. calms. Qed.
#[export] Hint Resolve translate_calm lstat_calm metadata_calm unlink_calm link_calm os_create_calm set_inode_calm
  os_write_calm set_depth_calm : calm.

Lemma fsync_directory_calm : Calm fsync_directory.
Proof. apply translate_calm. calms. Qed.

Lemma open_validated_calm n : Calm (open_validated n).
Proof. unfold open_validated, os_open, fstat. calms. apply calm_raise. by destruct e. Qed.

Lemma unlink_missing_ok_calm n : Calm (unlink_missing_ok n).
Proof. unfold unlink_missing_ok. calms; by apply calm_raise. Qed.
#[export] Hint Resolve fsync_directory_calm open_validated_calm unlink_missing_ok_calm : calm.

Lemma write_loop_calm fuel i v : Calm (write_loop fuel i v).
Proof. revert v. induction fuel as [|fuel IH]; intros [|c v]; cbn [write_loop]; calms; apply IH. Qed.
#[export] Hint Resolve write_loop_calm : calm.

Lemma write_temporary_calm t s : Calm (write_temporary t s).
Proof. unfold write_temporary, fchmod, write_all. calms. Qed.
#[export] Hint Resolve write_temporary_calm : calm.

Lemma publish_new_calm r t s : Calm (publish_new r t s).
Proof.
  unfold publish_new. apply calm_bind; [auto with calm|]. intros _. apply calm_finally; [|auto with calm].
  apply translate_calm, calm_bind; [|intros []; calms]. apply calm_try; [calms|]. intros e He. destruct e; calms.
Qed.
#[export] Hint Resolve publish_new_calm : calm.

Lemma put_loop_calm tokens n rounds s : Calm (put_loop tokens n rounds s).
Proof. revert n. induction rounds as [|rounds IH]; intros n; cbn [put_loop]; calms; apply IH. Qed.

Lemma open_lock_calm : Calm open_lock.
Proof.
  unfold open_lock, lstat_opt, fs_or, open_or_create, fstat. apply calm_bind.
  { apply calm_try; [calms|]. intros e He. destruct e; calms. }
  intros before. apply calm_bind.
  { apply translate_calm. intros d. destruct (entries d !! LOCK_FILE); [apply (lstat_calm _ d)|apply (os_create_calm _ d)]. }
  intros fd. calms.
Qed.
#[export] Hint Resolve open_lock_calm put_loop_calm : calm.

Lemma lease_calm {A} (body : FS A) : Calm body -> Calm (lease body).
Proof.
  intros Hb d. unfold lease. destruct (depth d).
  - apply (calm_bind open_lock); [auto with calm|]. intros _. apply translate_calm. calms.
  - apply (calm_finally (set_depth _ ;;? body)); calms.
Qed.

Lemma put_calm tokens s : Calm (put tokens s).
Proof. unfold put, validate_secret. apply calm_bind; [calms|]. intros _. apply calm_bind; [|calms]. apply lease_calm. calms. Qed.

Lemma delete_file_calm r : Calm (delete_file r).
Proof. apply lease_calm. unfold path. apply calm_bind; [calms|]. intros name. apply calm_bind; [calms|]. intros _. apply translate_calm. calms. Qed.

(** ** The files of a series of publications *)

(** The files that were in [d0] are still there, and those of [l] hold their
    secrets. *)
Record keeps_files (d0 : Dir) (l : list (string * string)) (d : Dir) : Prop := {
  kf_old n : is_Some (entries d0 !! n) -> file d n = file d0 n;
  kf_new r secret : (r, secret) ∈ l -> file d r = Some (mkInode true true 384 secret) /\
    is_credential_ref r = true /\ entries d0 !! r = None
}.

Lemma file_core d d' n : core d' = core d -> file d' n = file d n.
Proof. intros (E & I & _)%core_eq. unfold file. by rewrite E, I. Qed.

Lemma keeps_core d0 l d d' : core d' = core d -> keeps_files d0 l d -> keeps_files d0 l d'.
Proof.
  intros E [O N]. split.
  - intros n Hn. rewrite (file_core d d') by done. auto.
  - intros r s Hr. rewrite (file_core d d') by done. auto.
Qed.

Lemma file_entry d n f : file d n = Some f -> is_Some (entries d !! n).
Proof. unfold file. destruct (entries d !! n); [by eexists|done]. Qed.

Lemma settled_file d n : settled d -> is_Some (entries d !! n) -> is_Some (file d n).
Proof. intros Hd [i Hi]. unfold file. rewrite Hi. by destruct (settled_entry _ Hd _ _ Hi). Qed.

(** The old files of [d0] are files of any directory that keeps them. *)
Lemma keeps_entry d0 l d n : settled d0 -> keeps_files d0 l d -> is_Some (entries d0 !! n) -> is_Some (entries d !! n).
Proof.
  intros Hd0 Hk Hn. pose proof (settled_file _ _ Hd0 Hn) as [f Hf]. rewrite <- (kf_old _ _ _ Hk) in Hf by done.
  by eapply file_entry.
Qed.

Lemma keeps_lock d0 l d : settled d0 -> keeps_files d0 l d -> is_Some (entries d !! LOCK_FILE).
Proof. intros Hd0 Hk. eapply keeps_entry; [done..|]. by apply settled_lock_some. Qed.

Lemma keeps_lock_ready d0 l d : settled d0 -> keeps_files d0 l d -> lock_ready d.
Proof.
  intros Hd0 Hk. destruct (settled_lock _ Hd0) as (i & f & Hl & Hi & Hf).
  assert (E : file d LOCK_FILE = Some f).
  { rewrite (kf_old _ _ _ Hk) by (by exists i). unfold file. by rewrite Hl. }
  unfold file in E. destruct (entries d !! LOCK_FILE) as [j|] eqn:Ej; [|done]. by exists j, f.
Qed.

Lemma put_drawn tokens secret d r : (put tokens secret d).1 = inr r -> exists n, r = (tokens n).1.
Proof.
  assert (Hloop : forall rounds n d r, (put_loop tokens n rounds secret d).1 = inr (Some r) -> exists k, r = (tokens k).1).
  { induction rounds as [|rounds IH]; intros n d' r'; cbn [put_loop]; [done|]. unfold fs_bind.
    destruct (publish_new _ _ _ d') as [[e|[]] d2]; [done| |apply IH]. intros [= <-]. by exists n. }
  unfold put. unfold fs_bind at 1. destruct (validate_secret secret d) as [[e|u] d1]; [done|]. unfold fs_bind.
  destruct (lease (put_loop tokens 0 8 secret) d1) as [[e|[r'|]] d2] eqn:E; [done| |done]. intros [= <-].
  assert (Hlease : forall (body : FS (option string)) d x d', lease body d = (inr x, d') -> exists d2, (body d2).1 = inr x).
  { clear. intros body d x d'. unfold lease, fs_bind, translate, fs_try, fs_finally, set_depth. destruct (depth d).
    - destruct (open_lock d) as [[e|u] d1]; [done|]. destruct (sys d1) as [[[]|u1] d2]; try done.
      destruct (body (d2 <| depth := 1 |>)) as [r d3] eqn:E. destruct (sys _) as [[[]|u2] d4]; try done.
      destruct r as [[]|y]; try done. intros [= -> _]. exists (d2 <| depth := 1 |>). by rewrite E.
    - destruct (body _) as [r d3] eqn:E. destruct r; try done. intros [= -> _]. eexists. by rewrite E. }
  apply Hlease in E as [d3 E]. by apply Hloop in E.
Qed.

(** A publication keeps what is there; when it returns, there is one file more. *)
Lemma put_keeps tokens secret d0 l d r d' :
  WellFormedTokens tokens -> settled d0 -> settled d -> keeps_files d0 l d ->
  put tokens secret d = (r, d') ->
  match r with
  | inr reference => settled d' /\ keeps_files d0 ((reference, secret) :: l) d' /\ reference ∉ l.*1
  | inl _ => keeps_files d0 l d'
  end.
Proof.
  intros Ht Hd0 Hd Hk E. pose proof (put_stage d secret None Hd tokens eq_refl) as H. unfold wp in H. rewrite E in H. cbn in H.
  assert (Hold : forall s i, at_stage d secret None s i d' -> keeps_files d0 l d').
  { intros s i Hs. assert (Hf : forall n, is_Some (entries d !! n) -> file d' n = file d n).
    { intros n [j Hj]. eapply old_file; [done|exact Hs|exact Hj|]. intros ->. destruct Hs as (_ & _ & Hs & _).
      by destruct Hs as (_ & _ & ?). }
    split.
    - intros n Hn. rewrite Hf by (by apply (keeps_entry d0 l d)). by apply (kf_old _ _ _ Hk).
    - intros k s' Hr. destruct (kf_new _ _ _ Hk k s' Hr) as (Hfile & ? & ?). split; [|done].
      rewrite Hf; [done|]. by eapply file_entry. }
  destruct r as [e|reference]; [destruct H as (s & i & H); by eapply Hold|]. destruct H as [j H].
  split_and!.
  - by eapply stage_settled.
  - destruct (whole_file d secret None _ _ _ reference H) as [Hr Hf]; [by left|].
    pose proof (Hold _ _ H) as [O N]. split; [done|]. intros k s' [[= -> ->]|Hin]%elem_of_cons; [|by apply N].
    split_and!; [done|done|]. destruct H as (_ & _ & (_ & Hnone & _) & _).
    destruct (entries d0 !! reference) as [i|] eqn:Ei; [|done].
    destruct (keeps_entry d0 l d reference) as [i' Hi']; [done|done|by exists i|]. congruence.
  - intros ([k s'] & -> & Hin)%list_elem_of_fmap. destruct (kf_new _ _ _ Hk k s' Hin) as (Hfile & _).
    destruct H as (_ & _ & (_ & Hnone & _) & _). apply file_entry in Hfile as [i Hi]. cbn in Hnone. congruence.
Qed.

(** A deletion takes away no other file, whatever fails. *)
Lemma delete_keeps d0 l d r :
  settled d0 -> keeps_files d0 l d -> is_credential_ref r = true -> r ∉ l.*1 -> entries d0 !! r = None ->
  keeps_files d0 l (delete_file r d).2.
Proof.
  intros Hd0 Hk Hr Hl Hnone. set (retained := list_to_set l.*1 ∪ dom (entries d0) : gset string).
  assert (Hdoom : doomed retained r).
  { split; [done|]. unfold retained. rewrite elem_of_union, elem_of_list_to_set, elem_of_dom, Hnone. intros [?|[? ?]]; done. }
  pose proof (delete_file_spares retained r d d Hdoom (spares_refl _ _ _ eq_refl) (keeps_lock _ _ _ Hd0 Hk)) as [HI HE].
  assert (Hsame : forall n, n ∈ retained -> file (delete_file r d).2 n = file d n).
  { intros n Hn. unfold file. rewrite HI. destruct (HE n) as [->|[[_ ?] _]]; done. }
  split.
  - intros n Hn. rewrite Hsame; [by apply (kf_old _ _ _ Hk)|]. unfold retained. apply elem_of_union_r, elem_of_dom, Hn.
  - intros k s Hin. destruct (kf_new _ _ _ Hk k s Hin) as (Hf & ? & ?). rewrite Hsame; [done|].
    unfold retained. apply elem_of_union_l, elem_of_list_to_set, list_elem_of_fmap. by exists (k, s).
Qed.

(** In a calm directory outside a lease, a deletion works. *)
Lemma delete_file_works r f d :
  calm d -> depth d = 0 -> lock_ready d -> is_credential_ref r = true -> file d r = Some f -> private f = true ->
  exists d', delete_file r d = (inr tt, d') /\ calm d' /\ depth d' = 0 /\ file d' r = None /\
    forall n, n <> r -> file d' n = file d n.
Proof.
  intros Hc H0 Hl Hr Hf Hp. unfold file in Hf. destruct (entries d !! r) as [i|] eqn:Hi; [|done]. cbn in Hf.
  exists (d <| depth := 1 |> <| entries := delete r (entries d) |> <| depth := 0 |>). split_and!.
  - eapply lease_run; [done..| |done]. eapply bind_run. { eapply bind_run; [by apply assert_run|reflexivity]. }
    eapply bind_run; [by eapply open_validated_run|].
    eapply try_run, bind_run; [by eapply unlink_run|]. by apply fsync_directory_run.
  - done.
  - done.
  - unfold file. cbn. by rewrite lookup_delete_eq.
  - intros n Hn. unfold file. cbn. by rewrite lookup_delete_ne.
Qed.
