(* ===== verification/ImportClaims.v ===== *)
(** * What the import of configured Agents guarantees *)

From stdpp Require Import base tactics list gmap strings pretty.
From Stdlib Require Import ZArith Lia Ascii.
From S2P Require Import Prelude Text Sql Digest Models Schema JobValidation MutationFence EnrollmentJournal ManagerRegistry.
From S2P Require Import Samples SecretFiles SecretFacts SecretRecovery SagaSamples SecretClaims TargetPolicy FleetImport ImportFacts.

Local Open Scope import_scope.

(** ** References in the database *)
Lemma agent_referenced k a db : agents db !! k = Some a -> agent_credential_ref a ∈ all_references db.
Proof.
  intros Ha. unfold all_references. apply elem_of_union_l, elem_of_list_to_set, list_elem_of_fmap. exists a. split; [done|].
  apply list_elem_of_fmap. exists (k, a). by rewrite elem_of_map_to_list.
Qed.

(** The import's own row of an Agent. *)
Definition registered (item : PreparedAgent) (reference : string) (db : DB) : Prop :=
  exists a, agents db !! config_id (prepared_config item) = Some a /\ agent_credential_ref a = reference /\
    agent_source a = "config_import".

Lemma registered_referenced item r db : registered item r db -> r ∈ all_references db.
Proof. intros (a & Ha & <- & _). by eapply agent_referenced. Qed.

Lemma insert_all_rows now items db u db' :
  insert_all now items db = inr (u, db') ->
  agents db ⊆ agents db' /\
  forall item r, (item, r) ∈ items -> agents db' !! config_id (prepared_config item) = Some (imported_record item r now).
Proof.
  revert db. induction items as [|[item r] items IH]; intros db; cbn [insert_all].
  { intros [= <- <-]. split; [done|]. by intros ? ? ?%elem_of_nil. }
  intros E. apply tx_bind_inr in E as ([] & db1 & (Hnone & _ & _ & ->)%insert_agent_inr & E).
  apply tx_bind_inr in E as ([] & db2 & Es & E). apply IH in E as [Hsub Hrows].
  assert (Hag : agents db2 = <[config_id (prepared_config item) := imported_record item r now]> (agents db)).
  { revert Es. unfold insert_status. case_match; [done|]. unfold upsert_status. intros. by db_inv. }
  rewrite Hag in Hsub. split.
  - etrans; [|exact Hsub]. apply insert_subseteq. exact Hnone.
  - intros item' r' [[= -> ->]|Hin]%elem_of_cons; [|by apply Hrows].
    eapply lookup_weaken; [|exact Hsub]. apply lookup_insert_eq.
Qed.

Section Claims.
Context `{Importing}.

(** The references that the random generator gives to this process. *)
Definition drawn (r : string) : Prop := exists n k, r = (im_tokens n k).1.

(** No row names one of them. *)
Definition absent (db : DB) : Prop := forall r, drawn r -> r ∉ all_references db.

(** Nobody else writes the references of this process into the database. *)
Definition foreign : Prop := forall n db, absent db -> absent (im_other n db).

Context (Htok : forall n, WellFormedTokens (im_tokens n)) (Hforeign : foreign).

(** Nobody else takes the marker back. *)
Definition marks_stay : Prop := forall n db, is_marked db = true -> is_marked (im_other n db) = true.

(** ** Small steps *)
Lemma next_moment_inv r w w' :
  next_moment w = (r, w') ->
  (r = inl ProcessDied /\ w' = w) \/
  (exists n, r = inr n /\ w' = mkImport (im_other n (iw_db w)) (iw_dir w) (iw_new w) (S n)).
Proof. unfold next_moment. destruct (im_dies _); intros [= <- <-]; eauto. Qed.

Lemma next_moment_absent n w w' :
  next_moment w = (inr n, w') -> absent (iw_db w) -> absent (iw_db w') /\ iw_dir w' = iw_dir w /\ iw_new w' = iw_new w.
Proof. intros [[? _]|(m & [= ->] & ->)]%next_moment_inv; [done|]. cbn. auto. Qed.

(** Errors of the directory, or the end of the process. *)
Definition raised (e : import_exn) : Prop := e = ProcessDied \/ exists x, e = StoreRaised x.

Lemma store_exn_raised e : raised (store_exn e).
Proof. destruct e; [right; by eexists..|by left]. Qed.

Lemma in_dir_inv {A} (m : FS A) r w w' :
  in_dir m w = (r, w') ->
  iw_db w' = iw_db w /\ iw_new w' = iw_new w /\ iw_dir w' = (m (iw_dir w)).2 /\
  match (m (iw_dir w)).1 with inl e => r = inl (store_exn e) | inr a => r = inr a end.
Proof. unfold in_dir. destruct (m (iw_dir w)) as [[e|a] d]; intros [= <- <-]; done. Qed.

Lemma i_bind_inv {A B} (m : Import A) (k : A -> Import B) r w w' :
  i_bind m k w = (r, w') ->
  (exists e, m w = (inl e, w') /\ r = inl e) \/ (exists a w1, m w = (inr a, w1) /\ k a w1 = (r, w')).
Proof. unfold i_bind. destruct (m w) as [[e|a] w1]; [intros [= <- <-]|]; eauto. Qed.

Lemma i_catch_inv {A} (m : Import A) h r w w' :
  i_catch m h w = (r, w') ->
  (m w = (r, w') /\ forall e, r = inl e -> e = ProcessDied) \/
  (exists e w1, e <> ProcessDied /\ m w = (inl e, w1) /\ h e w1 = (r, w')).
Proof.
  unfold i_catch. destruct (m w) as [[e|a] w1]; [|intros [= <- <-]; left; split; [done|by intros]].
  destruct e; try (by intros E; right; do 2 eexists; split; [|split; [done|exact E]]).
  intros [= <- <-]. left. split; [done|]. by intros e [= <-].
Qed.

(** ** Publications *)
(** The credentials [done] are in the directory [d0], with their references in
    the local list. *)
Record stored (d0 : Dir) (done : list (string * string)) (w : ImportWorld) : Prop := {
  st_new : iw_new w = done.*1;
  st_files : keeps_files d0 done (iw_dir w);
  st_distinct : NoDup done.*1;
  st_drawn r : r ∈ done.*1 -> drawn r
}.

Lemma keeps_files_equiv d0 l l' d : (forall x, x ∈ l <-> x ∈ l') -> keeps_files d0 l d -> keeps_files d0 l' d.
Proof. intros E [O N]. split; [done|]. intros r s Hin. by apply N, E. Qed.

Lemma put_all_spec d0 items done w r w' :
  settled d0 -> settled (iw_dir w) -> stored d0 done w -> absent (iw_db w) -> put_all items w = (r, w') ->
  exists more, stored d0 (done ++ more) w' /\ absent (iw_db w') /\
    faults (iw_dir w') `suffix_of` faults (iw_dir w) /\ (calm (iw_dir w) -> calm (iw_dir w')) /\
    match r with
    | inr _ => more.*2 = prepared_token <$> items /\ settled (iw_dir w')
    | inl e => raised e /\ more.*2 `prefix_of` (prepared_token <$> items)
    end.
Proof.
  intros Hd0. revert done w. induction items as [|item items IH]; intros done w Hd Hs Ha E.
  { injection E as <- <-. exists []. rewrite app_nil_r. done. }
  cbn [put_all] in E. apply i_bind_inv in E as [(e & E & ->)|(n & w1 & En & E)].
  { apply next_moment_inv in E as [[[= ->] ->]|(n & [=] & _)]. exists []. rewrite app_nil_r.
    split_and!; [done..|by left|apply prefix_nil]. }
  destruct (next_moment_absent _ _ _ En Ha) as (Ha1 & Ed & Ew). clear En.
  assert (Hs1 : stored d0 done w1) by (destruct Hs as [S1 S2 S3 S4]; split; rewrite ?Ed, ?Ew; done).
  rewrite <- Ed in Hd |- *. clear Hs Ha Ed Ew.
  apply i_bind_inv in E as [(e & E & ->)|(reference & w2 & Ep & E)].
  - apply in_dir_inv in E as (Edb & Enew & Edir & Er). exists []. rewrite app_nil_r.
    pose proof (put_keeps (im_tokens n) (prepared_token item) d0 done (iw_dir w1) _ _ (Htok n) Hd0 Hd (st_files _ _ _ Hs1)
      (surjective_pairing _)) as Hput.
    destruct (put_calm (im_tokens n) (prepared_token item) (iw_dir w1)) as [Hsuf _].
    pose proof (calm_after _ (iw_dir w1) (put_calm (im_tokens n) (prepared_token item))) as Hcalm.
    rewrite Edb, Edir. split_and!; [|done|done|by intros [? _]%Hcalm| |apply prefix_nil].
    + destruct Hs1 as [S1 S2 S3 S4]. split; rewrite ?Enew, ?Edir; [done| |done..].
      by destruct (put _ _ (iw_dir w1)).1.
    + destruct (put _ _ (iw_dir w1)).1; [|done]. injection Er as ->. apply store_exn_raised.
  - apply in_dir_inv in Ep as (Edb & Enew & Edir & Er).
    pose proof (put_keeps (im_tokens n) (prepared_token item) d0 done (iw_dir w1) _ _ (Htok n) Hd0 Hd (st_files _ _ _ Hs1)
      (surjective_pairing _)) as Hput.
    destruct (put_calm (im_tokens n) (prepared_token item) (iw_dir w1)) as [Hsuf _].
    pose proof (calm_after _ (iw_dir w1) (put_calm (im_tokens n) (prepared_token item))) as Hcalm.
    destruct (put _ _ (iw_dir w1)).1 as [?|reference'] eqn:E1; [done|]. injection Er as <-. rewrite <- Edir in *.
    destruct Hput as (Hset & Hkeep & Hfresh). apply i_bind_inv in E as [(e & [=] & _)|(u & w3 & [= <- <-] & E)].
    eapply (IH (done ++ [(reference, prepared_token item)])) in E as (more & Hst & Hab & Hsuf' & Hcalm' & Hr); cbn; [| done| |by rewrite Edb].
    + exists ((reference, prepared_token item) :: more). rewrite cons_middle, (assoc_L (++)). split_and!; [done|done| | |].
      * cbn in Hsuf'. by etrans.
      * cbn in Hcalm'. intros Hc. apply Hcalm'. by apply Hcalm.
      * destruct r as [e|u']; cbn; [|by destruct Hr as [-> ?]]. destruct Hr as [? Hp]. split; [done|]. by apply prefix_cons.
    + destruct Hs1 as [S1 S2 S3 S4]. split; cbn; rewrite ?Enew, ?fmap_app, ?S1; cbn; [done| | |].
      * eapply keeps_files_equiv; [|exact Hkeep]. intros x. rewrite elem_of_app, elem_of_cons, list_elem_of_singleton. naive_solver.
      * apply NoDup_app. split_and!; [done| |apply NoDup_singleton]. intros x Hx ->%list_elem_of_singleton. done.
      * intros x [?|Hx%list_elem_of_singleton]%elem_of_app; [by apply S4|]. subst x.
        apply put_drawn in E1 as [k ->]. by exists n, k.
Qed.

(** ** The transaction *)
Lemma absent_marker db : absent db -> absent (insert_marker db).
Proof. done. Qed.

Lemma commit_inv n db r w w' :
  commit_transaction n db w = (r, w') ->
  iw_dir w' = iw_dir w /\ iw_new w' = iw_new w /\
  ((r = inr tt /\ iw_db w' = db) \/ (r = inl DatabaseRaised /\ (iw_db w' = db \/ iw_db w' = iw_db w))).
Proof. unfold commit_transaction, i_bind, put_db, i_raise. destruct (im_commit n); intros [= <- <-]; cbn; auto 10. Qed.

Lemma rollback_inv n r w w' : rollback n w = (r, w') -> w' = w /\ (r = inr tt \/ r = inl DatabaseRaised).
Proof. unfold rollback. destruct (im_rollback n); intros [= <- <-]; auto. Qed.

Lemma statement_inv n r w w' : statement n w = (r, w') -> w' = w /\ (r = inr tt \/ r = inl DatabaseRaised).
Proof. unfold statement. destruct (im_statement n); intros [= <- <-]; auto. Qed.

(** Same directory and same references. *)
Definition same_files (w w' : ImportWorld) : Prop := iw_dir w' = iw_dir w /\ iw_new w' = iw_new w.

Lemma import_transaction_inv n items r w w' :
  absent (iw_db w) -> import_transaction n items w = (r, w') ->
  same_files w w' /\
  match r with
  | inr db => absent (iw_db w') /\ is_marked db = true /\ forall item r, (item, r) ∈ items -> registered item r db
  | inl ConcurrentImportComplete => absent (iw_db w') /\ is_marked (iw_db w') = true
  | inl AgentConfigImportOutcomeUncertain => True
  | inl DatabaseRaised => absent (iw_db w')
  | inl _ => False
  end.
Proof.
  intros Ha E. unfold import_transaction in E.
  assert (Hmark : forall db, is_marked (insert_marker db) = true).
  { intros db. unfold is_marked, insert_marker. cbn. apply bool_decide_true, lookup_insert_eq. }
  match type of E with i_catch ?m _ w = _ => assert (Hbody : forall r w', m w = (r, w') -> same_files w w' /\
    match r with
    | inr db => absent (iw_db w') /\ is_marked db = true /\ forall item r, (item, r) ∈ items -> registered item r db
    | inl ConcurrentImportComplete => absent (iw_db w') /\ is_marked (iw_db w') = true
    | inl DatabaseRaised => absent (iw_db w')
    | inl _ => False
    end) end.
  { clear E r w'. intros r w' E. apply i_bind_inv in E as [(e & [-> [? | [= ->]]]%statement_inv & ->)|(u & w1 & [-> _]%statement_inv & E)]; [done|done|].
    apply i_bind_inv in E as [(e & [=] & _)|(db & w1 & [= <- <-] & E)].
    destruct (is_marked (iw_db w)) eqn:Em; [injection E as <- <-; done|].
    destruct (has_agents (iw_db w)).
    - apply i_bind_inv in E as [(e & Ec & ->)|(u' & w1 & Ec & [= <- <-])]; apply commit_inv in Ec as (? & ? & Hc).
      + destruct Hc as [[[=] _]|[[= ->] [Hdb|Hdb]]]; (split; [done|]); rewrite Hdb; [by apply absent_marker|done].
      + destruct Hc as [[_ Hdb]|[[=] _]]. split; [done|]. rewrite Hdb. by split; [apply absent_marker|].
    - destruct (insert_all (im_now n) items (iw_db w)) as [x|[[] db]] eqn:Ei; [by injection E as <- <-|].
      injection E as <- <-. apply insert_all_rows in Ei as [_ Hrows]. split; [done|]. split_and!; [done|done|].
      intros item reference Hin. exists (imported_record item reference (im_now n)). split; [|done].
      by apply (Hrows item reference). }
  apply i_catch_inv in E as [[E Hd]|(e & w1 & Hne & E & Eh)].
  - apply Hbody in E as [Hsame Hr]. split; [done|]. destruct r as [e|db]; [|done]. by rewrite (Hd e eq_refl) in Hr.
  - apply Hbody in E as [[Hd1 Hn1] Hr]. apply i_bind_inv in Eh as [(x & Ec & ->)|(u & w2 & Ec & [= <- <-])].
    + apply i_catch_inv in Ec as [[Er Hx]|(y & w2 & _ & [-> _]%rollback_inv & [= <- <-])]; [|done].
      apply rollback_inv in Er as [-> [?|[= ->]]]; [done|]. by specialize (Hx _ eq_refl).
    + assert (w2 = w1) as ->.
      { apply i_catch_inv in Ec as [[[-> _]%rollback_inv _]|(y & w3 & _ & _ & [=])]. done. }
      split; [done|]. by destruct e.
Qed.

Lemma verify_committed_import_inv expected r w w' :
  verify_committed_import expected w = (r, w') ->
  same_files w w' /\ (marks_stay -> is_marked (iw_db w) = true -> is_marked (iw_db w') = true) /\
  match r with
  | inr v => v = verify_import expected (iw_db w')
  | inl e => e = ProcessDied \/ e = DatabaseRaised
  end.
Proof.
  unfold verify_committed_import. intros E. apply i_bind_inv in E as [(e & E & ->)|(n & w1 & E & E1)].
  { apply next_moment_inv in E as [[[= ->] ->]|(n & [=] & _)]. split_and!; auto. done. }
  apply next_moment_inv in E as [[[=] _]|(n' & [= <-] & ->)].
  apply i_bind_inv in E1 as [(e & [-> [?|[= ->]]]%statement_inv & ->)|(u & w1 & [-> _]%statement_inv & E1)]; [done| |].
  - split_and!; [done| |by right]. intros Hm. apply Hm.
  - apply i_bind_inv in E1 as [(e & [=] & _)|(db & w1 & [= <- <-] & [= <- <-])]. split_and!; [done| |done]. intros Hm. apply Hm.
Qed.

Lemma own_all items db :
  NoDup items.*2 -> own_references (verify_import (expected_of items) db) = list_to_set (expected_of items).*2 ->
  forall item r, (item, r) ∈ items -> registered item r db.
Proof.
  intros Hnd E item r Hin.
  assert (Hr : r ∈ own_references (verify_import (expected_of items) db)).
  { rewrite E. apply elem_of_list_to_set. unfold expected_of. rewrite <- list_fmap_compose. apply list_elem_of_fmap.
    by exists (item, r). }
  unfold verify_import in Hr. cbn [own_references] in Hr. apply elem_of_list_to_set, list_elem_of_fmap in Hr as ([id r'] & Er & Hr).
  cbn in Er. subst r'. apply list_elem_of_filter in Hr as [Hown Hexp].
  unfold expected_of in Hexp. apply list_elem_of_fmap in Hexp as ([item' r'] & [= -> ->] & Hin').
  assert (item' = item) as ->.
  { apply list_elem_of_lookup in Hin as [i Hi]. apply list_elem_of_lookup in Hin' as [j Hj].
    assert (i = j) as ->; [|congruence]. apply (NoDup_lookup _ _ _ r' Hnd); rewrite list_lookup_fmap; [by rewrite Hi|by rewrite Hj]. }
  destruct (agents db !! _) as [a|] eqn:Ea; [|done]. apply andb_true_iff in Hown as [H1 H2].
  apply bool_decide_eq_true in H1, H2. by exists a.
Qed.

Lemma commit_import_inv items r w w' :
  absent (iw_db w) -> NoDup items.*2 -> commit_import items w = (r, w') ->
  same_files w w' /\
  match r with
  | inr _ => is_marked (iw_db w') = true /\ forall item r, (item, r) ∈ items -> registered item r (iw_db w')
  | inl ConcurrentImportComplete => absent (iw_db w') /\ is_marked (iw_db w') = true
  | inl (VerifiedCommitMismatch v) => v = verify_import (expected_of items) (iw_db w')
  | inl AgentConfigImportOutcomeUncertain | inl ProcessDied => True
  | inl DatabaseRaised => absent (iw_db w')
  | inl _ => False
  end.
Proof.
  intros Ha Hnd E. unfold commit_import in E. apply i_bind_inv in E as [(e & E & ->)|(n & w1 & En & E)].
  { by apply next_moment_inv in E as [[[= ->] ->]|(n & [=] & _)]. }
  destruct (next_moment_absent _ _ _ En Ha) as (Ha1 & Ed & Ew). clear En.
  assert (Hsame : forall w2, same_files w1 w2 -> same_files w w2) by (intros w2 []; split; congruence).
  apply i_bind_inv in E as [(e & E & ->)|(db & w2 & Et & E)].
  { apply import_transaction_inv in E as [Hs Hr]; [|done]. split; [by apply Hsame|]. by destruct e. }
  apply import_transaction_inv in Et as [Hs (Ha2 & Hm & Hreg)]; [|done]. apply Hsame in Hs as Hs2.
  apply i_catch_inv in E as [[E Hd]|(e & w3 & Hne & E & Eh)].
  - apply commit_inv in E as (Ed2 & En2 & Hc). assert (same_files w w') by (destruct Hs2; split; congruence).
    destruct Hc as [[-> ->]|[-> _]]; [done|]. by specialize (Hd _ eq_refl).
  - apply commit_inv in E as (Ed2 & En2 & _). apply i_bind_inv in Eh as [(x & Ev & ->)|(v & w4 & Ev & Eh)].
    + apply i_catch_inv in Ev as [[Ev Hx]|(y & w4 & _ & Ev & [= <- <-])]; apply verify_committed_import_inv in Ev as ((? & ?) & _ & _).
      * rewrite (Hx x eq_refl). split; [|done]. destruct Hs2; split; congruence.
      * split; [|done]. destruct Hs2; split; congruence.
    + apply i_catch_inv in Ev as [[Ev _]|(y & w5 & _ & _ & [=])].
      apply verify_committed_import_inv in Ev as ((? & ?) & _ & ->).
      assert (Hs4 : same_files w w4) by (destruct Hs2; split; congruence).
      destruct (marker_complete _ && _) eqn:Ec; injection Eh as <- <-; (split; [done|]); [|done].
      apply andb_true_iff in Ec as [Ec1 Ec2]. apply bool_decide_eq_true in Ec2. split; [done|]. by apply own_all.
Qed.

(** ** Deletions *)
Lemma keeps_sub d0 l l' d : (forall p, p ∈ l' -> p ∈ l) -> keeps_files d0 l d -> keeps_files d0 l' d.
Proof. intros Hsub [O N]. split; [done|]. intros r s Hin. by apply N, Hsub. Qed.

(** Whatever fails, the other files stay. *)
Lemma delete_all_spec d0 done refs w r w' :
  settled d0 -> keeps_files d0 done (iw_dir w) ->
  (forall x, x ∈ refs -> is_credential_ref x = true /\ entries d0 !! x = None) ->
  delete_new_credentials refs w = (r, w') ->
  iw_db w' = iw_db w /\ iw_new w' = iw_new w /\ (forall e, r = inl e -> e = ProcessDied) /\
  keeps_files d0 (filter (fun p => p.1 ∉ refs) done) (iw_dir w').
Proof.
  intros Hd0. revert done w r w'. induction refs as [|x refs IH]; intros done w r w' Hk Hrefs E.
  { injection E as <- <-. split_and!; [done|done|done|]. eapply keeps_sub; [|exact Hk]. by intros p [_ ?]%list_elem_of_filter. }
  cbn [delete_new_credentials] in E. destruct (Hrefs x) as [Hcx Hnx]; [by left|].
  set (done1 := filter (fun p => p.1 <> x) done).
  assert (Hk1 : keeps_files d0 done1 (delete_file x (iw_dir w)).2).
  { apply delete_keeps; [done| |done| |done].
    - eapply keeps_sub; [|exact Hk]. by intros p [_ ?]%list_elem_of_filter.
    - intros ([y s] & -> & [Hy _]%list_elem_of_filter)%list_elem_of_fmap. by apply Hy. }
  assert (Hfin : forall l wx, (forall p, p ∈ done -> p.1 ∉ x :: refs -> p ∈ l) -> keeps_files d0 l wx ->
    keeps_files d0 (filter (fun p => p.1 ∉ x :: refs) done) wx).
  { intros l wx Hl. apply keeps_sub. intros p [? ?]%list_elem_of_filter. auto. }
  assert (Hin1 : forall p, p ∈ done -> p.1 ∉ x :: refs -> p ∈ done1).
  { intros p Hp [? ?]%not_elem_of_cons. by apply list_elem_of_filter. }
  apply i_bind_inv in E as [(e & E & ->)|(failed & w1 & E & E')].
  { apply i_catch_inv in E as [[E He]|(y & w1 & _ & _ & [=])]. rewrite (He _ eq_refl) in *.
    apply i_bind_inv in E as [(e' & E & [= <-])|(u & w1 & _ & [=])].
    apply in_dir_inv in E as (-> & -> & Edir & _). split_and!; [done|done|by intros ? [= <-]|].
    rewrite Edir. by eapply Hfin. }
  assert (Hw1 : iw_db w1 = iw_db w /\ iw_new w1 = iw_new w /\ iw_dir w1 = (delete_file x (iw_dir w)).2).
  { apply i_catch_inv in E as [[E _]|(y & w2 & _ & E & [= <- <-])].
    - apply i_bind_inv in E as [(e & _ & [=])|(u & w2 & E & [= <- <-])]. by apply in_dir_inv in E as (? & ? & ? & _).
    - apply i_bind_inv in E as [(e & E & [= ->])|(u & w3 & _ & [=])]. by apply in_dir_inv in E as (? & ? & ? & _). }
  destruct Hw1 as (Edb & Enew & Edir).
  assert (Hrest : forall r1 w2, delete_new_credentials refs w1 = (r1, w2) ->
    iw_db w2 = iw_db w /\ iw_new w2 = iw_new w /\ (forall e, r1 = inl e -> e = ProcessDied) /\
    keeps_files d0 (filter (fun p => p.1 ∉ x :: refs) done) (iw_dir w2)).
  { intros r1 w2 E1. apply (IH done1) in E1 as (-> & -> & He & Hk2); [|by rewrite Edir|by intros y Hy; apply Hrefs; right].
    split_and!; [done|done|done|]. eapply Hfin; [|exact Hk2]. intros p Hp Hx. apply list_elem_of_filter. split; [|by apply Hin1].
    by apply not_elem_of_cons in Hx as [_ ?]. }
  by apply i_bind_inv in E' as [(e & E' & ->)|(more & w2 & E' & [= <- <-])]; apply Hrest in E' as (? & ? & ? & ?).
Qed.

(** Where nothing fails, the files are gone and there are no errors. *)
Lemma delete_all_works d0 done refs w :
  settled d0 -> keeps_files d0 done (iw_dir w) -> calm (iw_dir w) -> depth (iw_dir w) = 0 -> NoDup refs ->
  (forall x, x ∈ refs -> x ∈ done.*1) ->
  exists w', delete_new_credentials refs w = (inr false, w') /\ forall x, file (iw_dir w') x = if decide (x ∈ refs) then None else file (iw_dir w) x.
Proof.
  intros Hd0. revert done w. induction refs as [|x refs IH]; intros done w Hk Hc H0 Hnd Hin.
  { exists w. split; [done|]. intros x. by rewrite decide_False by apply not_elem_of_nil. }
  apply NoDup_cons in Hnd as [Hx Hnd].
  assert (Hd : x ∈ done.*1) by (apply Hin; by left). apply list_elem_of_fmap in Hd as ([x' s] & Ex & Hd). cbn in Ex. subst x'.
  destruct (kf_new _ _ _ Hk _ _ Hd) as (Hf & Hcx & Hnx).
  destruct (delete_file_works x _ (iw_dir w) Hc H0 (keeps_lock_ready _ _ _ Hd0 Hk) Hcx Hf eq_refl)
    as (d' & Ed & Hc' & H0' & Hgone & Hsame).
  set (w1 := mkImport (iw_db w) d' (iw_new w) (iw_moment w)).
  destruct (IH (filter (fun p => p.1 <> x) done) w1) as (w2 & E2 & Hnone); [|done|done|done| |].
  - replace (iw_dir w1) with (delete_file x (iw_dir w)).2 by (by rewrite Ed). apply delete_keeps; [done| |done| |done].
    + eapply keeps_sub; [|exact Hk]. by intros p [_ ?]%list_elem_of_filter.
    + intros ([y s'] & -> & [Hy _]%list_elem_of_filter)%list_elem_of_fmap. by apply Hy.
  - intros y Hy. assert (Hyd : y ∈ done.*1) by (apply Hin; by right). apply list_elem_of_fmap in Hyd as ([y' s'] & -> & Hyd).
    apply list_elem_of_fmap. exists (y', s'). split; [done|]. apply list_elem_of_filter. split; [|done]. cbn. by intros ->.
  - exists w2. split.
    + cbn [delete_new_credentials]. unfold i_bind at 1, i_catch, in_dir, i_bind. rewrite Ed. cbn. fold w1. by rewrite E2.
    + intros y. rewrite Hnone. destruct (decide (y = x)) as [->|Hne].
      * rewrite decide_False by done. rewrite decide_True by (by left). done.
      * rewrite (decide_ext _ (y ∈ x :: refs)) by set_solver. destruct (decide (y ∈ x :: refs)); [done|]. by apply Hsame.
Qed.

(** ** Storing and committing *)
Lemma settled_core d d' : core d' = core d -> settled d -> settled d'.
Proof. intros (E & I & N)%core_eq [S1 S2 S3]. split; rewrite ?E, ?I, ?N; done. Qed.

Lemma stored_same d0 done w w' :
  core (iw_dir w') = core (iw_dir w) -> iw_new w' = iw_new w -> stored d0 done w -> stored d0 done w'.
Proof. intros Hc Hn [S1 S2 S3 S4]. split; [congruence| |done..]. by eapply keeps_core. Qed.

(** How the body of the lease, and the whole of it, can end: with the
    credentials [done] stored. *)
Definition outcome (prepared : list PreparedAgent) (done : list (string * string)) (failing : Prop)
    (r : import_exn + unit) (db : DB) : Prop :=
  done.*2 `prefix_of` (prepared_token <$> prepared) /\
  match r with
  | inr _ => done.*2 = prepared_token <$> prepared /\ is_marked db = true /\
      forall item r, (item, r) ∈ zip prepared done.*1 -> registered item r db
  | inl ConcurrentImportComplete => absent db /\ is_marked db = true
  | inl (VerifiedCommitMismatch v) => done.*2 = prepared_token <$> prepared /\
      v = verify_import (expected_of (zip prepared done.*1)) db
  | inl AgentConfigImportOutcomeUncertain | inl ProcessDied => True
  | inl DatabaseRaised => absent db
  | inl (StoreRaised _) => absent db \/ failing
  | inl AgentConfigImportError => False
  end.

Lemma raised_outcome prepared done e db :
  done.*2 `prefix_of` (prepared_token <$> prepared) -> raised e -> absent db -> outcome prepared done False (inl e) db.
Proof. intros Hp [->|[x ->]] Ha; (split; [done|]); [exact I|left; exact Ha]. Qed.

Definition lease_body (prepared : list PreparedAgent) : Import unit :=
  put_all prepared ;;% let% references := new_references in commit_import (zip prepared references).

Lemma lease_body_spec d0 prepared w r w' :
  settled d0 -> settled (iw_dir w) -> stored d0 [] w -> absent (iw_db w) -> lease_body prepared w = (r, w') ->
  exists done, stored d0 done w' /\ faults (iw_dir w') `suffix_of` faults (iw_dir w) /\
    (calm (iw_dir w) -> calm (iw_dir w')) /\ outcome prepared done False r (iw_db w').
Proof.
  intros Hd0 Hd Hs Ha E. unfold lease_body in E. apply i_bind_inv in E as [(e & E & ->)|(u & w1 & Ep & E)].
  - eapply (put_all_spec d0 _ [] w) in E as (more & Hst & Hab & Hsuf & Hcalm & Hr & Hpre); [|done..]. exists more.
    split_and!; [done..|]. by apply raised_outcome.
  - eapply (put_all_spec d0 _ [] w) in Ep as (more & Hst & Hab & Hsuf & Hcalm & Hr & _); [|done..]. cbn [app] in *. exists more.
    apply i_bind_inv in E as [(e & [=] & _)|(references & w2 & [= <- <-] & E)].
    rewrite (st_new _ _ _ Hst) in E.
    assert (Hlen : length prepared = length more.*1).
    { pose proof (f_equal length Hr) as Hl. rewrite length_fmap in Hl. rewrite length_fmap, Hl. by rewrite length_fmap. }
    assert (Hsnd : (zip prepared more.*1).*2 = more.*1) by (apply snd_zip; lia).
    apply commit_import_inv in E as [[Hdir Hnew] Hout]; [|done|rewrite Hsnd; apply (st_distinct _ _ _ Hst)].
    split_and!; [|by rewrite Hdir|by rewrite Hdir|].
    + eapply stored_same; [by rewrite Hdir|done|done].
    + split; [by rewrite Hr|]. destruct r as [[]|u']; try done; by left.
Qed.

(** What is known of the world after a part of the lease that began in [w]. *)
Definition leased (d0 : Dir) (prepared : list PreparedAgent) (w : ImportWorld) (r : import_exn + unit) (w' : ImportWorld) : Prop :=
  exists kept, stored d0 kept w' /\
    (calm (iw_dir w) -> calm (iw_dir w') /\ (r <> inl ProcessDied -> depth (iw_dir w') = 0)) /\
    outcome prepared kept (Fails ∈ faults (iw_dir w)) r (iw_db w').

(** An error before anything was stored. *)
Lemma leased_early d0 prepared w e w1 :
  stored d0 [] w -> absent (iw_db w) -> core (iw_dir w1) = core (iw_dir w) -> iw_new w1 = iw_new w ->
  iw_db w1 = iw_db w -> raised e -> (calm (iw_dir w) -> False) -> leased d0 prepared w (inl e) w1.
Proof.
  intros Hs Ha Hc Hn Hdb He Hcalm. exists []. split_and!; [by apply (stored_same d0 [] w)|by intros ?%Hcalm|].
  rewrite Hdb. split; [apply prefix_nil|]. destruct He as [->|[x ->]]; [exact I|by left].
Qed.

(** The release of the lock: a failure of it replaces how the body ended. *)
Lemma release_spec d0 prepared kept w r4 w4 r w' :
  stored d0 kept w4 -> outcome prepared kept False r4 (iw_db w4) ->
  faults (iw_dir w4) `suffix_of` faults (iw_dir w) -> (calm (iw_dir w) -> calm (iw_dir w4)) ->
  i_finally (fun _ => (r4, w4)) (in_dir (set_depth 0) ;;% in_dir sys) w = (r, w') ->
  leased d0 prepared w r w'.
Proof.
  intros Hst [Hpre Hout] Hfaults Hcalm E. exists kept. unfold i_finally in E.
  set (w5 := mkImport (iw_db w4) ((iw_dir w4) <| depth := 0 |>) (iw_new w4) (iw_moment w4)).
  change ((in_dir (set_depth 0) ;;% in_dir sys) w4) with (in_dir sys w5) in E.
  assert (r4 = inl ProcessDied \/ r4 <> inl ProcessDied) as [->|Hne] by (destruct r4 as [[]|]; first [by left|by right]).
  { injection E as <- <-. split_and!; [done| |done]. intros Hc. split; [auto|done]. }
  assert (exists x, in_dir sys w5 = (x, w') /\ r = match x with inl e => inl e | inr _ => r4 end) as (x & Ex & ->).
  { destruct (in_dir sys w5) as [x w6]. destruct r4 as [[]|u4]; try done; destruct x; injection E as <- <-; by eexists. }
  clear E. apply in_dir_inv in Ex as (Edb & Enew & Edir & Er).
  pose proof (sys_looks (iw_dir w5)) as Hl5. rewrite <- Edir in Hl5. cbn in Edb, Enew. split_and!.
  - by apply (stored_same d0 kept w4); [exact Hl5|exact Enew|].
  - intros Hc. assert (Hc5 : calm (iw_dir w5)) by (by apply Hcalm). rewrite sys_run in Edir, Er by done.
    cbn in Edir, Er. rewrite Edir, Er. split; [exact Hc5|done].
  - rewrite Edb. destruct (sys (iw_dir w5)).1 as [ex|[]] eqn:Es; rewrite Er; (split; [done|]).
    + destruct ex; try exact I; right;
        (revert Es; unfold sys; destruct (dead (iw_dir w5)); [done|];
         change (faults (iw_dir w5)) with (faults (iw_dir w4));
         destruct (faults (iw_dir w4)) as [|[] l] eqn:Ef; try done; intros _;
         destruct Hfaults as [pre Hp]; rewrite Hp; apply elem_of_app; right; by left).
    + destruct r4 as [[]|u4]; try done. destruct Hout as [?|[]]. by left.
Qed.

(** The part of the lease that runs with the lock file open. *)
Lemma locked_spec d0 prepared w w1 r w' :
  settled d0 -> settled (iw_dir w) -> stored d0 [] w -> absent (iw_db w) ->
  core (iw_dir w1) = core (iw_dir w) -> (calm (iw_dir w) -> iw_dir w1 = iw_dir w) ->
  iw_db w1 = iw_db w -> iw_new w1 = iw_new w -> faults (iw_dir w1) `suffix_of` faults (iw_dir w) ->
  (in_dir sys ;;%
   i_finally (in_dir (set_depth 1) ;;% lease_body prepared) (in_dir (set_depth 0) ;;% in_dir sys)) w1 = (r, w') ->
  leased d0 prepared w r w'.
Proof.
  intros Hd0 Hd Hs Ha Hol Hsame Edb1 Enew1 Hof E.
  assert (Hc1 : calm (iw_dir w) -> calm (iw_dir w1)) by (intros Hc; by rewrite Hsame).
  pose proof (sys_looks (iw_dir w1)) as Hl2. destruct (calm_sys (iw_dir w1)) as [Hf2 _].
  apply i_bind_inv in E as [(e & E & ->)|(u & w2 & E2 & E)].
  { apply in_dir_inv in E as (Edb & Enew & Edir & Er).
    apply leased_early; [done|done|rewrite Edir; congruence|congruence|congruence| |].
    - destruct (sys (iw_dir w1)).1; [injection Er as ->; apply store_exn_raised|done].
    - intros Hc. rewrite sys_run in Er by auto. done. }
  apply in_dir_inv in E2 as (Edb2 & Enew2 & Edir2 & _). rewrite <- Edir2 in Hl2, Hf2.
  assert (Hc2 : calm (iw_dir w) -> calm (iw_dir w2)) by (intros Hc; rewrite Edir2, sys_run by auto; auto).
  clear Edir2 u. set (w3 := mkImport (iw_db w2) ((iw_dir w2) <| depth := 1 |>) (iw_new w2) (iw_moment w2)).
  destruct (lease_body prepared w3) as [r4 w4] eqn:Eb.
  assert (Hcore3 : core (iw_dir w3) = core (iw_dir w)) by (transitivity (core (iw_dir w2)); [done|congruence]).
  assert (E' : i_finally (fun _ => (r4, w4)) (in_dir (set_depth 0) ;;% in_dir sys) w = (r, w')).
  { rewrite <- E. unfold i_finally. change ((in_dir (set_depth 1) ;;% lease_body prepared) w2) with (lease_body prepared w3).
    by rewrite Eb. }
  eapply (lease_body_spec d0 prepared w3) in Eb as (kept & Hst & Hsuf & Hcalm & Hout);
    [|done|by apply (settled_core (iw_dir w))|apply (stored_same d0 [] w); [exact Hcore3|cbn; congruence|done]|by cbn; rewrite Edb2, Edb1].
  eapply release_spec; [exact Hst|exact Hout| |by intros ?%Hc2; auto|exact E'].
  etrans; [exact Hsuf|]. etrans; [exact Hf2|exact Hof].
Qed.

Lemma store_and_commit_spec d0 prepared w r w' :
  settled d0 -> settled (iw_dir w) -> stored d0 [] w -> absent (iw_db w) -> depth (iw_dir w) = 0 ->
  store_and_commit prepared w = (r, w') -> leased d0 prepared w r w'.
Proof.
  intros Hd0 Hd Hs Ha H0 E. unfold store_and_commit, import_lease in E. rewrite H0 in E. fold (lease_body prepared) in E.
  assert (Hready : calm (iw_dir w) -> open_lock (iw_dir w) = (inr tt, iw_dir w)).
  { intros Hc. destruct (settled_lock _ Hd) as (i & f & ? & ? & ?). by eapply open_lock_run. }
  pose proof (open_lock_core _ (settled_lock_some _ Hd)) as Hol. destruct (open_lock_calm (iw_dir w)) as [Hof _].
  apply i_bind_inv in E as [(e & E & ->)|(u & w1 & E1 & E)].
  { apply in_dir_inv in E as (Edb & Enew & Edir & Er). apply leased_early; [done|done|by rewrite Edir|done|done| |].
    - destruct (open_lock (iw_dir w)).1; [injection Er as ->; apply store_exn_raised|done].
    - intros Hc. by rewrite (Hready Hc) in Er. }
  apply in_dir_inv in E1 as (Edb1 & Enew1 & Edir1 & _). rewrite <- Edir1 in Hol, Hof.
  assert (Hinner : forall r w', _ w1 = (r, w') -> leased d0 prepared w r w') by
    (intros r1 w2 E1; eapply (locked_spec d0 prepared w w1); try done;
     intros Hc; by rewrite Edir1, (Hready Hc)).
  apply i_catch_inv in E as [[E _]|(e & w2 & Hne & E & Eh)]; [by apply Hinner|].
  apply Hinner in E as (kept & Hst & Hcalm & Hout). exists kept.
  destruct e; injection Eh as <- <-; try done.
  split_and!; [done| |done]. intros Hc. destruct (Hcalm Hc) as [? Hd1]. split; [done|]. intros _. by apply Hd1.
Qed.

(** ** Compensation *)
Lemma zip_references prepared (kept : list (string * string)) :
  kept.*2 `prefix_of` (prepared_token <$> prepared) -> (expected_of (zip prepared kept.*1)).*2 = kept.*1.
Proof.
  intros Hp%prefix_length. rewrite !length_fmap in Hp. unfold expected_of. rewrite <- list_fmap_compose.
  transitivity (zip prepared kept.*1).*2; [by apply list_fmap_ext|]. apply snd_zip. by rewrite length_fmap.
Qed.

Lemma elem_of_unreferenced prepared (kept : list (string * string)) db x :
  kept.*2 `prefix_of` (prepared_token <$> prepared) ->
  x ∈ elements (unreferenced_references (verify_import (expected_of (zip prepared kept.*1)) db)) <->
  x ∈ kept.*1 /\ x ∉ all_references db.
Proof.
  intros Hp. rewrite elem_of_elements. unfold verify_import. cbn [unreferenced_references].
  rewrite (zip_references _ _ Hp), elem_of_difference, elem_of_intersection, elem_of_list_to_set. naive_solver.
Qed.

(** What the import leaves when it ends with [r]. *)
Record left_behind (d0 : Dir) (kept : list (string * string)) (failing calm0 : Prop) (r : import_exn + bool) (w : ImportWorld)
    : Prop := {
  lb_new : iw_new w = kept.*1;
  lb_old n : is_Some (entries d0 !! n) -> file (iw_dir w) n = file d0 n;
  lb_kept : (forall x secret, (x, secret) ∈ kept -> x ∈ all_references (iw_db w) ->
               file (iw_dir w) x = Some (mkInode true true 384 secret)) \/
            failing /\ (r = inl AgentConfigImportError \/ r = inl ProcessDied);
  lb_exact : calm0 -> r <> inl AgentConfigImportOutcomeUncertain -> r <> inl ProcessDied ->
    forall x, x ∈ kept.*1 -> is_Some (file (iw_dir w) x) <-> x ∈ all_references (iw_db w)
}.

(** Deleting the references that no row names. *)
Lemma compensate d0 kept (failing calm0 : Prop) l res w w' :
  settled d0 -> stored d0 kept w -> (calm0 -> calm (iw_dir w) /\ depth (iw_dir w) = 0) -> NoDup l ->
  (forall x, x ∈ l -> x ∈ kept.*1) ->
  (forall x, x ∈ l -> x ∉ all_references (iw_db w)) \/ failing /\ ~ calm0 ->
  (calm0 -> forall x, x ∈ kept.*1 -> x ∉ l -> x ∈ all_references (iw_db w)) ->
  delete_new_credentials l w = (res, w') ->
  iw_db w' = iw_db w /\ (forall e, res = inl e -> e = ProcessDied) /\ (calm0 -> res = inr false) /\
  forall r, (forall e, res = inl e -> r = inl e) -> (failing -> ~ calm0 -> r = inl AgentConfigImportError \/ r = inl ProcessDied) ->
    left_behind d0 kept failing calm0 r w'.
Proof.
  intros Hd0 Hst Hcalm Hnd Hsub Hl Hrest E. pose proof (st_files _ _ _ Hst) as Hk.
  destruct (delete_all_spec d0 kept l w res w' Hd0 Hk) as (Edb & Enew & He & Hk'); [|done|].
  { intros x Hx%Hsub. apply list_elem_of_fmap in Hx as ([y s] & -> & Hy). by destruct (kf_new _ _ _ Hk _ _ Hy). }
  assert (Hworks : calm0 -> res = inr false /\ forall x, file (iw_dir w') x = if decide (x ∈ l) then None else file (iw_dir w) x).
  { intros Hc. destruct (Hcalm Hc) as [Hc1 H0]. destruct (delete_all_works d0 kept l w Hd0 Hk Hc1 H0 Hnd Hsub) as (w2 & E2 & Hf).
    rewrite E2 in E. by injection E as <- <-. }
  split_and!; [done|done|by intros [? _]%Hworks|]. intros r Hr Hfail. split.
  - by rewrite Enew, (st_new _ _ _ Hst).
  - apply (kf_old _ _ _ Hk').
  - destruct Hl as [Hl|[? ?]]; [left|right; auto]. intros x s Hx Href. rewrite Edb in Href.
    apply (kf_new _ _ _ Hk' x s). apply list_elem_of_filter. split; [|done]. cbn. intros Hin. by apply (Hl x).
  - intros Hc _ _ x Hx. destruct (Hworks Hc) as [_ Hf]. rewrite Hf, Edb. destruct (decide (x ∈ l)) as [Hin|Hin].
    + destruct Hl as [Hl|[_ ?]]; [|done]. split; [by intros []|]. intros Href. by destruct (Hl x Hin).
    + split; [intros _; by apply Hrest|]. intros _. apply list_elem_of_fmap in Hx as ([y s] & -> & Hy).
      cbn. destruct (kf_new _ _ _ Hk _ _ Hy) as [-> _]. by eexists.
Qed.

Lemma calm_no_failure d : calm d -> ~ Fails ∈ faults d.
Proof. intros [-> _]. apply not_elem_of_nil. Qed.

Lemma stored_left d0 kept failing calm0 r w :
  stored d0 kept w -> (calm0 -> r <> inl AgentConfigImportOutcomeUncertain -> r <> inl ProcessDied ->
    forall x, x ∈ kept.*1 -> x ∈ all_references (iw_db w)) -> left_behind d0 kept failing calm0 r w.
Proof.
  intros Hst Href. pose proof (st_files _ _ _ Hst) as Hk. split; [apply Hst|apply Hk| |].
  - left. intros x s Hx _. by apply (kf_new _ _ _ Hk x s).
  - intros Hc H1 H2 x Hx. split; [intros _; by apply Href|]. intros _.
    apply list_elem_of_fmap in Hx as ([y s] & -> & Hy). cbn. destruct (kf_new _ _ _ Hk _ _ Hy) as [-> _]. by eexists.
Qed.

(** Deleting what a verification found unreferenced, then ending with [final]. *)
Lemma sweep_spec d0 prepared kept (failing calm0 : Prop) w final r w' :
  settled d0 -> stored d0 kept w -> (calm0 -> calm (iw_dir w) /\ depth (iw_dir w) = 0) ->
  kept.*2 `prefix_of` (prepared_token <$> prepared) -> ~ (failing /\ calm0) ->
  (let% errors := delete_new_credentials (elements (unreferenced_references
     (verify_import (expected_of (zip prepared kept.*1)) (iw_db w)))) in
   if errors : bool then i_raise AgentConfigImportError else (fun w => (final, w))) w = (r, w') ->
  (r = final \/ r = inl AgentConfigImportError \/ r = inl ProcessDied) /\ iw_db w' = iw_db w /\
  left_behind d0 kept False calm0 r w'.
Proof.
  intros Hd0 Hst Hready Hpre Hfc E. set (l := elements _) in E.
  assert (Hl : forall x, x ∈ l <-> x ∈ kept.*1 /\ x ∉ all_references (iw_db w)) by (intros x; by apply elem_of_unreferenced).
  assert (exists res, delete_new_credentials l w = (res, w') /\
    r = match res with inl x => inl x | inr true => inl AgentConfigImportError | inr false => final end) as (res & Ed & ->).
  { apply i_bind_inv in E as [(x & E & ->)|([] & w1 & E & [= <- <-])]; [by exists (inl x)|by exists (inr true)|by exists (inr false)]. }
  eapply (compensate d0 kept False calm0) in Ed as (Edb & He & Hc & Hlb); [|done|done|done|apply NoDup_elements| | |].
  - split_and!; [|done|].
    + destruct res as [x|[]]; [rewrite (He x eq_refl)|..]; auto.
    + apply Hlb; [by intros x ->|done].
  - intros x Hx. by apply Hl.
  - left. intros x Hx. by apply Hl.
  - intros _ x Hx Hn. destruct (decide (x ∈ all_references (iw_db w))); [done|]. exfalso. apply Hn, Hl. done.
Qed.

Lemma left_weaken d0 kept (failing failing' calm0 : Prop) r w :
  (failing -> failing') -> left_behind d0 kept failing calm0 r w -> left_behind d0 kept failing' calm0 r w.
Proof. intros Hf [L1 L2 [L3|[L3 L3']] L4]; split; auto. Qed.

(** What every handler ensures. *)
Definition handled (d0 : Dir) (kept : list (string * string)) (w0 : ImportWorld) (r : import_exn + bool) (w' : ImportWorld) : Prop :=
  left_behind d0 kept (Fails ∈ faults (iw_dir w0)) (calm (iw_dir w0)) r w' /\ r <> inr true /\
  (r = inr false -> marks_stay -> is_marked (iw_db w') = true).

(** Any other exception: all new credentials are deleted. *)
Lemma generic_handler_spec d0 kept w0 w r w' :
  settled d0 -> stored d0 kept w -> (calm (iw_dir w0) -> calm (iw_dir w) /\ depth (iw_dir w) = 0) ->
  absent (iw_db w) \/ Fails ∈ faults (iw_dir w0) ->
  (delete_new_credentials kept.*1 ;;% i_raise AgentConfigImportError) w = (r, w') -> handled d0 kept w0 r w'.
Proof.
  intros Hd0 Hst Hready Hab Eg.
  assert (exists res, delete_new_credentials kept.*1 w = (res, w') /\
    r = match res with inl x => inl x | inr _ => inl AgentConfigImportError end) as (res & Ed & ->).
  { apply i_bind_inv in Eg as [(x & Eg & ->)|(u & w1 & Eg & [= <- <-])]; [by exists (inl x)|by exists (inr u)]. }
  eapply (compensate d0 kept (Fails ∈ faults (iw_dir w0)) (calm (iw_dir w0))) in Ed as (_ & He & _ & Hlb);
    [|done|done|done|apply Hst|done| |done].
  - split; [apply Hlb|by destruct res].
    + by intros x ->.
    + intros _ _. destruct res as [x|u]; [right; by rewrite (He x eq_refl)|by left].
  - destruct Hab as [Hab|Hf]; [left; intros x Hx; apply Hab, (st_drawn _ _ _ Hst), Hx|].
    right. split; [done|]. intros Hc. by apply (calm_no_failure _ Hc).
Qed.

(** A verified mismatch: the unreferenced ones are deleted. *)
Lemma mismatch_handler_spec d0 prepared kept w0 w final r w' :
  settled d0 -> stored d0 kept w -> (calm (iw_dir w0) -> calm (iw_dir w) /\ depth (iw_dir w) = 0) ->
  kept.*2 `prefix_of` (prepared_token <$> prepared) ->
  final <> inr true -> (final = inr false -> marks_stay -> is_marked (iw_db w) = true) ->
  (let% errors := delete_new_credentials (elements (unreferenced_references
     (verify_import (expected_of (zip prepared kept.*1)) (iw_db w)))) in
   if errors : bool then i_raise AgentConfigImportError else (fun w => (final, w))) w = (r, w') ->
  handled d0 kept w0 r w'.
Proof.
  intros Hd0 Hst Hready Hpre Hft Hm Es.
  eapply (sweep_spec d0 prepared kept False (calm (iw_dir w0)) w final) in Es as (Hr & Edb & Hlb); [|done|done|done|done|by intros []].
  split_and!; [by apply (left_weaken _ _ False)|by destruct Hr as [->|[->| ->]]|].
  intros -> Hs. rewrite Edb. destruct Hr as [<-|[?|?]]; auto; done.
Qed.

(** The handlers, for each way the lease can end. *)
Lemma handler_spec d0 prepared w0 kept e w r w' :
  settled d0 -> stored d0 kept w ->
  (calm (iw_dir w0) -> calm (iw_dir w) /\ (inl (B := unit) e <> inl ProcessDied -> depth (iw_dir w) = 0)) ->
  outcome prepared kept (Fails ∈ faults (iw_dir w0)) (inl e) (iw_db w) -> e <> ProcessDied ->
  handle_import_error prepared e w = (r, w') ->
  handled d0 kept w0 r w'.
Proof.
  intros Hd0 Hst Hcalm [Hpre Hout] Hne E. unfold handle_import_error in E.
  assert (Hready : calm (iw_dir w0) -> calm (iw_dir w) /\ depth (iw_dir w) = 0).
  { intros Hc. destruct (Hcalm Hc) as [? Hd]. split; [done|]. apply Hd. congruence. }
  apply i_bind_inv in E as [(x & [=] & _)|(references & w1 & [= <- <-] & E)]. rewrite (st_new _ _ _ Hst) in E.
  destruct e as [| | |v|x| |]; try done.
  - injection E as <- <-. split; [by apply stored_left|done].
  - (* a concurrent import *)
    apply i_bind_inv in E as [(x & Ev & ->)|(v & w1 & Ev & E)].
    + apply i_catch_inv in Ev as [[Ev Hx]|(y & w2 & _ & Ev & [= <- <-])];
        apply verify_committed_import_inv in Ev as ((Hdir & Hnew) & _ & _); (split; [|done]); apply stored_left;
        try (apply (stored_same d0 kept w); [by rewrite Hdir|done|done]); [|done].
      intros _ _ Hdead. by rewrite (Hx x eq_refl) in Hdead.
    + apply i_catch_inv in Ev as [[Ev _]|(y & w2 & _ & _ & [=])].
      apply verify_committed_import_inv in Ev as ((Hdir & Hnew) & Hmark & ->).
      eapply (mismatch_handler_spec d0 prepared kept w0 w1 (inr false)) in E;
        [done|done|by apply (stored_same d0 kept w); [rewrite Hdir| |]|by rewrite Hdir|done|done|].
      intros _ Hm. apply Hmark; [done|apply Hout].
  - (* the commit was found to differ *)
    destruct Hout as [_ ->]. set (v := verify_import _ _) in E.
    destruct (marker_complete v) eqn:Em; [by eapply (mismatch_handler_spec d0 prepared kept w0 w (inr false)) in E|].
    destruct (negb _);
      [by eapply (mismatch_handler_spec d0 prepared kept w0 w (inl AgentConfigImportOutcomeUncertain)) in E|
       by eapply (mismatch_handler_spec d0 prepared kept w0 w (inl AgentConfigImportError)) in E].
  - by eapply generic_handler_spec.
  - eapply generic_handler_spec; [done|done|done| |exact E]. by left.
Qed.

(** ** The whole import *)
Lemma prepare_import_inv r w w' :
  prepare_import_if_needed w = (r, w') ->
  same_files w w' /\ (absent (iw_db w) -> absent (iw_db w')) /\
  match r with
  | inr true => ~ (marks_stay /\ is_marked (iw_db w) = true)
  | inr false => is_marked (iw_db w') = true
  | inl e => e = AgentConfigImportError \/ e = ProcessDied
  end.
Proof.
  intros E. unfold prepare_import_if_needed in E. apply i_bind_inv in E as [(e & E & ->)|(n & w1 & En & E)].
  { apply next_moment_inv in E as [[[= ->] ->]|(n & [=] & _)]. split_and!; [done|done|by right]. }
  apply next_moment_inv in En as [[[=] _]|(n' & [= <-] & ->)]. set (w1 := mkImport _ _ _ _) in E.
  assert (Ha1 : absent (iw_db w) -> absent (iw_db w1)) by (cbn; apply Hforeign).
  assert (Hm1 : marks_stay -> is_marked (iw_db w) = true -> is_marked (iw_db w1) = true) by (intros Hm; apply Hm).
  change (same_files w1 w' /\ (absent (iw_db w) -> absent (iw_db w')) /\ match r with
    | inr true => ~ (marks_stay /\ is_marked (iw_db w) = true) | inr false => is_marked (iw_db w') = true
    | inl e => e = AgentConfigImportError \/ e = ProcessDied end).
  clearbody w1. match type of E with i_catch ?m _ w1 = _ => assert (Hb : forall r w', m w1 = (r, w') -> same_files w1 w' /\
    (absent (iw_db w) -> absent (iw_db w')) /\ match r with
    | inr true => ~ (marks_stay /\ is_marked (iw_db w) = true) | inr false => is_marked (iw_db w') = true
    | inl e => e = DatabaseRaised end) end.
  { clear E r w'. intros r w' E.
    apply i_bind_inv in E as [(e & [-> [? | [= ->]]]%statement_inv & ->)|(u & w2 & [-> _]%statement_inv & E)]; [done|done|].
    apply i_bind_inv in E as [(e & [=] & _)|(db & w2 & [= <- <-] & E)].
    destruct (is_marked (iw_db w1)) eqn:Em; [|destruct (has_agents (iw_db w1))];
      apply i_bind_inv in E as [(e & E & ->)|(u' & w2 & E & [= <- <-])].
    - by apply rollback_inv in E as [-> [?|[= ->]]].
    - by apply rollback_inv in E as [-> _].
    - apply commit_inv in E as (? & ? & [[[=] _]|[[= ->] [Hdb|Hdb]]]); split_and!; rewrite ?Hdb; try done.
    - apply commit_inv in E as (? & ? & [[_ Hdb]|[[=] _]]); split_and!; rewrite ?Hdb; try done.
      unfold is_marked. apply bool_decide_true, lookup_insert_eq.
    - by apply rollback_inv in E as [-> [?|[= ->]]].
    - apply rollback_inv in E as [-> _]. split_and!; [done|done|]. intros [Hm Hw]. pose proof (Hm1 Hm Hw). congruence. }
  apply i_catch_inv in E as [[E Hd]|(e & w2 & _ & E & [= <- <-])].
  - apply Hb in E as (? & ? & Hr). split_and!; [done|done|]. destruct r as [e|[]]; [|done|done]. right. by apply Hd.
  - apply Hb in E as (? & ? & _). split_and!; [done|done|by left].
Qed.

(** With the marker set, nothing is prepared. *)
Lemma prepare_marked r w w' :
  marks_stay -> is_marked (iw_db w) = true -> prepare_import_if_needed w = (r, w') ->
  iw_dir w' = iw_dir w /\ r <> inr true /\ (iw_db w' = iw_db w \/ iw_db w' = im_other (iw_moment w) (iw_db w)).
Proof.
  intros Hm Hw. apply (Hm (iw_moment w)) in Hw. unfold prepare_import_if_needed, i_bind at 1, next_moment.
  destruct (im_dies (iw_moment w)); [intros [= <- <-]; auto|].
  unfold i_catch, i_bind, statement, get_db, rollback, i_raise, i_ret.
  destruct (im_statement _); [intros [= <- <-]; auto|]. cbn [iw_db]. rewrite Hw.
  destruct (im_rollback _); intros [= <- <-]; auto.
Qed.

Context `{UrlLib} (agents : list AgentConfig) (manager_token : string) (profiles : list TransportProfile).
Local Abbreviation import := (import_yaml_agents_once agents manager_token profiles).

Lemma kept_length prepared (kept : list (string * string)) :
  kept.*2 = prepared_token <$> prepared -> length prepared = length kept.*1.
Proof. intros E%(f_equal length). rewrite !length_fmap in E |- *. rewrite length_fmap in E. by rewrite E. Qed.

Lemma kept_lookup prepared (kept : list (string * string)) i x item :
  kept.*2 `prefix_of` (prepared_token <$> prepared) -> kept.*1 !! i = Some x -> prepared !! i = Some item ->
  (x, prepared_token item) ∈ kept.
Proof.
  intros Hp Hx Hi. rewrite list_lookup_fmap in Hx. destruct (kept !! i) as [[y s]|] eqn:Ei; [|done]. injection Hx as <-.
  apply (list_elem_of_lookup_2 _ i). rewrite Ei. do 2 f_equal.
  assert (E1 : kept.*2 !! i = Some s) by (by rewrite list_lookup_fmap, Ei). apply (prefix_lookup_Some _ _ _ _ E1) in Hp.
  rewrite list_lookup_fmap, Hi in Hp. by injection Hp.
Qed.

Lemma import_spec w r w' :
  settled (iw_dir w) -> depth (iw_dir w) = 0 -> absent (iw_db w) -> iw_new w = [] -> import w = (r, w') ->
  exists kept, left_behind (iw_dir w) kept (Fails ∈ faults (iw_dir w)) (calm (iw_dir w)) r w' /\
    (forall b, r = inr b -> marks_stay -> is_marked (iw_db w') = true) /\
    forall prepared, prepare_all manager_token profiles agents = Some prepared ->
      kept.*2 `prefix_of` (prepared_token <$> prepared) /\
      (r = inr true -> kept.*2 = prepared_token <$> prepared /\
         forall item x, (item, x) ∈ zip prepared kept.*1 -> registered item x (iw_db w')).
Proof.
  intros Hd Hdepth Ha Hnew E. unfold import_yaml_agents_once in E.
  assert (Hnone : forall w1, same_files w w1 -> stored (iw_dir w) [] w1).
  { intros w1 [Hd1 Hn1]. split; [by rewrite Hn1|rewrite Hd1; split; [done|by intros ? ? ?%elem_of_nil]|apply NoDup_nil_2|].
    by intros x ?%elem_of_nil. }
  assert (Hearly : forall r w1, same_files w w1 -> r <> inr true ->
    (forall b, r = inr b -> marks_stay -> is_marked (iw_db w1) = true) ->
    exists kept, left_behind (iw_dir w) kept (Fails ∈ faults (iw_dir w)) (calm (iw_dir w)) r w1 /\
    (forall b, r = inr b -> marks_stay -> is_marked (iw_db w1) = true) /\
    forall prepared, prepare_all manager_token profiles agents = Some prepared ->
      kept.*2 `prefix_of` (prepared_token <$> prepared) /\
      (r = inr true -> kept.*2 = prepared_token <$> prepared /\
         forall item x, (item, x) ∈ zip prepared kept.*1 -> registered item x (iw_db w1))).
  { intros r1 w1 Hs Hr Hb. exists []. split_and!; [|done|].
    - apply stored_left; [by apply Hnone|]. by intros _ _ _ x ?%elem_of_nil.
    - intros prepared _. split; [apply prefix_nil|done]. }
  apply i_bind_inv in E as [(e & E & ->)|(needed & w1 & En & E)].
  { apply prepare_import_inv in E as (Hs & _ & He). by apply Hearly. }
  apply prepare_import_inv in En as (Hs & Ha1 & Hneeded). specialize (Ha1 Ha).
  destruct needed; cbn [negb] in E; [|injection E as <- <-; by apply Hearly; [| |by intros b [= <-] _]].
  destruct (prepare_all manager_token profiles agents) as [prepared|] eqn:Ep.
  2: { injection E as <- <-. by apply Hearly. }
  destruct Hs as [Hdir Hn].
  assert (Hlease : forall r1 w2, store_and_commit prepared w1 = (r1, w2) -> leased (iw_dir w) prepared w1 r1 w2).
  { intros r1 w2 Es. eapply store_and_commit_spec; [exact Hd|by rewrite Hdir|by apply Hnone|done|by rewrite Hdir|exact Es]. }
  apply i_catch_inv in E as [[E Hx]|(e & w2 & Hne & E & Eh)].
  - apply i_bind_inv in E as [(e & Es & ->)|(u & w2 & Es & [= <- <-])];
      apply Hlease in Es as (kept & Hst & Hcalm & Hpre & Hout); exists kept.
    + rewrite (Hx e eq_refl). split_and!; [by apply stored_left|done|]. by intros ? [= <-].
    + destruct Hout as (Htokens & Hmark & Hreg). split_and!; [|by intros|].
      * apply stored_left; [done|]. intros _ _ _ x Hx1. apply list_elem_of_lookup in Hx1 as [i Hi].
        assert (exists item, prepared !! i = Some item) as [item Hitem].
        { apply lookup_lt_is_Some. apply lookup_lt_Some in Hi. by rewrite (kept_length prepared kept Htokens). }
        eapply registered_referenced, (Hreg item x). apply (list_elem_of_lookup_2 _ i). by apply lookup_zip_Some.
      * intros ? [= <-]. done.
  - apply i_bind_inv in E as [(e' & Es & [= <-])|(u & w3 & _ & [=])].
    apply Hlease in Es as (kept & Hst & Hcalm & Hout). exists kept. rewrite Hdir in Hcalm, Hout.
    eapply (handler_spec (iw_dir w) prepared w kept e w2) in Eh as (Hlb & Hr & Hm); [|done|done|done|done|done].
    split_and!; [done| |].
    + intros [] Hb; [done|]. by apply Hm.
    + intros ? [= <-]. split; [apply Hout|done].
Qed.

(** C31: The importer does not take away a credential that is in use.  Whatever
    the database, the credential directory and other connections do, and
    wherever the process dies: every file that was in the directory before is
    unchanged; and every new credential that an Agent or a job of the database
    names is there, with the token of its Agent, unless a system call of the
    directory failed and the import ended with an error.  Others do not write
    references that they have not drawn. *)
Theorem import_keeps_credentials prepared w r w' :
  settled (iw_dir w) -> depth (iw_dir w) = 0 -> absent (iw_db w) -> iw_new w = [] ->
  prepare_all manager_token profiles agents = Some prepared -> import w = (r, w') ->
  (forall n, is_Some (entries (iw_dir w) !! n) -> file (iw_dir w') n = file (iw_dir w) n) /\
  ((forall i x item, iw_new w' !! i = Some x -> prepared !! i = Some item -> x ∈ all_references (iw_db w') ->
      file (iw_dir w') x = Some (mkInode true true 384 (prepared_token item))) \/
   Fails ∈ faults (iw_dir w) /\ (r = inl AgentConfigImportError \/ r = inl ProcessDied)).
Proof.
  intros Hd Hdepth Ha Hnew Hp E. apply import_spec in E as (kept & [L1 L2 L3 _] & _ & Hpre); [|done..].
  destruct (Hpre prepared Hp) as [Htokens _]. split; [done|]. destruct L3 as [L3|?]; [left|by right].
  intros i x item Hx Hi Href. rewrite L1 in Hx. apply (L3 x); [|done]. by eapply kept_lookup.
Qed.

(** Where no system call of the directory fails, the compensation is
    complete, whatever the database does: when the import returns or raises
    (the process did not die and the outcome is not reported as uncertain), a
    new credential is in the directory exactly when the database names it.
    When it returns true, there is one new credential per configured Agent, and
    each Agent is registered with its own. *)
Theorem import_compensates prepared w r w' :
  settled (iw_dir w) -> depth (iw_dir w) = 0 -> absent (iw_db w) -> iw_new w = [] -> calm (iw_dir w) ->
  prepare_all manager_token profiles agents = Some prepared -> import w = (r, w') ->
  r <> inl AgentConfigImportOutcomeUncertain -> r <> inl ProcessDied ->
  (forall x, x ∈ iw_new w' -> is_Some (file (iw_dir w') x) <-> x ∈ all_references (iw_db w')) /\
  (r = inr true -> length (iw_new w') = length prepared /\
     forall i x item, iw_new w' !! i = Some x -> prepared !! i = Some item ->
       registered item x (iw_db w') /\ file (iw_dir w') x = Some (mkInode true true 384 (prepared_token item))).
Proof.
  intros Hd Hdepth Ha Hnew Hc Hp E H1 H2. apply import_spec in E as (kept & [L1 L2 L3 L4] & _ & Hpre); [|done..].
  destruct (Hpre prepared Hp) as [Htokens Hsucc]. rewrite L1. split; [by apply L4|]. intros ->.
  destruct (Hsucc eq_refl) as [Hall Hreg]. split.
  - by rewrite (kept_length prepared kept Hall).
  - intros i x item Hx Hi. assert (Hr : registered item x (iw_db w')).
    { apply Hreg, (list_elem_of_lookup_2 _ i). by apply lookup_zip_Some. }
    split; [done|]. destruct L3 as [L3|[_ [?|?]]]; [|done..].
    apply (L3 x); [by eapply kept_lookup|by eapply registered_referenced].
Qed.

(** The import happens once.  As long as nobody takes the marker back: when
    the import returns, the marker is set; and once it is set, an import
    changes neither the directory nor anything in the database, and does not
    return true. *)
Theorem import_happens_once w r w' :
  marks_stay -> settled (iw_dir w) -> depth (iw_dir w) = 0 -> absent (iw_db w) -> iw_new w = [] -> import w = (r, w') ->
  (forall b, r = inr b -> is_marked (iw_db w') = true) /\
  (is_marked (iw_db w) = true ->
   iw_dir w' = iw_dir w /\ r <> inr true /\ (iw_db w' = iw_db w \/ iw_db w' = im_other (iw_moment w) (iw_db w))).
Proof.
  intros Hm Hd Hdepth Ha Hnew E. pose proof E as E'. apply import_spec in E' as (kept & _ & Hmark & _); [|done..].
  split; [intros b Hb; by eapply Hmark|]. intros Hw. unfold import_yaml_agents_once in E.
  apply i_bind_inv in E as [(e & E & ->)|(needed & w1 & E & E1)]; apply prepare_marked in E as (Hdir & Hn & Hdb); [done..| |done|done].
  destruct needed; [done|]. by injection E1 as <- <-.
Qed.
End Claims.

(** ** Samples *)
(** One configured Agent with its token file; [c] is how the commit ends. *)
Definition token_file : SourceFile :=
  mkSource false true (1, 7)%Z (Some (mkOpened true (1, 7)%Z true 384 5 (Some [115; 51; 32; 99; 10]%Z))).

#[local] Instance sample_importing (c : commit_outcome) : Importing := {
  im_other _ db := db;
  im_statement _ := false;
  im_commit _ := c;
  im_rollback _ := false;
  im_now _ := 100%Z;
  im_tokens _ := sample_tokens;
  im_random _ := "random";
  im_source _ _ := Some token_file;
  im_dies _ := false
}.

Definition sample_agents : list AgentConfig :=
  [mkAgentConfig "agent-1" "Agent one" "http://agent-1:8765" (Some "/etc/agent.token") true None true].

Definition sample_prepared : list PreparedAgent :=
  [mkPrepared (mkAgentConfig "agent-1" "Agent one" "http://agent-1:8765" (Some "/etc/agent.token") true None true)
     "http://agent-1:8765" "s3 c" "legacy-config-http"].

Definition sample_import_world (fs : list fault) : ImportWorld := mkImport empty_db (sample_dir fs) [] 0.

Lemma sample_absent c : absent (H := sample_importing c) empty_db.
Proof. intros r _. by vm_compute. Qed.

Lemma sample_foreign c : foreign (H := sample_importing c).
Proof. by intros n db. Qed.

Lemma sample_prepare c : prepare_all (H0 := sample_importing c) "manager" [] sample_agents = Some sample_prepared.
Proof. vm_compute. reflexivity. Qed.

Local Abbreviation sample_import c := (import_yaml_agents_once (H := sample_importing c) sample_agents "manager" []).

Lemma sample_runs (c : commit_outcome) :
  let w := (sample_import c (sample_import_world [])).2 in
  iw_new w = [ref_b] /\
  (sample_import c (sample_import_world [])).1 = match c with CommitRaises => inl AgentConfigImportError | _ => inr true end /\
  bool_decide (ref_b ∈ all_references (iw_db w)) = match c with CommitRaises => false | _ => true end.
Proof. destruct c; vm_compute; split; [reflexivity|split; reflexivity|reflexivity|split; reflexivity|reflexivity|split; reflexivity]. Qed.

(** The commit raises although it took place: the import notices and keeps the credential. *)
Lemma import_keeps_credentials_witness :
  let w := (sample_import CommitRaisesLate (sample_import_world [])).2 in
  ref_b ∈ all_references (iw_db w) /\ file (iw_dir w) ref_b = Some (mkInode true true 384 "s3 c").
Proof.
  destruct (sample_runs CommitRaisesLate) as (Hnew & Hr & Href). apply bool_decide_eq_true in Href.
  destruct (import_keeps_credentials (H := sample_importing CommitRaisesLate) (fun _ => sample_tokens_ok) (sample_foreign _)
    sample_agents "manager" [] sample_prepared (sample_import_world []) _ _ (sample_settled []) eq_refl (sample_absent _) eq_refl
    (sample_prepare _) (surjective_pairing _)) as [_ [Hk|[Hf _]]].
  - split; [exact Href|]. refine (Hk 0 ref_b _ _ eq_refl Href). rewrite Hnew. reflexivity.
  - exfalso. exact (not_elem_of_nil _ Hf).
Defined.

(** The commit raises without effect: the credential is deleted again. *)
Lemma import_compensates_witness :
  let w := (sample_import CommitRaises (sample_import_world [])).2 in
  (sample_import CommitRaises (sample_import_world [])).1 = inl AgentConfigImportError /\ ~ is_Some (file (iw_dir w) ref_b).
Proof.
  destruct (sample_runs CommitRaises) as (Hnew & Hr & Href). apply bool_decide_eq_false in Href.
  destruct (import_compensates (H := sample_importing CommitRaises) (fun _ => sample_tokens_ok) (sample_foreign _)
    sample_agents "manager" [] sample_prepared (sample_import_world []) _ _ (sample_settled []) eq_refl (sample_absent _) eq_refl
    (conj eq_refl eq_refl) (sample_prepare _) (surjective_pairing _)) as [Hx _].
  - rewrite Hr. discriminate.
  - rewrite Hr. discriminate.
  - split; [exact Hr|]. intros Hf. apply Href, Hx; [|exact Hf]. rewrite Hnew. by left.
Defined.

Lemma import_happens_once_witness :
  let w := (sample_import CommitReturns (sample_import_world [])).2 in
  (sample_import CommitReturns (sample_import_world [])).1 = inr true /\ is_marked (iw_db w) = true.
Proof.
  destruct (sample_runs CommitReturns) as (_ & Hr & _). split; [exact Hr|].
  destruct (import_happens_once (H := sample_importing CommitReturns) (fun _ => sample_tokens_ok) (sample_foreign _)
    sample_agents "manager" [] (sample_import_world []) _ _ (fun _ _ m => m) (sample_settled []) eq_refl (sample_absent _) eq_refl
    (surjective_pairing _)) as [Hm _]. exact (Hm true Hr).
Defined.

(** A failing unlock loses a credential: the transaction is committed, the
    release of the directory's lock then fails, and the importer deletes the
    credential of the Agent that it has just registered. *)
Definition unlock_fails : list fault := repeat Works 15 ++ [Fails].

Example unlock_failure_loses_credential :
  let p := sample_import CommitReturns (sample_import_world unlock_fails) in
  p.1 = inl AgentConfigImportError /\ is_marked (iw_db p.2) = true /\
  bool_decide (ref_b ∈ all_references (iw_db p.2)) = true /\ file (iw_dir p.2) ref_b = None.
Proof. vm_compute. split; [reflexivity|split; [reflexivity|split; reflexivity]]. Qed.
