(* ===== verification/AgentHttp.v ===== *)
(** * The HTTP client for Agents

    [AgentHttpClient] of [src/backend/ic_env_guard/agents/client.py]: which
    paths it sends, with which headers, and which responses it lets through.
    The HTTP library is a parameter, the class [Wire]: it says how a request
    ends, by an exception or with a streamed response.  A request is a writer of
    the requests that were handed to the library, and ends in an error or a
    value. *)

From stdpp Require Import base tactics list gmap strings.
From Stdlib Require Import ZArith Lia Ascii.
From S2P Require Import Prelude Text Digest Models JobValidation ManagerRegistry TargetPolicy LatestValue LogSources LogTail FleetImport.

Definition MAX_AGENT_RESPONSE_BYTES : Z := 1024 * 1024.
Definition MAX_AGENT_TAIL_RESPONSE_BYTES : Z := 1024 * 1024.
Definition MAX_JSON_NESTING : Z := 64.
Definition FORWARDED_HEADERS : list string := ["accept"; "content-type"].

(** ** Paths *)
Definition percent (c : ascii) : bool := is_char "%" c.

(** [%[0-9A-Fa-f]{2}] at the beginning *)
Definition escape_at (s : string) : bool :=
  match s with
  | String p (String a (String b _)) => percent p && is_hex a && is_hex b
  | _ => false
  end.

(** Every percent sign begins an escape. *)
Fixpoint escapes_ok (s : string) : bool :=
  match s with
  | EmptyString => true
  | String c rest => (if percent c then escape_at s else true) && escapes_ok rest
  end.

(** [PERCENT_ESCAPE.search] *)
Fixpoint has_escape (s : string) : bool :=
  match s with
  | EmptyString => false
  | String _ rest => escape_at s || has_escape rest
  end.

(** [urllib.parse.unquote_to_bytes] *)
Fixpoint unquote (s : string) : string :=
  match s with
  | EmptyString => EmptyString
  | String c rest =>
      match rest with
      | String a (String b rest2) =>
          if percent c && is_hex a && is_hex b
          then String (Ascii.ascii_of_nat (Z.to_nat (16 * hex_value a + hex_value b))) (unquote rest2)
          else String c (unquote rest)
      | _ => String c (unquote rest)
      end
  end.

(** [sub in s] *)
Fixpoint has_substring (sub s : string) : bool :=
  String.prefix sub s || match s with EmptyString => false | String _ rest => has_substring sub rest end.

(** [s.count(c)] *)
Fixpoint count_char (c : ascii) (s : string) : nat :=
  match s with
  | EmptyString => 0
  | String d rest => (if is_char c d then 1 else 0) + count_char c rest
  end.

Definition no_control (s : string) : bool := all_chars (fun c => negb (control_char c)) s.

Definition validate_upstream_path (path : string) : bool :=
  let decoded := unquote path in
  negb (negb (String.prefix "/" path) || String.prefix "//" path || has_substring "://" path || has_char "?" path ||
        has_char "#" path || has_char "\" path ||
        existsb (fun segment => bool_decide (segment ∈ ["."; ".."])) (split_on "/" path) || negb (no_control path)) &&
  escapes_ok path &&
  strict_utf8 (bytes_of decoded) &&
  negb (negb (count_char "/" decoded =? count_char "/" path) || has_char "\" decoded || has_char "?" decoded ||
        has_char "#" decoded || negb (no_control decoded) ||
        existsb (fun segment => bool_decide (segment ∈ [""; "."; ".."])) (tail (split_on "/" decoded)) ||
        has_escape decoded).

(** [_decode_credential] *)
Definition decode_credential (credential : string) : option string :=
  if negb (all_chars (fun c => (byte_of c <? 128)%Z) credential) then None
  else if bool_decide (credential = "") ||
          negb (all_chars (fun c => negb (py_space (byte_of c) || (byte_of c <? 32)%Z)) credential)
  then None else Some credential.

(** ** Nesting of a JSON text *)
Record JsonScan := mkJsonScan { scan_depth : Z; scan_in_string : bool; scan_escaped : bool }.

(** One byte; [None] is [ValueError]. *)
Definition scan_byte (c : ascii) (s : JsonScan) : option JsonScan :=
  let value := byte_of c in
  if scan_in_string s then
    if scan_escaped s then Some (mkJsonScan (scan_depth s) true false)
    else if (value =? 92)%Z then Some (mkJsonScan (scan_depth s) true true)
    else if (value =? 34)%Z then Some (mkJsonScan (scan_depth s) false false)
    else Some s
  else if (value =? 34)%Z then Some (mkJsonScan (scan_depth s) true (scan_escaped s))
  else if (value =? 91)%Z || (value =? 123)%Z then
    if (MAX_JSON_NESTING <? scan_depth s + 1)%Z then None
    else Some (mkJsonScan (scan_depth s + 1) false (scan_escaped s))
  else if (value =? 93)%Z || (value =? 125)%Z then Some (mkJsonScan (scan_depth s - 1) false (scan_escaped s))
  else Some s.

Fixpoint scan_text (payload : string) (s : JsonScan) : option JsonScan :=
  match payload with
  | EmptyString => Some s
  | String c rest => s ← scan_byte c s; scan_text rest s
  end.

Definition validate_json_nesting (payload : string) : bool := is_some (scan_text payload (mkJsonScan 0 false false)).

(** ** Requests and responses *)
(** How the certificate is verified; [SharedClient] is a client that was given
    its transport. *)
Inductive Verification := SharedClient | VerifyDefault | VerifyWith (ca_bundle : string) | VerifyNothing.

Record HttpRequest := mkHttpRequest {
  hr_method : string;
  hr_url : string;
  hr_headers : list (string * string);
  hr_params : list (string * json);
  hr_json : option json;
  hr_timeout : Z * option Z;
  hr_sni : option string;
  hr_verify : Verification
}.

(** The exceptions the client tells apart.  A [TransportError] carries, for each
    exception of its chain, whether it is an [ssl.SSLError]. *)
Inductive wire_exn :=
| SslOrOsError
| TimeoutException
| InvalidURL
| HttpProtocolError
| DecodingError
| StreamError
| TransportError (chain : list bool)
| ValueOrTypeError
| OtherException
| Cancellation.

(** A response while it is read: [sr_content] is the content of a response that
    was already read, else the raw chunks follow, and maybe an exception. *)
Record StreamedResponse := mkStreamed {
  sr_status : Z;
  sr_headers : list (string * string);
  sr_content : option string;
  sr_chunks : list string;
  sr_end : option wire_exn
}.

(** [wire_stream] is [httpx.AsyncClient.stream], [wire_ca] tells whether
    [ssl.create_default_context] accepts a bundle, and [json_loads] is
    [json.loads] of bytes, with the constants [NaN] and [Infinity] if the flag
    is set. *)
Class Wire := {
  wire_stream : HttpRequest -> wire_exn + StreamedResponse;
  wire_ca : string -> bool;
  json_loads : bool -> string -> option json
}.

Record HttpReply := mkReply { reply_status : Z; reply_headers : list (string * string); reply_content : string }.

(** [headers.get(name)], which does not look at the case of letters. *)
Definition header (name : string) (l : list (string * string)) : option string :=
  (fun x => x.2.2) <$> list_find (fun h => lower h.1 = name) l.

(** ** Errors *)
Inductive client_exn :=
| AgentClientError (category dispatch_state : string)
| Raised (e : wire_exn).

Definition Exchange (A : Type) : Type := list HttpRequest * (client_exn + A).

Definition x_ret {A} (a : A) : Exchange A := ([], inr a).
Definition x_raise {A} (e : client_exn) : Exchange A := ([], inl e).

Definition x_bind {A B} (m : Exchange A) (k : A -> Exchange B) : Exchange B :=
  match m with
  | (sent, inl e) => (sent, inl e)
  | (sent, inr a) => let '(sent', r) := k a in (sent ++ sent', r)
  end.

Definition x_require (b : bool) (category dispatch_state : string) : Exchange unit :=
  if b then x_ret tt else x_raise (AgentClientError category dispatch_state).

Declare Scope exchange_scope.
Notation "'let$' x ':=' m 'in' k" := (x_bind m (fun x => k))
  (at level 10, x pattern, m at level 100, k at level 200) : exchange_scope.
Notation "m ';;$' k" := (x_bind m (fun _ => k)) (at level 199, right associativity) : exchange_scope.
Local Open Scope exchange_scope.

Definition protocol_error {A} : Exchange A := x_raise (AgentClientError "agent_protocol_error" "dispatched").

(** ** Reading a response *)
Definition strip_text (s : string) : string := string_of_bytes (encode (strip_points (decode (bytes_of s)))).

Definition byte_size (s : string) : Z := Z.of_nat (String.length s).

(** [int(text)] refuses more than 4300 digits. *)
Definition content_length_ok (text : string) (max_response_bytes : Z) : Exchange unit :=
  if negb (nonempty text && all_chars is_digit text) then protocol_error
  else if (4300 <? String.length text)%nat then x_raise (Raised ValueOrTypeError)
  else if (max_response_bytes <? decimal_value 0 text)%Z then protocol_error
  else x_ret tt.

(** [async for chunk in streamed.aiter_raw(...)] *)
Fixpoint read_chunks (max_response_bytes : Z) (content : string) (chunks : list string) (ending : option wire_exn)
    : Exchange string :=
  match chunks with
  | [] => match ending with Some e => x_raise (Raised e) | None => x_ret content end
  | chunk :: chunks =>
      let content := content +:+ chunk in
      if (max_response_bytes <? byte_size content)%Z then protocol_error
      else read_chunks max_response_bytes content chunks ending
  end.

Definition read_bounded_response (streamed : StreamedResponse) (max_response_bytes : Z) : Exchange HttpReply :=
  let content_encoding := lower (strip_text (default "" (header "content-encoding" (sr_headers streamed)))) in
  (if bool_decide (content_encoding ∈ [""; "identity"]) then x_ret tt else protocol_error) ;;$
  match header "content-length" (sr_headers streamed) with
  | Some content_length => content_length_ok content_length max_response_bytes
  | None => x_ret tt
  end ;;$
  let$ content := match sr_content streamed with
                  | Some content => if (max_response_bytes <? byte_size content)%Z then protocol_error else x_ret content
                  | None => read_chunks max_response_bytes "" (sr_chunks streamed) (sr_end streamed)
                  end in
  x_ret (mkReply (sr_status streamed) (sr_headers streamed) content).

Definition content_type (l : list (string * string)) : string :=
  lower (strip_text (partition ";" (default "" (header "content-type" l))).1).

Section Client.
Context `{Wire}.

Definition validate_response (response : HttpReply) (max_response_bytes : Z) : Exchange HttpReply :=
  if (300 <=? reply_status response)%Z && (reply_status response <? 400)%Z then protocol_error
  else if (max_response_bytes <? byte_size (reply_content response))%Z then protocol_error
  else if (reply_status response =? 204)%Z then x_ret response
  else if negb (bool_decide (content_type (reply_headers response) = "application/json")) then protocol_error
  else if negb (validate_json_nesting (reply_content response)) then protocol_error
  else match json_loads false (reply_content response) with
       | None => protocol_error
       | Some _ => x_ret response
       end.

(** ** The client *)
Record AgentHttpClient := mkHttpClient {
  hc_shared : bool;
  hc_connect_timeout_seconds : Z;
  hc_request_timeout_seconds : Z
}.
Context (self : AgentHttpClient).

(** [headers[name] = value] of a dict *)
Fixpoint set_header (name value : string) (l : list (string * string)) : list (string * string) :=
  match l with
  | [] => [(name, value)]
  | (n, v) :: l => if bool_decide (n = name) then (n, value) :: l else (n, v) :: set_header name value l
  end.

Definition forward (headers : list (string * string)) (h : string * string) : list (string * string) :=
  if bool_decide (lower h.1 ∈ FORWARDED_HEADERS) then set_header h.1 h.2 headers else headers.

Definition request_headers (token : string) (incoming : list (string * string)) (correlation_id : option string)
    : list (string * string) :=
  let headers := foldl forward [("Authorization", "Bearer " +:+ token); ("Accept-Encoding", "identity")] incoming in
  match correlation_id with
  | Some id => if bool_decide (id = "") then headers else set_header "X-Correlation-ID" id headers
  | None => headers
  end.

(** [_target_verify_setting], which reads the bundle; the bundle that
    [_legacy_verify_setting] names is read when the client is constructed. *)
Definition target_verify_setting (target : ValidatedTarget) : Exchange Verification :=
  match vt_profile target with
  | VerifiedTlsProfile _ (Some bundle) =>
      if wire_ca bundle then x_ret (VerifyWith bundle) else x_raise (Raised SslOrOsError)
  | _ => x_ret VerifyDefault
  end.

Definition legacy_verify_setting (agent : AgentConfig) : Exchange Verification :=
  if negb (config_tls_verify agent) then x_ret VerifyNothing
  else match config_tls_ca_bundle agent with
       | Some bundle => if wire_ca bundle then x_ret (VerifyWith bundle) else x_raise (Raised SslOrOsError)
       | None => x_ret VerifyDefault
       end.

(** [client.stream] *)
Definition stream (request : HttpRequest) : Exchange StreamedResponse :=
  ([request], match wire_stream request with inl e => inl (Raised e) | inr r => inr r end).

Definition caused_by_tls (chain : list bool) : bool := existsb id chain.

(** The [except] clauses. *)
Definition target_error (e : client_exn) : client_exn :=
  match e with
  | AgentClientError category dispatch => AgentClientError category dispatch
  | Raised SslOrOsError => AgentClientError "agent_tls_error" "unknown"
  | Raised TimeoutException => AgentClientError "agent_network_error" "unknown"
  | Raised (InvalidURL | HttpProtocolError | DecodingError | StreamError) =>
      AgentClientError "agent_protocol_error" "unknown"
  | Raised (TransportError chain) =>
      AgentClientError (if caused_by_tls chain then "agent_tls_error" else "agent_network_error") "unknown"
  | Raised e => Raised e
  end.

Definition legacy_error (e : client_exn) : client_exn :=
  match e with
  | AgentClientError category dispatch => AgentClientError category dispatch
  | Raised TimeoutException => AgentClientError "agent_timeout" "unknown"
  | Raised (SslOrOsError | HttpProtocolError | TransportError _) => AgentClientError "agent_unavailable" "unknown"
  | Raised (InvalidURL | DecodingError | StreamError) => AgentClientError "agent_protocol_error" "unknown"
  | Raised e => Raised e
  end.

Definition x_except {A} (f : client_exn -> client_exn) (m : Exchange A) : Exchange A :=
  (m.1, match m.2 with inl e => inl (f e) | inr a => inr a end).

(** [_target_request] *)
Definition target_request (target : ValidatedTarget) (credential method path : string)
    (incoming : list (string * string)) (correlation_id : option string) (params : list (string * json))
    (body : option json) (max_response_bytes : Z) : Exchange HttpReply :=
  x_require (validate_upstream_path path) "agent_protocol_error" "unknown" ;;$
  let$ token := match decode_credential credential with
                | Some token => x_ret token
                | None => x_raise (AgentClientError "agent_auth_error" "unknown")
                end in
  let headers := set_header "Host" (vt_host_header target) (request_headers token incoming correlation_id) in
  let$ response := x_except target_error
    (let$ verify := (if hc_shared self then x_ret SharedClient else target_verify_setting target) in
     let$ streamed := stream (mkHttpRequest method (pinned_url target +:+ path) headers params body
        (hc_request_timeout_seconds self, Some (hc_connect_timeout_seconds self)) (vt_sni_hostname target) verify) in
     x_require (bool_decide (sr_status streamed ∉ [401; 403]%Z)) "agent_auth_error" "unknown" ;;$
     read_bounded_response streamed max_response_bytes) in
  validate_response response max_response_bytes.

(** [request] with a validated target, and [request_tail] *)
Definition agent_request (target : ValidatedTarget) (credential method path : string) (incoming : list (string * string))
    (correlation_id : option string) (params : list (string * json)) (body : option json) : Exchange HttpReply :=
  target_request target credential method path incoming correlation_id params body MAX_AGENT_RESPONSE_BYTES.

Definition request_tail (target : ValidatedTarget) (credential path : string) (correlation_id : option string)
    (params : list (string * json)) (max_response_bytes : Z) : Exchange HttpReply :=
  x_require ((1 <=? max_response_bytes)%Z && (max_response_bytes <=? MAX_AGENT_TAIL_RESPONSE_BYTES)%Z)
    "agent_protocol_error" "unknown" ;;$
  target_request target credential "GET" path [] correlation_id params None max_response_bytes.

(** [_legacy_request]; the credential loader is a callback. *)
Definition legacy_request (loader : AgentConfig -> option string) (request_timeout_seconds : Z) (agent : AgentConfig)
    (method path : string) (incoming : list (string * string)) (correlation_id : option string)
    (params : list (string * json)) (body : option json) : Exchange HttpReply :=
  let$ token := match loader agent with
                | Some token => x_ret token
                | None => x_raise (AgentClientError "agent_auth_error" "not_dispatched")
                end in
  let headers := request_headers token incoming correlation_id in
  x_require (validate_upstream_path path) "agent_protocol_error" "unknown" ;;$
  let$ response := x_except legacy_error
    (let$ verify := (if hc_shared self then x_ret SharedClient else legacy_verify_setting agent) in
     let$ streamed := stream (mkHttpRequest method (config_base_url agent +:+ path) headers params body
        (request_timeout_seconds, None) None verify) in
     read_bounded_response streamed MAX_AGENT_RESPONSE_BYTES) in
  validate_response response MAX_AGENT_RESPONSE_BYTES.
End Client.
