(* ===== verification/AgentHttpClaims.v ===== *)
(** * What the HTTP client for Agents guarantees

    A path that is sent names the same segments however often and in whichever
    order the other side decodes and splits it, and none of them climbs; the
    nesting of a JSON text is measured exactly; one request at most is sent, with
    the given credential; and what is let through is bounded. *)

From stdpp Require Import base tactics list gmap strings pretty.
From Stdlib Require Import ZArith Lia Ascii Wf_nat.
From S2P Require Import Prelude Text Digest Models JobValidation ManagerRegistry TargetPolicy CompactJson.
From S2P Require Import LatestValue LogSources LogTail LogTailClaims FleetImport AgentHttp.

(** ** Percent decoding *)
Definition decoded_byte (a b : ascii) : ascii := Ascii.ascii_of_nat (Z.to_nat (16 * hex_value a + hex_value b)).

Lemma escape_at_inv s : escape_at s = true ->
  exists a b rest, s = String "%" (String a (String b rest)) /\ is_hex a = true /\ is_hex b = true.
Proof.
  destruct s as [|p [|a [|b rest]]]; try done. cbn [escape_at]. intros Hs.
  apply andb_true_iff in Hs as [[Hp Ha]%andb_true_iff Hb]. unfold percent in Hp. apply Ascii.eqb_eq in Hp as <-. eauto 10.
Qed.

Lemma unquote_plain c rest : escape_at (String c rest) = false -> unquote (String c rest) = String c (unquote rest).
Proof. destruct rest as [|a [|b rest]]; [done..|]. cbn [escape_at unquote]. by intros ->. Qed.

Lemma unquote_escape a b rest : is_hex a = true -> is_hex b = true ->
  unquote (String "%" (String a (String b rest))) = String (decoded_byte a b) (unquote rest).
Proof. intros Ha Hb. cbn [unquote]. by rewrite Ha, Hb. Qed.

(** Induction along the decoding. *)
Lemma unquote_ind (P : string -> Prop) :
  P "" ->
  (forall c rest, escape_at (String c rest) = false -> P rest -> P (String c rest)) ->
  (forall a b rest, is_hex a = true -> is_hex b = true -> P rest -> P (String "%" (String a (String b rest)))) ->
  forall s, P s.
Proof.
  intros H0 Hp He s. induction s as [s IH] using (well_founded_induction (well_founded_ltof string String.length)).
  destruct s as [|c rest]; [done|]. destruct (escape_at (String c rest)) eqn:E.
  - apply escape_at_inv in E as (a & b & rest' & [= -> ->] & Ha & Hb). apply He; [done..|]. apply IH. unfold ltof. cbn. lia.
  - apply Hp; [done|]. apply IH. unfold ltof. cbn. lia.
Qed.

Lemma no_escape_unquote s : has_escape s = false -> unquote s = s.
Proof.
  induction s as [|c s IH]; [done|]. intros Hs. cbn [has_escape] in Hs. apply orb_false_iff in Hs as [He Hs].
  rewrite unquote_plain by done. by rewrite IH.
Qed.

(** ** Splitting *)
Lemma split_first sep s p ps : split_on sep s = p :: ps -> exists t, s = p +:+ t.
Proof.
  revert p ps. induction s as [|c s IH]; cbn [split_on]; intros p ps.
  - intros [= <- <-]. by exists "".
  - destruct (is_char sep c); [intros [= <- <-]; eauto|].
    destruct (split_on_nonempty sep s) as (q & qs & E). rewrite E. intros [= <- <-].
    destruct (IH _ _ E) as [t ->]. by exists t.
Qed.

Lemma split_sep sep s : split_on sep (String sep s) = "" :: split_on sep s.
Proof. cbn. unfold is_char. by rewrite Ascii.eqb_refl. Qed.

Lemma split_other sep c s p ps : is_char sep c = false -> split_on sep s = p :: ps ->
  split_on sep (String c s) = String c p :: ps.
Proof. cbn. by intros -> ->. Qed.

Lemma hex_not_slash c : is_hex c = true -> is_char "/" c = false.
Proof. destruct c as [[] [] [] [] [] [] [] []]; by vm_compute. Qed.

Lemma escape_extends c p t : escape_at (String c (p +:+ t)) = false -> escape_at (String c p) = false.
Proof. by destruct p as [|a [|b p]]. Qed.

(** Splitting and decoding commute unless an escape hides a slash. *)
Lemma unquote_split s :
  count_char "/" s <= count_char "/" (unquote s) /\
  (count_char "/" (unquote s) = count_char "/" s -> split_on "/" (unquote s) = unquote <$> split_on "/" s).
Proof.
  induction s as [|c rest He IH|a b rest Ha Hb IH] using unquote_ind; [done|..].
  - rewrite unquote_plain by done. cbn [count_char]. split; [lia|]. intros Hc.
    destruct IH as [_ IH]. specialize (IH ltac:(lia)). destruct (is_char "/" c) eqn:Es.
    + apply Ascii.eqb_eq in Es as <-. rewrite !split_sep, IH. done.
    + destruct (split_on_nonempty "/" rest) as (p & ps & E). rewrite E in IH.
      rewrite (split_other _ _ _ _ _ Es E), (split_other _ _ _ _ _ Es IH), fmap_cons.
      destruct (split_first _ _ _ _ E) as [t ->]. by rewrite unquote_plain by (by eapply escape_extends).
  - rewrite unquote_escape by done. cbn [count_char]. rewrite (hex_not_slash a), (hex_not_slash b) by done.
    change (is_char "/" "%") with false. cbn [Nat.add]. destruct IH as [Hle IH]. split; [case_match; lia|].
    intros Hc. destruct (is_char "/" (decoded_byte a b)) eqn:Es; [lia|]. specialize (IH Hc).
    destruct (split_on_nonempty "/" rest) as (p & ps & E). rewrite E in IH.
    rewrite (split_other _ _ _ _ _ Es IH).
    assert (Eb : split_on "/" (String b rest) = String b p :: ps) by (by apply split_other; [apply hex_not_slash|]).
    assert (Ea : split_on "/" (String a (String b rest)) = String a (String b p) :: ps)
      by (by apply split_other; [apply hex_not_slash|]).
    rewrite (split_other "/" "%" _ _ _ eq_refl Ea), !fmap_cons. by rewrite unquote_escape.
Qed.

(** Neither a query, a fragment, a backslash nor a control character. *)
Definition clean (s : string) : Prop :=
  has_char "?" s = false /\ has_char "#" s = false /\ has_char "\" s = false /\ no_control s = true.

Definition climbs (segment : string) : Prop := segment ∈ [""; "."; ".."].

(** ** Plain paths *)
Definition unreserved (c : ascii) : bool :=
  is_lower c || is_upper c || is_digit c || is_char "-" c || is_char "." c || is_char "_" c || is_char "~" c.

Definition plain_segment (s : string) : Prop := all_chars unreserved s = true /\ ~ climbs s.

Definition path_of (segments : list string) : string := foldr (fun s path => "/" +:+ s +:+ path) "" segments.

Lemma split_app sep p t : all_chars (fun c => negb (is_char sep c)) p = true ->
  split_on sep (p +:+ String sep t) = p :: split_on sep t.
Proof.
  induction p as [|c p IH]; [intros _; apply split_sep|]. cbn [all_chars]. intros [Hc Hp]%andb_true_iff.
  apply negb_true_iff in Hc. change (String c p +:+ String sep t) with (String c (p +:+ String sep t)).
  by apply split_other; [|apply IH].
Qed.

Lemma split_alone sep p : all_chars (fun c => negb (is_char sep c)) p = true -> split_on sep p = [p].
Proof.
  induction p as [|c p IH]; [done|]. cbn [all_chars]. intros [Hc Hp]%andb_true_iff.
  apply negb_true_iff in Hc. by apply split_other; [|apply IH].
Qed.

Definition path_char (c : ascii) : bool := unreserved c || is_char "/" c.

(** A test that holds of the characters of a path, computed over all of them. *)
Lemma char_test (p q : ascii -> bool) s :
  forallb (fun n => implb (p (Ascii.ascii_of_nat n)) (q (Ascii.ascii_of_nat n))) (seq 0 256) = true ->
  all_chars p s = true -> all_chars q s = true.
Proof.
  intros Ht. apply all_chars_impl. intros c Hc.
  assert (Hin : In (Ascii.nat_of_ascii c) (seq 0 256)) by (apply in_seq; pose proof (Ascii.nat_ascii_bounded c); lia).
  pose proof (proj1 (forallb_forall _ _) Ht _ Hin) as Hi. cbn beta in Hi. rewrite Ascii.ascii_nat_embedding, Hc in Hi. exact Hi.
Qed.

Lemma plain_chars segments : Forall plain_segment segments -> all_chars path_char (path_of segments) = true.
Proof.
  induction 1 as [|s segments [Hs _] _ IH]; [done|]. cbn [path_of foldr]. rewrite !all_chars_app.
  apply andb_true_iff. split; [done|]. apply andb_true_iff. split; [|exact IH]. revert Hs. by apply char_test.
Qed.

Lemma plain_split segments : Forall plain_segment segments -> split_on "/" (path_of segments) = "" :: segments.
Proof.
  induction 1 as [|s segments [Hs _] Hr IH]; [done|].
  change (split_on "/" (String "/" (s +:+ path_of segments)) = "" :: s :: segments). rewrite split_sep. f_equal.
  assert (Hn : all_chars (fun c => negb (is_char "/" c)) s = true) by (revert Hs; by apply char_test).
  destruct segments as [|s' segments]; [cbn; rewrite string_app_nil; by apply split_alone|].
  change (path_of (s' :: segments)) with (String "/" (s' +:+ path_of segments)) in *.
  rewrite split_app by done. f_equal. rewrite split_sep in IH. by injection IH.
Qed.

Lemma no_percent s : all_chars (fun c => negb (percent c)) s = true -> escapes_ok s = true /\ has_escape s = false.
Proof.
  induction s as [|c s IH]; [done|]. cbn [all_chars escapes_ok has_escape]. intros [Hc Hs]%andb_true_iff.
  apply negb_true_iff in Hc. rewrite Hc. destruct (IH Hs) as [-> ->]. split; [done|].
  rewrite orb_false_r. cbn [escape_at]. destruct s as [|a [|b s]]; [done..|]. by rewrite Hc.
Qed.

Lemma no_colon s : all_chars (fun c => negb (is_char ":" c)) s = true -> has_substring "://" s = false.
Proof.
  induction s as [|c s IH]; [done|]. cbn [all_chars]. intros [Hc Hs]%andb_true_iff.
  apply negb_true_iff in Hc. cbn [has_substring]. rewrite (IH Hs), orb_false_r. cbn [String.prefix].
  destruct (ascii_dec ":" c) as [<-|]; [discriminate Hc|done].
Qed.

Lemma ascii_strict s : all_chars (fun c => (byte_of c <? 128)%Z) s = true -> strict_utf8 (bytes_of s) = true.
Proof.
  unfold strict_utf8. intros Hs. apply bool_decide_eq_true. induction s as [|c s IH]; [done|].
  cbn [all_chars] in Hs. apply andb_true_iff in Hs as [Hc Hs]. apply Z.ltb_lt in Hc.
  assert (0 <= byte_of c)%Z by (unfold byte_of; lia). cbn [bytes_of]. rewrite decode_cons.
  rewrite decode_step_ascii by (unfold between; lia). cbn [fst snd drop].
  change (encode_char (byte_of c) ++ encode (decode (bytes_of s)) = byte_of c :: bytes_of s).
  rewrite IH by done. unfold encode_char. by rewrite (proj2 (Z.ltb_lt _ _)).
Qed.

Lemma has_char_false c s : all_chars (fun d => negb (is_char c d)) s = true -> has_char c s = false.
Proof. unfold has_char. by intros ->. Qed.

(** A path of plain segments is accepted. *)
Lemma plain_path_accepted segments :
  segments <> [] -> Forall plain_segment segments -> validate_upstream_path (path_of segments) = true.
Proof.
  intros Hne Hp. pose proof (plain_chars _ Hp) as Hc. pose proof (plain_split _ Hp) as Hs.
  unfold validate_upstream_path. destruct (no_percent (path_of segments)) as [He Hn]; [revert Hc; by apply char_test|].
  rewrite (no_escape_unquote _ Hn), Hs, He, Hn, ascii_strict, Nat.eqb_refl by (revert Hc; by apply char_test).
  rewrite !has_char_false, no_colon by (revert Hc; by apply char_test).
  assert (no_control (path_of segments) = true) as -> by (revert Hc; by apply char_test).
  assert (Hex : existsb (fun segment => bool_decide (segment ∈ [""; "."; ".."])) segments = false).
  { apply not_true_iff_false. intros (s & Hin & Hb)%existsb_exists. apply bool_decide_eq_true in Hb.
    apply list_elem_of_In in Hin. rewrite Forall_forall in Hp. by destruct (Hp _ Hin). }
  assert (existsb (fun segment => bool_decide (segment ∈ ["."; ".."])) ("" :: segments) = false) as ->.
  { cbn [existsb]. apply not_true_iff_false. intros [?|(s & Hin & Hb)%existsb_exists]%orb_true_iff; [done|].
    apply not_true_iff_false in Hex. apply Hex, existsb_exists. exists s. split; [done|].
    apply bool_decide_eq_true in Hb. apply bool_decide_eq_true. by right. }
  cbn [tail]. rewrite Hex. destruct Hp as [|s segments [Hu Hcl] Hp]; [done|].
  destruct s as [|c s]; [by destruct Hcl; left|]. cbn [all_chars] in Hu. apply andb_true_iff in Hu as [Hu _].
  change (path_of (String c s :: segments)) with (String "/" (String c (s +:+ path_of segments))).
  cbn [String.prefix]. destruct (ascii_dec "/" "/"); [|done].
  destruct (ascii_dec "/" c) as [<-|]; [discriminate Hu|done].
Qed.

(** C32: a path that is sent means the same to every reader.  Splitting at the
    slashes and then decoding the percent escapes gives the same segments as
    decoding first; decoding a second time changes nothing; no segment is empty
    or climbs; and neither form has a query, a fragment, a backslash or a
    control character.  Every path of plain segments is accepted. *)
Theorem upstream_path_safe :
  (forall path, validate_upstream_path path = true ->
   exists segments,
     split_on "/" path = "" :: segments /\ segments <> [] /\
     split_on "/" (unquote path) = "" :: (unquote <$> segments) /\
     unquote (unquote path) = unquote path /\
     Forall (fun s => ~ climbs s) (unquote <$> segments) /\ clean path /\ clean (unquote path)) /\
  (forall segments, segments <> [] -> Forall plain_segment segments ->
   validate_upstream_path (path_of segments) = true).
Proof.
  split; [|apply plain_path_accepted]. intros path. unfold validate_upstream_path. intros Hv.
  repeat (apply andb_true_iff in Hv as [Hv ?]).
  repeat match goal with H : negb _ = true |- _ => apply negb_true_iff in H end.
  repeat match goal with H : (_ || _) = false |- _ => apply orb_false_iff in H as [? ?] end.
  repeat match goal with H : negb _ = false |- _ => apply negb_false_iff in H end.
  assert (Hc : count_char "/" (unquote path) = count_char "/" path) by (by apply Nat.eqb_eq).
  destruct path as [|c rest]; [done|].
  assert (c = "/"%char) as -> by (match goal with H : String.prefix "/" (String c rest) = true |- _ =>
      cbn [String.prefix] in H; by destruct (ascii_dec "/" c) end).
  destruct (split_on_nonempty "/" rest) as (p & ps & E). exists (p :: ps).
  pose proof (proj2 (unquote_split _) Hc) as Hs. rewrite split_sep, E in Hs. rewrite split_sep, E.
  split_and!; [done|done|exact Hs|by apply no_escape_unquote| |done|done].
  rewrite Hs in *. cbn [fmap list_fmap tail] in *. apply Forall_forall. intros s Hin Hcl.
  match goal with H : existsb _ (_ :: _) = false |- _ => rename H into Hex end.
  assert (existsb (fun segment => bool_decide (segment ∈ [""; "."; ".."])) (unquote p :: (unquote <$> ps)) = true);
    [|congruence]. apply existsb_exists. exists s. split; [by apply list_elem_of_In|]. by apply bool_decide_eq_true.
Qed.

(** ** Nesting *)
Fixpoint json_depth (v : json) : Z :=
  match v with
  | JList l => (1 + foldr Z.max 0 (json_depth <$> l))%Z
  | JDict d => (1 + foldr Z.max 0 ((fun kv => json_depth kv.2) <$> d))%Z
  | _ => 0%Z
  end.

Lemma json_induction (P : json -> Prop) :
  (forall v, json_depth v = 0%Z -> P v) ->
  (forall l, Forall P l -> P (JList l)) ->
  (forall d, Forall (fun kv => P kv.2) d -> P (JDict d)) -> forall v, P v.
Proof.
  intros H0 Hl Hd. fix IH 1. intros v. destruct v as [| | | | |l|d]; try (by apply H0).
  - apply Hl. induction l as [|v l IHl]; constructor; [apply IH|exact IHl].
  - apply Hd. induction d as [|[k v] d IHd]; constructor; [apply IH|exact IHd].
Qed.

(** Characters outside strings that do not matter. *)
Definition quiet (c : ascii) : bool := bool_decide (byte_of c ∉ [34; 91; 123; 93; 125]%Z).

Definition outside (d : Z) : JsonScan := mkJsonScan d false false.

Lemma scan_quiet s rest d : all_chars quiet s = true -> scan_text (s +:+ rest) (outside d) = scan_text rest (outside d).
Proof.
  induction s as [|c s IH]; [done|]. cbn [all_chars]. intros [Hc Hs]%andb_true_iff.
  change (String c s +:+ rest) with (String c (s +:+ rest)). cbn [scan_text].
  assert (scan_byte c (outside d) = Some (outside d)) as ->; [|by apply IH].
  unfold quiet in Hc. apply bool_decide_eq_true in Hc. unfold scan_byte, outside. cbn.
  repeat (case_match; [set_solver by lia|]); done.
Qed.

Lemma scan_escaped_char c rest d :
  scan_text (escaped_char c +:+ rest) (mkJsonScan d true false) = scan_text rest (mkJsonScan d true false).
Proof. destruct c as [[] [] [] [] [] [] [] []]; reflexivity. Qed.

Lemma scan_quoted s rest d : scan_text (quoted s +:+ rest) (outside d) = scan_text rest (outside d).
Proof.
  unfold quoted. rewrite <- !string_app_assoc. change (scan_text (escaped s +:+ quote +:+ rest) (mkJsonScan d true false) = scan_text rest (outside d)).
  induction s as [|c s IH]; [done|]. cbn [escaped]. rewrite <- string_app_assoc, scan_escaped_char. exact IH.
Qed.

Lemma pretty_digit_quiet n : quiet (pretty_N_char n) = true.
Proof. unfold pretty_N_char. repeat case_match; reflexivity. Qed.

Lemma pretty_N_quiet x s : all_chars quiet s = true -> all_chars quiet (pretty_N_go x s) = true.
Proof.
  revert s. induction (N.lt_wf_0 x) as [x _ IH]. intros s Hs. destruct (decide (x = 0)%N) as [->|Hx].
  - by rewrite pretty_N_go_0.
  - rewrite pretty_N_go_step by lia. apply IH; [apply N.div_lt; lia|]. cbn [all_chars].
    by rewrite pretty_digit_quiet, Hs.
Qed.

Lemma pretty_Z_quiet (n : Z) : all_chars quiet (pretty n) = true.
Proof.
  assert (HN : forall x : N, all_chars quiet (pretty x) = true).
  { intros x. unfold pretty, pretty_N. case_decide; [done|]. by apply pretty_N_quiet. }
  unfold pretty, pretty_Z. destruct n as [|p|p]; [done|exact (HN (N.pos p))|].
  rewrite all_chars_app. apply andb_true_iff. split; [done|exact (HN (N.pos p))].
Qed.

Lemma max_nonneg l : (0 <= foldr Z.max 0 l)%Z.
Proof. induction l; cbn; lia. Qed.

Section Nesting.
Context `{FloatText} (floats_quiet : forall f, all_chars quiet (float_repr f) = true).

(** What is measured when the scan passes the text of a value at depth [d]. *)
Definition measured (text : string) (depth : Z) : Prop :=
  forall d rest, (d <= MAX_JSON_NESTING)%Z ->
    scan_text (text +:+ rest) (outside d) =
    if (d + depth <=? MAX_JSON_NESTING)%Z then scan_text rest (outside d) else None.

Lemma measured_quiet s : all_chars quiet s = true -> measured s 0.
Proof. intros Hs d rest Hd. rewrite scan_quiet by done. rewrite (proj2 (Z.leb_le _ _)) by lia. done. Qed.

Lemma measured_quoted s : measured (quoted s) 0.
Proof. intros d rest Hd. rewrite scan_quoted, (proj2 (Z.leb_le _ _)) by lia. done. Qed.

Lemma measured_app s t m n : (0 <= m)%Z -> (0 <= n)%Z -> measured s m -> measured t n -> measured (s +:+ t) (Z.max m n).
Proof.
  intros Hm Hn Hs Ht d rest Hd. rewrite <- string_app_assoc, Hs by done. rewrite Ht by done.
  repeat case_match; try done; lia.
Qed.

Lemma measured_join l (depths : list Z) : Forall (fun n => 0 <= n)%Z depths -> Forall2 measured l depths ->
  measured (join "," l) (foldr Z.max 0%Z depths).
Proof.
  intros Hp Hl. induction Hl as [|s n l depths Hs Hl IH]; [by apply measured_quiet|].
  apply Forall_cons in Hp as [Hn Hp]. pose proof (max_nonneg depths).
  rewrite join_cons. cbn [foldr]. apply measured_app; [lia|lia|done|]. destruct l as [|s' l].
  - inversion Hl; subst. by apply measured_quiet.
  - cbn [join_rest]. rewrite <- (Z.max_r 0 (foldr Z.max 0%Z depths)) by lia.
    apply measured_app; [lia|lia|by apply measured_quiet|by apply IH].
Qed.

(** A bracket and its partner. *)
Lemma measured_nested opening closing text depth :
  (opening, closing) ∈ [("["%char, "]"%char); ("{"%char, "}"%char)] -> (0 <= depth)%Z -> measured text depth ->
  measured (String opening (text +:+ String closing "")) (1 + depth).
Proof.
  intros Ho Hd Ht d rest Hm.
  assert (Hopen : scan_byte opening (outside d) =
      if (MAX_JSON_NESTING <? d + 1)%Z then None else Some (outside (d + 1))).
  { rewrite !elem_of_cons, elem_of_nil in Ho. destruct Ho as [[= -> ->]|[[= -> ->]|[]]]; reflexivity. }
  assert (Hclose : scan_byte closing (outside (d + 1)) = Some (outside d)).
  { rewrite !elem_of_cons, elem_of_nil in Ho.
    replace (outside d) with (outside (d + 1 - 1)) by (f_equal; lia).
    destruct Ho as [[= -> ->]|[[= -> ->]|[]]]; reflexivity. }
  change (String opening (text +:+ String closing "") +:+ rest) with
    (String opening ((text +:+ String closing "") +:+ rest)). rewrite <- string_app_assoc. cbn [scan_text]. rewrite Hopen.
  destruct (Z.ltb_spec MAX_JSON_NESTING (d + 1)) as [Hlt|Hge]; cbn.
  - rewrite (proj2 (Z.leb_gt _ _)) by lia. done.
  - change (scan_text (text +:+ String closing rest) (outside (d + 1)) =
      if (d + (1 + depth) <=? MAX_JSON_NESTING)%Z then scan_text rest (outside d) else None).
    rewrite Ht by done. replace (d + 1 + depth)%Z with (d + (1 + depth))%Z by lia.
    case_match; [|done]. cbn [scan_text]. by rewrite Hclose.
Qed.

Lemma depth_nonneg v : (0 <= json_depth v)%Z.
Proof. destruct v as [| | | | |l|d]; cbn; try lia; [pose proof (max_nonneg (json_depth <$> l))|
  pose proof (max_nonneg ((fun kv => json_depth kv.2) <$> d))]; lia. Qed.

Lemma depths_nonneg {A} (f : A -> json) (l : list A) : Forall (fun n => 0 <= n)%Z ((fun a => json_depth (f a)) <$> l).
Proof. apply Forall_fmap, Forall_true. intros a. apply depth_nonneg. Qed.

Lemma value_measured v : measured (json_text v) (json_depth v).
Proof.
  induction v as [v H0|l IH|d IH] using json_induction.
  - destruct v as [|b| | | |l|d]; cbn in H0; try (by apply measured_quiet).
    + apply measured_quiet. by destruct b.
    + apply measured_quiet, pretty_Z_quiet.
    + apply measured_quiet, floats_quiet.
    + apply measured_quoted.
    + pose proof (max_nonneg (json_depth <$> l)). lia.
    + pose proof (max_nonneg ((fun kv => json_depth kv.2) <$> d)). lia.
  - apply (measured_nested "[" "]"); [by left|apply max_nonneg|].
    apply measured_join; [apply (depths_nonneg id)|]. by apply Forall2_fmap, Forall_Forall2_diag.
  - apply (measured_nested "{" "}"); [by right; left|apply max_nonneg|].
    apply measured_join; [apply (depths_nonneg snd)|]. rewrite <- list_fmap_compose.
    apply Forall2_fmap, Forall_Forall2_diag. eapply Forall_impl; [exact IH|]. intros [k v] Hv.
    change (measured (quoted k +:+ ":" +:+ json_text v) (json_depth v)).
    rewrite <- (Z.max_r 0 (json_depth v)) by apply depth_nonneg.
    apply measured_app; [lia|apply depth_nonneg|apply measured_quoted|].
    rewrite <- (Z.max_r 0 (json_depth v)) by apply depth_nonneg.
    apply (measured_app ":"); [lia|apply depth_nonneg|by apply measured_quiet|exact Hv].
Qed.

End Nesting.

(** ** Exchanges *)
Section Exchanges.
Context `{Wire} (self : AgentHttpClient).
Local Open Scope exchange_scope.

Lemma x_bind_inv {A B} (m : Exchange A) (k : A -> Exchange B) sent r :
  x_bind m k = (sent, r) ->
  (exists e, m = (sent, inl e) /\ r = inl e) \/
  exists s1 a s2, m = (s1, inr a) /\ k a = (s2, r) /\ sent = s1 ++ s2.
Proof.
  unfold x_bind. destruct m as [s1 [e|a]]; [intros [= <- <-]; eauto|].
  destruct (k a) as [s2 r'] eqn:E. intros [= <- <-]. eauto 10.
Qed.

Lemma x_require_inv b c d sent r : x_require b c d = (sent, r) ->
  sent = [] /\ (b = true /\ r = inr tt \/ r = inl (AgentClientError c d)).
Proof. destruct b; intros [= <- <-]; auto. Qed.

Ltac x_case :=
  unfold content_length_ok, protocol_error, x_require, x_ret, x_raise in *; repeat case_match; by simplify_eq.

(** A computation that sends nothing. *)
Definition silent {A} (m : Exchange A) : Prop := m.1 = [].

Lemma exchange_silent_bind {A B} (m : Exchange A) (k : A -> Exchange B) :
  silent m -> (forall a, silent (k a)) -> silent (x_bind m k).
Proof.
  unfold silent, x_bind. intros Hm Hk. destruct m as [s [e|a]]; cbn in *; [done|].
  specialize (Hk a). destruct (k a) as [s' r]. cbn in *. by subst.
Qed.

Lemma read_chunks_spec limit content chunks ending sent r :
  (byte_size content <= limit)%Z -> read_chunks limit content chunks ending = (sent, r) ->
  sent = [] /\ forall text, r = inr text -> (byte_size text <= limit)%Z /\ text = content +:+ foldr String.append "" chunks.
Proof.
  revert content. induction chunks as [|c chunks IH]; cbn [read_chunks foldr]; intros content Hc.
  - destruct ending; intros [= <- <-]; split; [done|done|done|]. intros ? [= <-]. by rewrite string_app_nil.
  - destruct (Z.ltb_spec limit (byte_size (content +:+ c))); [by intros [= <- <-]|].
    intros E%IH; [|done]. by rewrite string_app_assoc.
Qed.

Lemma read_bounded_spec streamed limit sent r : (0 <= limit)%Z ->
  read_bounded_response streamed limit = (sent, r) ->
  sent = [] /\ forall reply, r = inr reply ->
    reply_status reply = sr_status streamed /\ reply_headers reply = sr_headers streamed /\
    (byte_size (reply_content reply) <= limit)%Z.
Proof.
  intros Hl. unfold read_bounded_response. intros [(e & E & ->)|(s1 & [] & s2 & E & E2 & ->)]%x_bind_inv.
  { split; [x_case|done]. }
  assert (s1 = []) as -> by x_case.
  apply x_bind_inv in E2 as [(e & E2 & ->)|(s3 & [] & s4 & E2 & E3 & ->)].
  { split; [x_case|done]. }
  assert (s3 = []) as -> by x_case.
  apply x_bind_inv in E3 as [(e & E3 & ->)|(s5 & text & s6 & E3 & E4 & ->)].
  - split; [|done]. destruct (sr_content streamed); [x_case|]. by apply read_chunks_spec in E3 as [-> _].
  - injection E4 as <- <-. destruct (sr_content streamed) as [c|].
    + destruct (Z.ltb_spec limit (byte_size c)); [done|]. injection E3 as <- <-. split; [done|]. by intros ? [= <-].
    + apply read_chunks_spec in E3 as [-> Ht]; [|done]. destruct (Ht _ eq_refl) as [Hs _]. split; [done|]. by intros ? [= <-].
Qed.

(** A response that may be used. *)
Definition presentable (limit : Z) (reply : HttpReply) : Prop :=
  ~ (300 <= reply_status reply < 400)%Z /\ (byte_size (reply_content reply) <= limit)%Z /\
  (reply_status reply <> 204%Z -> content_type (reply_headers reply) = "application/json" /\
     validate_json_nesting (reply_content reply) = true /\ is_Some (json_loads false (reply_content reply))).

Lemma validate_response_spec response limit sent r : validate_response response limit = (sent, r) ->
  sent = [] /\ forall reply, r = inr reply -> reply = response /\ presentable limit response.
Proof.
  unfold validate_response, presentable.
  destruct (_ && _) eqn:E3; [by intros [= <- <-]|].
  destruct (Z.ltb_spec limit (byte_size (reply_content response))); [by intros [= <- <-]|].
  assert (~ (300 <= reply_status response < 400)%Z) by lia.
  destruct (Z.eqb_spec (reply_status response) 204) as [E204|H204].
  { intros [= <- <-]. split; [done|]. intros ? [= <-]. split_and!; [done..|]. by intros []. }
  case_bool_decide; [|by intros [= <- <-]]. cbn [negb].
  destruct (validate_json_nesting _) eqn:En; [|by intros [= <- <-]]. cbn [negb].
  destruct (json_loads false _) eqn:El; intros [= <- <-]; (split; [done|]); [|done]. intros ? [= <-]. split_and!; [done..|]. intros _. split_and!; [done|done|]. eauto.
Qed.

(** The request that a call describes. *)
Definition described (target : ValidatedTarget) (credential method path : string) (params : list (string * json))
    (body : option json) (request : HttpRequest) : Prop :=
  hr_method request = method /\ hr_url request = pinned_url target +:+ path /\ hr_params request = params /\
  hr_json request = body /\ hr_sni request = vt_sni_hostname target /\
  header "host" (hr_headers request) = Some (vt_host_header target) /\
  header "authorization" (hr_headers request) = Some ("Bearer " +:+ credential) /\
  all_chars (fun c => negb (py_space (byte_of c) || (byte_of c <? 32)%Z)) credential = true.

Lemma decode_credential_spec credential token : decode_credential credential = Some token ->
  token = credential /\ all_chars (fun c => negb (py_space (byte_of c) || (byte_of c <? 32)%Z)) credential = true.
Proof.
  unfold decode_credential. destruct (negb (all_chars _ _)); [done|]. destruct (_ || _) eqn:E; [done|].
  intros [= <-]. apply orb_false_iff in E as [_ E]. by apply negb_false_iff in E.
Qed.

Lemma header_cons name n v l : header name ((n, v) :: l) = if decide (lower n = name) then Some v else header name l.
Proof.
  unfold header. cbn [list_find fst]. repeat case_decide; try done; by destruct (list_find _ l) as [[]|].
Qed.

Lemma header_set_other name n v l : lower n <> name -> header name (set_header n v l) = header name l.
Proof.
  intros Hn. induction l as [|[n' v'] l IH]; cbn [set_header]; [by rewrite header_cons, decide_False|].
  case_bool_decide as Hb; rewrite !header_cons; [by subst; rewrite !decide_False|]. by rewrite IH.
Qed.

Lemma header_set_new name n v l : lower n = name -> header name l = None -> header name (set_header n v l) = Some v.
Proof.
  intros Hn. induction l as [|[n' v'] l IH]; cbn [set_header]; [by rewrite header_cons, decide_True|].
  rewrite header_cons. case_decide as Hd; [done|]. intros Hl.
  case_bool_decide; [congruence|]. by rewrite header_cons, decide_False, IH.
Qed.

Lemma request_headers_spec name token incoming correlation_id :
  name ∉ FORWARDED_HEADERS -> name <> "x-correlation-id" ->
  header name (request_headers token incoming correlation_id) =
  header name [("Authorization", "Bearer " +:+ token); ("Accept-Encoding", "identity")].
Proof.
  intros Hf Hx. unfold request_headers.
  set (start := [("Authorization", "Bearer " +:+ token); ("Accept-Encoding", "identity")]).
  assert (Hin : forall l, header name (foldl forward l incoming) = header name l).
  { induction incoming as [|h incoming IH]; intros l; [done|]. cbn [foldl]. rewrite IH. unfold forward.
    case_bool_decide; [|done]. apply header_set_other. intros <-. done. }
  destruct correlation_id as [id|]; [|apply Hin]. case_bool_decide; [apply Hin|].
  rewrite header_set_other; [apply Hin|]. by intros <-.
Qed.

Lemma sent_headers target token incoming correlation_id :
  let headers := set_header "Host" (vt_host_header target) (request_headers token incoming correlation_id) in
  header "host" headers = Some (vt_host_header target) /\ header "authorization" headers = Some ("Bearer " +:+ token).
Proof.
  cbn zeta. split.
  - apply header_set_new; [done|]. rewrite request_headers_spec; [done|unfold FORWARDED_HEADERS; set_solver|done].
  - rewrite header_set_other by done. rewrite request_headers_spec; [done|unfold FORWARDED_HEADERS; set_solver|done].
Qed.

Lemma verify_silent target : silent (if hc_shared self then x_ret SharedClient else target_verify_setting target).
Proof. unfold silent, target_verify_setting. by repeat case_match. Qed.

(** The [try] block: one request at most. *)
Lemma attempt_spec target (request : Verification -> HttpRequest) limit sent r : (0 <= limit)%Z ->
  x_except target_error
    (let$ verify := (if hc_shared self then x_ret SharedClient else target_verify_setting target) in
     let$ streamed := stream (request verify) in
     x_require (bool_decide (sr_status streamed ∉ [401; 403]%Z)) "agent_auth_error" "unknown" ;;$
     read_bounded_response streamed limit) = (sent, r) ->
  (sent = [] /\ (exists e, r = inl e)) \/
  exists verify, sent = [request verify] /\
    forall reply, r = inr reply -> (reply_status reply ∉ [401; 403]%Z) /\
      exists streamed, wire_stream (request verify) = inr streamed /\ reply_status reply = sr_status streamed.
Proof.
  intros Hl. unfold x_except. pose proof (verify_silent target) as Hv.
  destruct (if hc_shared self then _ else _) as [s0 [e|verify]]; unfold silent in Hv; cbn [fst] in Hv; subst s0.
  { cbn. intros [= <- <-]. eauto. }
  cbn [x_bind stream]. destruct (wire_stream (request verify)) as [e|streamed] eqn:Ew.
  { cbn. intros [= <- <-]. right. exists verify. split; [done|]. done. }
  case_bool_decide as H4; cbn [x_require x_ret x_raise x_bind].
  2: { cbn. intros [= <- <-]. right. by exists verify. }
  destruct (read_bounded_response streamed limit) as [s1 r1] eqn:Er.
  apply read_bounded_spec in Er as [-> Hr]; [|done]. cbn. intros [= <- <-]. right. exists verify. split; [done|].
  intros reply. destruct r1 as [e|r1]; [done|]. intros [= <-]. destruct (Hr _ eq_refl) as (-> & _). eauto.
Qed.

(** What [_target_request] does. *)
Lemma target_request_spec target credential method path incoming correlation_id params body limit sent r :
  (0 <= limit)%Z ->
  target_request self target credential method path incoming correlation_id params body limit = (sent, r) ->
  length sent <= 1 /\
  Forall (fun request => described target credential method path params body request /\ validate_upstream_path path = true) sent /\
  forall reply, r = inr reply ->
    presentable limit reply /\ (reply_status reply ∉ [401; 403]%Z) /\
    exists request streamed, sent = [request] /\ wire_stream request = inr streamed /\
      reply_status reply = sr_status streamed.
Proof.
  intros Hl. unfold target_request.
  intros [(e & E & ->)|(s1 & [] & s2 & E & E2 & ->)]%x_bind_inv.
  { apply x_require_inv in E as [-> _]. split_and!; [cbn; lia|done|done]. }
  apply x_require_inv in E as [-> [[Hp _]|]]; [|done].
  apply x_bind_inv in E2 as [(e & E2 & ->)|(s3 & token & s4 & E2 & E3 & ->)].
  { destruct (decode_credential _); [done|]. injection E2 as <- _. split_and!; [cbn; lia|done|done]. }
  destruct (decode_credential credential) as [t|] eqn:Ed; [|done]. injection E2 as <- <-.
  apply decode_credential_spec in Ed as [-> Hclean]. cbn [app] in *.
  destruct (sent_headers target credential incoming correlation_id) as [Hhost Hauth].
  set (request := fun verify => mkHttpRequest method (pinned_url target +:+ path)
    (set_header "Host" (vt_host_header target) (request_headers credential incoming correlation_id)) params body
    (hc_request_timeout_seconds self, Some (hc_connect_timeout_seconds self)) (vt_sni_hostname target) verify).
  assert (Hd : forall verify, described target credential method path params body (request verify)) by done.
  apply x_bind_inv in E3 as [(e & E3 & ->)|(s5 & response & s6 & E3 & E4 & ->)].
  - apply (attempt_spec target request) in E3 as [[-> _]|(verify & -> & _)]; [..|done];
      (split_and!; [cbn; lia| |done]); [done|by repeat constructor].
  - apply validate_response_spec in E4 as [-> Hr]. rewrite app_nil_r.
    apply (attempt_spec target request) in E3 as [[-> [e ?]]|(verify & -> & Hok)]; [done| |done].
    split_and!; [cbn; lia|by repeat constructor|]. intros reply Er. destruct (Hr _ Er) as [-> Hpres].
    destruct (Hok _ eq_refl) as (H4 & streamed & Hw & Hs). eauto 10.
Qed.

End Exchanges.

(** ** Concrete runs *)
Definition plain_floats : FloatText := {| float_repr := fun _ => "0.5" |}.

Lemma upstream_path_safe_witness :
  validate_upstream_path "/api/v2/logs/a%20b" = true /\ unquote (unquote "/api/v2/logs/a%20b") = "/api/v2/logs/a b".
Proof.
  assert (K : validate_upstream_path "/api/v2/logs/a%20b" = true) by (vm_compute; reflexivity).
  split; [exact K|]. destruct (proj1 upstream_path_safe _ K) as (_ & _ & _ & _ & E & _). rewrite E. reflexivity.
Defined.

Example climbing_paths_refused :
  validate_upstream_path "/api/%2e%2e/admin" = false /\ validate_upstream_path "/api/a%2fb" = false /\
  validate_upstream_path "/api/%252e%252e" = false /\ validate_upstream_path "//host/x" = false /\
  validate_upstream_path "/api/%zz" = false.
Proof. vm_compute. repeat split. Qed.


(** A wire that answers every request with one JSON text. *)
Definition ok_wire : Wire := {|
  wire_stream := fun _ => inr (mkStreamed 200 [("Content-Type", "application/json; charset=utf-8")] None ["{"; "}"] None);
  wire_ca := fun _ => true;
  json_loads := fun _ _ => Some (JDict [])
|}.

Definition lan_target : ValidatedTarget :=
  mkValidatedTarget "http://10.0.0.7:8080" "http" "10.0.0.7" 8080 [V4 [10; 0; 0; 7]%Z] (V4 [10; 0; 0; 7]%Z) "10.0.0.7:8080"
    None None (TrustedLanHttpProfile "lan" []).

Example exchange_answered :
  @agent_request ok_wire (mkHttpClient false 3 10) lan_target "secret" "GET" "/api/v2/summary"
    [("Authorization", "Bearer stolen"); ("Accept", "text/plain")] (Some "c-1") [] None =
  ([mkHttpRequest "GET" "http://10.0.0.7:8080/api/v2/summary"
      [("Authorization", "Bearer secret"); ("Accept-Encoding", "identity"); ("Accept", "text/plain");
       ("X-Correlation-ID", "c-1"); ("Host", "10.0.0.7:8080")] [] None (10, Some 3)%Z None VerifyDefault],
   inr (mkReply 200 [("Content-Type", "application/json; charset=utf-8")] "{}")).
Proof. vm_compute. reflexivity. Qed.

(** ** A text that escapes the scan *)
(** [str.encode("utf-16-le")] of characters of the basic plane. *)
Definition utf16_le (points : list Z) : string :=
  string_of_bytes (points ≫= fun p => [p mod 256; p / 256]%Z).

Fixpoint nest (n : nat) : json := match n with 0 => JList [] | S n => JList [nest n] end.

(** The string U+2200, whose second byte is that of a quote, before arrays 80 deep. *)
Definition disguised : json := JList [JString (string_of_bytes [226; 136; 128]%Z); nest 79].

(** [json.loads] of bytes also reads UTF-16, whose bytes the scan takes for
    characters: nesting beyond the limit passes. *)
Lemma utf16_escapes_nesting_limit :
  json_depth disguised = 81%Z /\ validate_json_nesting (@json_text plain_floats disguised) = false /\
  validate_json_nesting (utf16_le (decode (bytes_of (@json_text plain_floats disguised)))) = true.
Proof. vm_compute. repeat split. Qed.
