(* ===== verification/AgentRegistry.v ===== *)
(** * The registry of the first API version

    [FleetRegistry] of [src/backend/ic_env_guard/fleet/registry.py], which shows
    the records of the manager database as configured Agents, and [AgentRegistry]
    of [src/backend/ic_env_guard/agents/registry.py] over it.  Before every
    access to the database or to the credential directory, other connections and
    threads may have changed both: [other], by the number of the moment. *)

From stdpp Require Import base tactics list gmap strings.
From Stdlib Require Import ZArith Lia Ascii.
From S2P Require Import Prelude Text Sql Digest Models Schema JobValidation MutationFence EnrollmentJournal ManagerRegistry.
From S2P Require Import SecretFiles TargetPolicy AgentClient LatestValue LogSources LogTail FleetImport FleetProbes AgentHttp.

(** ** Effects *)
(** What an [AgentAvailabilityService] remembers of a probe. *)
Record Seen := mkSeen { seen : AgentObservation; seen_observed_at : time; seen_stale_after : time }.

(** A request that was handed to the HTTP library: for a proxied call or for a
    probe, and the database at that time. *)
Inductive Purpose := ForProxy | ForProbe.
Record Handed := mkHanded { handed_for : Purpose; handed_request : HttpRequest; handed_db : DB }.

Record ManagerWorld := mkManagerWorld {
  mw_db : DB;
  mw_dir : Dir;
  mw_observations : gmap string Seen;
  mw_last_dispatch : gmap string string;
  mw_handed : list Handed;
  mw_moment : nat
}.

(** [Exc code dispatch_state] is an exception with these attributes, as far as
    it has them. *)
Inductive manager_exn :=
| AgentProxyError (code : string) (status_code : Z) (dispatch_state : string)
| AgentNotFoundError
| AgentInvalidConfigurationError
| FleetRegistryConfigurationError
| FleetRegistryConflict
| ConfigValueError
| RepositoryRaised (e : exn)
| StoreError (e : os_exn)
| TargetRaised (code : string)
| ClientRaised (e : client_exn)
| Exc (code : option string) (dispatch_state : option string)
| ManagerDied.

Definition MW (A : Type) : Type := ManagerWorld -> (manager_exn + A) * ManagerWorld.

Definition mw_ret {A} (a : A) : MW A := fun w => (inr a, w).
Definition mw_raise {A} (e : manager_exn) : MW A := fun w => (inl e, w).

Definition mw_bind {A B} (m : MW A) (k : A -> MW B) : MW B := fun w =>
  match m w with
  | (inl e, w) => (inl e, w)
  | (inr a, w) => k a w
  end.

(** [try: m except ...: handler]; nothing catches the death of the process. *)
Definition mw_catch {A} (m : MW A) (handler : manager_exn -> MW A) : MW A := fun w =>
  match m w with
  | (inl ManagerDied, w) => (inl ManagerDied, w)
  | (inl e, w) => handler e w
  | (inr a, w) => (inr a, w)
  end.

Declare Scope manager_scope.
Notation "'let@' x ':=' m 'in' k" := (mw_bind m (fun x => k))
  (at level 10, x pattern, m at level 100, k at level 200) : manager_scope.
Notation "m ';;@' k" := (mw_bind m (fun _ => k)) (at level 199, right associativity) : manager_scope.
Local Open Scope manager_scope.

Definition store_exn (e : os_exn) : manager_exn := match e with Crashed => ManagerDied | e => StoreError e end.

(** ** Projection *)
(** [s.rstrip(c)] *)
Fixpoint rstrip (c : ascii) (s : string) : string :=
  match s with
  | EmptyString => EmptyString
  | String d rest =>
      let rest := rstrip c rest in
      if is_char c d && bool_decide (rest = "") then EmptyString else String d rest
  end.

Section Projection.
Context `{UrlLib}.

(** [if value] of an optional text *)
Definition truthy_text (o : option string) : bool := match o with Some s => nonempty s | None => false end.

Definition validate_base_url_shape (value : string) : option string :=
  parsed ← urlsplit value;
  if bool_decide (split_scheme parsed ∉ ["http"; "https"]) || negb (truthy_text (split_hostname parsed)) then None
  else if truthy_text (split_username parsed) || truthy_text (split_password parsed) then None
  else if bool_decide (split_path parsed ∉ [""; "/"]) || nonempty (split_query parsed) || nonempty (split_fragment parsed)
  then None
  else Some (rstrip "/" value).

(** The constructor of [AgentConfig] for a managed credential; [None] is a
    [ValueError]. *)
Definition managed_config (id name base_url : string) (verify : bool) (ca_bundle : option string) (enabled : bool)
    : option AgentConfig :=
  if negb (is_agent_id id) || negb (nonempty name) then None
  else base_url ← validate_base_url_shape base_url;
       Some (mkAgentConfig id name base_url None verify ca_bundle enabled).

Record FleetRegistry := mkFleetRegistry { fr_profiles : list TransportProfile; fr_has_statuses : bool }.
Context (self : FleetRegistry).

Definition fr_profile (id : string) : option TransportProfile :=
  list_find (fun p => profile_id p = id) (reverse (fr_profiles self)) ≫= fun found => Some found.2.

(** [_project] *)
Definition project_record (record : AgentRecord) : option AgentConfig :=
  let build verify bundle := managed_config (agent_id record) (agent_display_name record)
                               (agent_normalized_endpoint record) verify bundle (agent_enabled record) in
  match fr_profile (agent_transport_profile_id record) with
  | Some (VerifiedTlsProfile _ ca_bundle) => build true ca_bundle
  | _ =>
      parsed ← urlsplit (agent_normalized_endpoint record);
      build (negb (bool_decide (split_scheme parsed = "http"))) None
  end.

(** ** Access *)
Context (other : nat -> DB * Dir -> DB * Dir).

Definition interfere (w : ManagerWorld) : ManagerWorld :=
  let '(db, dir) := other (mw_moment w) (mw_db w, mw_dir w) in
  mkManagerWorld db dir (mw_observations w) (mw_last_dispatch w) (mw_handed w) (S (mw_moment w)).

Definition reading {A} (f : DB -> A) : MW A := fun w => let w := interfere w in (inr (f (mw_db w)), w).

Definition calling {A} (m : Method A) : MW A := fun w =>
  let w := interfere w in
  let with_db db := mkManagerWorld db (mw_dir w) (mw_observations w) (mw_last_dispatch w) (mw_handed w) (mw_moment w) in
  match m (mw_db w) with
  | (inl e, db) => (inl (RepositoryRaised e), with_db db)
  | (inr a, db) => (inr a, with_db db)
  end.

Definition in_store {A} (m : FS A) : MW A := fun w =>
  let w := interfere w in
  let with_dir d := mkManagerWorld (mw_db w) d (mw_observations w) (mw_last_dispatch w) (mw_handed w) (mw_moment w) in
  match m (mw_dir w) with
  | (inl e, d) => (inl (store_exn e), with_dir d)
  | (inr a, d) => (inr a, with_dir d)
  end.

Definition get_record (id : string) : MW (option AgentRecord) := reading (fun db => agents db !! id).
Definition get_status (id : string) : MW (option AgentStatus) := reading (fun db => agent_status db !! id).

Definition or_raise {A} (o : option A) (e : manager_exn) : MW A :=
  match o with Some a => mw_ret a | None => mw_raise e end.

(** ** [FleetRegistry] *)
Definition project_get (id : string) : MW (option AgentConfig) :=
  let@ record := get_record id in
  match record with
  | None => mw_ret None
  | Some record => let@ config := or_raise (project_record record) ConfigValueError in mw_ret (Some config)
  end.

Definition identity_conflict (id : string) : MW bool :=
  if negb (fr_has_statuses self) then mw_ret false
  else
    let@ status := get_status id in
    mw_ret (match status with
            | Some s => bool_decide (status_last_error_code s ∈ [Some "agent_identity_conflict"; Some "agent_identity_changed"])
            | None => false
            end).

(** What [_configuration_valid] decides of a record without a conflict. *)
Definition profile_matches (record : AgentRecord) (scheme : string) : bool :=
  if bool_decide (agent_transport_profile_id record = "legacy-disabled-no-credential") then false
  else if bool_decide (agent_transport_profile_id record = "legacy-config-http") then
    bool_decide (scheme = "http") && imported_legacy record
  else match fr_profile (agent_transport_profile_id record) with
       | Some (VerifiedTlsProfile _ _) => bool_decide (scheme = "https")
       | Some (TrustedLanHttpProfile _ _) => bool_decide (scheme = "http")
       | None => false
       end.

Definition configuration_valid (record : AgentRecord) : MW bool :=
  let@ conflict := identity_conflict (agent_id record) in
  if conflict then mw_ret false
  else
    let@ parsed := or_raise (urlsplit (agent_normalized_endpoint record)) ConfigValueError in
    mw_ret (profile_matches record (split_scheme parsed)).

(** The text of a credential file; [None] is a [UnicodeError] or an empty text. *)
Definition token_text (raw : string) : option string :=
  if negb (strict_utf8 (bytes_of raw)) then None
  else if nonempty (strip_text raw) then Some (strip_text raw) else None.

(** [_read_credential] *)
Definition read_credential (record : AgentRecord) : MW string :=
  let@ raw := mw_catch (in_store (read (agent_credential_ref record))) (fun _ => mw_raise FleetRegistryConfigurationError) in
  or_raise (token_text raw) FleetRegistryConfigurationError.

Definition load_credential (agent : AgentConfig) : MW string :=
  let@ record := get_record (config_id agent) in
  match record with
  | None => mw_raise FleetRegistryConfigurationError
  | Some record =>
      let@ valid := configuration_valid record in
      if valid then read_credential record else mw_raise FleetRegistryConfigurationError
  end.

Definition validate_enable (record : AgentRecord) : MW unit :=
  let@ valid := configuration_valid record in
  if valid then read_credential record ;;@ mw_ret tt else mw_raise FleetRegistryConfigurationError.

Definition projected (record : AgentRecord) : MW (option AgentConfig) :=
  let@ config := or_raise (project_record record) ConfigValueError in mw_ret (Some config).

(** [for _attempt in range(3)]; [None] is the end of the loop. *)
Fixpoint set_enabled_loop (attempts : nat) (id : string) (enabled : bool) : MW (option (option AgentConfig)) :=
  match attempts with
  | 0 => mw_ret None
  | S attempts =>
      let@ record := get_record id in
      match record with
      | None => mw_ret (Some None)
      | Some record =>
          (if enabled then validate_enable record else mw_ret tt) ;;@
          if Bool.eqb (agent_enabled record) enabled then let@ c := projected record in mw_ret (Some c)
          else
            let@ updated := mw_catch
              (let@ a := calling (update_if_revision (record <| agent_enabled := enabled |>) (agent_revision record) None None) in
               mw_ret (Some a))
              (fun e => match e with RepositoryRaised RevisionConflict => mw_ret None | e => mw_raise e end) in
            match updated with
            | None => set_enabled_loop attempts id enabled
            | Some updated => let@ c := projected updated in mw_ret (Some c)
            end
      end
  end.

Definition fleet_set_enabled (id : string) (enabled : bool) : MW (option AgentConfig) :=
  let@ settled := set_enabled_loop 3 id enabled in
  match settled with
  | Some config => mw_ret config
  | None =>
      let@ latest := get_record id in
      match latest with
      | Some latest =>
          if Bool.eqb (agent_enabled latest) enabled then
            (if enabled then validate_enable latest else mw_ret tt) ;;@ projected latest
          else mw_raise FleetRegistryConflict
      | None => mw_raise FleetRegistryConflict
      end
  end.

(** ** [AgentRegistry] over a [FleetRegistry] *)
Definition agent_get (id : string) : MW AgentConfig :=
  let@ agent := project_get id in or_raise agent AgentNotFoundError.

Definition agent_revision_of (id : string) : MW (option Z) :=
  let@ record := get_record id in mw_ret (agent_revision <$> record).

Definition agent_set_enabled (id : string) (enabled : bool) : MW AgentConfig :=
  let@ agent := mw_catch (fleet_set_enabled id enabled)
    (fun e => match e with
              | FleetRegistryConfigurationError | FleetRegistryConflict => mw_raise AgentInvalidConfigurationError
              | e => mw_raise e
              end) in
  or_raise agent AgentNotFoundError.

Record AgentSummary := mkSummary {
  sum_id : string;
  sum_name : string;
  sum_enabled : bool;
  sum_status : string;
  sum_observed_at : option time;
  sum_stale_after : option time;
  sum_api_version : option string;
  sum_agent_version : option string;
  sum_capabilities : list string;
  sum_last_error : option string
}.

Definition config_summary (agent : AgentConfig) : AgentSummary :=
  mkSummary (config_id agent) (config_name agent) (config_enabled agent)
    (if config_enabled agent then "unknown" else "disabled") None None None None [] None.

Definition agent_summary (id : string) : MW AgentSummary := let@ agent := agent_get id in mw_ret (config_summary agent).
End Projection.
