(* ===== verification/Availability.v ===== *)
(** * Which Agents can be used

    [AgentAvailabilityService] of [src/backend/ic_env_guard/agents/availability.py]:
    what an Agent is known to be capable of, from the stored status or from the
    last probe, and a probe when nothing fresh is known.  [AgentHttpClient] and
    the probe delegate are callbacks; [clock] are the readings of
    [datetime.now(UTC)]. *)

From stdpp Require Import base tactics list gmap strings.
From Stdlib Require Import ZArith Lia Ascii.
From S2P Require Import Prelude Text Sql Digest Models Schema JobValidation MutationFence EnrollmentJournal ManagerRegistry.
From S2P Require Import SecretFiles TargetPolicy AgentClient LatestValue LogSources LogTail FleetImport FleetProbes AgentHttp AgentRegistry.

Local Open Scope manager_scope.

Definition API_VERSION : string := "1".
Definition LOCAL_CAPABILITIES : list string := ["services.v1"; "terminals.v1"; "audit.v1"; "monitoring.snapshot.v1"].

Definition DISPATCH_STATES : list string := ["not_dispatched"; "unknown"; "dispatched"].

(** [value if value in {...} else "unknown"] *)
Definition known_dispatch (value : string) : string := if bool_decide (value ∈ DISPATCH_STATES) then value else "unknown".

Record CapabilityCheck := mkCheck { check_supported : bool; check_dispatch_state : string }.

(** [str(value)] *)
Class PyStr := { py_str : json -> string }.

Record AvailabilityService := mkAvailability {
  av_client : AgentHttpClient;
  av_stale_after_seconds : Z;
  av_has_status_repository : bool;
  av_persist_probe_status : bool;
  av_delegate : option (string -> MW string)
}.

(** The [request_timeout_seconds] of a projected configuration. *)
Definition DEFAULT_REQUEST_TIMEOUT : Z := 10.

Section Service.
Context `{UrlLib} `{PyStr} (registry : FleetRegistry) (other : nat -> DB * Dir -> DB * Dir).
Context (wires : nat -> Wire) (clock : nat -> time) (self : AvailabilityService).

Definition now : MW time := fun w =>
  (inr (clock (mw_moment w)),
   mkManagerWorld (mw_db w) (mw_dir w) (mw_observations w) (mw_last_dispatch w) (mw_handed w) (S (mw_moment w))).

(** A call of the HTTP client. *)
Definition exchange {A} (purpose : Purpose) (x : Wire -> Exchange A) : MW A := fun w =>
  let '(sent, r) := x (wires (mw_moment w)) in
  let handed := reverse ((fun request => mkHanded purpose request (mw_db w)) <$> sent) ++ mw_handed w in
  let w := mkManagerWorld (mw_db w) (mw_dir w) (mw_observations w) (mw_last_dispatch w) handed (S (mw_moment w)) in
  match r with inl e => (inl (ClientRaised e), w) | inr a => (inr a, w) end.

Definition set_observation (id : string) (s : Seen) : MW unit := fun w =>
  (inr tt, mkManagerWorld (mw_db w) (mw_dir w) (<[id := s]> (mw_observations w)) (mw_last_dispatch w) (mw_handed w) (mw_moment w)).

Definition get_observation (id : string) : MW (option Seen) := fun w => (inr (mw_observations w !! id), w).

(** [clear] *)
Definition clear_observation (id : string) : MW unit := fun w =>
  (inr tt, mkManagerWorld (mw_db w) (mw_dir w) (delete id (mw_observations w)) (mw_last_dispatch w) (mw_handed w) (mw_moment w)).

Definition set_last_dispatch (id : string) (d : option string) : MW unit := fun w =>
  (inr tt, mkManagerWorld (mw_db w) (mw_dir w) (mw_observations w) (partial_alter (fun _ => d) id (mw_last_dispatch w))
             (mw_handed w) (mw_moment w)).

Definition get_last_dispatch (id : string) : MW (option string) := fun w => (inr (mw_last_dispatch w !! id), w).

(** ** What is known *)
(** The stored status, if it is about the present revision. *)
Definition stored_status (id : string) : MW (option AgentStatus) :=
  if negb (av_has_status_repository self) then mw_ret None
  else
    let@ stored := get_status other id in
    let@ revision := agent_revision_of other id in
    mw_ret (match stored, revision with
            | Some s, Some r => if (status_target_revision s =? r)%Z then Some s else None
            | _, _ => None
            end).

Definition fresh_observation (id : string) : MW (option Seen) :=
  let@ observation := get_observation id in
  match observation with
  | None => mw_ret None
  | Some s => let@ t := now in mw_ret (if (seen_stale_after s <=? t)%Z then None else Some s)
  end.

Definition with_observation (summary : AgentSummary) (s : Seen) : AgentSummary :=
  mkSummary (sum_id summary) (sum_name summary) (sum_enabled summary) (aobs_status (seen s))
    (Some (seen_observed_at s)) (Some (seen_stale_after s)) (aobs_api_version (seen s)) (aobs_agent_version (seen s))
    (aobs_capabilities (seen s)) (aobs_last_error (seen s)).

Definition with_status (summary : AgentSummary) (status : string) : AgentSummary :=
  mkSummary (sum_id summary) (sum_name summary) (sum_enabled summary) status (sum_observed_at summary)
    (sum_stale_after summary) (sum_api_version summary) (sum_agent_version summary) (sum_capabilities summary)
    (sum_last_error summary).

Definition with_stored (summary : AgentSummary) (s : AgentStatus) (stale_after : time) : AgentSummary :=
  mkSummary (sum_id summary) (sum_name summary) (sum_enabled summary) (status_connection_status s)
    (status_observed_at s) (Some stale_after) (status_api_version s) (status_agent_version s)
    (status_capabilities s) (status_last_error_code s).

Definition availability_summary (id : string) : MW AgentSummary :=
  let@ summary := agent_summary registry other id in
  let@ agent := agent_get registry other id in
  if negb (config_enabled agent) then mw_ret summary
  else
    let@ observation := get_observation id in
    let@ stored := stored_status id in
    match stored with
    | Some s =>
        if bool_decide (status_connection_status s = "disabled") then mw_ret summary
        else match status_stale_after s with
        | None => mw_ret (with_status summary "unknown")
        | Some stale_after =>
            let@ t := now in
            mw_ret (if (stale_after <=? t)%Z then with_status summary "unknown" else with_stored summary s stale_after)
        end
    | None =>
        match observation with
        | None => mw_ret (with_status summary "unknown")
        | Some s =>
            let@ t := now in
            mw_ret (if (seen_stale_after s <=? t)%Z then with_status summary "unknown" else with_observation summary s)
        end
    end.

Definition fresh_capabilities (id : string) : MW (option (list string)) :=
  let@ stored := stored_status id in
  let@ usable := match stored with
                 | Some s =>
                     if bool_decide (status_connection_status s ∈ ["ready"; "degraded"]) then
                       match status_stale_after s with
                       | Some stale_after =>
                           let@ t := now in mw_ret (if (t <? stale_after)%Z then Some (status_capabilities s) else None)
                       | None => mw_ret None
                       end
                     else mw_ret None
                 | None => mw_ret None
                 end in
  match usable with
  | Some capabilities => mw_ret (Some capabilities)
  | None =>
      let@ observation := fresh_observation id in
      mw_ret ((fun s => aobs_capabilities (seen s)) <$> observation)
  end.

Definition has_capability (id capability : string) : MW bool :=
  let@ capabilities := fresh_capabilities id in
  mw_ret (match capabilities with Some l => bool_decide (capability ∈ l) | None => false end).

(** ** Probes *)
(** [for capability in value] *)
Definition json_items (value : json) : option (list json) :=
  match value with
  | JList l => Some l
  | JDict d => Some ((fun kv => JString kv.1) <$> d)
  | JString s => Some ((fun c => JString (string_of_bytes (encode [c]))) <$> decode (bytes_of s))
  | _ => None
  end.

(** [None]: [KeyError] or [TypeError]. *)
Definition legacy_payload (payload : json) : option (string * string * list string) :=
  match payload with
  | JDict d =>
      api_version ← json_get "api_version" d;
      agent_version ← json_get "agent_version" d;
      capabilities ← json_get "capabilities" d;
      items ← json_items capabilities;
      Some (py_str api_version, py_str agent_version, map py_str items)
  | _ => None
  end.

Definition failed_observation (code dispatch : string) (t : time) : Seen :=
  mkSeen (mkObservation "unavailable" None None [] (Some code) dispatch) t (t + seconds (av_stale_after_seconds self))%Z.

Definition observed (answer : string * string * list string) (t : time) : Seen :=
  let '(api_version, agent_version, capabilities) := answer in
  let missing := negb (forallb (fun c => bool_decide (c ∈ capabilities)) LOCAL_CAPABILITIES) in
  if negb (bool_decide (api_version = API_VERSION)) then failed_observation "agent_protocol_error" "unknown" t
  else mkSeen (mkObservation (if missing then "degraded" else "ready") (Some api_version) (Some agent_version) capabilities
                 (if missing then Some "missing_capabilities" else None) "dispatched")
         t (t + seconds (av_stale_after_seconds self))%Z.

(** [client.request(agent, "GET", "/api/capabilities")] and the body as JSON;
    [None] when it is not. *)
Definition ask_legacy (agent : AgentConfig) : MW (option json) :=
  let@ token := mw_catch (let@ token := load_credential registry other agent in mw_ret (Some token)) (fun _ => mw_ret None) in
  exchange ForProbe (fun wire =>
    x_bind (@legacy_request wire (av_client self) (fun _ => token) DEFAULT_REQUEST_TIMEOUT agent "GET" "/api/capabilities" [] None [] None)
      (fun response => x_ret (@json_loads wire true (reply_content response)))).

Definition probe_legacy (id : string) : MW Seen :=
  let@ agent := agent_get registry other id in
  let@ t := now in
  mw_catch
    (let@ payload := ask_legacy agent in
     mw_ret (match payload ≫= legacy_payload with
             | Some answer => observed answer t
             | None => failed_observation "agent_protocol_error" "dispatched" t
             end))
    (fun e => match e with
              | ClientRaised (AgentHttp.AgentClientError category dispatch) =>
                  mw_ret (failed_observation category (known_dispatch dispatch) t)
              | ClientRaised (Raised ValueOrTypeError) =>
                  mw_ret (failed_observation "agent_protocol_error" "dispatched" t)
              | e => mw_raise e
              end).

(** [_persist_observation] *)
Definition persist_observation (id : string) (s : Seen) : MW unit :=
  if av_has_status_repository self && av_persist_probe_status self then
    let@ revision := agent_revision_of other id in
    match revision with
    | None => mw_ret tt
    | Some revision =>
        calling other (update_if_target_revision
          (mkStatus id revision (aobs_status (seen s)) "unknown" (Some (seen_observed_at s)) (Some (seen_stale_after s))
             (aobs_api_version (seen s)) (aobs_agent_version (seen s)) (aobs_capabilities (seen s)) (JDict [])
             (aobs_last_error (seen s)) (seen_observed_at s)) revision) ;;@
        mw_ret tt
    end
  else mw_ret tt.

Definition probe_availability (id : string) : MW AgentSummary :=
  let@ agent := agent_get registry other id in
  if negb (config_enabled agent) then agent_summary registry other id
  else match av_delegate self with
  | Some delegate =>
      let@ dispatch := delegate id in
      set_last_dispatch id (Some (known_dispatch dispatch)) ;;@
      availability_summary id
  | None =>
      let@ observation := probe_legacy id in
      set_observation id observation ;;@
      set_last_dispatch id (Some (aobs_dispatch_state (seen observation))) ;;@
      persist_observation id observation ;;@
      availability_summary id
  end.

Definition check_capability (id capability : string) : MW CapabilityCheck :=
  let@ capabilities := fresh_capabilities id in
  match capabilities with
  | Some l => mw_ret (mkCheck (bool_decide (capability ∈ l)) "not_dispatched")
  | None =>
      set_last_dispatch id None ;;@
      probe_availability id ;;@
      let@ supported := has_capability id capability in
      let@ dispatch := get_last_dispatch id in
      mw_ret (mkCheck supported (default "unknown" dispatch))
  end.
End Service.
