(* ===== verification/HttpProxy.v ===== *)
(** * The proxy to the Agents

    [AgentHttpProxy] of [src/backend/ic_env_guard/proxy/http.py]: a request for
    an Agent is sent with the credential and to the address of the record that
    was captured, only while the registry still holds that record, and the
    answer is returned only if it still does. *)

From stdpp Require Import base tactics list gmap strings.
From Stdlib Require Import ZArith Lia Ascii.
From S2P Require Import Prelude Text Sql Digest Models Schema JobValidation MutationFence EnrollmentJournal ManagerRegistry.
From S2P Require Import SecretFiles TargetPolicy AgentClient LatestValue LogSources LogTail FleetImport FleetProbes AgentHttp.
From S2P Require Import AgentRegistry Availability.

Local Open Scope manager_scope.

Record AgentProxyResponse := mkProxyResponse {
  pr_status_code : Z;
  pr_body : list (string * json);
  pr_dispatch_state : string
}.

Record AgentRouteSnapshot := mkRoute { route_target : ValidatedTarget; route_credential : string }.

Record AgentRouteCapture := mkCapture {
  cap_revision : Z;
  cap_credential_ref : string;
  cap_transport_profile_id : string;
  cap_normalized_endpoint : string;
  cap_enrollment_method : option EnrollmentMethod;
  cap_source : option string
}.

Definition capture_of (record : AgentRecord) : AgentRouteCapture :=
  mkCapture (agent_revision record) (agent_credential_ref record) (agent_transport_profile_id record)
    (agent_normalized_endpoint record) (Some (agent_enrollment_method record)) (Some (agent_source record)).

(** [_matches_capture] *)
Definition matches_capture (record : option AgentRecord) (c : AgentRouteCapture) : bool :=
  match record with
  | None => false
  | Some r =>
      agent_enabled r && (agent_revision r =? cap_revision c)%Z &&
      bool_decide (agent_credential_ref r = cap_credential_ref c) &&
      bool_decide (agent_transport_profile_id r = cap_transport_profile_id c) &&
      bool_decide (agent_normalized_endpoint r = cap_normalized_endpoint c) &&
      bool_decide (Some (agent_enrollment_method r) = cap_enrollment_method c) &&
      bool_decide (Some (agent_source r) = cap_source c)
  end.

Definition combined_dispatch_state (first second : string) : string :=
  if bool_decide ("dispatched" ∈ [first; second]) then "dispatched"
  else if bool_decide ("unknown" ∈ [first; second]) then "unknown"
  else "not_dispatched".

Definition target_error_status (code : string) : Z := if bool_decide (code = "agent_network_error") then 503 else 409.

Record AgentHttpProxy := mkProxy {
  px_availability : AvailabilityService;
  px_target_policy : option AgentTargetPolicy;
  px_profiles : list TransportProfile;
  px_client : AgentHttpClient;
  px_local_bootstrap_enabled : bool
}.

Record ProxyCall := mkCall {
  call_agent_id : string;
  call_capability : option string;
  call_method : string;
  call_upstream_path : string;
  call_query : list (string * json);
  call_correlation_id : option string;
  call_json : option json;
  call_tail : bool;
  call_route_capture : option AgentRouteCapture
}.

Section Proxy.
Context `{PythonIp} `{UrlLib} `{PyStr} (registry : FleetRegistry) (other : nat -> DB * Dir -> DB * Dir).
Context (wires : nat -> Wire) (clock : nat -> time) (resolvers : nat -> Resolver) (self : AgentHttpProxy).

Definition px_profile (id : string) : option TransportProfile :=
  list_find (fun p => profile_id p = id) (reverse (px_profiles self)) ≫= fun found => Some found.2.

Definition proxy_error {A} (code : string) (status : Z) (dispatch : string) : MW A :=
  mw_raise (AgentProxyError code status dispatch).

Definition resolving (policy : AgentTargetPolicy) (record : AgentRecord) (profile : TransportProfile) : MW ValidatedTarget :=
  fun w =>
  (match resolve_registered_target policy (resolvers (mw_moment w)) record profile (px_local_bootstrap_enabled self) with
   | inl code => inl (TargetRaised code)
   | inr target => inr target
   end, mkManagerWorld (mw_db w) (mw_dir w) (mw_observations w) (mw_last_dispatch w) (mw_handed w) (S (mw_moment w))).

(** The [try] block both methods begin with: the target of a record and the
    credential it names. *)
Definition route (policy : AgentTargetPolicy) (record : AgentRecord) (profile : TransportProfile) (credential_ref : string)
    : MW AgentRouteSnapshot :=
  mw_catch
    (let@ target := resolving policy record profile in
     let@ credential := in_store other (lease (read credential_ref)) in
     mw_ret (mkRoute target credential))
    (fun e => match e with
              | TargetRaised code => proxy_error code (target_error_status code) "not_dispatched"
              | StoreError SecretFiles.CredentialStoreError => proxy_error "agent_auth_error" 503 "not_dispatched"
              | e => mw_raise e
              end).

Definition resolve_captured_route (id : string) (c : AgentRouteCapture) : MW AgentRouteSnapshot :=
  let@ captured := get_record other id in
  match captured with
  | Some record =>
      if negb (matches_capture captured c) then proxy_error "agent_target_changed" 409 "not_dispatched"
      else match px_profile (cap_transport_profile_id c), px_target_policy self with
      | Some profile, Some policy =>
          let@ snapshot := route policy record profile (cap_credential_ref c) in
          let@ current := get_record other id in
          if negb (matches_capture current c) then proxy_error "agent_target_changed" 409 "not_dispatched"
          else mw_ret snapshot
      | _, _ => proxy_error "agent_transport_profile_invalid" 409 "not_dispatched"
      end
  | None => proxy_error "agent_target_changed" 409 "not_dispatched"
  end.

(** The attributes [code] and [dispatch_state] of an exception. *)
Definition attribute_code (e : manager_exn) : option string :=
  match e with AgentProxyError code _ _ | TargetRaised code => Some code | Exc code _ => code | _ => None end.

Definition attribute_dispatch (e : manager_exn) : option string :=
  match e with
  | AgentProxyError _ _ dispatch => Some dispatch
  | ClientRaised (AgentHttp.AgentClientError _ dispatch) => Some dispatch
  | Exc _ dispatch => dispatch
  | _ => None
  end.

Definition capability_check (call : ProxyCall) : MW string :=
  match call_capability call with
  | None => mw_ret "not_dispatched"
  | Some capability =>
      let@ check := mw_catch
        (check_capability registry other wires clock (px_availability self) (call_agent_id call) capability)
        (fun e => proxy_error (default "agent_unavailable" (attribute_code e)) 503 (default "unknown" (attribute_dispatch e))) in
      if check_supported check then mw_ret (check_dispatch_state check)
      else proxy_error "agent_capability_missing" 409 (check_dispatch_state check)
  end.

(** The request, and the body as JSON ([None] is a [ValueError]). *)
Definition send (call : ProxyCall) (snapshot : AgentRouteSnapshot) : MW (Z * option json) :=
  exchange wires ForProxy (fun wire =>
    x_bind
      (if call_tail call then
         @request_tail wire (px_client self) (route_target snapshot) (route_credential snapshot) (call_upstream_path call)
           (call_correlation_id call) (call_query call) (1024 * 1024 - 4096)
       else
         @agent_request wire (px_client self) (route_target snapshot) (route_credential snapshot) (call_method call)
           (call_upstream_path call) [] (call_correlation_id call) (call_query call) (call_json call))
      (fun response =>
         x_ret (reply_status response,
                if (reply_status response =? 204)%Z then Some (JDict []) else @json_loads wire true (reply_content response)))).

Definition send_explained (call : ProxyCall) (snapshot : AgentRouteSnapshot) (capability_dispatch_state : string)
    : MW (Z * option json) :=
  mw_catch (send call snapshot)
    (fun e => match e with
              | ClientRaised (AgentHttp.AgentClientError category dispatch) =>
                  proxy_error category (if bool_decide (category = "agent_network_error") then 503 else 502)
                    (combined_dispatch_state capability_dispatch_state dispatch)
              | ClientRaised (Raised ValueOrTypeError) => proxy_error "agent_protocol_error" 502 "dispatched"
              | e => mw_raise e
              end).

Definition captured_matches (call : ProxyCall) (record : AgentRecord) : bool :=
  match call_route_capture call with Some c => matches_capture (Some record) c | None => true end.

Definition request_json (call : ProxyCall) : MW AgentProxyResponse :=
  let id := call_agent_id call in
  let@ captured := get_record other id in
  match captured with
  | None => proxy_error "agent_not_found" 404 "not_dispatched"
  | Some captured =>
      if negb (agent_enabled captured) then proxy_error "agent_disabled" 409 "not_dispatched"
      else if negb (captured_matches call captured) then proxy_error "agent_target_changed" 409 "not_dispatched"
      else match px_profile (agent_transport_profile_id captured), px_target_policy self with
      | Some profile, Some policy =>
          let@ snapshot := route policy captured profile (agent_credential_ref captured) in
          let@ dispatch := capability_check call in
          let@ current := get_record other id in
          if negb (matches_capture current (capture_of captured)) then proxy_error "agent_target_changed" 409 dispatch
          else
            let@ (status, body) := send_explained call snapshot dispatch in
            match body with
            | Some (JDict body) =>
                let@ current := get_record other id in
                if negb (matches_capture current (capture_of captured))
                then proxy_error "agent_target_changed" 409 "dispatched"
                else mw_ret (mkProxyResponse status body "dispatched")
            | _ => proxy_error "agent_protocol_error" 502 "dispatched"
            end
      | _, _ => proxy_error "agent_transport_profile_invalid" 409 "not_dispatched"
      end
  end.
End Proxy.
