(* ===== verification/ProxyFacts.v ===== *)
(** * Facts about the registry, the availability service and the proxy

    What an operation hands to the HTTP library, and what the dispatch states
    that it reports say about it. *)

From stdpp Require Import base tactics list gmap strings.
From Stdlib Require Import ZArith Lia Ascii.
From S2P Require Import Prelude Text Sql Digest Models Schema JobValidation MutationFence EnrollmentJournal ManagerRegistry.
From S2P Require Import SecretFiles TargetPolicy AgentClient LatestValue LogSources LogTail FleetImport FleetProbes AgentHttp AgentHttpClaims.
From S2P Require Import AgentRegistry Availability HttpProxy.

Local Open Scope manager_scope.

(** ** Binding *)
Lemma mw_bind_inv {A B} (m : MW A) (k : A -> MW B) w r w' :
  mw_bind m k w = (r, w') ->
  (exists e, m w = (inl e, w') /\ r = inl e) \/ exists a w1, m w = (inr a, w1) /\ k a w1 = (r, w').
Proof. unfold mw_bind. destruct (m w) as [[e|a] w1]; [intros [= <- <-]|]; eauto. Qed.

Lemma mw_catch_inv {A} (m : MW A) h w r w' :
  mw_catch m h w = (r, w') ->
  (exists e w1, m w = (inl e, w1) /\ (e = ManagerDied /\ w' = w1 /\ r = inl ManagerDied \/ h e w1 = (r, w'))) \/
  exists a, m w = (inr a, w') /\ r = inr a.
Proof.
  unfold mw_catch. destruct (m w) as [[e|a] w1].
  - destruct e; intros E; left; eexists _, _; split; try reflexivity; try (right; exact E). left. by injection E as <- <-.
  - intros [= <- <-]. eauto.
Qed.

(** ** Offline operations *)
(** They hand over no request, leave the remembered dispatch states alone, and
    their exceptions have no attribute [dispatch_state]. *)
Definition offline {A} (m : MW A) : Prop := forall w r w', m w = (r, w') ->
  mw_handed w' = mw_handed w /\ mw_last_dispatch w' = mw_last_dispatch w /\
  forall e, r = inl e -> attribute_dispatch e = None.

Lemma offline_ret {A} (a : A) : offline (mw_ret a).
Proof. by intros w r w' [= <- <-]. Qed.

Lemma offline_raise {A} e : attribute_dispatch e = None -> offline (mw_raise (A := A) e).
Proof. intros He w r w' [= <- <-]. split_and!; [done..|]. by intros ? [= <-]. Qed.

Lemma offline_bind {A B} (m : MW A) (k : A -> MW B) : offline m -> (forall a, offline (k a)) -> offline (mw_bind m k).
Proof.
  intros Hm Hk w r w' [(e & E & ->)|(a & w1 & E & E2)]%mw_bind_inv; [apply Hm in E; naive_solver|].
  apply Hm in E as (Hh & Hl & _). apply Hk in E2 as (Hh2 & Hl2 & He). split_and!; [congruence..|done].
Qed.

Lemma offline_catch {A} (m : MW A) h : offline m -> (forall e, attribute_dispatch e = None -> offline (h e)) -> offline (mw_catch m h).
Proof.
  intros Hm Hh w r w' [(e & w1 & E & E2)|(a & E & ->)]%mw_catch_inv; [|by apply Hm in E as (? & ? & _)].
  apply Hm in E as (H1 & H2 & He). destruct E2 as [(-> & -> & ->)|E2]; [by split_and!|].
  apply (Hh _ (He _ eq_refl)) in E2 as (? & ? & ?). split_and!; [congruence..|done].
Qed.

Create HintDb offline.
#[export] Hint Resolve offline_ret offline_raise offline_bind offline_catch : offline.

Ltac offline := repeat first
  [ progress auto with offline
  | match goal with
    | |- offline (if ?b then _ else _) => destruct b
    | |- offline (match ?x with _ => _ end) => destruct x
    | |- offline (mw_bind _ _) => apply offline_bind; [|intros ?]
    | |- offline (mw_catch _ _) => apply offline_catch; [|intros ? ?]
    end ].

Section Offline.
Context `{UrlLib} `{PyStr} (registry : FleetRegistry) (other : nat -> DB * Dir -> DB * Dir).
Context (wires : nat -> Wire) (clock : nat -> time) (service : AvailabilityService).

Lemma interfere_calm w :
  mw_handed (interfere other w) = mw_handed w /\ mw_last_dispatch (interfere other w) = mw_last_dispatch w.
Proof. unfold interfere. by destruct (other _ _). Qed.

Lemma offline_reading {A} (f : DB -> A) : offline (reading other f).
Proof. intros w r w' [= <- <-]. destruct (interfere_calm w). by split_and!. Qed.

Lemma offline_calling {A} (m : Method A) : offline (calling other m).
Proof.
  intros w r w'. unfold calling. destruct (interfere_calm w).
  destruct (m _) as [[e|a] db]; intros [= <- <-]; (split_and!; [done..|]); by intros ? [= <-].
Qed.

Lemma offline_in_store {A} (m : FS A) : offline (in_store other m).
Proof.
  intros w r w'. unfold in_store. destruct (interfere_calm w).
  destruct (m _) as [[e|a] db]; intros [= <- <-]; (split_and!; [done..|]); intros ? [= <-]. by destruct e.
Qed.

Lemma offline_or_raise {A} (o : option A) e : attribute_dispatch e = None -> offline (or_raise o e).
Proof. intros He. unfold or_raise. destruct o; offline. Qed.

Lemma offline_now : offline (now clock).
Proof. by intros w r w' [= <- <-]. Qed.

Lemma offline_get_observation id : offline (get_observation id).
Proof. by intros w r w' [= <- <-]. Qed.

Lemma offline_set_observation id s : offline (set_observation id s).
Proof. by intros w r w' [= <- <-]. Qed.

#[local] Hint Resolve offline_reading offline_calling offline_in_store offline_or_raise offline_now offline_get_observation offline_set_observation : offline.

Lemma offline_get id : offline (get_record other id).
Proof. apply offline_reading. Qed.

Lemma offline_agent_get id : offline (agent_get registry other id).
Proof. unfold agent_get, project_get, get_record. offline. Qed.

Lemma offline_agent_summary id : offline (agent_summary registry other id).
Proof. unfold agent_summary. apply offline_bind; [apply offline_agent_get|]. offline. Qed.
#[local] Hint Resolve offline_get offline_agent_get offline_agent_summary : offline.

Lemma offline_load_credential agent : offline (load_credential registry other agent).
Proof. unfold load_credential, configuration_valid, identity_conflict, read_credential, get_status. offline. Qed.

Lemma offline_stored_status id : offline (stored_status other service id).
Proof. unfold stored_status, agent_revision_of, get_status. offline. Qed.
#[local] Hint Resolve offline_load_credential offline_stored_status : offline.

Lemma offline_summary id : offline (availability_summary registry other clock service id).
Proof. unfold availability_summary. offline. Qed.

Lemma offline_fresh id : offline (fresh_capabilities other clock service id).
Proof. unfold fresh_capabilities, fresh_observation. offline. Qed.
#[local] Hint Resolve offline_fresh : offline.

Lemma offline_has_capability id capability : offline (has_capability other clock service id capability).
Proof. unfold has_capability. offline. Qed.

Lemma offline_persist id s : offline (persist_observation other service id s).
Proof. unfold persist_observation, agent_revision_of. offline. Qed.
End Offline.

(** ** Dispatch states *)
(** A dispatch state tells the truth about the requests that were handed over. *)
Definition honest {A} (state : string) (handed : list A) : Prop :=
  (state = "not_dispatched" -> handed = []) /\ (state = "dispatched" -> handed <> []).

Lemma honest_unknown {A} (l : list A) : honest "unknown" l.
Proof. by split. Qed.

Lemma honest_known {A} state (l : list A) : honest state l -> honest (known_dispatch state) l.
Proof. unfold known_dispatch. case_bool_decide; [done|]. intros _. apply honest_unknown. Qed.

Lemma known_dispatch_state state : known_dispatch state ∈ DISPATCH_STATES.
Proof. unfold known_dispatch. case_bool_decide; [done|]. by right; left. Qed.

Lemma honest_combined {A} first second (l1 l2 : list A) :
  first ∈ DISPATCH_STATES -> second ∈ DISPATCH_STATES -> honest first l1 -> honest second l2 ->
  honest (combined_dispatch_state first second) (l2 ++ l1).
Proof.
  unfold DISPATCH_STATES. intros H1 H2 [Hn1 Hd1] [Hn2 Hd2].
  rewrite !elem_of_cons, elem_of_nil in H1, H2.
  destruct H1 as [->|[->|[->|[]]]], H2 as [->|[->|[->|[]]]]; cbn; split; try done;
    intros _; rewrite ?Hn1, ?Hn2 by done; try done; intros E; apply app_eq_nil in E as [? ?]; naive_solver.
Qed.

(** The two orders of dispatch states agree. *)
Lemma combined_is_combine first second : first ∈ DISPATCH_STATES -> second ∈ DISPATCH_STATES ->
  dispatch_state (combined_dispatch_state first second) = combine_dispatch (dispatch_state first) (dispatch_state second).
Proof.
  unfold DISPATCH_STATES. intros H1 H2. rewrite !elem_of_cons, elem_of_nil in H1, H2.
  destruct H1 as [->|[->|[->|[]]]], H2 as [->|[->|[->|[]]]]; reflexivity.
Qed.

(** ** Exchanges *)
(** What an exchange says about the requests it sent. *)
Definition told {A} (r : client_exn + A) (sent : list HttpRequest) : Prop :=
  match r with
  | inr _ => sent <> []
  | inl (AgentHttp.AgentClientError _ dispatch) => honest dispatch sent /\ dispatch ∈ DISPATCH_STATES
  | inl (Raised _) => sent <> []
  end.

(** What may follow a request: nothing more is sent, and no error denies it. *)
Definition late {A} (m : Exchange A) : Prop :=
  m.1 = [] /\ match m.2 with
              | inl (AgentHttp.AgentClientError _ dispatch) => dispatch ∈ ["unknown"; "dispatched"]
              | _ => True
              end.

Lemma late_bind {A B} (m : Exchange A) (k : A -> Exchange B) : late m -> (forall a, late (k a)) -> late (x_bind m k).
Proof.
  intros [Hm He] Hk. unfold x_bind. destruct m as [s [e|a]]; [by split|]. specialize (Hk a) as [Hs Hr]. unfold late.
  destruct (k a) as [s2 r]. cbn in *. by subst.
Qed.

Lemma late_ret {A} (a : A) : late (x_ret a). Proof. by split. Qed.
Lemma late_protocol {A} : late (protocol_error (A := A)). Proof. split; [done|]. by right; left. Qed.
Lemma late_raised {A} e : late (x_raise (A := A) (Raised e)). Proof. by split. Qed.
Lemma late_auth b : late (x_require b "agent_auth_error" "unknown"). Proof. destruct b; split; try done. by left. Qed.

Lemma late_chunks limit content chunks ending : late (read_chunks limit content chunks ending).
Proof.
  revert content. induction chunks as [|c chunks IH]; intros content; cbn [read_chunks].
  - destruct ending; [apply late_raised|apply late_ret].
  - case_match; [apply late_protocol|apply IH].
Qed.

Create HintDb late.
#[export] Hint Resolve late_bind late_ret late_protocol late_raised late_auth late_chunks : late.

Lemma late_read streamed limit : late (read_bounded_response streamed limit).
Proof.
  unfold read_bounded_response, content_length_ok.
  repeat first [progress auto with late | apply late_bind; [|intros ?] | case_match].
Qed.

Lemma late_validate `{Wire} response limit : late (validate_response response limit).
Proof. unfold validate_response. repeat first [progress auto with late | case_match]. Qed.

(** Errors of the library that the clauses turn into [AgentClientError]. *)
Definition explains (f : client_exn -> client_exn) : Prop :=
  (forall c d, f (AgentHttp.AgentClientError c d) = AgentHttp.AgentClientError c d) /\
  f (Raised SslOrOsError) <> Raised SslOrOsError /\
  forall e, match f (Raised e) with
            | AgentHttp.AgentClientError _ d => d = "unknown"
            | Raised e' => e' = e
            end.

Lemma target_error_explains : explains target_error.
Proof. split_and!; [done|done|]. by intros []. Qed.

Lemma legacy_error_explains : explains legacy_error.
Proof. split_and!; [done|done|]. by intros []. Qed.

(** A [try] block that verifies, streams and reads. *)
Lemma told_attempt `{Wire} {A} f (verify : Exchange Verification) request (k : StreamedResponse -> Exchange A) :
  explains f -> verify.1 = [] ->
  match verify.2 with inl (Raised SslOrOsError) | inr _ => True | _ => False end -> (forall s, late (k s)) ->
  let m := x_except f (x_bind verify (fun v => x_bind (stream (request v)) k)) in told m.2 m.1.
Proof.
  intros (Hf & Hs & Hr) Hv He Hk. destruct verify as [s0 [e|v]]; cbn in Hv, He; subst s0; cbn.
  - destruct e as [|[]]; try done. specialize (Hr SslOrOsError). destruct (f (Raised SslOrOsError)) as [c d|e].
    + subst d. split; [apply honest_unknown|by right; left].
    + subst e. done.
  - destruct (wire_stream (request v)) as [e|streamed]; cbn.
    + specialize (Hr e). destruct (f (Raised e)) as [c d|e']; [|done]. subst d. split; [apply honest_unknown|by right; left].
    + specialize (Hk streamed) as [Hs2 Hk]. destruct (k streamed) as [s2 [e|a]]; cbn in *; subst s2; [|done].
      destruct e as [c d|e]; [rewrite Hf|].
      * rewrite !elem_of_cons, elem_of_nil in Hk. destruct Hk as [->|[->|[]]]; (split; [by split|]); [by right; left|by right; right; left].
      * specialize (Hr e). destruct (f (Raised e)) as [c d|e']; [|done]. subst d. split; [apply honest_unknown|by right; left].
Qed.

Lemma told_bind_late {A B} (m : Exchange A) (k : A -> Exchange B) :
  told m.2 m.1 -> (forall a, late (k a)) -> told (x_bind m k).2 (x_bind m k).1.
Proof.
  destruct m as [s [e|a]]; cbn; [done|]. intros Hs Hk. specialize (Hk a) as [Hs2 Hk].
  destruct (k a) as [s2 [e|b]]; cbn in *; subst s2; rewrite app_nil_r; [|done].
  destruct e as [c d|e]; [|done]. rewrite !elem_of_cons, elem_of_nil in Hk.
  destruct Hk as [->|[->|[]]]; (split; [by split|]); [by right; left|by right; right; left].
Qed.

Lemma x_bind_ret {A B} (a : A) (k : A -> Exchange B) : x_bind (x_ret a) k = k a.
Proof. unfold x_bind, x_ret. by destruct (k a). Qed.

(** The shape both requests have after their checks. *)
Lemma told_request `{Wire} f verify (request : Verification -> HttpRequest) (k : StreamedResponse -> Exchange HttpReply) limit :
  explains f -> verify.1 = [] ->
  match verify.2 with inl (Raised SslOrOsError) | inr _ => True | _ => False end -> (forall s, late (k s)) ->
  let m := x_bind (x_except f (x_bind verify (fun v => x_bind (stream (request v)) k)))
             (fun response => validate_response response limit) in told m.2 m.1.
Proof. intros. apply told_bind_late; [by apply told_attempt|]. intros a. apply late_validate. Qed.

Lemma told_legacy `{Wire} client loader timeout agent method path incoming correlation params body :
  let m := legacy_request client loader timeout agent method path incoming correlation params body in told m.2 m.1.
Proof.
  unfold legacy_request. destruct (loader agent) as [token|].
  2: { cbn. split; [by split|by left]. }
  rewrite x_bind_ret. cbn zeta. destruct (validate_upstream_path path).
  2: { cbn. split; [apply honest_unknown|by right; left]. }
  unfold x_require. rewrite x_bind_ret. apply told_request; [apply legacy_error_explains|..].
  - unfold legacy_verify_setting. by repeat case_match.
  - unfold legacy_verify_setting. by repeat case_match.
  - intros s. apply late_read.
Qed.

Lemma told_target `{Wire} client target credential method path incoming correlation params body limit :
  let m := target_request client target credential method path incoming correlation params body limit in told m.2 m.1.
Proof.
  unfold target_request. destruct (validate_upstream_path path).
  2: { cbn. split; [apply honest_unknown|by right; left]. }
  change (x_require true "agent_protocol_error" "unknown") with (x_ret tt). rewrite !x_bind_ret.
  destruct (decode_credential credential) as [token|].
  2: { cbn. split; [apply honest_unknown|by right; left]. }
  rewrite !x_bind_ret. apply told_request; [apply target_error_explains|..].
  - unfold target_verify_setting. by repeat case_match.
  - unfold target_verify_setting. by repeat case_match.
  - intros s. apply late_bind; [apply late_auth|]. intros _. apply late_read.
Qed.

Lemma handed_nil {A B} (f : A -> B) (l : list A) : reverse (f <$> l) = [] <-> l = [].
Proof.
  split; [|by intros ->]. intros E. destruct l as [|a l]; [done|]. exfalso.
  apply (f_equal length) in E. rewrite length_reverse, length_fmap in E. done.
Qed.

Lemma honest_handed {A B} (f : A -> B) s (l : list A) : honest s l -> honest s (reverse (f <$> l)).
Proof. intros [Hn Hd]. split; intros Hs; rewrite handed_nil; auto. Qed.

Lemma exchange_spec wires {A} purpose (x : Wire -> Exchange A) w r w' :
  exchange wires purpose x w = (r, w') ->
  let m := x (wires (mw_moment w)) in
  mw_handed w' = reverse ((fun request => mkHanded purpose request (mw_db w)) <$> m.1) ++ mw_handed w /\
  mw_last_dispatch w' = mw_last_dispatch w /\ mw_db w' = mw_db w /\
  r = match m.2 with inl e => inl (ClientRaised e) | inr a => inr a end.
Proof.
  unfold exchange. cbn zeta. destruct (x (wires (mw_moment w))) as [sent [e|a]]; intros [= <- <-]; done.
Qed.

(** ** Probes *)
Definition from_probe (h : Handed) : Prop := handed_for h = ForProbe.

(** Only probes are handed over, and the result or the exception tells the truth. *)
Definition truthful {A} (state : A -> string) (m : MW A) : Prop := forall w r w', m w = (r, w') ->
  exists l, mw_handed w' = l ++ mw_handed w /\ Forall from_probe l /\
    match r with
    | inl e => match attribute_dispatch e with Some s => honest s l | None => True end
    | inr a => honest (state a) l /\ state a ∈ DISPATCH_STATES
    end.

Section Probing.
Context `{UrlLib} `{PyStr} (registry : FleetRegistry) (other : nat -> DB * Dir -> DB * Dir).
Context (wires : nat -> Wire) (clock : nat -> time) (service : AvailabilityService).

(** What the delegate promises: its outcome, or its exception, tells the truth. *)
Definition delegate_truthful : Prop :=
  match av_delegate service with
  | None => True
  | Some delegate => forall id, truthful known_dispatch (delegate id)
  end.

(** [except Exception] of the client around the credential loader. *)
Lemma loaded_spec agent w r w' :
  mw_catch (let@ token := load_credential registry other agent in mw_ret (Some token)) (fun _ => mw_ret None) w = (r, w') ->
  mw_handed w' = mw_handed w /\ forall e, r = inl e -> e = ManagerDied.
Proof.
  assert (Hc : offline (let@ token := load_credential registry other agent in mw_ret (Some token))).
  { apply offline_bind; [apply offline_load_credential|]. intros. apply offline_ret. }
  intros [(e & w1 & E & E2)|(a & E & ->)]%mw_catch_inv; apply Hc in E as (Hh & _); [|done].
  destruct E2 as [(-> & -> & ->)|[= <- <-]]; [|done]. split; [done|]. by intros ? [= <-].
Qed.

(** Only probes are handed over. *)
Lemma ask_legacy_spec agent w r w' : ask_legacy registry other wires service agent w = (r, w') ->
  exists l, mw_handed w' = l ++ mw_handed w /\ Forall from_probe l /\
    match r with
    | inr _ => l <> []
    | inl (ClientRaised (AgentHttp.AgentClientError _ d)) => honest d l /\ d ∈ DISPATCH_STATES
    | inl (ClientRaised (Raised _)) => l <> []
    | inl e => attribute_dispatch e = None
    end.
Proof.
  unfold ask_legacy. intros [(e & E & ->)|(token & w1 & E & E2)]%mw_bind_inv.
  - apply loaded_spec in E as [Hh He]. exists []. by rewrite (He _ eq_refl).
  - apply loaded_spec in E as [Hh _].
    apply exchange_spec in E2 as (Hn & _ & _ & ->). rewrite Hh in Hn. eexists. split; [exact Hn|]. split.
    { apply Forall_forall. intros h Hin. rewrite elem_of_reverse in Hin. by apply list_elem_of_fmap in Hin as (? & -> & _). }
    match goal with |- context [x_bind (@legacy_request ?wire ?c ?l ?t ?a ?m ?p ?i ?co ?pa ?b) ?k] =>
      pose proof (told_bind_late _ k (@told_legacy wire c l t a m p i co pa b) (fun _ => late_ret _)) as Ht end.
    destruct (x_bind _ _) as [sent [[c d|e]|a]]; cbn [fst snd told] in *.
    + destruct Ht. split; [by apply honest_handed|done].
    + by rewrite handed_nil.
    + by rewrite handed_nil.
Qed.

Lemma probe_legacy_truthful id : truthful (fun s => aobs_dispatch_state (seen s)) (probe_legacy registry other wires clock service id).
Proof.
  intros w r w'. unfold probe_legacy. intros [(e & E & ->)|(agent & w1 & E & E2)]%mw_bind_inv;
    apply offline_agent_get in E as (Hh & _ & He).
  { exists []. split_and!; [done..|]. by rewrite (He _ eq_refl). }
  clear He. apply mw_bind_inv in E2 as [(e & E2 & _)|(t & w2 & E2 & E3)]; [discriminate E2|].
  injection E2 as <- <-. apply mw_catch_inv in E3 as [(e & w3 & E3 & E4)|(a & E3 & ->)].
  - apply mw_bind_inv in E3 as [(e' & E3 & [= <-])|(? & ? & _ & [=])].
    apply ask_legacy_spec in E3 as (l & Hl & Hp & Hr). cbn [mw_handed] in Hl. rewrite Hh in Hl.
    destruct E4 as [(-> & -> & ->)|E4]; [by exists l|].
    destruct e as [| | | | | | | | |[c d|[]]| |]; injection E4 as <- <-; exists l; (split; [exact Hl|split; [exact Hp|]]);
      try done.
    + destruct Hr as [Hr Hd]. split; [by apply honest_known|apply known_dispatch_state].
    + split; [by split|]. by right; right; left.
    + by rewrite Hr.
  - apply mw_bind_inv in E3 as [(? & _ & ?)|(payload & w3 & E3 & [= <- <-])]; [done|].
    apply ask_legacy_spec in E3 as (l & Hl & Hp & Hr). cbn [mw_handed] in Hl. rewrite Hh in Hl.
    exists l. split; [exact Hl|split; [exact Hp|]]. destruct (payload ≫= legacy_payload) as [[[api version] caps]|].
    + unfold observed. case_bool_decide; cbn [negb]; [split; [by split|by right; right; left]|].
      split; [apply honest_unknown|by right; left].
    + split; [by split|by right; right; left].
Qed.

(** A offline operation after [l] was handed over. *)
Lemma offline_step {A B} (m : MW A) (k : A -> MW B) w r w' :
  offline m -> mw_bind m k w = (r, w') ->
  (exists e, r = inl e /\ mw_handed w' = mw_handed w /\ attribute_dispatch e = None) \/
  exists a w1, k a w1 = (r, w') /\ mw_handed w1 = mw_handed w /\ mw_last_dispatch w1 = mw_last_dispatch w.
Proof.
  intros Hm [(e & E & ->)|(a & w1 & E & E2)]%mw_bind_inv; apply Hm in E as (Hh & Hl & He); [left|right]; eauto 10.
Qed.

Definition last_state (id : string) (w : ManagerWorld) : string := default "unknown" (mw_last_dispatch w !! id).

Definition probed (id : string) {A} (r : manager_exn + A) (l : list Handed) (w : ManagerWorld) : Prop :=
  match r with
  | inl e => match attribute_dispatch e with Some s => honest s l | None => True end
  | inr _ => honest (last_state id w) l /\ last_state id w ∈ DISPATCH_STATES
  end.

Lemma set_last_spec id d w r w' : set_last_dispatch id d w = (r, w') ->
  r = inr tt /\ mw_handed w' = mw_handed w /\ mw_last_dispatch w' !! id = d.
Proof. intros [= <- <-]. cbn. by rewrite lookup_partial_alter_eq. Qed.

(** The end of a probe: the summary. *)
Lemma summary_probed {A} (m : MW A) id l w0 w r w' :
  offline m -> m w = (r, w') -> mw_handed w = l ++ w0 ->
  honest (last_state id w) l -> last_state id w ∈ DISPATCH_STATES ->
  mw_handed w' = l ++ w0 /\ probed id r l w'.
Proof.
  intros Hm E Hw Hh Hs. apply Hm in E as (Hh' & Hl' & He). split; [congruence|]. unfold probed.
  destruct r as [e|a]; [by rewrite (He _ eq_refl)|]. unfold last_state in *. by rewrite Hl'.
Qed.

Lemma probe_availability_spec id w r w' : delegate_truthful -> mw_last_dispatch w !! id = None ->
  probe_availability registry other wires clock service id w = (r, w') ->
  exists l, mw_handed w' = l ++ mw_handed w /\ Forall from_probe l /\ probed id r l w'.
Proof.
  intros Hd Hn. unfold probe_availability.
  intros E0. destruct (offline_step _ _ _ _ _ (offline_agent_get registry other id) E0)
    as [(e & -> & Hh & He)|(agent & w1 & E & Hh & Hl)].
  { exists []. unfold probed. rewrite He. by split_and!. }
  destruct (negb (config_enabled agent)).
  { exists []. destruct (summary_probed _ id [] (mw_handed w) w1 r w' (offline_agent_summary registry other id) E) as [H1 H2];
      [by rewrite Hh|..]; unfold last_state; rewrite ?Hl, ?Hn; [apply honest_unknown|by right; left|]. by split_and!. }
  unfold delegate_truthful in Hd. destruct (av_delegate service) as [delegate|].
  - apply mw_bind_inv in E as [(e & E & ->)|(d & w2 & E & E2)]; apply Hd in E as (l & Hl2 & Hp & Hr); rewrite Hh in Hl2.
    { exists l. by split_and!. }
    apply mw_bind_inv in E2 as [(? & E2 & _)|([] & w3 & E2 & E3)]; [done|]. apply set_last_spec in E2 as (_ & Hh3 & Hl3).
    exists l. destruct Hr as [Hr1 Hr2].
    destruct (summary_probed _ id l (mw_handed w) w3 r w' (offline_summary registry other clock service id) E3) as [H1 H2];
      [congruence|..]; unfold last_state; rewrite ?Hl3; [done|done|]. by split_and!.
  - apply mw_bind_inv in E as [(e & E & ->)|(s & w2 & E & E2)]; apply probe_legacy_truthful in E as (l & Hl2 & Hp & Hr);
      rewrite Hh in Hl2. { exists l. by split_and!. }
    apply mw_bind_inv in E2 as [(? & E2 & _)|([] & w3 & E2 & E3)]; [done|]. injection E2 as <-.
    apply mw_bind_inv in E3 as [(? & E3 & _)|([] & w4 & E3 & E4)]; [done|]. apply set_last_spec in E3 as (_ & Hh4 & Hl4).
    exists l. destruct Hr as [Hr1 Hr2]. cbn [mw_handed] in Hh4.
    assert (Hc : offline (persist_observation other service id s ;;@ availability_summary registry other clock service id)).
    { apply offline_bind; [apply offline_persist|]. intros. apply offline_summary. }
    destruct (summary_probed _ id l (mw_handed w) w4 r w' Hc E4) as [H1 H2];
      [congruence|..]; unfold last_state; rewrite ?Hl4; [done|done|]. by split_and!.
Qed.

Lemma check_capability_truthful id capability : delegate_truthful ->
  truthful check_dispatch_state (check_capability registry other wires clock service id capability).
Proof.
  intros Hd w r w'. unfold check_capability.
  intros E0. destruct (offline_step _ _ _ _ _ (offline_fresh other clock service id) E0)
    as [(e & -> & Hh & He)|(caps & w1 & E & Hh & Hl)].
  { exists []. rewrite He. by split_and!. }
  destruct caps as [caps|].
  { injection E as <- <-. exists []. split; [done|]. split; [done|]. split; [by split|by left]. }
  apply mw_bind_inv in E as [(? & E & _)|([] & w2 & E & E2)]; [done|]. apply set_last_spec in E as (_ & Hh2 & Hl2).
  apply mw_bind_inv in E2 as [(e & E2 & ->)|(s & w3 & E2 & E3)];
    destruct (probe_availability_spec _ _ _ _ Hd Hl2 E2) as (l & Hl3 & Hp & Hr); rewrite Hh2, Hh in Hl3; exists l.
  { by split_and!. }
  destruct (offline_step _ _ _ _ _ (offline_has_capability other clock service id capability) E3)
    as [(e & -> & Hh3 & He)|(supported & w4 & E & Hh4 & Hl4)].
  { rewrite He. split_and!; [congruence|done|done]. }
  apply mw_bind_inv in E as [(? & E & _)|(d & w5 & [= <- <-] & [= <- <-])]; [done|].
  split; [congruence|]. split; [done|]. unfold probed, last_state in Hr. cbn [check_dispatch_state]. by rewrite Hl4.
Qed.
End Probing.
