(* ===== verification/ProxyClaims.v ===== *)
(** * What the proxy and the registry of the first API version guarantee *)

From stdpp Require Import base tactics list gmap strings.
From Stdlib Require Import ZArith Lia Ascii.
From S2P Require Import Prelude Text Sql Digest Models Schema JobValidation MutationFence EnrollmentJournal ManagerRegistry.
From S2P Require Import RemovalJournal Samples Lifecycle RegistryClaims SecretFiles TargetPolicy AgentClient LatestValue LogSources LogTail FleetImport FleetStatus FleetProbes FleetProbeClaims AgentHttp.
From S2P Require Import AgentHttpClaims AgentRegistry Availability HttpProxy ProxyFacts.

Local Open Scope manager_scope.

(** ** Captures *)
Lemma matches_capture_spec r c : matches_capture r c = true <->
  exists a, r = Some a /\ agent_enabled a = true /\ capture_of a = c.
Proof.
  unfold matches_capture. destruct r as [a|]; [|split; [done|by intros (? & [=] & _)]].
  rewrite !andb_true_iff, !bool_decide_eq_true, Z.eqb_eq. split.
  - intros ((((((He & Hr) & Hc) & Hp) & Hn) & Hm) & Hs). exists a. split_and!; [done..|]. destruct c. cbn in *.
    unfold capture_of. congruence.
  - intros (? & [= <-] & He & <-). cbn. by split_and!.
Qed.

(** The target depends on nothing else. *)
Lemma resolve_captured `{PythonIp} `{UrlLib} policy resolver a b profile local :
  capture_of a = capture_of b ->
  resolve_registered_target policy resolver a profile local = resolve_registered_target policy resolver b profile local.
Proof.
  unfold capture_of. intros [= _ _ Hp Hn Hm Hs]. unfold resolve_registered_target. by rewrite Hp, Hn, Hm, Hs.
Qed.

Section Proxy.
Context `{PythonIp} `{UrlLib} `{PyStr} (registry : FleetRegistry) (other : nat -> DB * Dir -> DB * Dir).
Context (wires : nat -> Wire) (clock : nat -> time) (resolvers : nat -> Resolver) (self : AgentHttpProxy).

(** [target] and [credential] are what [record] stands for. *)
Definition route_of (record : AgentRecord) (target : ValidatedTarget) (credential : string) : Prop :=
  exists profile policy,
    px_profile self (agent_transport_profile_id record) = Some profile /\ px_target_policy self = Some policy /\
    (exists n, resolve_registered_target policy (resolvers n) record profile (px_local_bootstrap_enabled self) = inr target) /\
    exists dir, (lease (read (agent_credential_ref record)) dir).1 = inr credential.

Lemma route_spec policy record profile reference w r w' :
  route other resolvers self policy record profile reference w = (r, w') ->
  mw_handed w' = mw_handed w /\
  match r with
  | inl e => attribute_dispatch e ∈ [None; Some "not_dispatched"]
  | inr snapshot =>
      (exists n, resolve_registered_target policy (resolvers n) record profile (px_local_bootstrap_enabled self) =
                 inr (route_target snapshot)) /\
      exists dir, (lease (read reference) dir).1 = inr (route_credential snapshot)
  end.
Proof.
  unfold route. intros [(e & w1 & E & E2)|(a & E & ->)]%mw_catch_inv.
  - assert (Hb : mw_handed w1 = mw_handed w /\ attribute_dispatch e = None).
    { apply mw_bind_inv in E as [(e' & E & [= <-])|(t & w2 & E & E3)].
      - unfold resolving in E. destruct (resolve_registered_target _ _ _ _ _); [by injection E as <- <-|discriminate E].
      - unfold resolving in E. destruct (resolve_registered_target _ _ _ _ _); [done|]. injection E as <- <-.
        apply mw_bind_inv in E3 as [(e' & E3 & [= <-])|(? & ? & _ & [=])].
        apply offline_in_store in E3 as (Hh & _ & He). split; [done|by apply He]. }
    destruct Hb as [Hh He]. destruct E2 as [(-> & -> & ->)|E2]; [split; [done|by left]|].
    assert (Hr : r = inl e \/ exists c n, r = inl (AgentProxyError c n "not_dispatched")).
    { destruct e as [| | | | | | |[]| | | |]; injection E2 as <- <-; eauto. }
    split; [destruct e as [| | | | | | |[]| | | |]; by injection E2 as <- <-|].
    destruct Hr as [->|(c & n & ->)]; [rewrite He; by left|by right; left].
  - apply mw_bind_inv in E as [(? & _ & ?)|(t & w2 & E & E3)]; [done|]. unfold resolving in E.
    destruct (resolve_registered_target _ _ _ _ _) as [|t'] eqn:Et; [done|]. injection E as <- <-.
    apply mw_bind_inv in E3 as [(? & _ & ?)|(c & w3 & E3 & [= <- <-])]; [done|].
    pose proof (offline_in_store _ _ _ _ _ E3) as (Hh & _). split; [done|]. split; [eauto|].
    unfold in_store in E3. destruct (lease (read reference) _) as [[e|c'] d] eqn:El; [done|]. injection E3 as <- _.
    eexists. by rewrite El.
Qed.

Lemma capability_spec call w r w' : delegate_truthful (px_availability self) ->
  capability_check registry other wires clock self call w = (r, w') ->
  exists l, mw_handed w' = l ++ mw_handed w /\ Forall from_probe l /\
    match r with
    | inl e => match attribute_dispatch e with Some s => honest s l | None => True end
    | inr s => honest s l /\ s ∈ DISPATCH_STATES
    end.
Proof.
  intros Hd. unfold capability_check. destruct (call_capability call) as [capability|].
  2: { intros [= <- <-]. exists []. split; [done|]. split; [done|]. split; [by split|by left]. }
  intros [(e & E & ->)|(check & w1 & E & E2)]%mw_bind_inv.
  - apply mw_catch_inv in E as [(e' & w1 & E & E2)|(? & _ & ?)]; [|done].
    apply (check_capability_truthful _ _ _ _ _ _ _ Hd) in E as (l & Hl & Hp & Hr).
    destruct E2 as [(-> & -> & [= ->])|[= <- <-]]; exists l; (split; [done|]); (split; [done|]); [done|].
    cbn [attribute_dispatch]. destruct (attribute_dispatch e'); [done|]. apply honest_unknown.
  - apply mw_catch_inv in E as [(e' & w2 & E & [(_ & _ & ?)|?])|(c & E & [= <-])]; [done..|].
    apply (check_capability_truthful _ _ _ _ _ _ _ Hd) in E as (l & Hl & Hp & Hr). exists l.
    destruct (check_supported check); injection E2 as <- <-; (split; [done|]); (split; [done|]); [done|by destruct Hr].
Qed.

Definition sent_method (call : ProxyCall) : string := if call_tail call then "GET" else call_method call.
Definition sent_body (call : ProxyCall) : option json := if call_tail call then None else call_json call.

(** A request of the proxy belongs to the record that the registry held then. *)
Definition guarded (call : ProxyCall) (h : Handed) : Prop :=
  exists record target credential,
    agents (handed_db h) !! call_agent_id call = Some record /\ agent_enabled record = true /\
    captured_matches call record = true /\ route_of record target credential /\
    described target credential (sent_method call) (call_upstream_path call) (call_query call) (sent_body call)
      (handed_request h) /\
    validate_upstream_path (call_upstream_path call) = true.

Definition sent_limit (call : ProxyCall) : Z := if call_tail call then 1024 * 1024 - 4096 else MAX_AGENT_RESPONSE_BYTES.

Lemma send_is_target wire call snapshot :
  (if call_tail call then
     @request_tail wire (px_client self) (route_target snapshot) (route_credential snapshot) (call_upstream_path call)
       (call_correlation_id call) (call_query call) (1024 * 1024 - 4096)
   else
     @agent_request wire (px_client self) (route_target snapshot) (route_credential snapshot) (call_method call)
       (call_upstream_path call) [] (call_correlation_id call) (call_query call) (call_json call)) =
  @target_request wire (px_client self) (route_target snapshot) (route_credential snapshot) (sent_method call)
    (call_upstream_path call) [] (call_correlation_id call) (call_query call) (sent_body call) (sent_limit call).
Proof.
  unfold sent_method, sent_body, sent_limit. destruct (call_tail call); [|done].
  unfold request_tail. change (x_require _ _ _) with (x_ret tt). by rewrite x_bind_ret.
Qed.

(** The answer a call got to the request [h]. *)
Definition answer_to (h : Handed) (status : Z) : Prop :=
  ~ (300 <= status < 400)%Z /\ (status ∉ [401; 403]%Z) /\
  exists n streamed, @wire_stream (wires n) (handed_request h) = inr streamed /\ status = sr_status streamed.

Lemma send_spec call snapshot w r w' : send wires self call snapshot w = (r, w') ->
  exists mine, mw_handed w' = mine ++ mw_handed w /\ mw_db w' = mw_db w /\ length mine <= 1 /\
    Forall (fun h => handed_for h = ForProxy /\ handed_db h = mw_db w /\
      described (route_target snapshot) (route_credential snapshot) (sent_method call) (call_upstream_path call)
        (call_query call) (sent_body call) (handed_request h) /\
      validate_upstream_path (call_upstream_path call) = true) mine /\
    match r with
    | inr (status, _) => exists h, mine = [h] /\ answer_to h status
    | inl (ClientRaised (AgentHttp.AgentClientError _ d)) => honest d mine /\ d ∈ DISPATCH_STATES
    | inl (ClientRaised (Raised _)) => mine <> []
    | inl _ => False
    end.
Proof.
  unfold send. intros E. apply exchange_spec in E as (Hh & _ & Hdb & Hr). rewrite send_is_target in Hh, Hr.
  eexists. split; [exact Hh|]. split; [exact Hdb|]. clear Hh Hdb.
  match type of Hr with context [x_bind (@target_request ?wire ?c ?t ?cr ?m ?p ?i ?co ?q ?b ?l) ?k] =>
    pose proof (told_target c t cr m p i co q b l (H := wire)) as Ht;
    destruct (@target_request wire c t cr m p i co q b l) as [sent x] eqn:Et;
    apply target_request_spec in Et as (Hlen & Hall & Hok); [|unfold sent_limit; destruct (call_tail call); done] end.
  assert (Hs : forall k : HttpReply -> Exchange (Z * option json), (forall a, (k a).1 = []) -> (x_bind (sent, x) k).1 = sent).
  { intros k Hk. destruct x as [e|a]; [done|]. cbn. specialize (Hk a). destruct (k a). cbn in *. subst. apply app_nil_r. }
  rewrite Hs by done. clear Hs. split; [by rewrite length_reverse, length_fmap|]. split.
  { apply Forall_forall. intros h Hin. rewrite elem_of_reverse in Hin. apply list_elem_of_fmap in Hin as (req & -> & Hin).
    cbn. rewrite Forall_forall in Hall. destruct (Hall _ Hin). by split_and!. }
  destruct x as [[c d|e]|reply]; cbn in Hr; subst r; cbn [fst snd told] in Ht.
  - destruct Ht. split; [by apply honest_handed|done].
  - by rewrite handed_nil.
  - destruct (Hok _ eq_refl) as (Hp & H4 & request & streamed & -> & Hw & Hst). cbn.
    eexists. split; [done|]. destruct Hp as (H3 & _). split_and!; [done|done|]. cbn. eauto.
Qed.

(** What became of a call: the probes, then its own requests, and the result. *)
Definition settled (call : ProxyCall) (r : manager_exn + AgentProxyResponse) (w : ManagerWorld) (probes mine : list Handed)
    : Prop :=
  match r with
  | inl e => match attribute_dispatch e with Some s => honest s (mine ++ probes) | None => True end
  | inr response =>
      exists h record current, mine = [h] /\ answer_to h (pr_status_code response) /\
        agents (handed_db h) !! call_agent_id call = Some record /\
        agents (mw_db w) !! call_agent_id call = Some current /\ agent_enabled current = true /\
        capture_of current = capture_of record
  end.

Lemma registry_get_spec id w r w' : get_record other id w = (r, w') ->
  r = inr (agents (mw_db w') !! id) /\ mw_handed w' = mw_handed w.
Proof. intros E. split; [by injection E as <- <-|by apply offline_get in E as (? & _)]. Qed.

(** The part after the capability check. *)
Lemma sent_settled call captured snapshot dispatch probes w0 w r w' :
  captured_matches call captured = true -> route_of captured (route_target snapshot) (route_credential snapshot) ->
  honest dispatch probes -> dispatch ∈ DISPATCH_STATES -> mw_handed w = probes ++ w0 ->
  (let@ current := get_record other (call_agent_id call) in
   if negb (matches_capture current (capture_of captured)) then proxy_error "agent_target_changed" 409 dispatch
   else
     let@ (status, body) := send_explained wires self call snapshot dispatch in
     match body with
     | Some (JDict body) =>
         let@ current := get_record other (call_agent_id call) in
         if negb (matches_capture current (capture_of captured))
         then proxy_error "agent_target_changed" 409 "dispatched"
         else mw_ret (mkProxyResponse status body "dispatched")
     | _ => proxy_error "agent_protocol_error" 502 "dispatched"
     end) w = (r, w') ->
  exists mine, mw_handed w' = mine ++ probes ++ w0 /\ length mine <= 1 /\
    Forall (fun h => handed_for h = ForProxy /\ guarded call h) mine /\ settled call r w' probes mine.
Proof.
  intros Hcap Hroute Hd Hds Hw [(e & E & ->)|(current & w1 & E & E2)]%mw_bind_inv;
    apply registry_get_spec in E as [[=] Hh]. rewrite Hw in Hh. subst current.
  destruct (matches_capture _ _) eqn:Hm; cbn [negb] in E2.
  2: { injection E2 as <- <-. exists []. by split_and!; [|cbn; lia|..]. }
  apply matches_capture_spec in Hm as (record & Hrec & Hen & Hc).
  assert (Hrc : captured_matches call record = true).
  { unfold captured_matches in *. destruct (call_route_capture call) as [c|]; [|done].
    apply matches_capture_spec in Hcap as (? & [= <-] & _ & <-). apply matches_capture_spec. eauto. }
  assert (Hrr : route_of record (route_target snapshot) (route_credential snapshot)).
  { destruct Hroute as (profile & policy & Hp & Hpol & [n Hn] & dir & Hcred). exists profile, policy.
    pose proof Hc as [= _ Href Hprof _ _ _]. rewrite Hprof, Href. split_and!; [done|done| |eauto].
    exists n. rewrite <- Hn. by apply resolve_captured. }
  apply mw_bind_inv in E2 as [(e & E2 & ->)|([status body] & w2 & E2 & E3)].
  - apply mw_catch_inv in E2 as [(e' & w2 & E2 & E3)|(? & _ & ?)]; [|done].
    apply send_spec in E2 as (mine & Hm & _ & Hlen & Hall & Hres). rewrite Hh in Hm.
    assert (w' = w2) as ->.
    { destruct E3 as [(_ & ? & _)|E3]; [done|]. destruct e' as [| | | | | | | | |[c d|[]]| |]; by injection E3. }
    exists mine. split_and!; [done|done| |].
    { eapply Forall_impl; [exact Hall|]. intros h (Hf & Hdb & Hdesc & Hv). split; [done|].
      exists record, (route_target snapshot), (route_credential snapshot). rewrite Hdb. by split_and!. }
    unfold settled. destruct E3 as [(-> & _ & [= ->])|E3]; [done|].
    destruct e' as [| | | | | | | | |[c d|[]]| |]; injection E3 as <-; try done; cbn [attribute_dispatch].
    + destruct Hres. by apply honest_combined.
    + split; [done|]. intros _ [? _]%app_eq_nil. done.
  - apply mw_catch_inv in E2 as [(e' & w3 & E2 & [(_ & _ & ?)|E4])|(x & E2 & [= <-])]; [done| |].
    { destruct e' as [| | | | | | | | |[c d|[]]| |]; by injection E4. }
    apply send_spec in E2 as (mine & Hm & Hdb2 & Hlen & Hall & h & -> & Hans). rewrite Hh in Hm.
    assert (Hg : Forall (fun h => handed_for h = ForProxy /\ guarded call h) [h]).
    { eapply Forall_impl; [exact Hall|]. intros h' (Hf & Hdb & Hdesc & Hv). split; [done|].
      exists record, (route_target snapshot), (route_credential snapshot). rewrite Hdb. by split_and!. }
    assert (Hhon : honest "dispatched" ([h] ++ probes)) by done.
    assert (Hbad : forall c n, (inl (AgentProxyError c n "dispatched") : manager_exn + AgentProxyResponse, w2) = (r, w') ->
      exists mine, mw_handed w' = mine ++ probes ++ w0 /\ length mine <= 1 /\
        Forall (fun h => handed_for h = ForProxy /\ guarded call h) mine /\ settled call r w' probes mine).
    { intros c n [= <- <-]. exists [h]. by split_and!. }
    destruct body as [[| | | | | |body]|]; try (by eapply Hbad).
    apply mw_bind_inv in E3 as [(e & E3 & ->)|(current & w3 & E3 & E4)]; apply registry_get_spec in E3 as [[=] Hh3].
    subst current. exists [h]. destruct (matches_capture _ _) eqn:Hm2; cbn [negb] in E4; injection E4 as <- <-.
    + split_and!; [congruence|done|done|]. apply matches_capture_spec in Hm2 as (current & Hcur & Hen2 & Hc2).
      apply Forall_singleton in Hall as (_ & Hdb & _). exists h, record, current. rewrite Hdb. cbn. by split_and!; [..|congruence].
    + by split_and!; [congruence|..].
Qed.

Definition proxied := request_json registry other wires clock resolvers self.

Lemma request_json_spec call w r w' : delegate_truthful (px_availability self) -> proxied call w = (r, w') ->
  exists mine probes, mw_handed w' = mine ++ probes ++ mw_handed w /\ length mine <= 1 /\
    Forall from_probe probes /\ Forall (fun h => handed_for h = ForProxy /\ guarded call h) mine /\
    settled call r w' probes mine.
Proof.
  intros Hd. unfold proxied, request_json.
  assert (Hrefused : forall w1 c n, mw_handed w1 = mw_handed w ->
    proxy_error c n "not_dispatched" w1 = (r, w') ->
    exists mine probes, mw_handed w' = mine ++ probes ++ mw_handed w /\ length mine <= 1 /\
      Forall from_probe probes /\ Forall (fun h => handed_for h = ForProxy /\ guarded call h) mine /\
      settled call r w' probes mine).
  { intros w1 c n Hh [= <- <-]. exists [], []. by split_and!; [|cbn; lia|..]. }
  intros [(e & E & ->)|(captured & w1 & E & E2)]%mw_bind_inv; apply registry_get_spec in E as [[=] Hh]. subst captured.
  destruct (agents (mw_db w1) !! call_agent_id call) as [captured|]; [|exact (Hrefused _ _ _ Hh E2)].
  destruct (negb (agent_enabled captured)); [exact (Hrefused _ _ _ Hh E2)|].
  destruct (captured_matches call captured) eqn:Hcap; [|exact (Hrefused _ _ _ Hh E2)]. cbn [negb] in E2.
  destruct (px_profile self (agent_transport_profile_id captured)) as [profile|] eqn:Hp; [|exact (Hrefused _ _ _ Hh E2)].
  destruct (px_target_policy self) as [policy|] eqn:Hpol; [|exact (Hrefused _ _ _ Hh E2)].
  apply mw_bind_inv in E2 as [(e & E2 & ->)|(snapshot & w2 & E2 & E3)]; apply route_spec in E2 as [Hh2 Hr].
  { exists [], []. rewrite Hh2, Hh. split_and!; [done|cbn; lia|done|done|]. unfold settled.
    rewrite !elem_of_cons, elem_of_nil in Hr. by destruct Hr as [->|[->|[]]]. }
  assert (Hroute : route_of captured (route_target snapshot) (route_credential snapshot)).
  { exists profile, policy. by destruct Hr. }
  apply mw_bind_inv in E3 as [(e & E3 & ->)|(dispatch & w3 & E3 & E4)];
    destruct (capability_spec _ _ _ _ Hd E3) as (probes & Hl & Hprobe & Hdis); rewrite Hh2, Hh in Hl.
  { exists [], probes. by split_and!; [|cbn; lia|..]. }
  destruct Hdis as [Hhon Hst].
  destruct (sent_settled _ _ _ _ _ _ _ _ _ Hcap Hroute Hhon Hst Hl E4) as (mine & Hm & Hlen & Hall & Hset).
  exists mine, probes. by split_and!.
Qed.



(** A route that was resolved for a capture is the route of the record that the
    registry holds at the end. *)
Theorem captured_route_current id c w snapshot w' :
  resolve_captured_route other resolvers self id c w = (inr snapshot, w') ->
  exists record, agents (mw_db w') !! id = Some record /\ agent_enabled record = true /\ capture_of record = c /\
    route_of record (route_target snapshot) (route_credential snapshot) /\ mw_handed w' = mw_handed w.
Proof.
  unfold resolve_captured_route. intros [(e & _ & ?)|(captured & w1 & E & E2)]%mw_bind_inv; [done|].
  apply registry_get_spec in E as [[=] Hh]. subst captured.
  destruct (agents (mw_db w1) !! id) as [captured|]; [|done].
  destruct (matches_capture _ _) eqn:Hm; [|done]. apply matches_capture_spec in Hm as (? & [= <-] & _ & Hc).
  cbn [negb] in E2. destruct (px_profile self _) as [profile|] eqn:Hp; [|done].
  destruct (px_target_policy self) as [policy|] eqn:Hpol; [|done].
  apply mw_bind_inv in E2 as [(e & _ & ?)|(snap & w2 & E2 & E3)]; [done|]. apply route_spec in E2 as [Hh2 [[n Hn] [dir Hdir]]].
  apply mw_bind_inv in E3 as [(e & _ & ?)|(current & w3 & E3 & E4)]; [done|]. apply registry_get_spec in E3 as [[=] Hh3].
  subst current. destruct (matches_capture _ _) eqn:Hm2; [|done]. injection E4 as <- <-.
  apply matches_capture_spec in Hm2 as (record & Hrec & Hen & Hc2). exists record. split_and!; [done..| |congruence].
  exists profile, policy. subst c. pose proof Hc2 as [= _ Href Hprof _ _ _]. cbn in Hp, Hdir. rewrite Href, Hprof.
  split_and!; [done|done| |eauto]. exists n. rewrite <- Hn. by apply resolve_captured.
Qed.
End Proxy.

(** ** Enabling an Agent *)
Section Enabling.
Context `{UrlLib} (registry : FleetRegistry) (other : nat -> DB * Dir -> DB * Dir).

(** What was checked of a record before its Agent was enabled: at some time its
    credential could be read, its profile fits its endpoint, and at some time no
    conflict of identities was recorded. *)
Definition may_be_enabled (record : AgentRecord) : Prop :=
  (exists dir raw, (read (agent_credential_ref record) dir).1 = inr raw /\ is_Some (token_text raw)) /\
  (exists parsed, urlsplit (agent_normalized_endpoint record) = Some parsed /\
                  profile_matches registry record (split_scheme parsed) = true) /\
  (fr_has_statuses registry = true ->
   exists db, forall s, agent_status db !! agent_id record = Some s ->
     status_last_error_code s ∉ [Some "agent_identity_conflict"; Some "agent_identity_changed"]).

Lemma identity_conflict_spec id w w' : identity_conflict registry other id w = (inr false, w') ->
  fr_has_statuses registry = true ->
  exists db, forall s, agent_status db !! id = Some s ->
    status_last_error_code s ∉ [Some "agent_identity_conflict"; Some "agent_identity_changed"].
Proof.
  unfold identity_conflict. intros E Hs. rewrite Hs in E. cbn [negb] in E.
  apply mw_bind_inv in E as [(? & _ & ?)|(s & w1 & [= <- <-] & E)]; [done|]. exists (mw_db (interfere other w)).
  intros s Hst. rewrite Hst in E. injection E as E _. by apply bool_decide_eq_false in E.
Qed.

Lemma configuration_valid_spec record w w' : configuration_valid registry other record w = (inr true, w') ->
  (exists parsed, urlsplit (agent_normalized_endpoint record) = Some parsed /\
                  profile_matches registry record (split_scheme parsed) = true) /\
  (fr_has_statuses registry = true ->
   exists db, forall s, agent_status db !! agent_id record = Some s ->
     status_last_error_code s ∉ [Some "agent_identity_conflict"; Some "agent_identity_changed"]).
Proof.
  unfold configuration_valid. intros [(? & _ & ?)|([] & w1 & E & E2)]%mw_bind_inv; [done|done|].
  split; [|by eapply identity_conflict_spec]. unfold or_raise in E2.
  destruct (urlsplit _) as [parsed|]; [|done]. injection E2 as E2 _. eauto.
Qed.

Lemma read_credential_spec record w token w' : read_credential other record w = (inr token, w') ->
  exists dir raw, (read (agent_credential_ref record) dir).1 = inr raw /\ token_text raw = Some token.
Proof.
  unfold read_credential. intros [(? & _ & ?)|(raw & w1 & E & E2)]%mw_bind_inv; [done|].
  apply mw_catch_inv in E as [(e & w2 & _ & [(_ & _ & ?)|?])|(x & E & [= <-])]; [done..|].
  unfold in_store in E. destruct (read _ _) as [[e|raw'] d] eqn:Er; [done|]. injection E as <- _.
  eexists _, _. rewrite Er. split; [done|]. unfold or_raise in E2. destruct (token_text _); [|done]. by injection E2 as <- _.
Qed.

Lemma validate_enable_spec record w u w' : validate_enable registry other record w = (inr u, w') -> may_be_enabled record.
Proof.
  unfold validate_enable. intros [(? & _ & ?)|(valid & w1 & E & E2)]%mw_bind_inv; [done|]. destruct valid; [|done].
  apply configuration_valid_spec in E as [Hp Hc]. apply mw_bind_inv in E2 as [(? & _ & ?)|(t & w2 & E2 & _)]; [done|].
  apply read_credential_spec in E2 as (dir & raw & Hr & Ht). split_and!; [|done..]. eauto.
Qed.

(** The configuration that is returned is that of a record with the wanted flag,
    which was checked if the flag is set, and otherwise is the registered one. *)
Definition wanted_config (id : string) (enabled : bool) (config : AgentConfig) (w : ManagerWorld) : Prop :=
  exists record, project_record registry record = Some config /\ agent_enabled record = enabled /\
    (enabled = true -> may_be_enabled record) /\
    (enabled = false -> agents (mw_db w) !! id = Some record).

Lemma projected_spec record w c w' : projected registry record w = (inr c, w') ->
  exists config, c = Some config /\ project_record registry record = Some config /\ w' = w.
Proof.
  unfold projected, or_raise. destruct (project_record registry record) as [config|]; [|done]. intros [= <- <-]. eauto.
Qed.

Lemma validated_if (enabled : bool) record w u w' :
  (if enabled then validate_enable registry other record else mw_ret tt) w = (inr u, w') ->
  (enabled = true -> may_be_enabled record) /\ (enabled = false -> w' = w).
Proof. destruct enabled; intros E; split; intros; try done; [by eapply validate_enable_spec|by injection E as _ <-]. Qed.

Lemma interfere_wf w : (forall n x, db_wf (other n x).1) -> db_wf (mw_db (interfere other w)).
Proof. intros Hwf. unfold interfere. specialize (Hwf (mw_moment w) (mw_db w, mw_dir w)). by destruct (other _ _). Qed.

Lemma set_enabled_loop_spec n id enabled w r w' : (forall n x, db_wf (other n x).1) ->
  set_enabled_loop registry other n id enabled w = (inr (Some r), w') ->
  match r with
  | None => agents (mw_db w') !! id = None
  | Some config => wanted_config id enabled config w'
  end.
Proof.
  intros Hwf. revert w. induction n as [|n IH]; intros w; [done|]. cbn [set_enabled_loop].
  intros [(? & _ & ?)|(record & w1 & E & E2)]%mw_bind_inv; [done|].
  assert (Hw1 : db_wf (mw_db w1)) by (injection E as _ <-; by apply interfere_wf).
  apply registry_get_spec in E as [[=] _]. subst record.
  destruct (agents (mw_db w1) !! id) as [record|] eqn:Hrec; [|by injection E2 as <- <-].
  destruct (wf_agents _ Hw1 _ _ Hrec) as [Hid _].
  apply mw_bind_inv in E2 as [(? & _ & ?)|(u & w2 & E2 & E3)]; [done|]. apply validated_if in E2 as [Hv Hw].
  destruct (Bool.eqb _ _) eqn:Hen.
  - apply Bool.eqb_prop in Hen. apply mw_bind_inv in E3 as [(? & _ & ?)|(c & w3 & E3 & [= <- <-])]; [done|].
    apply projected_spec in E3 as (config & -> & Hp & ->). exists record. split_and!; [done..|].
    intros He. by rewrite (Hw He).
  - apply mw_bind_inv in E3 as [(? & _ & ?)|(updated & w3 & E3 & E4)]; [done|].
    destruct updated as [updated|]; [|by apply IH in E4].
    apply mw_bind_inv in E4 as [(? & _ & ?)|(c & w4 & E4 & [= <- <-])]; [done|].
    apply projected_spec in E4 as (config & -> & Hp & ->).
    apply mw_catch_inv in E3 as [(e & w5 & _ & [(_ & _ & ?)|E5])|(x & E3 & [= <-])]; [done| |].
    { destruct e as [| | | | | |[]| | | | |]; by injection E5. }
    apply mw_bind_inv in E3 as [(? & _ & ?)|(a & w5 & E3 & [= -> ->])]; [done|].
    unfold calling in E3. destruct (update_if_revision _ _ _ _ _) as [[e|a] db] eqn:Eu; [done|]. injection E3 as -> <-.
    apply update_if_revision_spec in Eu as (b & Hb & _ & -> & _ & _ & ->). eexists. split; [exact Hp|]. cbn.
    split_and!; [done|exact Hv|]. intros _. change (agent_id (record <| agent_enabled := enabled |>)) with (agent_id record) in Hb.
    destruct (wf_agents _ (interfere_wf w2 Hwf) _ _ Hb) as [Hid2 _]. rewrite Hid2, <- Hid. by rewrite lookup_insert_eq.
Qed.

(** Switching an Agent on or off: the configuration that is returned has the
    wanted flag; an Agent is switched on only after its configuration, its
    credential and its identity were checked; one that was switched off is
    registered as such; and [None] means that there is no such Agent. *)
Theorem set_enabled_checked id enabled w r w' :
  (forall n x, db_wf (other n x).1) ->
  fleet_set_enabled registry other id enabled w = (inr r, w') ->
  match r with
  | None => agents (mw_db w') !! id = None
  | Some config => wanted_config id enabled config w'
  end.
Proof.
  intros Hwf. unfold fleet_set_enabled. intros [(? & _ & ?)|(settled & w1 & E & E2)]%mw_bind_inv; [done|].
  destruct settled as [config|]; [injection E2 as <- <-; by eapply set_enabled_loop_spec|].
  apply mw_bind_inv in E2 as [(? & _ & ?)|(latest & w2 & E2 & E3)]; [done|].
  apply registry_get_spec in E2 as [[=] _]. subst latest.
  destruct (agents (mw_db w2) !! id) as [latest|] eqn:Hl; [|done].
  destruct (Bool.eqb _ _) eqn:He; [|done]. apply Bool.eqb_prop in He.
  apply mw_bind_inv in E3 as [(? & _ & ?)|(u & w3 & E3 & E4)]; [done|]. apply validated_if in E3 as [Hv Hw].
  apply projected_spec in E4 as (config & -> & Hp & ->). exists latest. split_and!; [done..|].
  intros Hf. by rewrite (Hw Hf).
Qed.
End Enabling.

(** ** Concrete runs *)
#[local] Instance proxy_python : PythonIp := {| judges_mapped := true |}.
#[local] Instance plain_str : PyStr := {| py_str := fun v => match v with JString s => s | _ => "" end |}.

Definition quiet_availability : AvailabilityService :=
  mkAvailability (mkHttpClient false 3 10) 60 true false (Some (fun _ => mw_ret "not_dispatched")).

Definition home_proxy : AgentHttpProxy :=
  mkProxy quiet_availability (Some (fp_policy home_service)) (fp_profiles home_service) (mkHttpClient false 3 10) false.

Definition home_dir : Dir :=
  mkDir {[ref_a := 1%positive; LOCK_FILE := 2%positive]}
    {[1%positive := mkInode true true 384 "secret"; 2%positive := mkInode true true 384 ""]} 3 [] [] false 0.

Definition manager_home : ManagerWorld := mkManagerWorld home_db home_dir ∅ ∅ [] 0.

Definition summary_call : ProxyCall :=
  mkCall "agent-1" None "GET" "/api/v2/summary" [] (Some "c-1") None false None.

(** A wire whose responses are the JSON value [v]. *)
Definition wire_of (v : json) : Wire := {|
  wire_stream := @wire_stream ok_wire;
  wire_ca := fun _ => true;
  json_loads := fun _ _ => Some v
|}.

Definition home_run (v : json) : (manager_exn + AgentProxyResponse) * ManagerWorld :=
  proxied (mkFleetRegistry (fp_profiles home_service) true) (fun _ x => x) (fun _ => wire_of v) (fun _ => 0%Z)
    (fun _ _ _ => Some ["10.0.0.7"]) home_proxy summary_call manager_home.

Lemma quiet_truthful : delegate_truthful quiet_availability.
Proof. intros id w r w' [= <- <-]. exists []. split; [done|]. split; [done|]. split; [by split|by left]. Qed.



Example disabled_agents_stay_alone :
  (fleet_set_enabled (mkFleetRegistry (fp_profiles home_service) true) (fun _ x => x) "agent-1" false manager_home).1 =
  inr (Some (mkAgentConfig "agent-1" "agent one" "http://agent-1:8765" None false None false)).
Proof. vm_compute. reflexivity. Qed.
