(* ===== verification/Identity.v ===== *)
(** * The identity of an Agent instance

    [src/backend/ic_env_guard/bootstrap/identity.py]: the Agent creates a random
    identity once, in a file beside its database.  An intent file makes the first
    start repeatable after a crash, and a marker in the database makes a later
    start refuse when the file is gone.  Files live in the directory of
    [SecretFiles], under their full paths, with its failures and crashes; the
    statements of the database draw on the same failures.  Paths are canonical,
    so [Path.resolve] is the identity.  The migration is a parameter. *)

From stdpp Require Import base tactics list gmap strings.
From Stdlib Require Import ZArith Lia Ascii.
From S2P Require Import Prelude Text Digest Models CompactJson SecretFiles.

(** ** Paths *)
Record Path := mkPath { path_parent : string; path_name : string }.

Definition path_text (p : Path) : string := path_parent p +:+ "/" +:+ path_name p.

Definition with_name (p : Path) (name : string) : Path := mkPath (path_parent p) name.

(** [path.with_name(f".{path.name}.{uuid4().hex}.tmp")] *)
Definition temporary_of (p : Path) (token : string) : Path := with_name p ("." +:+ path_name p +:+ "." +:+ token +:+ ".tmp").

Definition bootstrap_intent_path (database : Path) : Path :=
  with_name database (".instance-identity-bootstrap." +:+ sha256_hex (bytes_of (path_text database))).

Definition newline : string := String "010" "".

Definition bootstrap_intent_content `{FloatText} (database identity : Path) : string :=
  compact_json (JDict [("database", JString (path_text database)); ("identity", JString (path_text identity));
                       ("version", JInt 1)]) true +:+ newline.

(** ** The database *)
(** Whether the file exists and is not empty, the rows of [schema_versions] and
    of [agent_metadata]; [None] is a missing table. *)
Record AgentDb := mkAgentDb {
  adb_nonempty : bool;
  adb_versions : option (list string);
  adb_metadata : option (gmap string string)
}.

Definition MARKER_KEY : string := "instance_identity_initialized".
Definition BINDING_KEY : string := "instance_identity_path".

Record IdWorld := mkIdWorld { id_dir : Dir; id_db : AgentDb; id_locks : nat }.

(** [IdentityError missing] is [InstanceIdentityError]; the flag says that its
    cause is a [FileNotFoundError]. *)
Inductive id_exn :=
| IdentityError (missing : bool)
| OsRaised (e : os_exn)
| SqliteError
| MigrationRaised
| IdDied.

Definition IdM (A : Type) : Type := IdWorld -> (id_exn + A) * IdWorld.

Definition id_ret {A} (a : A) : IdM A := fun w => (inr a, w).
Definition id_raise {A} (e : id_exn) : IdM A := fun w => (inl e, w).

Definition id_bind {A B} (m : IdM A) (k : A -> IdM B) : IdM B := fun w =>
  match m w with
  | (inl e, w) => (inl e, w)
  | (inr a, w) => k a w
  end.

(** [try: m except ...: handler] and [try: m finally: f]; a dead process does
    neither. *)
Definition id_try {A} (m : IdM A) (handler : id_exn -> IdM A) : IdM A := fun w =>
  match m w with
  | (inl IdDied, w) => (inl IdDied, w)
  | (inl e, w) => handler e w
  | (inr a, w) => (inr a, w)
  end.

Definition id_finally {A} (m : IdM A) (f : IdM unit) : IdM A := fun w =>
  match m w with
  | (inl IdDied, w) => (inl IdDied, w)
  | (r, w) => match f w with
              | (inl e, w) => (inl e, w)
              | (inr _, w) => (r, w)
              end
  end.

Declare Scope identity_scope.
Notation "'let&' x ':=' m 'in' k" := (id_bind m (fun x => k))
  (at level 10, x pattern, m at level 100, k at level 200) : identity_scope.
Notation "m ';;&' k" := (id_bind m (fun _ => k)) (at level 199, right associativity) : identity_scope.
Local Open Scope identity_scope.

Definition fs_exn (e : os_exn) : id_exn := match e with Crashed => IdDied | e => OsRaised e end.

Definition files {A} (m : FS A) : IdM A := fun w =>
  match m (id_dir w) with
  | (inl e, d) => (inl (fs_exn e), mkIdWorld d (id_db w) (id_locks w))
  | (inr a, d) => (inr a, mkIdWorld d (id_db w) (id_locks w))
  end.

(** A call whose failure is an [sqlite3.Error]. *)
Definition statement : IdM unit :=
  id_try (files sys) (fun _ => id_raise SqliteError).

Definition from_db {A} (f : AgentDb -> A) : IdM A := fun w => (inr (f (id_db w)), w).

Definition set_db (db : AgentDb) : IdM unit := fun w => (inr tt, mkIdWorld (id_dir w) db (id_locks w)).

Definition file_missing (e : os_exn) : bool := match e with FileNotFoundError => true | _ => false end.

(** [except OSError: raise InstanceIdentityError] *)
Definition os_to_identity {A} (m : IdM A) : IdM A :=
  id_try m (fun e => match e with OsRaised e => id_raise (IdentityError (file_missing e)) | e => id_raise e end).

Definition id_require (b : bool) : IdM unit := if b then id_ret tt else id_raise (IdentityError false).

(** ** [SQLiteIdentityInitialization] *)
Definition identity_bootstrap_allowed : IdM bool :=
  let& nonempty := from_db adb_nonempty in
  if negb nonempty then id_ret true
  else
    statement ;;&
    let& versions := from_db adb_versions in
    match versions with
    | None => id_ret true
    | Some versions => statement ;;& id_ret (negb (bool_decide ("0004_manager_credentials" ∈ versions)))
    end.

Definition metadata_value (key : string) : IdM (option string) :=
  statement ;;&
  let& table := from_db adb_metadata in
  match table with
  | None => id_raise SqliteError
  | Some rows => id_ret (rows !! key)
  end.

Definition validate_binding (identity : Path) (binding : option string) : IdM unit :=
  id_require (match binding with Some text => bool_decide (text = path_text identity) | None => true end).

Definition is_initialized (identity : Path) : IdM bool :=
  let& initialized := metadata_value MARKER_KEY in
  let& binding := metadata_value BINDING_KEY in
  validate_binding identity binding ;;&
  id_ret (bool_decide (initialized = Some "initialized")).

(** The rows after the two [INSERT]s. *)
Definition marked_rows (identity : Path) (rows : gmap string string) : gmap string string :=
  <[MARKER_KEY := "initialized"]>
    (match rows !! BINDING_KEY with Some _ => rows | None => <[BINDING_KEY := path_text identity]> rows end).

(** One transaction: nothing is stored before the [COMMIT]. *)
Definition mark_initialized (identity : Path) : IdM unit :=
  statement ;;&
  let& binding := metadata_value BINDING_KEY in
  validate_binding identity binding ;;&
  statement ;;& statement ;;& statement ;;&
  let& db := from_db id in
  match adb_metadata db with
  | None => id_raise SqliteError
  | Some rows => set_db (mkAgentDb (adb_nonempty db) (adb_versions db) (Some (marked_rows identity rows)))
  end ;;&
  statement.

(** ** Locks *)
Definition set_locks (n : nat) : IdM unit := fun w => (inr tt, mkIdWorld (id_dir w) (id_db w) n).
Definition get_locks : IdM nat := fun w => (inr (id_locks w), w).

(** [parents] is the number of distinct directories. *)
Fixpoint acquire (parents : nat) : IdM unit :=
  match parents with
  | 0 => id_ret tt
  | S parents =>
      os_to_identity (files sys) ;;&
      files sys ;;&
      let& n := get_locks in
      set_locks (S n) ;;&
      acquire parents
  end.

Fixpoint release (n : nat) : IdM unit :=
  match n with
  | 0 => id_ret tt
  | S n => files sys ;;& files sys ;;& release n
  end.

Definition storage_locks {A} (parents : nat) (body : IdM A) : IdM A :=
  set_locks 0 ;;&
  id_finally (acquire parents ;;& body) (let& n := get_locks in release n).

(** ** Files *)
Definition close : IdM unit := files sys.

(** [os.read(descriptor, n)] *)
Definition read_bytes (n : nat) (fd : positive) : IdM string :=
  files sys ;;& let& f := files (metadata fd) in id_ret (String.substring 0 n (inode_data f)).

Definition ascii_text (s : string) : bool := all_chars (fun c => (byte_of c <? 128)%Z) s.

(** The identity that a text stands for: the canonical form and a newline. *)
Definition identity_text (content : string) : option string :=
  let u := String.substring 0 36 content in
  if is_canonical_uuid u && bool_decide (content = u +:+ newline) then Some u else None.

Definition read_instance_id (path : string) : IdM string :=
  let& fd := os_to_identity (files (os_open path)) in
  let& (f, content) := id_finally
    (id_try (let& f := files (fstat fd) in
             let& content := read_bytes 128 fd in
             id_require (ascii_text content) ;;&
             id_ret (f, content))
       (fun _ => id_raise (IdentityError false)))
    close in
  match identity_text content with
  | None => id_raise (IdentityError false)
  | Some u =>
      id_require (inode_regular f) ;;&
      id_require (inode_owned f && (inode_mode f =? 384)%Z) ;;&
      id_ret u
  end.

Definition fsync_dir : IdM unit := files sys ;;& id_finally (files sys) close.

Definition unlink_temporary (path : string) : IdM unit := files (unlink_missing_ok path).

(** [_read_bootstrap_intent] *)
Definition read_bootstrap_intent (path expected : string) : IdM bool :=
  let& fd := id_try (let& fd := files (os_open path) in id_ret (Some fd))
    (fun e => match e with
              | OsRaised FileNotFoundError => id_ret None
              | OsRaised _ => id_raise (IdentityError false)
              | e => id_raise e
              end) in
  match fd with
  | None => id_ret false
  | Some fd =>
      let& (f, content) := id_finally
        (id_try (let& f := files (fstat fd) in
                 let& content := read_bytes (String.length expected + 1) fd in
                 id_ret (f, content))
           (fun _ => id_raise (IdentityError false)))
        close in
      id_require (inode_regular f && inode_owned f && (inode_mode f =? 384)%Z) ;;&
      id_require (bool_decide (content = expected)) ;;&
      id_ret true
  end.

Definition create_bootstrap_intent (path temporary content : string) : IdM unit :=
  id_finally
    (os_to_identity
       (let& fd := files (os_create temporary) in
        id_finally
          (let& written := files (os_write fd content) in
           (if written =? String.length content then id_ret tt else id_raise (OsRaised OSError)) ;;&
           files sys)
          close ;;&
        id_try (files (link temporary path))
          (fun e => match e with
                    | OsRaised FileExistsError => read_bootstrap_intent path content ;;& id_ret tt
                    | e => id_raise e
                    end) ;;&
        fsync_dir))
    (unlink_temporary temporary).

Definition remove_bootstrap_intent (path expected : string) : IdM unit :=
  let& there := read_bootstrap_intent path expected in
  if negb there then id_ret tt
  else os_to_identity (files (unlink path) ;;& fsync_dir).

(** ** Loading and creating *)
(** What a start of the process draws: the tokens of the two temporaries and the
    new identity. *)
Record Draws := mkDraws { draw_intent : string; draw_temporary : string; draw_identity : string }.

(** [initialization]: [bootstrap_allowed], if there is a database. *)
Definition create_identity (identity : Path) (draws : Draws) (initialization : option bool) : IdM string :=
  let temporary := path_text (temporary_of identity (draw_temporary draws)) in
  let& fd := files (os_create temporary) in
  id_finally
    (id_finally
       (files (write_all fd (draw_identity draws +:+ newline)) ;;& files sys)
       close ;;&
     files (os_replace temporary (path_text identity)) ;;&
     fsync_dir ;;&
     match initialization with Some _ => mark_initialized identity | None => id_ret tt end)
    (unlink_temporary temporary) ;;&
  id_ret (draw_identity draws).

Definition load_or_create_locked (identity : Path) (draws : Draws) (allow_create : bool) (initialization : option bool)
    : IdM string :=
  os_to_identity
    (let& found := id_try (let& u := read_instance_id (path_text identity) in id_ret (Some u))
       (fun e => match e with IdentityError true => id_ret None | e => id_raise e end) in
     match found with
     | Some u =>
         match initialization with Some _ => mark_initialized identity | None => id_ret tt end ;;&
         id_ret u
     | None =>
         id_require allow_create ;;&
         match initialization with
         | Some bootstrap_allowed =>
             let& initialized := is_initialized identity in
             id_require (negb (initialized || negb bootstrap_allowed))
         | None => id_ret tt
         end ;;&
         create_identity identity draws initialization
     end).

Definition load_or_create_instance_id (identity : Path) (draws : Draws) (allow_create : bool) (initialization : option bool)
    : IdM string :=
  storage_locks 1 (load_or_create_locked identity draws allow_create initialization).

Section Initialize.
Context `{FloatText} (identity database : Path) (parents : nat).

Definition intent_path : string := path_text (bootstrap_intent_path database).
Definition expected_intent : string := bootstrap_intent_content database identity.

(** A migration raises or not, and leaves a database. *)
Definition Migration : Type := AgentDb -> bool * AgentDb.

Definition run_migration (migrate : Migration) : IdM unit :=
  statement ;;&
  let& db := from_db id in
  let '(ok, db) := migrate db in
  set_db db ;;&
  statement ;;&
  if ok then id_ret tt else id_raise MigrationRaised.

Definition initialize_instance_id (draws : Draws) (migrate : Migration) : IdM string :=
  storage_locks parents
    (let& has_intent := read_bootstrap_intent intent_path expected_intent in
     let& bootstrap_allowed := (if has_intent then id_ret true else identity_bootstrap_allowed) in
     (if bootstrap_allowed && negb has_intent then
        create_bootstrap_intent intent_path
          (path_text (temporary_of (bootstrap_intent_path database) (draw_intent draws))) expected_intent
      else id_ret tt) ;;&
     run_migration migrate ;;&
     let& instance_id := load_or_create_locked identity draws true (Some bootstrap_allowed) in
     (if bootstrap_allowed then remove_bootstrap_intent intent_path expected_intent else id_ret tt) ;;&
     id_ret instance_id).
End Initialize.
