(* ===== verification/IdentityFacts.v ===== *)
(** * Facts about the creation of the identity

    A program logic for the steps of [Identity]: an assertion speaks of the
    files and of the database; every step keeps the invariant [J], also when it
    fails or when the process dies in it; and where no call fails ([q] is true)
    no step fails. *)

From stdpp Require Import base tactics list gmap strings.
From Stdlib Require Import ZArith Lia Ascii.
From S2P Require Import Prelude Text Digest Models CompactJson SecretFiles SecretFacts Identity.

Local Open Scope identity_scope.

Definition Core : Type := gmap string positive * gmap positive Inode * positive.
Definition Assertion : Type := Core -> AgentDb -> Prop.

(** A directory whose calls all work. *)
Definition calm_dir (d : Dir) : Prop := faults d = [] /\ sizes d = [] /\ dead d = false.

Definition private_file (data : string) : Inode := mkInode true true 384 data.

(** The manager credentials of migration 4 are there. *)
Definition migrated (db : AgentDb) : Prop :=
  adb_nonempty db = true /\ exists versions, adb_versions db = Some versions /\ "0004_manager_credentials" ∈ versions.

Definition metadata_row (key : string) (db : AgentDb) : option string := adb_metadata db ≫= (.!! key).

Section Logic.
Context `{FloatText} (identity database : Path).
Context (q : bool) (p0 : option (positive * string)).

Notation P := (path_text identity).
Notation N := (intent_path database).
Context (apart : P <> N).

Definition db_ok (p : option (positive * string)) (n : option positive) (db : AgentDb) : Prop :=
  (forall b, metadata_row BINDING_KEY db = Some b -> b = P) /\
  (metadata_row MARKER_KEY db = Some "initialized" -> is_Some p) /\
  (migrated db -> is_Some p \/ is_Some n).

(** [p]: the identity file and the identity in it; [n]: the intent file. *)
Definition J (p : option (positive * string)) (n : option positive) : Assertion := fun c db =>
  let '(es, ins, nx) := c in
  (forall name i, es !! name = Some i -> (i < nx)%positive) /\
  match p with
  | None => es !! P = None
  | Some (i, u) => es !! P = Some i /\ ins !! i = Some (private_file (u +:+ newline)) /\ is_canonical_uuid u = true
  end /\
  match n with
  | None => es !! N = None
  | Some i => es !! N = Some i /\ ins !! i = Some (private_file (expected_intent identity database))
  end /\
  db_ok p n db.

(** An identity that was there at the start stays. *)
Definition kept (p : option (positive * string)) : Prop := forall x, p0 = Some x -> p = Some x.

Definition holds (R : Assertion) (w : IdWorld) : Prop :=
  R (core (id_dir w)) (id_db w) /\ (q = true -> calm_dir (id_dir w)).

Definition bad (w : IdWorld) : Prop :=
  q = false /\ exists p n, kept p /\ J p n (core (id_dir w)) (id_db w).

(** Assertions of which a failure is [bad]. *)
Definition safe (R : Assertion) : Prop := forall c db, R c db -> exists p n, kept p /\ J p n c db.

Definition hoare {A} (R : Assertion) (m : IdM A) (S : A -> Assertion) : Prop := forall w, holds R w ->
  match m w with
  | (inr a, w') => holds (S a) w'
  | (inl _, w') => bad w'
  end.

Lemma hoare_ret {A} (a : A) (S : A -> Assertion) : hoare (S a) (id_ret a) S.
Proof. by intros w Hw. Qed.

Lemma hoare_bind {A B} R (m : IdM A) S (k : A -> IdM B) T :
  hoare R m S -> (forall a, hoare (S a) (k a) T) -> hoare R (id_bind m k) T.
Proof.
  intros Hm Hk w Hw. unfold id_bind. specialize (Hm w Hw). destruct (m w) as [[e|a] w1]; [done|]. by apply Hk.
Qed.

Lemma hoare_weaken {A} R R' (m : IdM A) (S S' : A -> Assertion) :
  hoare R m S -> (forall c db, R' c db -> R c db) -> (forall a c db, S a c db -> S' a c db) -> hoare R' m S'.
Proof.
  intros Hm HR HS w [Hw Hq]. assert (Hw' : holds R w) by (split; auto). specialize (Hm w Hw').
  destruct (m w) as [[e|a] w1]; [done|]. destruct Hm. split; auto.
Qed.

(** A handler that raises again, or a block that ends with [finally]. *)
Lemma hoare_try {A} R (m : IdM A) S h : hoare R m S ->
  (forall e w, bad w -> match h e w with (inr a, w') => holds (S a) w' | (inl _, w') => bad w' end) ->
  hoare R (id_try m h) S.
Proof.
  intros Hm Hh w Hw. unfold id_try. specialize (Hm w Hw). destruct (m w) as [[e|a] w1]; [|done].
  destruct e; try done; by apply Hh.
Qed.

Lemma hoare_os_to_identity {A} R (m : IdM A) S : hoare R m S -> hoare R (os_to_identity m) S.
Proof. intros Hm. apply hoare_try; [done|]. intros e w Hb. by destruct e. Qed.

Definition keeps_bad {A} (f : IdM A) : Prop := forall w, bad w -> bad (f w).2.

Lemma hoare_finally {A} R (m : IdM A) S f T :
  hoare R m S -> (forall a, hoare (S a) f (fun _ => T a)) -> keeps_bad f -> hoare R (id_finally m f) T.
Proof.
  intros Hm Hf Hb w Hw. unfold id_finally. specialize (Hm w Hw). destruct (m w) as [[e|a] w1].
  - assert (Hbad : bad (f w1).2) by (by apply Hb). destruct e; try done; by destruct (f w1) as [[]].
  - specialize (Hf a w1 Hm). by destruct (f w1) as [[]].
Qed.

(** ** Calls that look *)
Lemma sys_cases d : match sys d with
  | (inr _, d') => core d' = core d /\ (calm_dir d -> calm_dir d')
  | (inl _, d') => core d' = core d /\ ~ calm_dir d
  end.
Proof.
  unfold sys, calm_dir. destruct (dead d) eqn:Hd; [split; [done|]; intros (_ & _ & ?); congruence|].
  destruct (faults d) as [|[] rest] eqn:Hf; split; try done; try (by intros (? & _)). naive_solver.
Qed.

Lemma bad_core w d : bad w -> core d = core (id_dir w) -> bad (mkIdWorld d (id_db w) (id_locks w)).
Proof. intros (? & p & n & ? & ?) Hc. split; [done|]. exists p, n. cbn [id_dir id_db]. by rewrite Hc. Qed.

Lemma hoare_sys R : safe R -> hoare R (files sys) (fun _ => R).
Proof.
  intros Hs w [Hw Hq]. unfold files. pose proof (sys_cases (id_dir w)) as Hc. destruct (sys (id_dir w)) as [[e|[]] d'].
  - destruct Hc as [Hc Hn]. split; [destruct q; [by destruct Hn; auto|done]|]. cbn [id_dir id_db]. rewrite Hc. by apply Hs.
  - destruct Hc as [Hc Hn]. split; cbn [id_dir id_db]; [by rewrite Hc|auto].
Qed.

Lemma sys_keeps_bad : keeps_bad (files sys).
Proof.
  intros w Hb. unfold files. pose proof (sys_cases (id_dir w)) as Hc.
  destruct (sys (id_dir w)) as [[e|[]] d']; destruct Hc; by apply bad_core.
Qed.

Lemma hoare_statement R : safe R -> hoare R statement (fun _ => R).
Proof. intros Hs. apply hoare_try; [by apply hoare_sys|]. intros e w Hb. done. Qed.

Lemma hoare_from_db {A} R (f : AgentDb -> A) : hoare R (from_db f) (fun a c db => R c db /\ a = f db).
Proof. intros w [Hw Hq]. by split. Qed.

Lemma hoare_raise {A} (R : Assertion) e (S : A -> Assertion) : safe R -> q = false -> hoare R (id_raise e) S.
Proof. intros Hs Hq w [Hw _]. split; [done|]. by apply Hs. Qed.

Lemma hoare_require (R : Assertion) b : safe R -> (b = true \/ q = false) -> hoare R (id_require b) (fun _ c db => R c db /\ b = true).
Proof. intros Hs Hb. destruct b; [by intros w [Hw Hq]|]. apply hoare_raise; [done|by destruct Hb]. Qed.

(** ** Files *)
(** A file operation, by what it does to a directory. *)
Lemma hoare_files {A} R (m : FS A) (S : A -> Assertion) :
  (forall d db, R (core d) db -> (q = true -> calm_dir d) ->
     match m d with
     | (inr a, d') => S a (core d') db /\ (q = true -> calm_dir d')
     | (inl _, d') => q = false /\ exists p n, kept p /\ J p n (core d') db
     end) ->
  hoare R (files m) S.
Proof.
  intros Hm w [Hw Hq]. unfold files. specialize (Hm _ _ Hw Hq). destruct (m (id_dir w)) as [[e|a] d']; done.
Qed.

(** A call that first passes [sys]. *)
Lemma after_sys {A} (R : Assertion) (k : FS A) (S : A -> Assertion) :
  safe R ->
  (forall d db, R (core d) db -> (q = true -> calm_dir d) ->
     match k d with
     | (inr a, d') => S a (core d') db /\ (q = true -> calm_dir d')
     | (inl _, d') => q = false /\ exists p n, kept p /\ J p n (core d') db
     end) ->
  hoare R (files (fs_bind sys (fun _ => k))) S.
Proof.
  intros Hs Hk. apply hoare_files. intros d db Hw Hq. unfold fs_bind. pose proof (sys_cases d) as Hc.
  destruct (sys d) as [[e|[]] d1].
  - destruct Hc as [Hc Hn]. split; [destruct q; [by destruct Hn; auto|done]|]. rewrite Hc. by apply Hs.
  - destruct Hc as [Hc Hn]. apply Hk; [by rewrite Hc|auto].
Qed.

Lemma J_safe p n : kept p -> safe (J p n).
Proof. intros Hk c db Hj. eauto. Qed.

(** A temporary under construction: another name, another inode. *)
Definition building (p : option (positive * string)) (n : option positive) (t : string) (i : positive) (data : string)
    (F : gmap string positive -> AgentDb -> Prop) : Assertion := fun c db =>
  J p n c db /\ let '(es, ins, nx) := c in
  es !! t = Some i /\ ins !! i = Some (private_file data) /\ es !! P <> Some i /\ es !! N <> Some i /\ F es db.

Lemma building_safe p n t i data F : kept p -> safe (building p n t i data F).
Proof. intros Hk c db [Hj _]. eauto. Qed.

(** [F] does not look at the name [t]. *)
Definition blind (t : string) (F : gmap string positive -> AgentDb -> Prop) : Prop :=
  forall es es' db, (forall name, name <> t -> es' !! name = es !! name) -> F es db -> F es' db.

Definition between (p : option (positive * string)) (n : option positive) (F : gmap string positive -> AgentDb -> Prop)
    : Assertion := fun c db => J p n c db /\ F c.1.1 db.

Lemma between_safe p n F : kept p -> safe (between p n F).
Proof. intros Hk c db [Hj _]. eauto. Qed.

Lemma J_entries p n es es' ins ins' nx nx' db :
  J p n (es, ins, nx) db -> (nx <= nx')%positive ->
  es' !! P = es !! P -> es' !! N = es !! N ->
  (forall name i, es' !! name = Some i -> es !! name = Some i \/ (i < nx')%positive) ->
  (forall i, es !! P = Some i \/ es !! N = Some i -> ins' !! i = ins !! i) ->
  J p n (es', ins', nx') db.
Proof.
  intros (Ha & Hp & Hn & Hdb) Hx HP HN Hes Hins. split_and!; [| | |done].
  - intros name i Hi. destruct (Hes _ _ Hi) as [Hold|?]; [|done]. specialize (Ha _ _ Hold). lia.
  - destruct p as [[i u]|]; rewrite HP; [|done]. destruct Hp as (? & ? & ?). by rewrite Hins by auto.
  - destruct n as [i|]; rewrite HN; [|done]. destruct Hn as (? & ?). by rewrite Hins by auto.
Qed.

Lemma create_spec p n t F : kept p -> t <> P -> t <> N -> blind t F ->
  hoare (between p n (fun es db => F es db /\ (q = true -> es !! t = None))) (files (os_create t))
    (fun i => building p n t i "" F).
Proof.
  intros Hk HtP HtN HF. unfold os_create. apply after_sys; [by apply between_safe|].
  intros d db [HJ [Hes Hfree]] Hq. destruct (entries d !! t) as [j|] eqn:Et.
  { split; [|eauto]. destruct q; [|done]. specialize (Hfree eq_refl). cbn in Hfree. congruence. }
  split; [|exact Hq]. unfold core in *. cbn. split.
  - eapply J_entries; [exact HJ|lia|by rewrite lookup_insert_ne..| |].
    + intros name i. rewrite lookup_insert_Some. intros [[_ <-]|[_ ?]]; [right; lia|by left].
    + intros i Hi. destruct HJ as (Ha & _). rewrite lookup_insert_ne; [done|]. intros <-.
      destruct Hi as [Hi|Hi]; specialize (Ha _ _ Hi); lia.
  - destruct HJ as (Ha & _). rewrite !lookup_insert_eq. split_and!; [done|done|..].
    + rewrite lookup_insert_ne by done. intros Hi. specialize (Ha _ _ Hi). lia.
    + rewrite lookup_insert_ne by done. intros Hi. specialize (Ha _ _ Hi). lia.
    + eapply HF; [|exact Hes]. intros name Hne. by rewrite lookup_insert_ne.
Qed.

(** Writing to the temporary's inode. *)
Lemma building_write p n t i data data' F es ins nx db : building p n t i data F (es, ins, nx) db ->
  building p n t i data' F (es, alter (fun f => f <| inode_data := data' |>) i ins, nx) db.
Proof.
  intros [HJ (Ht & Hi & HP & HN & HF)]. split.
  - eapply J_entries; [exact HJ|lia|done|done|by left|]. intros j Hj. rewrite lookup_alter_ne; [done|].
    intros ->. naive_solver.
  - split_and!; [done| |done..]. by rewrite lookup_alter_eq, Hi.
Qed.

Lemma alter_data (i : positive) f data (ins : gmap positive Inode) : ins !! i = Some (private_file data) ->
  alter (fun x => x <| inode_data := inode_data x +:+ f |>) i ins =
  alter (fun x => x <| inode_data := data +:+ f |>) i ins.
Proof. intros Hi. apply alter_ext. intros x Hx. rewrite Hi in Hx. by injection Hx as <-. Qed.

Lemma write_spec p n t i data view F : kept p ->
  hoare (building p n t i data F) (files (os_write i view))
    (fun k c db => building p n t i (data +:+ String.substring 0 k view) F c db /\
       k <= String.length view /\ (q = true -> k = String.length view)).
Proof.
  intros Hk. unfold os_write. apply after_sys; [by apply building_safe|]. intros d db Hb Hq.
  destruct (match sizes d with [] => _ | _ => _ end) as [k rest] eqn:Es. set (k' := Nat.min k (String.length view)).
  split.
  - unfold core in *. cbn. split_and!; [|lia|].
    + pose proof Hb as [_ (_ & Hi & _)]. rewrite (alter_data _ _ data) by done. by eapply building_write.
    + intros Hq'. destruct (Hq Hq') as (_ & Hs & _). rewrite Hs in Es. injection Es as <- <-. lia.
  - intros Hq'. destruct (Hq Hq') as (Hf & Hs & Hd). rewrite Hs in Es. injection Es as <- <-. by split_and!.
Qed.

Lemma hoare_ext {A} R (m m' : IdM A) S : (forall w, m' w = m w) -> hoare R m S -> hoare R m' S.
Proof. intros He Hm w Hw. rewrite He. by apply Hm. Qed.

Lemma files_bind {A B} (m : FS A) (k : A -> FS B) w : files (fs_bind m k) w = id_bind (files m) (fun a => files (k a)) w.
Proof. unfold files, fs_bind, id_bind. by destruct (m (id_dir w)) as [[e|a] d]. Qed.

Lemma write_loop_spec fuel p n t i data view F : kept p -> String.length view < fuel ->
  hoare (building p n t i data F) (files (write_loop fuel i view)) (fun _ => building p n t i (data +:+ view) F).
Proof.
  intros Hk. revert data view. induction fuel as [|fuel IH]; intros data view Hf; [lia|]. cbn [write_loop].
  destruct view as [|c view].
  { rewrite string_app_nil. apply hoare_ext with (m := id_ret tt); [by intros []|]. exact (hoare_ret tt (fun _ => building p n t i data F)). }
  set (v := String c view) in *. eapply hoare_ext; [apply files_bind|]. eapply hoare_bind; [by apply write_spec|].
  intros k. eapply hoare_ext; [apply files_bind|].
  eapply hoare_bind with (S := fun _ c db => building p n t i (data +:+ String.substring 0 k v) F c db /\ 1 <= k <= String.length v).
  - intros w [[Hw (Hle & Hq)] Hc]. unfold files, fs_assert. destruct (Nat.eqb_spec k 0) as [->|Hk0]; cbn [negb].
    + split; [destruct q; [specialize (Hq eq_refl); done|done]|]. exact (building_safe _ _ _ _ _ _ Hk _ _ Hw).
    + split; [split; [done|lia]|done].
  - intros _ w [[Hw Hk1] Hc]. assert (Hv : data +:+ v = (data +:+ String.substring 0 k v) +:+ String.substring k (String.length v - k) v).
    { rewrite <- string_app_assoc, substring_split by lia. done. }
    rewrite Hv. apply IH; [rewrite substring_length; lia|]. by split.
Qed.

Lemma link_spec p t i F : kept p -> t <> N -> blind N F ->
  hoare (building p None t i (expected_intent identity database) F) (files (link t N)) (fun _ => between p (Some i) F).
Proof.
  intros Hk Ht HF. unfold link. apply after_sys; [by apply building_safe|].
  intros d db Hb Hq. unfold core in Hb. pose proof Hb as [HJ (Et & Hi & HP & HN & HFe)].
  pose proof HJ as (Ha & Hp & Hn & Hdb). rewrite Et, Hn. split; [|exact Hq]. split; cbn.
  - assert (i < next_inode d)%positive by (by eapply Ha). refine (conj _ (conj _ (conj _ _))).
    + intros name j. rewrite lookup_insert_Some. intros [[_ <-]|[_ ?]]; [done|by eapply Ha].
    + by destruct p as [[j u]|]; rewrite lookup_insert_ne.
    + rewrite lookup_insert_eq. done.
    + destruct Hdb as (Hb1 & Hb2 & Hb3). split_and!; [done|done|]. intros. right. eauto.
  - eapply HF; [|exact HFe]. intros name Hne. by rewrite lookup_insert_ne.
Qed.

Lemma kept_none p : kept None -> kept p.
Proof. intros Hk x Hx. by specialize (Hk x Hx). Qed.

Lemma replace_spec n t i u F : kept None -> is_canonical_uuid u = true -> t <> N -> blind t F -> blind P F ->
  hoare (building None n t i (u +:+ newline) F) (files (os_replace t P)) (fun _ => between (Some (i, u)) n F).
Proof.
  intros Hk Hu Ht HF HFP. unfold os_replace. apply after_sys; [by apply building_safe|].
  intros d db Hb Hq. unfold core in Hb. pose proof Hb as [HJ (Et & Hi & HP & HN & HFe)].
  pose proof HJ as (Ha & Hp & Hn & Hdb). rewrite Et. split; [|exact Hq]. split; cbn.
  - assert (i < next_inode d)%positive by (by eapply Ha). refine (conj _ (conj _ (conj _ _))).
    + intros name j. rewrite lookup_insert_Some, lookup_delete_Some. intros [[_ <-]|[_ [_ ?]]]; [done|by eapply Ha].
    + rewrite lookup_insert_eq. done.
    + by destruct n as [j|]; rewrite lookup_insert_ne, lookup_delete_ne.
    + destruct Hdb as (Hb1 & Hb2 & Hb3). split_and!; [done|eauto|]. intros. left. eauto.
  - eapply HFP; [|eapply HF; [|exact HFe]].
    + intros name Hne. by rewrite lookup_insert_ne.
    + intros name Hne. by rewrite lookup_delete_ne.
Qed.

(** A name that is neither of the two may go. *)
Lemma J_delete p n t es ins nx db : t <> P -> t <> N -> J p n (es, ins, nx) db -> J p n (delete t es, ins, nx) db.
Proof.
  intros HtP HtN HJ. eapply J_entries; [exact HJ|lia|by rewrite lookup_delete_ne..| |done].
  intros name i. rewrite lookup_delete_Some. intros [_ ?]. by left.
Qed.

Lemma unlink_temporary_J p n t d db : t <> P -> t <> N -> J p n (core d) db -> J p n (core (unlink_missing_ok t d).2) db.
Proof.
  intros HtP HtN HJ. unfold unlink_missing_ok, fs_try, unlink, fs_bind. pose proof (sys_cases d) as Hc.
  destruct (sys d) as [[e|[]] d1]; destruct Hc as [Hc _].
  - destruct e; cbn [snd fs_ret fs_raise]; by rewrite Hc.
  - destruct (entries d1 !! t); cbn [snd fs_ret fs_raise]; [|by rewrite Hc].
    change (J p n (delete t (entries d1), inodes d1, next_inode d1) db). apply J_delete; [done..|].
    change (J p n (core d1) db). by rewrite Hc.
Qed.

Lemma unlink_temporary_spec p n t F : kept p -> t <> P -> t <> N -> blind t F ->
  hoare (between p n F) (unlink_temporary t)
    (fun _ => between p n (fun es db => F es db /\ (q = true -> es !! t = None))).
Proof.
  intros Hk HtP HtN HF. unfold unlink_temporary. apply hoare_files. intros d db [HJ HFe] Hq.
  pose proof (unlink_temporary_J p n t d db HtP HtN HJ) as HJ'.
  unfold unlink_missing_ok, fs_try, unlink, fs_bind in *. pose proof (sys_cases d) as Hc.
  destruct (sys d) as [[e|[]] d1]; destruct Hc as [Hc Hn].
  - assert (q = false) by (destruct q; [by destruct Hn; auto|done]).
    destruct e; cbn in *; try (split; [done|]; by eauto). split; [|intros; congruence].
    split; [done|]. split; [|intros; congruence]. change (F (entries d1) db). injection Hc as He _ _. rewrite He. exact HFe.
  - pose proof Hc as [= He _ _]. destruct (entries d1 !! t) eqn:Et; cbn in *.
    + split; [|auto]. split; [done|]. cbn. split; [|intros; by rewrite lookup_delete_eq].
      eapply HF; [|exact HFe]. intros name Hne. cbn. rewrite lookup_delete_ne by done. by rewrite He.
    + split; [|auto]. split; [done|]. cbn. rewrite He in *. done.
Qed.

Lemma unlink_temporary_bad t : t <> P -> t <> N -> keeps_bad (unlink_temporary t).
Proof.
  intros HtP HtN w (Hq & p & n & Hk & HJ). unfold unlink_temporary, files.
  pose proof (unlink_temporary_J p n t _ _ HtP HtN HJ) as HJ'.
  destruct (unlink_missing_ok t (id_dir w)) as [[e|[]] d]; (split; [done|]); eauto.
Qed.

Lemma unlink_intent_spec x i F : kept (Some x) -> blind N F ->
  hoare (between (Some x) (Some i) F) (files (unlink N)) (fun _ => between (Some x) None F).
Proof.
  intros Hk HF. unfold unlink. apply after_sys; [by apply between_safe|]. intros d db [HJ HFe] Hq.
  destruct x as [j u]. unfold core in *. pose proof HJ as (Ha & Hp & [Hn _] & Hdb). rewrite Hn. split; [|exact Hq].
  split; cbn.
  - refine (conj _ (conj _ (conj _ _))).
    + intros name k. rewrite lookup_delete_Some. intros [_ ?]. by eapply Ha.
    + by rewrite lookup_delete_ne.
    + by rewrite lookup_delete_eq.
    + destruct Hdb as (Hb1 & Hb2 & Hb3). split_and!; [done|done|]. intros. left. eauto.
  - eapply HF; [|exact HFe]. intros name Hne. by rewrite lookup_delete_ne.
Qed.

(** ** Reading *)
Lemma metadata_spec R i f : safe R -> (forall c db, R c db -> c.1.2 !! i = Some f) ->
  hoare R (files (metadata i)) (fun g c db => R c db /\ g = f).
Proof.
  intros Hs Hf. apply hoare_files. intros d db Hw Hq. unfold metadata. pose proof (Hf _ _ Hw) as Hi. cbn in Hi.
  rewrite Hi. by split.
Qed.

Lemma fstat_spec R i f : safe R -> (forall c db, R c db -> c.1.2 !! i = Some f) ->
  hoare R (files (fstat i)) (fun g c db => R c db /\ g = f).
Proof.
  intros Hs Hf. unfold fstat. eapply hoare_ext; [apply files_bind|].
  eapply hoare_bind; [by apply hoare_sys|]. intros []. by apply metadata_spec.
Qed.

Lemma open_spec R name i : safe R -> (forall c db, R c db -> c.1.1 !! name = Some i) ->
  hoare R (files (os_open name)) (fun j c db => R c db /\ j = i).
Proof.
  intros Hs Hi. unfold os_open, lstat. apply after_sys; [done|]. intros d db Hw Hq.
  pose proof (Hi _ _ Hw) as He. cbn in He. rewrite He. by split.
Qed.

Lemma substring_short n s : String.length s <= n -> String.substring 0 n s = s.
Proof.
  revert s. induction n as [|n IH]; intros [|c s] Hs; cbn in *; try done; [lia|]. by rewrite IH by lia.
Qed.

Lemma read_bytes_spec R i f n : safe R -> (forall c db, R c db -> c.1.2 !! i = Some f) -> String.length (inode_data f) <= n ->
  hoare R (read_bytes n i) (fun s c db => R c db /\ s = inode_data f).
Proof.
  intros Hs Hf Hn. unfold read_bytes. eapply hoare_bind; [by apply hoare_sys|]. intros [].
  eapply hoare_bind; [by apply metadata_spec|]. intros g w [[Hw Hg] Hq]. cbn. subst g. by rewrite substring_short.
Qed.

Lemma hoare_close R : safe R -> hoare R close (fun _ => R).
Proof. apply hoare_sys. Qed.

Lemma safe_impl (R R' : Assertion) : safe R -> (forall c db, R' c db -> R c db) -> safe R'.
Proof. intros Hs Hi c db Hr. by apply Hs, Hi. Qed.

Lemma safe_and (R : Assertion) (X : Prop) : safe R -> safe (fun c db => R c db /\ X).
Proof. intros Hs c db [Hr _]. by apply Hs. Qed.

Lemma sys_errors d e d' : sys d = (inl e, d') -> e = OSError \/ e = Crashed.
Proof. unfold sys. destruct (dead d); [intros [= <- _]; auto|]. destruct (faults d) as [|[] ?]; intros [=]; auto. Qed.

(** Looking for a file: only its absence is reported as such. *)
Lemma open_cases R name w : safe R -> holds R w ->
  match files (os_open name) w with
  | (inr i, w') => holds R w' /\ (core (id_dir w)).1.1 !! name = Some i
  | (inl (OsRaised FileNotFoundError), w') => holds R w' /\ (core (id_dir w)).1.1 !! name = None
  | (inl _, w') => bad w'
  end.
Proof.
  intros Hs [Hw Hq]. unfold files, os_open, lstat, fs_bind. pose proof (sys_cases (id_dir w)) as Hc.
  destruct (sys (id_dir w)) as [[e|[]] d1] eqn:Esys.
  - apply sys_errors in Esys. destruct Hc as [Hc Hn].
    assert (Hb : bad (mkIdWorld d1 (id_db w) (id_locks w))).
    { split; [destruct q; [by destruct Hn; auto|done]|]. cbn [id_dir id_db]. rewrite Hc. by apply Hs. }
    by destruct Esys as [-> | ->].
  - destruct Hc as [Hc Hn]. assert (Hh : holds R (mkIdWorld d1 (id_db w) (id_locks w))).
    { split; cbn [id_dir id_db]; [by rewrite Hc|auto]. }
    rewrite <- Hc. change ((core d1).1.1) with (entries d1). by destruct (entries d1 !! name) eqn:E.
Qed.

(** ** The intent *)
Lemma intent_file_spec p i fd F : kept p ->
  hoare (fun c db => between p (Some i) F c db /\ fd = i)
    (let& (f, content) := id_finally
       (id_try (let& f := files (fstat fd) in
                let& content := read_bytes (String.length (expected_intent identity database) + 1) fd in
                id_ret (f, content))
          (fun _ => id_raise (IdentityError false)))
       close in
     id_require (inode_regular f && inode_owned f && (inode_mode f =? 384)%Z) ;;&
     id_require (bool_decide (content = expected_intent identity database)) ;;&
     id_ret true)
    (fun b c db => between p (Some i) F c db /\ b = true).
Proof.
  intros Hk. set (R := fun (c : Core) db => between p (Some i) F c db /\ fd = i).
  assert (Hs : safe R) by (apply safe_and; by apply between_safe).
  set (f := private_file (expected_intent identity database)).
  assert (Hf : forall c db, R c db -> c.1.2 !! fd = Some f).
  { intros [[es ins] nx] db [[(_ & _ & [_ Hi] & _) _] ->]. exact Hi. }
  set (R2 := fun (x : Inode * string) (c : Core) db => R c db /\ x = (f, expected_intent identity database)).
  eapply hoare_bind with (S := R2).
  - eapply hoare_finally; [|intros a; apply hoare_close, safe_and, Hs|apply sys_keeps_bad].
    apply hoare_try; [|by intros e w Hb].
    eapply hoare_bind; [by apply fstat_spec|]. intros g. cbv beta.
    eapply hoare_bind with (S := fun s c db => (R c db /\ g = f) /\ s = inode_data f).
    { apply read_bytes_spec; [by apply safe_and| |cbn; lia]. intros c db [HR _]. exact (Hf _ _ HR). }
    intros s w [[[HR Hg] Hsd] Hq]. subst. by split.
  - intros [g s] w [[HR [= -> ->]] Hq]. cbn. rewrite bool_decide_eq_true_2 by done. destruct HR. by split.
Qed.

Lemma read_intent_spec p n F : kept p ->
  hoare (between p n F) (read_bootstrap_intent N (expected_intent identity database))
    (fun b c db => between p n F c db /\ b = is_some n).
Proof.
  intros Hk w Hw. unfold read_bootstrap_intent. pose proof (open_cases _ N w (between_safe p n F Hk) Hw) as Ho.
  unfold id_bind at 1, id_try at 1, id_bind at 1.
  assert (Hn : (core (id_dir w)).1.1 !! N = n).
  { destruct Hw as [[(_ & _ & Hn & _) _] _]. by destruct n; [destruct Hn|]. }
  destruct (files (os_open N) w) as [[e|fd] w1].
  - destruct e as [|[]| | |]; try done. destruct Ho as [[Hr Hq] Ho]. rewrite Hn in Ho. subst n. by split.
  - destruct Ho as [[Hr Hq] Ho]. rewrite Hn in Ho. subst n. by apply intent_file_spec.
Qed.

(** ** The identity file *)
Lemma canonical_length u : is_canonical_uuid u = true -> String.length u = 36 /\ ascii_text (u +:+ newline) = true.
Proof.
  intros Hu. destruct (uuid_groups_sound _ _ Hu) as [Hc Hl]. split; [exact Hl|].
  unfold ascii_text. rewrite all_chars_app. apply andb_true_iff. split; [|done].
  revert Hc. apply all_chars_impl. intros c. unfold uuid_char. destruct c as [[] [] [] [] [] [] [] []]; by vm_compute.
Qed.

Lemma substring_prefix s t : String.substring 0 (String.length s) (s +:+ t) = s.
Proof. induction s as [|c s IH]; [by destruct t|]. change (String c (String.substring 0 (String.length s) (s +:+ t)) = String c s). by rewrite IH. Qed.

Lemma identity_text_exact u : is_canonical_uuid u = true -> identity_text (u +:+ newline) = Some u.
Proof.
  intros Hu. destruct (canonical_length u Hu) as [Hl _]. unfold identity_text.
  rewrite <- Hl, substring_prefix, Hu. by rewrite bool_decide_eq_true_2.
Qed.

(** No step after the opening reports a missing file. *)
Definition never {A} (m : IdM A) : Prop := forall w e w', m w = (inl e, w') -> e <> IdentityError true.

Lemma never_ret {A} (a : A) : never (id_ret a). Proof. done. Qed.
Lemma never_require b : never (id_require b). Proof. destruct b; [done|]. by intros w e w' [= <- _]. Qed.

Lemma never_bind {A B} (m : IdM A) (k : A -> IdM B) : never m -> (forall a, never (k a)) -> never (id_bind m k).
Proof. intros Hm Hk w e w'. unfold id_bind. destruct (m w) as [[e'|a] w1] eqn:E; [intros [= <- <-]; eauto|apply Hk]. Qed.

Lemma never_files {A} (m : FS A) : never (files m).
Proof. intros w e w'. unfold files. destruct (m _) as [[[]|a] d]; by intros [= <- _]. Qed.

Lemma never_finally {A} (m : IdM A) f : never m -> never f -> never (id_finally m f).
Proof.
  intros Hm Hf w e w'. unfold id_finally. destruct (m w) as [[e'|a] w1] eqn:E.
  - specialize (Hm _ _ _ E). destruct e'; try (by intros [= <- <-]);
      destruct (f w1) as [[e2|[]] w2] eqn:E2; intros [= <- <-]; eauto.
  - destruct (f w1) as [[e2|[]] w2] eqn:E2; [|done]. intros [= <- <-]. eauto.
Qed.

Lemma never_try {A} (m : IdM A) : never (id_try m (fun _ => id_raise (IdentityError false))).
Proof. intros w e w'. unfold id_try. destruct (m w) as [[[]|a] w1]; by intros [= <- _]. Qed.

Definition after_open (fd : positive) : IdM string :=
  let& (f, content) := id_finally
    (id_try (let& f := files (fstat fd) in
             let& content := read_bytes 128 fd in
             id_require (ascii_text content) ;;&
             id_ret (f, content))
       (fun _ => id_raise (IdentityError false)))
    close in
  match identity_text content with
  | None => id_raise (IdentityError false)
  | Some u =>
      id_require (inode_regular f) ;;&
      id_require (inode_owned f && (inode_mode f =? 384)%Z) ;;&
      id_ret u
  end.

Lemma after_open_never fd : never (after_open fd).
Proof.
  apply never_bind; [apply never_finally; [apply never_try|apply never_files]|]. intros [f content].
  destruct (identity_text content); [|by intros w e w' [= <- _]].
  apply never_bind; [apply never_require|]. intros _. apply never_bind; [apply never_require|]. intros _. apply never_ret.
Qed.

Lemma after_open_spec i u n fd F : kept (Some (i, u)) ->
  hoare (fun c db => between (Some (i, u)) n F c db /\ fd = i) (after_open fd)
    (fun v c db => between (Some (i, u)) n F c db /\ v = u).
Proof.
  intros Hk w Hw0. assert (Hu : is_canonical_uuid u = true) by (by destruct Hw0 as [[[(_ & (_ & _ & ?) & _) _] _] _]).
  revert w Hw0. change (hoare (fun c db => between (Some (i, u)) n F c db /\ fd = i) (after_open fd)
    (fun v c db => between (Some (i, u)) n F c db /\ v = u)).
  set (R := fun (c : Core) db => between (Some (i, u)) n F c db /\ fd = i).
  assert (Hs : safe R) by (apply safe_and; by apply between_safe).
  destruct (canonical_length u Hu) as [Hl Hascii].
  set (f := private_file (u +:+ newline)).
  assert (Hf : forall c db, R c db -> c.1.2 !! fd = Some f).
  { intros [[es ins] nx] db [[(_ & (_ & Hi & _) & _) _] ->]. exact Hi. }
  set (R2 := fun (x : Inode * string) (c : Core) db => R c db /\ x = (f, u +:+ newline)).
  eapply hoare_bind with (S := R2).
  - eapply hoare_finally; [|intros a; apply hoare_close, safe_and, Hs|apply sys_keeps_bad].
    apply hoare_try; [|by intros e w Hb].
    eapply hoare_bind; [by apply fstat_spec|]. intros g. cbv beta.
    eapply hoare_bind with (S := fun s c db => (R c db /\ g = f) /\ s = inode_data f).
    { apply read_bytes_spec; [by apply safe_and| |cbn; rewrite string_length_app, Hl; cbn; lia].
      intros c db [HR _]. exact (Hf _ _ HR). }
    intros s w [[[HR Hg] Hsd] Hq]. subst. unfold id_bind. cbn [inode_data f private_file]. rewrite Hascii. by split.
  - intros [g s] w [[HR [= -> ->]] Hq]. rewrite identity_text_exact by done. destruct HR. by split.
Qed.

Lemma read_identity_spec p n F : kept p ->
  hoare (between p n F)
    (id_try (let& u := read_instance_id P in id_ret (Some u))
       (fun e => match e with IdentityError true => id_ret None | e => id_raise e end))
    (fun found c db => between p n F c db /\ found = snd <$> p).
Proof.
  intros Hk w Hw. pose proof (open_cases _ P w (between_safe p n F Hk) Hw) as Ho.
  assert (Hp : (core (id_dir w)).1.1 !! P = fst <$> p).
  { destruct Hw as [[(_ & Hp & _) _] _]. by destruct p as [[i u]|]; [destruct Hp|]. }
  change (read_instance_id P) with (id_bind (os_to_identity (files (os_open P))) after_open).
  pose proof (never_files (os_open P) w) as Hnf.
  unfold id_try, id_bind, os_to_identity, id_try. destruct (files (os_open P) w) as [[e|fd] w1].
  - destruct e as [[]|[]| | |]; try done; [by destruct (Hnf _ _ eq_refl)|].
    destruct Ho as [[Hr Hq] Ho]. destruct p as [[i u]|]; [cbn in *; congruence|]. by split.
  - destruct Ho as [[Hr Hq] Ho]. rewrite Hp in Ho. destruct p as [[i u]|]; [|done]. injection Ho as <-.
    assert (Hh : holds (fun c db => between (Some (i, u)) n F c db /\ i = i) w1) by (by split).
    pose proof (after_open_spec i u n i F Hk w1 Hh) as Ha. pose proof (after_open_never i w1) as Hne.
    destruct (after_open i w1) as [[e|v] w2].
    + specialize (Hne _ _ eq_refl). destruct e as [[]| | | |]; done.
    + destruct Ha as [[Ha ->] Hq2]. by split.
Qed.

(** ** The database *)
Definition has_table (db : AgentDb) : Prop := q = true -> is_Some (adb_metadata db).

Lemma metadata_value_spec R key : safe R -> (forall c db, R c db -> has_table db) ->
  hoare R (metadata_value key) (fun v c db => R c db /\ v = metadata_row key db).
Proof.
  intros Hs Ht. unfold metadata_value. eapply hoare_bind; [by apply hoare_statement|]. intros []. cbv beta.
  intros w [Hw Hq]. unfold id_bind, from_db, metadata_row. destruct (adb_metadata (id_db w)) as [rows|] eqn:E.
  - split; [|done]. by rewrite E.
  - split; [|by apply Hs]. pose proof (Ht _ _ Hw) as Hq'. unfold has_table in Hq'. rewrite E in Hq'.
    destruct q; [by destruct (Hq' eq_refl)|done].
Qed.

Lemma binding_spec R p n : safe R -> (forall c db, R c db -> J p n c db /\ has_table db) ->
  hoare R (let& binding := metadata_value BINDING_KEY in validate_binding identity binding) (fun _ => R).
Proof.
  intros Hs HR. eapply hoare_bind; [apply metadata_value_spec; [done|]; intros c db Hr; exact (proj2 (HR _ _ Hr))|].
  intros binding w [[Hw ->] Hq]. destruct (HR _ _ Hw) as [HJ _].
  assert (Hb : forall b, metadata_row BINDING_KEY (id_db w) = Some b -> b = P).
  { unfold core in HJ. by destruct HJ as (_ & _ & _ & Hb & _). }
  unfold validate_binding. destruct (metadata_row BINDING_KEY (id_db w)) as [b|]; [|done].
  rewrite (Hb b eq_refl), bool_decide_eq_true_2 by done. done.
Qed.

Lemma id_bind_assoc {A B C} (m : IdM A) (k : A -> IdM B) (l : B -> IdM C) w :
  id_bind (id_bind m k) l w = id_bind m (fun a => id_bind (k a) l) w.
Proof. unfold id_bind. by destruct (m w) as [[e|a] w1]. Qed.

Lemma is_initialized_spec n F : kept None -> (forall es db, F es db -> has_table db) ->
  hoare (between None n F) (is_initialized identity) (fun b c db => between None n F c db /\ b = false).
Proof.
  intros Hk HF. assert (Hs : safe (between None n F)) by (by apply between_safe).
  assert (HR : forall c db, between None n F c db -> J None n c db /\ has_table db).
  { intros c db [HJ HFe]. split; [done|]. by eapply HF. }
  unfold is_initialized.
  eapply hoare_bind; [apply metadata_value_spec; [done|]; intros c db Hr; exact (proj2 (HR _ _ Hr))|]. intros marker. cbv beta.
  eapply hoare_ext; [intros w; symmetry; apply id_bind_assoc|].
  eapply hoare_bind.
  - eapply binding_spec with (p := None) (n := n); [eapply safe_impl; [exact Hs|naive_solver]|].
    intros c db [Hr _]. by apply HR.
  - intros [] w [[Hw ->] Hq]. split; [|done]. split; [done|]. apply bool_decide_eq_false. intros Hm.
    destruct Hw as [(_ & _ & _ & _ & Hn & _) _]. by destruct (Hn Hm).
Qed.

Lemma mark_spec x n F : kept (Some x) -> (forall es db, F es db -> has_table db) ->
  (forall es db rows, F es db -> adb_metadata db = Some rows ->
     F es (mkAgentDb (adb_nonempty db) (adb_versions db) (Some (marked_rows identity rows)))) ->
  hoare (between (Some x) n F) (mark_initialized identity)
    (fun _ => between (Some x) n (fun es db => F es db /\ metadata_row MARKER_KEY db = Some "initialized")).
Proof.
  intros Hk HF Hmark. assert (Hs : safe (between (Some x) n F)) by (by apply between_safe).
  assert (HR : forall c db, between (Some x) n F c db -> J (Some x) n c db /\ has_table db).
  { intros c db [HJ HFe]. split; [done|]. by eapply HF. }
  unfold mark_initialized. eapply hoare_bind; [by apply hoare_statement|]. intros []. cbv beta.
  eapply hoare_ext; [intros w; symmetry; apply id_bind_assoc|].
  eapply hoare_bind; [by eapply binding_spec|]. intros []. cbv beta.
  do 3 (eapply hoare_bind; [by apply hoare_statement|]; intros []; cbv beta).
  eapply hoare_bind; [apply hoare_from_db|]. intros db0. cbv beta.
  eapply hoare_bind with (S := fun _ => between (Some x) n (fun es db => F es db /\ metadata_row MARKER_KEY db = Some "initialized")).
  - intros w [[Hw ->] Hq]. cbn [id]. destruct (adb_metadata (id_db w)) as [rows|] eqn:E.
    + split; [|done]. destruct Hw as [HJ HFe]. split; cbn [id_dir id_db set_db].
      * unfold core in *. destruct HJ as (Ha & Hp & Hn & Hb & Hm & Hmig). refine (conj Ha (conj Hp (conj Hn (conj _ (conj _ _))))).
        -- intros b. unfold metadata_row in *. cbn. rewrite E in Hb. cbn in Hb. unfold marked_rows.
           rewrite lookup_insert_ne by done. destruct (rows !! BINDING_KEY) as [b'|] eqn:Eb; [rewrite Eb; apply Hb|].
           rewrite lookup_insert_eq. by intros [= <-].
        -- intros _. eauto.
        -- intros _. left. eauto.
      * split; [by apply Hmark|]. unfold metadata_row, marked_rows. cbn. by rewrite lookup_insert_eq.
    + destruct (HR _ _ Hw) as [HJ Ht]. unfold has_table in Ht. rewrite E in Ht. split; [|eauto].
      destruct q; [by destruct (Ht eq_refl)|done].
  - intros []. apply hoare_statement. by apply between_safe.
Qed.

Lemma bootstrap_allowed_spec p n F : kept p ->
  hoare (between p n F) identity_bootstrap_allowed
    (fun b c db => between p n F c db /\ (b = false -> is_Some p \/ is_Some n)).
Proof.
  intros Hk. assert (Hs : safe (between p n F)) by (by apply between_safe). unfold identity_bootstrap_allowed.
  eapply hoare_bind; [apply hoare_from_db|]. intros nonempty. destruct nonempty; cbn [negb].
  2: { intros w [[Hw _] Hq]. by split. }
  eapply hoare_bind; [apply hoare_statement; eapply safe_impl; [exact Hs|naive_solver]|]. intros [].
  eapply hoare_bind; [apply hoare_from_db|]. intros versions. destruct versions as [versions|].
  2: { intros w [[[Hw _] _] Hq]. by split. }
  eapply hoare_bind; [apply hoare_statement; eapply safe_impl; [exact Hs|naive_solver]|]. intros [].
  intros w [[[Hw He] Hv] Hq]. split; [|done]. split; [done|]. intros Hb. apply negb_false_iff, bool_decide_eq_true in Hb.
  destruct Hw as [(_ & _ & _ & _ & _ & Hm) _]. apply Hm. split; [done|]. eauto.
Qed.

(** ** The migration *)
(** It leaves the rows of the metadata alone; when it succeeds the table is there. *)
Definition migration_contract (migrate : Migration) : Prop := forall db,
  (forall key, metadata_row key (migrate db).2 = metadata_row key db) /\
  ((migrate db).1 = true -> is_Some (adb_metadata (migrate db).2)).

Lemma migration_spec migrate p n F : kept p -> is_Some p \/ is_Some n -> migration_contract migrate ->
  (q = true -> forall db, (migrate db).1 = true) ->
  (forall es db db', F es db -> F es db') ->
  hoare (between p n F) (run_migration migrate) (fun _ => between p n (fun es db => F es db /\ has_table db)).
Proof.
  intros Hk Hpn Hm Hok HF. unfold run_migration.
  eapply hoare_bind; [apply hoare_statement; by apply between_safe|]. intros []. cbv beta.
  eapply hoare_bind; [apply hoare_from_db|]. intros db0. destruct (migrate db0) as [ok db1] eqn:Em.
  destruct (Hm db0) as [Hrows Htable]. rewrite Em in Hrows, Htable. cbn [fst snd] in *.
  eapply hoare_bind with (S := fun _ c db => between p n F c db /\ db = db1).
  - intros w [[Hw Hdb] Hq]. cbn [id] in Hdb. subst db0. split; [|done]. split; [|done].
    destruct Hw as [HJ HFe]. split; [|by eapply HF]. unfold core in *. cbn [id_dir id_db].
    destruct HJ as (Ha & Hp & Hn & Hb & Hmk & Hmig). refine (conj Ha (conj Hp (conj Hn (conj _ (conj _ _))))).
    + intros b. rewrite Hrows. apply Hb.
    + rewrite Hrows. apply Hmk.
    + done.
  - intros []. eapply hoare_bind; [apply hoare_statement; eapply safe_impl; [by apply (between_safe p n F)|naive_solver]|].
    intros []. destruct ok.
    + intros w [[[HJ HFe] Hdb] Hq]. split; [|done]. split; [done|]. split; [done|]. intros _. rewrite Hdb. by apply Htable.
    + apply hoare_raise; [eapply safe_impl; [by apply (between_safe p n F)|naive_solver]|].
      destruct q; [|done]. specialize (Hok eq_refl db0). by rewrite Em in Hok.
Qed.

(** ** Locks *)
Lemma hoare_set_locks R k : hoare R (set_locks k) (fun _ => R).
Proof. by intros w [Hw Hq]. Qed.

Lemma hoare_acquire R k : safe R -> hoare R (acquire k) (fun _ => R).
Proof.
  intros Hs. induction k as [|k IH]; cbn [acquire]; [by intros w Hw|].
  eapply hoare_bind; [apply hoare_os_to_identity; by apply hoare_sys|]. intros [].
  eapply hoare_bind; [by apply hoare_sys|]. intros [].
  eapply hoare_bind with (S := fun _ => R); [by intros w Hw|]. intros n.
  eapply hoare_bind; [apply hoare_set_locks|]. intros []. exact IH.
Qed.

Lemma hoare_release R k : safe R -> hoare R (release k) (fun _ => R).
Proof.
  intros Hs. induction k as [|k IH]; cbn [release]; [by intros w Hw|].
  do 2 (eapply hoare_bind; [by apply hoare_sys|]; intros []). exact IH.
Qed.

Lemma keeps_bad_bind {A B} (m : IdM A) (k : A -> IdM B) : keeps_bad m -> (forall a, keeps_bad (k a)) -> keeps_bad (id_bind m k).
Proof.
  intros Hm Hk w Hb. unfold id_bind. specialize (Hm w Hb). destruct (m w) as [[e|a] w1]; [done|]. by apply Hk.
Qed.

Lemma release_bad k : keeps_bad (release k).
Proof.
  induction k as [|k IH]; cbn [release]; [by intros w Hb|].
  do 2 (apply keeps_bad_bind; [apply sys_keeps_bad|]; intros []). exact IH.
Qed.

Lemma storage_locks_spec {A} k (body : IdM A) R S : safe R -> (forall a, safe (S a)) ->
  hoare R body S -> hoare R (storage_locks k body) S.
Proof.
  intros Hr Hs Hb. unfold storage_locks. eapply hoare_bind; [apply hoare_set_locks|]. intros [].
  eapply hoare_finally.
  - eapply hoare_bind; [by apply hoare_acquire|]. intros []. exact Hb.
  - intros a. eapply hoare_bind with (S := fun _ => S a); [by intros w Hw|]. intros n. by apply hoare_release.
  - apply keeps_bad_bind; [by intros w Hw|]. intros n. apply release_bad.
Qed.

Lemma hoare_fsync R : safe R -> hoare R fsync_dir (fun _ => R).
Proof.
  intros Hs. unfold fsync_dir. eapply hoare_bind; [by apply hoare_sys|]. intros [].
  eapply hoare_finally; [by apply hoare_sys|intros []; by apply hoare_close|apply sys_keeps_bad].
Qed.

(** ** Creating the intent *)
Definition some_intent (p : option (positive * string)) (F : gmap string positive -> AgentDb -> Prop) : Assertion :=
  fun c db => exists i, between p (Some i) F c db.

Lemma some_intent_safe p F : kept p -> safe (some_intent p F).
Proof. intros Hk c db [i [HJ _]]. eauto. Qed.

Lemma create_intent_spec p t F : kept p -> t <> P -> t <> N -> blind t F -> blind N F ->
  hoare (between p None (fun es db => F es db /\ (q = true -> es !! t = None)))
    (create_bootstrap_intent N t (expected_intent identity database)) (fun _ => some_intent p F).
Proof.
  intros Hk HtP HtN HF HFN. unfold create_bootstrap_intent.
  eapply hoare_finally with (S := fun _ => some_intent p F); [| |by apply unlink_temporary_bad].
  2: { intros [] w [[i Hw] Hq]. assert (Hh : holds (between p (Some i) F) w) by (by split).
       pose proof (unlink_temporary_spec p (Some i) t F Hk HtP HtN HF w Hh) as Hu.
       destruct (unlink_temporary t w) as [[e|[]] w']; [done|]. destruct Hu as [[HJ [HFe _]] Hq']. split; [|done]. by exists i. }
  apply hoare_os_to_identity. eapply hoare_bind; [by apply create_spec|]. intros i. cbv beta.
  eapply hoare_bind with (S := fun _ => building p None t i (expected_intent identity database) F).
  - eapply hoare_finally with (S := fun _ => building p None t i (expected_intent identity database) F);
      [|intros []; apply hoare_close; by apply building_safe|apply sys_keeps_bad].
    eapply hoare_bind; [by apply write_spec|]. intros k.
    eapply hoare_bind with (S := fun _ => building p None t i (expected_intent identity database) F).
    + intros w [[Hw [Hle Hk']] Hq]. destruct (Nat.eqb_spec k (String.length (expected_intent identity database))) as [->|Hne].
      * rewrite substring_all in Hw. by split.
      * split; [destruct q; [by destruct Hne; apply Hk'|done]|]. exact (building_safe _ _ _ _ _ _ Hk _ _ Hw).
    + intros []. apply hoare_sys. by apply building_safe.
  - intros [].
    eapply hoare_bind with (S := fun _ => some_intent p F); [|intros []; apply hoare_fsync; by apply some_intent_safe].
    intros w Hw. pose proof (link_spec p t i F Hk HtN HFN w Hw) as Hl. unfold id_try.
    assert (Hx : forall d', files (link t N) w <> (inl (OsRaised FileExistsError), d')).
    { destruct Hw as [[(_ & _ & Hn & _) (Ht & _)] _]. intros d'. unfold files, link, fs_bind.
      destruct (sys (id_dir w)) as [[e|[]] d1] eqn:Es; [by apply sys_errors in Es as [-> | ->]|].
      pose proof (sys_cases (id_dir w)) as Hc. rewrite Es in Hc. destruct Hc as [[= He _ _] _].
      rewrite He. change (entries (id_dir w) !! N = None) in Hn. rewrite Hn. destruct (entries (id_dir w) !! t); done. }
    destruct (files (link t N) w) as [[e|[]] w1].
    + destruct e as [|[]| | |]; try done. by destruct (Hx w1).
    + destruct Hl as [Hl Hq]. split; [|done]. by exists i.
Qed.

(** ** Loading and creating the identity *)
Definition marked (F : gmap string positive -> AgentDb -> Prop) (es : gmap string positive) (db : AgentDb) : Prop :=
  F es db /\ metadata_row MARKER_KEY db = Some "initialized".

(** What survives the marking of the database. *)
Definition survives_marking (F : gmap string positive -> AgentDb -> Prop) : Prop := forall es db rows,
  F es db -> adb_metadata db = Some rows ->
  F es (mkAgentDb (adb_nonempty db) (adb_versions db) (Some (marked_rows identity rows))).

Definition has_identity (n : option positive) (F : gmap string positive -> AgentDb -> Prop) (r : string) : Assertion :=
  fun c db => exists i, kept (Some (i, r)) /\ between (Some (i, r)) n F c db.

Lemma has_identity_safe n F r : safe (has_identity n F r).
Proof. intros c db (i & Hk & HJ & _). eauto. Qed.

Lemma create_identity_spec n draws allowed F :
  let t := path_text (temporary_of identity (draw_temporary draws)) in
  kept None -> is_canonical_uuid (draw_identity draws) = true -> t <> P -> t <> N ->
  blind t F -> blind P F -> (forall es db, F es db -> has_table db) -> survives_marking F ->
  hoare (between None n (fun es db => F es db /\ (q = true -> es !! t = None)))
    (create_identity identity draws (Some allowed)) (fun r => has_identity n (marked F) r).
Proof.
  intros t Hk Hu HtP HtN HFt HFP Htab Hmark. set (u := draw_identity draws) in *. unfold create_identity. fold t u.
  eapply hoare_bind; [by apply create_spec|]. intros i. cbv beta.
  assert (Hki : kept (Some (i, u))) by (by apply kept_none).
  eapply hoare_bind with (S := fun _ => has_identity n (marked F) u); [|intros []; by intros w Hw].
  eapply hoare_finally with (S := fun _ => between (Some (i, u)) n (marked F)); [| |by apply unlink_temporary_bad].
  2: { intros []. assert (Hb : blind t (marked F)).
       { intros es es' db He [HFe Hm]. split; [|done]. by eapply HFt. }
       eapply hoare_weaken; [by apply (unlink_temporary_spec (Some (i, u)) n t (marked F))|done|].
       intros [] c db [HJ [HFe _]]. exists i. split; [done|]. by split. }
  eapply hoare_bind with (S := fun _ => building None n t i (u +:+ newline) F).
  - eapply hoare_finally with (S := fun _ => building None n t i (u +:+ newline) F);
      [|intros []; apply hoare_close; by apply building_safe|apply sys_keeps_bad].
    eapply hoare_bind.
    + apply (write_loop_spec _ None n t i "" (u +:+ newline) F Hk). lia.
    + intros []. apply hoare_sys. by apply building_safe.
  - intros []. eapply hoare_bind; [by apply replace_spec|]. intros []. cbv beta.
    eapply hoare_bind; [apply hoare_fsync; by apply between_safe|]. intros []. by apply mark_spec.
Qed.

Lemma load_spec p n draws allowed F :
  let t := path_text (temporary_of identity (draw_temporary draws)) in
  kept p -> (p = None -> allowed = true) ->
  is_canonical_uuid (draw_identity draws) = true -> t <> P -> t <> N ->
  blind t F -> blind P F -> (forall es db, F es db -> has_table db) -> survives_marking F ->
  hoare (between p n (fun es db => F es db /\ (q = true -> es !! t = None)))
    (load_or_create_locked identity draws true (Some allowed)) (fun r => has_identity n (marked F) r).
Proof.
  intros t Hk Hal Hu HtP HtN HFt HFP Htab Hmark. unfold load_or_create_locked. apply hoare_os_to_identity.
  set (F' := fun (es : gmap string positive) db => F es db /\ (q = true -> es !! t = None)).
  eapply hoare_bind; [by apply read_identity_spec|]. intros found. cbv beta.
  destruct p as [[i u]|].
  - intros w [[Hw ->] Hq]. cbn [fmap option_fmap option_map snd].
    assert (Hh : holds (between (Some (i, u)) n F') w) by (by split). revert w Hw Hq Hh.
    assert (Hm : hoare (between (Some (i, u)) n F') (mark_initialized identity ;;& id_ret u) (fun r => has_identity n (marked F) r)).
    { eapply hoare_bind; [apply mark_spec; [done|by intros es db [? _]; eapply Htab|]|].
      - intros es db rows [HFe Hf] Hr. split; [by apply Hmark|done].
      - intros [] w [[HJ [[HFe _] Hm]] Hq]. split; [|done]. exists i. split; [done|]. split; [done|]. by split. }
    intros w _ _ Hh. exact (Hm w Hh).
  - rewrite (Hal eq_refl). intros w [[Hw ->] Hq]. cbn [fmap option_fmap option_map].
    assert (Hh : holds (between None n F') w) by (by split). revert w Hw Hq Hh.
    assert (Hc : hoare (between None n F')
      (id_require true ;;&
       (let& initialized := is_initialized identity in id_require (negb (initialized || negb true))) ;;&
       create_identity identity draws (Some true)) (fun r => has_identity n (marked F) r)).
    { eapply hoare_bind with (S := fun _ => between None n F'); [by intros w Hw|]. intros [].
      eapply hoare_bind with (S := fun _ => between None n F'); [|intros []; by apply create_identity_spec].
      eapply hoare_bind; [apply is_initialized_spec; [done|by intros es db [? _]; eapply Htab]|].
      intros b w [[Hw ->] Hq]. by split. }
    intros w _ _ Hh. exact (Hc w Hh).
Qed.

(** ** The whole start *)
Lemma remove_intent_spec x n F : kept (Some x) -> blind N F ->
  hoare (between (Some x) n F) (remove_bootstrap_intent N (expected_intent identity database)) (fun _ => between (Some x) None F).
Proof.
  intros Hk HF. unfold remove_bootstrap_intent. eapply hoare_bind; [by apply read_intent_spec|]. intros there.
  destruct n as [i|]; cbn [is_some].
  - intros w [[Hw ->] Hq]. cbn [negb]. assert (Hh : holds (between (Some x) (Some i) F) w) by (by split). revert w Hw Hq Hh.
    assert (Hm : hoare (between (Some x) (Some i) F) (os_to_identity (files (unlink N) ;;& fsync_dir)) (fun _ => between (Some x) None F)).
    { apply hoare_os_to_identity. eapply hoare_bind; [by apply unlink_intent_spec|]. intros []. apply hoare_fsync. by apply between_safe. }
    intros w _ _ Hh. exact (Hm w Hh).
  - intros w [[Hw ->] Hq]. by split.
Qed.
End Logic.
