(* ===== verification/IdentityClaims.v ===== *)
(** * The identity of an instance never changes

    However often the Agent starts, wherever a start fails or the process dies:
    every start that returns returns the same identity, and a start that meets
    no failure returns. *)

From stdpp Require Import base tactics list gmap strings.
From Stdlib Require Import ZArith Lia Ascii.
From S2P Require Import Prelude Text Digest Models CompactJson SecretFiles SecretFacts Identity IdentityFacts.

Local Open Scope identity_scope.

Section Identity.
Context `{FloatText} (identity database : Path) (parents : nat).

Notation P := (path_text identity).
Notation N := (intent_path database).

Definition temporaries (draws : Draws) : list string :=
  [path_text (temporary_of (bootstrap_intent_path database) (draw_intent draws));
   path_text (temporary_of identity (draw_temporary draws))].

(** What is drawn at a start: an identity, and names of their own. *)
Definition draws_ok (draws : Draws) : Prop :=
  is_canonical_uuid (draw_identity draws) = true /\ NoDup (P :: N :: temporaries draws).

Lemma hoare_exists {A B} q p0 (R : B -> Assertion) (m : IdM A) S :
  (forall b, hoare identity database q p0 (R b) m S) -> hoare identity database q p0 (fun c db => exists b, R b c db) m S.
Proof. intros Hm w [[b Hw] Hq]. apply (Hm b w). by split. Qed.

(** What both ways of a start have in common after the intent was seen to. *)
Lemma start_rest q p n draws allowed migrate :
  draws_ok draws -> (p = None -> allowed = true) -> is_Some p \/ is_Some n -> (allowed = false -> n = None) ->
  migration_contract migrate -> (q = true -> forall db, (migrate db).1 = true) ->
  hoare identity database q p
    (between identity database p n (fun es _ => q = true -> es !! path_text (temporary_of identity (draw_temporary draws)) = None))
    (run_migration migrate ;;&
     let& instance_id := load_or_create_locked identity draws true (Some allowed) in
     (if allowed then remove_bootstrap_intent N (expected_intent identity database) else id_ret tt) ;;&
     id_ret instance_id)
    (fun r => has_identity identity database p None (fun _ db => metadata_row MARKER_KEY db = Some "initialized") r).
Proof.
  intros [Hu Hnd] Hal Hpn Hno Hm Hok. set (t := path_text (temporary_of identity (draw_temporary draws))).
  assert (Ht : P <> N /\ t <> P /\ t <> N).
  { unfold temporaries in Hnd. fold t in Hnd. rewrite !NoDup_cons, !elem_of_cons in Hnd. naive_solver. }
  destruct Ht as (HPN & HtP & HtN). assert (Hk : kept p p) by (intros x Hx; exact Hx).
  eapply hoare_bind; [by apply migration_spec|]. intros [].
  eapply hoare_bind.
  - eapply hoare_weaken; [apply (load_spec identity database q p HPN p n draws allowed (fun _ db => has_table q db))|..];
      [done|done|done|done|done|exact (fun _ _ _ _ F => F)|exact (fun _ _ _ _ F => F)|exact (fun _ _ F => F)| | |done].
    + intros es db rows _ _ _. by eexists.
    + intros c db [HJ [Hf Htab]]. by split.
  - intros r. unfold has_identity at 1. apply hoare_exists. intros i w [[Hki Hw] Hq].
    assert (Hx : hoare identity database q p (between identity database (Some (i, r)) n (marked (fun _ db => has_table q db)))
      ((if allowed then remove_bootstrap_intent N (expected_intent identity database) else id_ret tt) ;;& id_ret r)
      (fun r => has_identity identity database p None (fun _ db => metadata_row MARKER_KEY db = Some "initialized") r)).
    { eapply hoare_bind with (S := fun _ => between identity database (Some (i, r)) None (marked (fun _ db => has_table q db))).
      - destruct allowed; [apply remove_intent_spec; [done..|]; exact (fun _ _ _ _ F => F)|]. rewrite (Hno eq_refl). by intros w' Hw'.
      - intros [] w' [[HJ [_ Hmk]] Hq']. split; [|done]. exists i. split; [done|]. by split. }
    apply Hx. by split.
Qed.

Lemma initialize_spec q p n draws migrate :
  draws_ok draws -> migration_contract migrate -> (q = true -> forall db, (migrate db).1 = true) ->
  hoare identity database q p
    (between identity database p n (fun es _ => q = true -> Forall (fun t => es !! t = None) (temporaries draws)))
    (initialize_instance_id identity database parents draws migrate)
    (fun r => has_identity identity database p None (fun _ db => metadata_row MARKER_KEY db = Some "initialized") r).
Proof.
  intros Hd Hm Hok. assert (Hk : kept p p) by (intros x Hx; exact Hx).
  apply storage_locks_spec; [by apply between_safe|intros; apply has_identity_safe|].
  set (t1 := path_text (temporary_of (bootstrap_intent_path database) (draw_intent draws))).
  set (t2 := path_text (temporary_of identity (draw_temporary draws))).
  assert (Ht : P <> N /\ t1 <> P /\ t1 <> N /\ t2 <> t1 /\ t2 <> N).
  { destruct Hd as [_ Hnd]. unfold temporaries in Hnd. fold t1 t2 in Hnd. rewrite !NoDup_cons, !elem_of_cons in Hnd. naive_solver. }
  destruct Ht as (HPN & H1P & H1N & H21 & H2N).
  eapply hoare_bind; [by apply read_intent_spec|]. intros has_intent.
  assert (Hfree : forall (c : Core) db, between identity database p n
      (fun es _ => q = true -> Forall (fun t => es !! t = None) (temporaries draws)) c db ->
    between identity database p n (fun es _ => (q = true -> es !! t2 = None) /\ (q = true -> es !! t1 = None)) c db).
  { intros c db [HJ Hf]. split; [done|]. cbv beta in *. split; intros Hq; specialize (Hf Hq); by repeat apply Forall_cons in Hf as [? Hf]. }
  destruct n as [i|]; cbn [is_some].
  - intros w [[Hw ->] Hq]. cbn [andb negb]. apply Hfree in Hw as [HJ [Hf _]].
    apply (start_rest q p (Some i) draws true migrate); [exact Hd|done|right; by eexists|done|exact Hm|exact Hok|]. by split.
  - intros w [[Hw ->] Hq]. apply Hfree in Hw.
    assert (Hx : hoare identity database q p
      (between identity database p None (fun es _ => (q = true -> es !! t2 = None) /\ (q = true -> es !! t1 = None)))
      (let& bootstrap_allowed := identity_bootstrap_allowed in
       (if bootstrap_allowed && negb false then create_bootstrap_intent N t1 (expected_intent identity database) else id_ret tt) ;;&
       run_migration migrate ;;&
       let& instance_id := load_or_create_locked identity draws true (Some bootstrap_allowed) in
       (if bootstrap_allowed then remove_bootstrap_intent N (expected_intent identity database) else id_ret tt) ;;&
       id_ret instance_id)
      (fun r => has_identity identity database p None (fun _ db => metadata_row MARKER_KEY db = Some "initialized") r)).
    { eapply hoare_bind; [by apply bootstrap_allowed_spec|]. intros [|]; cbn [andb negb].
      - eapply hoare_bind with (S := fun _ => some_intent identity database p (fun es _ => q = true -> es !! t2 = None)).
        + eapply hoare_weaken; [apply (create_intent_spec identity database q p HPN p t1 (fun es _ => q = true -> es !! t2 = None))|..];
            [done|done|done| | | |done].
          * intros es es' db He Hf Hq'. rewrite He by done. by apply Hf.
          * intros es es' db He Hf Hq'. rewrite He by done. by apply Hf.
          * by intros c db [Hw' _].
        + intros []. unfold some_intent. apply hoare_exists. intros i. apply start_rest; [exact Hd|done|right; by eexists|done|exact Hm|exact Hok].
      - eapply hoare_bind with (S := fun _ c db => between identity database p None (fun es _ => q = true -> es !! t2 = None) c db /\ is_Some p).
        + intros w' [[[HJ [Hf _]] Hp] Hq']. split; [|done]. split; [by split|]. by destruct (Hp eq_refl) as [?|[? ?]].
        + intros [] w' [[Hw' Hp] Hq']. apply (start_rest q p None draws false migrate); [exact Hd| |by left|done|exact Hm|exact Hok|by split].
          intros ->. by destruct Hp. }
    apply (Hx w). by split.
Qed.

(** ** Starts *)
(** One start of the process: what it draws, its migration, and how the calls
    of the system go. *)
Record Start := mkStart {
  start_draws : Draws;
  start_migrate : Migration;
  start_faults : list fault;
  start_sizes : list nat
}.

Definition boot (s : Start) (d : Dir) : Dir :=
  mkDir (entries d) (inodes d) (next_inode d) (start_faults s) (start_sizes s) false 0.

Definition start (s : Start) (x : Dir * AgentDb) : (id_exn + string) * (Dir * AgentDb) :=
  let '(r, w) := initialize_instance_id identity database parents (start_draws s) (start_migrate s)
                   (mkIdWorld (boot s x.1) x.2 0) in
  (r, (id_dir w, id_db w)).

(** The identities that a sequence of starts returned, and what it leaves. *)
Fixpoint starts (l : list Start) (x : Dir * AgentDb) : list string * (Dir * AgentDb) :=
  match l with
  | [] => ([], x)
  | s :: l =>
      let '(r, x) := start s x in
      let '(returned, x) := starts l x in
      (match r with inr u => u :: returned | inl _ => returned end, x)
  end.

Definition start_ok (s : Start) : Prop := draws_ok (start_draws s) /\ migration_contract (start_migrate s).

(** Neither file is there, and the database was not set up by this version. *)
Definition never_started (x : Dir * AgentDb) : Prop :=
  (forall name i, entries x.1 !! name = Some i -> (i < next_inode x.1)%positive) /\
  entries x.1 !! P = None /\ entries x.1 !! N = None /\ ~ migrated x.2 /\
  metadata_row BINDING_KEY x.2 = None /\ metadata_row MARKER_KEY x.2 = None.

Definition lawful (p : option (positive * string)) (x : Dir * AgentDb) : Prop :=
  exists n, J identity database p n (core x.1) x.2.

Lemma never_started_lawful x : never_started x -> lawful None x.
Proof.
  intros (Ha & HP & HN & Hm & Hb & Hmk). exists None. refine (conj Ha (conj HP (conj HN (conj _ (conj _ _))))).
  - intros b. by rewrite Hb.
  - by rewrite Hmk.
  - done.
Qed.

Lemma start_lawful s p x : start_ok s -> lawful p x ->
  let '(r, x') := start s x in
  exists p', lawful p' x' /\ kept p p' /\ forall u, r = inr u -> exists i, p' = Some (i, u).
Proof.
  intros [Hd Hm] [n HJ]. unfold start.
  pose proof (initialize_spec false p n (start_draws s) (start_migrate s) Hd Hm (fun E => False_ind _ (diff_false_true E))
    (mkIdWorld (boot s x.1) x.2 0)) as Hi.
  destruct (initialize_instance_id _ _ _ _ _ _) as [[e|u] w].
  - destruct Hi as (_ & p' & n' & Hk & HJ'); [by split|]. exists p'. split; [by exists n'|]. by split.
  - destruct Hi as [(i & Hk & HJ' & _) _]; [by split|]. exists (Some (i, u)). split; [by exists None|].
    split; [done|]. intros ? [= <-]. eauto.
Qed.

Lemma starts_lawful l p x : Forall start_ok l -> lawful p x ->
  let '(returned, x') := starts l x in
  exists p', lawful p' x' /\ kept p p' /\ forall u, u ∈ returned -> exists i, p' = Some (i, u).
Proof.
  revert p x. induction l as [|s l IH]; cbn [starts]; intros p x Hl Hx.
  { exists p. split; [done|]. split; [by intros ? ?|]. by intros u ?%elem_of_nil. }
  apply Forall_cons in Hl as [Hs Hl]. pose proof (start_lawful s p x Hs Hx) as Hst. destruct (start s x) as [r x1].
  destruct Hst as (p1 & Hx1 & Hk1 & Hr1). specialize (IH p1 x1 Hl Hx1). destruct (starts l x1) as [returned x2].
  destruct IH as (p2 & Hx2 & Hk2 & Hr2). exists p2. split; [done|]. split; [intros y Hy; by apply Hk2, Hk1|].
  intros u Hu. destruct r as [e|v]; [by apply Hr2|]. apply elem_of_cons in Hu as [->|Hu]; [|by apply Hr2].
  destruct (Hr1 _ eq_refl) as [i Hi]. exists i. by apply Hk2.
Qed.

(** C37: an instance has one identity.  Starting with neither file, through any
    number of starts, each of which may fail or die in any call of the system or
    of the database: every start that returns returns the same identity. *)
Theorem identity_never_changes l x u v :
  never_started x -> Forall start_ok l -> u ∈ (starts l x).1 -> v ∈ (starts l x).1 -> u = v.
Proof.
  intros Hx Hl Hu Hv. pose proof (starts_lawful l None x Hl (never_started_lawful x Hx)) as Hs.
  destruct (starts l x) as [returned x']. destruct Hs as (p & _ & _ & Hr).
  destruct (Hr _ Hu) as [i Hi], (Hr _ Hv) as [j Hj]. congruence.
Qed.

(** C38: a first start can always be repeated.  Whatever starts failed or died
    before it and wherever, a start whose calls work returns an identity, leaves
    the database marked and the intent removed. *)
Theorem identity_start_recovers l x s :
  never_started x -> Forall start_ok l -> start_ok s ->
  start_faults s = [] -> start_sizes s = [] -> (forall db, (start_migrate s db).1 = true) ->
  Forall (fun t => entries (starts l x).2.1 !! t = None) (temporaries (start_draws s)) ->
  exists u, (start s (starts l x).2).1 = inr u /\
    metadata_row MARKER_KEY (start s (starts l x).2).2.2 = Some "initialized" /\
    entries (start s (starts l x).2).2.1 !! N = None.
Proof.
  intros Hx Hl [Hd Hm] Hf Hz Hok Hfree. pose proof (starts_lawful l None x Hl (never_started_lawful x Hx)) as Hs.
  destruct (starts l x) as [returned x']. destruct Hs as (p & [n HJ] & _). cbn [snd] in *. unfold start.
  pose proof (initialize_spec true p n (start_draws s) (start_migrate s) Hd Hm (fun _ => Hok)
    (mkIdWorld (boot s x'.1) x'.2 0)) as Hi.
  assert (Hh : holds true (between identity database p n (fun es _ => true = true -> Forall (fun t => es !! t = None) (temporaries (start_draws s))))
    (mkIdWorld (boot s x'.1) x'.2 0)).
  { split; [split; [exact HJ|by intros _]|]. intros _. unfold calm_dir, boot. cbn. by rewrite Hf, Hz. }
  specialize (Hi Hh). destruct (initialize_instance_id _ _ _ _ _ _) as [[e|u] w]; [by destruct Hi|].
  destruct Hi as [(i & _ & (_ & _ & HN & _) & Hmk) _]. exists u. done.
Qed.
End Identity.

(** ** Concrete starts *)
#[local] Instance some_floats : FloatText := {| float_repr := fun _ => "0.5" |}.

Definition agent_identity : Path := mkPath "/var/lib/agent" "identity".
Definition agent_database : Path := mkPath "/var/lib/agent" "agent.db".

Definition draws_a : Draws := mkDraws "a1" "a2" "00000000-0000-4000-8000-00000000000a".
Definition draws_b : Draws := mkDraws "b1" "b2" "00000000-0000-4000-8000-00000000000b".

(** Sets up the tables. *)
Definition set_up : Migration := fun db =>
  (true, mkAgentDb true (Some ["0004_manager_credentials"]) (Some (default ∅ (adb_metadata db)))).

Definition empty_home : Dir * AgentDb := (mkDir ∅ ∅ 1 [] [] false 0, mkAgentDb false None None).

Definition starting := start agent_identity agent_database 1.

(** Dies during the [n]-th call. *)
Definition dies_at (n : nat) : Start := mkStart draws_a set_up (repeat Works n ++ [Crashes]) [].
Definition works : Start := mkStart draws_b set_up [] [].

Lemma set_up_contract : migration_contract set_up.
Proof. intros [nonempty versions [rows|]]; split; cbn; try (intros ?; by eexists); done. Qed.

(** Only the database knows of the identity: its file was lost. *)
Definition lose_identity (x : Dir * AgentDb) : Dir * AgentDb :=
  (mkDir (delete (path_text agent_identity) (entries x.1)) (inodes x.1) (next_inode x.1) [] [] false 0, x.2).

Definition start_checks (s : Start) : bool :=
  is_canonical_uuid (draw_identity (start_draws s)) &&
  bool_decide (NoDup (path_text agent_identity :: intent_path agent_database :: temporaries agent_identity agent_database (start_draws s))).

Lemma start_checks_ok s : start_checks s = true -> start_migrate s = set_up -> start_ok agent_identity agent_database s.
Proof.
  intros [Hu Hn]%andb_true_iff Hm. split; [split; [done|by apply bool_decide_eq_true in Hn]|].
  rewrite Hm. apply set_up_contract.
Qed.

Lemma empty_home_fresh : never_started agent_identity agent_database empty_home.
Proof. repeat split; try done. intros [v Hv]. by destruct Hv. Qed.

(** A start that died before the identity was there, then two that worked; the
    second of them drew another identity and did not use it. *)
Lemma identity_never_changes_witness :
  let l := [dies_at 10; works; dies_at 30] in
  (starts agent_identity agent_database 1 l empty_home).1 =
    ["00000000-0000-4000-8000-00000000000b"; "00000000-0000-4000-8000-00000000000b"] /\
  forall u v, u ∈ (starts agent_identity agent_database 1 l empty_home).1 ->
    v ∈ (starts agent_identity agent_database 1 l empty_home).1 -> u = v.
Proof.
  intros l. split; [vm_compute; reflexivity|]. intros u v.
  apply (identity_never_changes agent_identity agent_database 1 l empty_home u v); [exact empty_home_fresh|].
  repeat (apply Forall_cons_2; [apply start_checks_ok; vm_compute; reflexivity|]). apply Forall_nil_2.
Defined.

(** A start that died after the intent was written. *)
Lemma identity_start_recovers_witness :
  (starting (dies_at 10) empty_home).1 = inl IdDied /\
  exists u, (starting works (starts agent_identity agent_database 1 [dies_at 10] empty_home).2).1 = inr u.
Proof.
  split; [vm_compute; reflexivity|].
  destruct (identity_start_recovers agent_identity agent_database 1 [dies_at 10] empty_home works) as (u & Hu & _);
    [exact empty_home_fresh|apply Forall_cons_2; [apply start_checks_ok; vm_compute; reflexivity|apply Forall_nil_2]
    |apply start_checks_ok; vm_compute; reflexivity|reflexivity|reflexivity|reflexivity| |].
  - repeat (apply Forall_cons_2; [vm_compute; reflexivity|]). apply Forall_nil_2.
  - exists u. exact Hu.
Defined.

(** A started instance whose identity file was lost does not get a new one. *)
Example lost_identity_refused :
  let x := lose_identity (starting works empty_home).2 in
  (starting works x).1 = inl (IdentityError false) /\
  entries (starting works x).2.1 !! path_text agent_identity = None.
Proof. vm_compute. by split. Qed.
