(* ===== verification/RateLimit.v ===== *)
(** * The limit on login attempts

    [LoginRateLimiter] of [src/backend/ic_env_guard/auth/rate_limit.py]: a token
    bucket per source address, in an [OrderedDict] that forgets the source that
    has been quiet longest.  Its arithmetic is that of double-precision floats,
    rounding included; the theorems say what the limit is in spite of it. *)

From stdpp Require Import base tactics list strings sorting.
From Stdlib Require Import ZArith Lia.
From S2P Require Import Prelude.

Local Open Scope Z_scope.

(** ** Doubles *)
(** A finite double is a whole number of 2^-1074.  The results below are too
    small to overflow, but for [elapsed / refill_seconds]; there the bucket is
    full, with an infinity as with a large number. *)
Definition ONE : Z := 2 ^ 1074.

(** The quotient [n / d] of naturals, to the nearest whole number, ties to even. *)
Definition nearest (n d : Z) : Z :=
  match 2 * (n mod d) ?= d with
  | Lt => n / d
  | Gt => n / d + 1
  | Eq => if Z.even (n / d) then n / d else n / d + 1
  end.

(** The last of the 53 bits of a number has this exponent. *)
Definition last_bit (q : Z) : Z := Z.max 0 (Z.log2 q - 52).

(** The double next to the natural [n / d]. *)
Definition round (n d : Z) : Z :=
  let e := last_bit (n / d) in nearest n (d * 2 ^ e) * 2 ^ e.

Definition float_of_int (n : Z) : Z := round (n * ONE) 1.

Definition float_add (x y : Z) : Z := round (x + y) 1.

Definition float_sub (x y : Z) : Z := if x <? y then - round (y - x) 1 else round (x - y) 1.

Definition float_div (x y : Z) : Z := round (x * ONE) y.

(** ** The limiter *)
Record Bucket := mkBucket { bucket_tokens : Z; bucket_updated_at : Z }.

(** The buckets with their sources, the longest quiet first. *)
Record LoginRateLimiter := mkLimiter {
  rl_capacity : Z;
  rl_refill_seconds : Z;
  rl_max_sources : Z;
  rl_buckets : list (string * Bucket)
}.

(** [None] is [ValueError]. *)
Definition new_limiter (capacity refill_seconds max_sources : Z) : option LoginRateLimiter :=
  if (capacity <? 1) || (refill_seconds <=? 0) || (max_sources <? 1) then None
  else Some (mkLimiter capacity refill_seconds max_sources []).

Fixpoint bucket_of (source : string) (buckets : list (string * Bucket)) : option Bucket :=
  match buckets with
  | [] => None
  | (s, b) :: rest => if bool_decide (s = source) then Some b else bucket_of source rest
  end.

Definition without (source : string) (buckets : list (string * Bucket)) : list (string * Bucket) :=
  filter (fun kb => kb.1 <> source) buckets.

Definition refilled (l : LoginRateLimiter) (now : Z) (b : Bucket) : Z :=
  let elapsed := Z.max 0 (float_sub now (bucket_updated_at b)) in
  Z.min (float_of_int (rl_capacity l)) (float_add (bucket_tokens b) (float_div elapsed (rl_refill_seconds l))).

Definition allow (source : string) (now : Z) (l : LoginRateLimiter) : bool * LoginRateLimiter :=
  let '(tokens, others) :=
    match bucket_of source (rl_buckets l) with
    | None => (float_of_int (rl_capacity l),
               if rl_max_sources l <=? Z.of_nat (length (rl_buckets l)) then tail (rl_buckets l) else rl_buckets l)
    | Some b => (refilled l now b, without source (rl_buckets l))
    end in
  let keep tokens := mkLimiter (rl_capacity l) (rl_refill_seconds l) (rl_max_sources l)
                       (others ++ [(source, mkBucket tokens now)]) in
  if tokens <? ONE then (false, keep tokens) else (true, keep (float_sub tokens ONE)).

(** ** What rounding does *)
Lemma one_large : 2 ^ 100 < ONE.
Proof. unfold ONE. by apply Z.pow_lt_mono_r. Qed.

#[local] Opaque ONE.

Lemma nearest_spec n d : 0 <= n -> 0 < d ->
  2 * Z.abs (nearest n d * d - n) <= d /\ n / d <= nearest n d.
Proof.
  intros Hn Hd. unfold nearest. pose proof (Z.div_mod n d ltac:(lia)) as E.
  pose proof (Z.mod_pos_bound n d Hd) as Hm. set (q := n / d) in *. set (r := n mod d) in *. clearbody q r.
  destruct (Z.compare_spec (2 * r) d); [destruct (Z.even q)|..]; split; nia.
Qed.

Lemma last_bit_spec q : 0 <= q -> 0 <= last_bit q /\ (last_bit q = 0 \/ 2 ^ 52 * 2 ^ last_bit q <= q).
Proof.
  intros Hq. unfold last_bit. split; [lia|]. destruct (Z.max_spec 0 (Z.log2 q - 52)) as [[H1 ->]|[H1 ->]]; [right|by left].
  rewrite <- Z.pow_add_r by lia. replace (52 + (Z.log2 q - 52)) with (Z.log2 q) by lia.
  apply Z.log2_spec. destruct (decide (q = 0)) as [->|]; [|lia]. done.
Qed.

Lemma round_nonneg n d : 0 <= n -> 0 < d -> 0 <= round n d.
Proof.
  intros Hn Hd. unfold round. set (e := last_bit _). assert (0 < 2 ^ e) by (apply Z.pow_pos_nonneg; [lia|unfold e, last_bit; lia]).
  destruct (nearest_spec n (d * 2 ^ e)) as [_ Hq]; [lia|nia|]. assert (0 <= n / (d * 2 ^ e)) by (apply Z.div_pos; nia). nia.
Qed.

(** The relative error is at most 2^-53, the absolute error of a quotient half a
    unit at least. *)
Lemma round_error n d : 0 <= n -> 0 < d -> 2 ^ 53 * Z.abs (round n d * d - n) <= n + 2 ^ 52 * d.
Proof.
  intros Hn Hd. unfold round. destruct (last_bit_spec (n / d)) as [He Hb]; [by apply Z.div_pos|].
  set (e := last_bit _) in *. assert (Hp : 0 < 2 ^ e) by (by apply Z.pow_pos_nonneg).
  destruct (nearest_spec n (d * 2 ^ e)) as [Hr _]; [lia|nia|]. set (k := nearest _ _) in *.
  replace (k * 2 ^ e * d - n) with (k * (d * 2 ^ e) - n) by lia. destruct Hb as [E|Hb].
  - rewrite E in *. change (2 ^ 0) with 1 in *. lia.
  - pose proof (Z.mul_div_le n d Hd) as Hq. assert (d * (2 ^ 52 * 2 ^ e) <= n) by nia. lia.
Qed.

Lemma round_whole n : 0 <= n -> 2 ^ 53 * Z.abs (round n 1 - n) <= n.
Proof.
  intros Hn. unfold round. rewrite Z.div_1_r, Z.mul_1_l. destruct (last_bit_spec n Hn) as [He Hb].
  set (e := last_bit _) in *. assert (Hp : 0 < 2 ^ e) by (by apply Z.pow_pos_nonneg).
  destruct (nearest_spec n (2 ^ e)) as [Hr _]; [lia..|]. set (k := nearest _ _) in *. destruct Hb as [E|Hb].
  - rewrite E in *. change (2 ^ 0) with 1 in *. lia.
  - lia.
Qed.

(** A double, and rounding up to one. *)
Definition is_double (f : Z) : Prop := exists m e, 0 <= m < 2 ^ 53 /\ 0 <= e /\ f = m * 2 ^ e.

Lemma double_below_round f n d : 0 <= n -> 0 < d -> is_double f -> f * d <= n -> f <= round n d.
Proof.
  intros Hn Hd (m & k & Hm & Hk & ->) Hf. unfold round.
  assert (Hq0 : 0 <= n / d) by (by apply Z.div_pos). destruct (last_bit_spec (n / d) Hq0) as [He Hb].
  set (e := last_bit _) in *. assert (Hp : 0 < 2 ^ e) by (by apply Z.pow_pos_nonneg).
  destruct (nearest_spec n (d * 2 ^ e)) as [_ Hr]; [lia|nia|].
  enough (m * 2 ^ k <= n / (d * 2 ^ e) * 2 ^ e) by nia. rewrite <- Z.div_div by lia.
  assert (Hfq : m * 2 ^ k <= n / d) by (apply Z.div_le_lower_bound; lia).
  destruct (Z.le_gt_cases e k) as [Hek|Hek].
  - replace k with (k - e + e) in * by lia. rewrite Z.pow_add_r in * by lia. rewrite Z.mul_assoc in *.
    apply Z.mul_le_mono_nonneg_r; [lia|]. apply Z.div_le_lower_bound; [done|]. lia.
  - destruct Hb as [E|Hb]; [lia|]. assert (Hke : 2 ^ k * 2 <= 2 ^ e).
    { rewrite Z.mul_comm, <- Z.pow_succ_r by done. apply Z.pow_le_mono_r; lia. }
    assert (2 ^ 52 <= n / d / 2 ^ e) by (apply Z.div_le_lower_bound; lia). nia.
Qed.

Lemma whole_double c : 0 <= c < 2 ^ 53 -> is_double (c * ONE).
Proof. intros Hc. exists c, 1074. split; [done|]. split; [done|]. Transparent ONE. done. Qed.
#[local] Opaque ONE.

Lemma round_double f : is_double f -> round f 1 = f.
Proof.
  intros (m & k & Hm & Hk & ->). assert (Hp : 0 < 2 ^ k) by (by apply Z.pow_pos_nonneg).
  unfold round. rewrite Z.div_1_r, Z.mul_1_l. set (e := last_bit _).
  assert (He : 0 <= e <= k).
  { unfold e, last_bit. split; [lia|]. apply Z.max_lub; [done|]. destruct (decide (m = 0)) as [->|Hm0]; [rewrite Z.log2_nonpos; lia|].
    assert (Z.log2 (m * 2 ^ k) < 53 + k); [|lia]. apply Z.log2_lt_pow2; [nia|]. rewrite Z.pow_add_r by lia. nia. }
  assert (Hpe : 0 < 2 ^ e) by (apply Z.pow_pos_nonneg; lia).
  replace (2 ^ k) with (2 ^ (k - e) * 2 ^ e) by (rewrite <- Z.pow_add_r by lia; f_equal; lia).
  rewrite Z.mul_assoc. set (x := m * 2 ^ (k - e)). unfold nearest. rewrite Z.mod_mul, Z.div_mul by lia.
  by replace (2 * 0 ?= 2 ^ e) with Lt by (symmetry; apply Z.compare_lt_iff; lia).
Qed.

Lemma round_0 d : 0 < d -> round 0 d = 0.
Proof.
  intros Hd. unfold round, nearest. rewrite Z.div_0_l by lia. change (2 ^ last_bit 0) with 1.
  rewrite !Z.mul_1_r, Z.mod_0_l, Z.div_0_l by lia. by destruct (Z.compare_spec (2 * 0) d); [|..|lia].
Qed.

Lemma float_of_int_exact c : 0 <= c < 2 ^ 53 -> float_of_int c = c * ONE.
Proof. intros Hc. by apply round_double, whole_double. Qed.

(** ** The buckets *)
Record limiter_wf (l : LoginRateLimiter) : Prop := {
  wf_capacity : 1 <= rl_capacity l <= 2 ^ 20;
  wf_refill : 0 < rl_refill_seconds l;
  wf_sources : 1 <= rl_max_sources l;
  wf_keys : NoDup (rl_buckets l).*1;
  wf_size : Z.of_nat (length (rl_buckets l)) <= rl_max_sources l;
  wf_tokens : Forall (fun kb => 0 <= bucket_tokens kb.2 <= rl_capacity l * ONE) (rl_buckets l)
}.

Lemma new_limiter_wf capacity refill_seconds max_sources l :
  capacity <= 2 ^ 20 -> new_limiter capacity refill_seconds max_sources = Some l -> limiter_wf l.
Proof.
  intros Hc. unfold new_limiter. destruct (_ || _) eqn:E; [done|]. intros [= <-].
  rewrite !orb_false_iff, Z.leb_gt, !Z.ltb_ge in E. split; cbn; try lia; constructor.
Qed.

Lemma new_limiter_fields capacity refill_seconds max_sources l :
  new_limiter capacity refill_seconds max_sources = Some l -> l = mkLimiter capacity refill_seconds max_sources [].
Proof. unfold new_limiter. destruct (_ || _); [done|]. by intros [= <-]. Qed.

Lemma without_spec source s b buckets : (s, b) ∈ without source buckets <-> (s, b) ∈ buckets /\ s <> source.
Proof. unfold without. rewrite list_elem_of_filter. naive_solver. Qed.

Lemma without_keys source buckets : NoDup buckets.*1 -> NoDup (without source buckets).*1 /\ source ∉ (without source buckets).*1.
Proof.
  intros Hn. split.
  - eapply sublist_NoDup; [exact Hn|]. apply fmap_sublist, sublist_filter.
  - rewrite list_elem_of_fmap. intros ([s b] & -> & Hs). by apply without_spec in Hs as [_ []].
Qed.

Lemma bucket_of_elem source buckets b : NoDup buckets.*1 ->
  bucket_of source buckets = Some b <-> (source, b) ∈ buckets.
Proof.
  induction buckets as [|[s c] rest IH]; cbn; intros Hn; [split; [done|]; by intros ?%elem_of_nil|].
  apply NoDup_cons in Hn as [Hs Hn]. rewrite elem_of_cons. destruct (bool_decide_reflect (s = source)) as [->|Hne].
  - split; [intros [= ->]; by left|]. intros [[= ->]|Hin]; [done|]. destruct Hs. apply list_elem_of_fmap. by exists (source, b).
  - rewrite IH by done. naive_solver.
Qed.

Lemma bucket_of_tokens source l b : limiter_wf l -> bucket_of source (rl_buckets l) = Some b ->
  0 <= bucket_tokens b <= rl_capacity l * ONE.
Proof.
  intros W Hb. apply bucket_of_elem in Hb; [|apply W]. pose proof (wf_tokens _ W) as Ht. rewrite Forall_forall in Ht. apply (Ht _ Hb).
Qed.

Lemma bucket_of_none source buckets : bucket_of source buckets = None <-> source ∉ buckets.*1.
Proof.
  induction buckets as [|[s c] rest IH]; cbn; [split; [intros _ ?%elem_of_nil|]; done|].
  rewrite elem_of_cons. destruct (bool_decide_reflect (s = source)) as [->|Hne]; [naive_solver|]. rewrite IH. naive_solver.
Qed.

(** The bucket before a token is taken out. *)
Lemma refilled_range l now b : limiter_wf l -> 0 <= bucket_tokens b -> 0 <= refilled l now b <= rl_capacity l * ONE.
Proof.
  intros W Hb. pose proof (wf_capacity _ W). pose proof (wf_refill _ W). pose proof one_large. unfold refilled.
  rewrite float_of_int_exact by lia. set (el := Z.max 0 _). assert (Hel : 0 <= el) by lia.
  assert (0 <= float_div el (rl_refill_seconds l)) by (apply round_nonneg; nia).
  assert (0 <= float_add (bucket_tokens b) (float_div el (rl_refill_seconds l))) by (apply round_nonneg; lia). nia.
Qed.

Lemma float_sub_nonneg x y : y <= x -> float_sub x y = round (x - y) 1.
Proof. intros Hxy. unfold float_sub. by rewrite (proj2 (Z.ltb_ge x y) Hxy). Qed.

(** What a refill adds, up to rounding. *)
Lemma refilled_bound l now b : limiter_wf l -> 0 <= bucket_tokens b <= rl_capacity l * ONE -> bucket_updated_at b <= now ->
  2 ^ 52 * rl_refill_seconds l * refilled l now b <=
  2 ^ 52 * rl_refill_seconds l * bucket_tokens b + rl_refill_seconds l * (rl_capacity l * ONE + 2 ^ 52) +
  (2 ^ 52 + 2) * (now - bucket_updated_at b) * ONE.
Proof.
  intros W Hb Hnow. pose proof (wf_capacity _ W) as Hc. pose proof (wf_refill _ W) as HR. pose proof one_large as H1.
  unfold refilled. rewrite float_sub_nonneg by done. set (R := rl_refill_seconds l) in *. set (t := bucket_tokens b) in *.
  set (D := now - bucket_updated_at b) in *. assert (HD : 0 <= D) by lia.
  pose proof (round_whole D HD) as E1. pose proof (round_nonneg D 1 HD) as P1. rewrite Z.max_r by lia.
  set (el := round D 1) in *. unfold float_div.
  pose proof (round_error (el * ONE) R ltac:(nia) HR) as E2. pose proof (round_nonneg (el * ONE) R ltac:(nia) HR) as P2.
  set (a := round (el * ONE) R) in *. unfold float_add.
  pose proof (round_whole (t + a) ltac:(lia)) as E3. set (f := round (t + a) 1) in *.
  assert (Hf : Z.min (float_of_int (rl_capacity l)) f <= f) by lia. set (m := Z.min _ f) in *. clearbody m el a f D R t.
  assert (2 ^ 53 * (el * ONE) <= (2 ^ 53 + 1) * (D * ONE)) by nia.
  assert (2 ^ 53 * (R * f) <= (2 ^ 53 + 1) * (R * t + R * a)) by nia.
  assert (R * t <= R * (rl_capacity l * ONE)) by nia. assert (R * m <= R * f) by nia. assert (0 <= D * ONE) by nia.
  replace (2 ^ 52 * R * m) with (2 ^ 52 * (R * m)) by lia. replace (2 ^ 52 * R * t) with (2 ^ 52 * (R * t)) by lia.
  replace ((2 ^ 52 + 2) * D * ONE) with ((2 ^ 52 + 2) * (D * ONE)) by lia. lia.
Qed.

(** A token is taken out, up to rounding. *)
Lemma taken_bound l t : limiter_wf l -> ONE <= t <= rl_capacity l * ONE ->
  0 <= float_sub t ONE <= rl_capacity l * ONE /\
  2 ^ 53 * (float_sub t ONE + ONE) <= 2 ^ 53 * t + rl_capacity l * ONE.
Proof.
  intros W Ht. pose proof one_large. pose proof (wf_capacity _ W).
  assert (rl_capacity l * ONE <= 2 ^ 20 * ONE) by nia. rewrite float_sub_nonneg by lia.
  pose proof (round_whole (t - ONE) ltac:(lia)) as E. pose proof (round_nonneg (t - ONE) 1 ltac:(lia)) as P. lia.
Qed.

(** ** One call *)
Lemma allow_config source now l :
  let l' := (allow source now l).2 in
  rl_capacity l' = rl_capacity l /\ rl_refill_seconds l' = rl_refill_seconds l /\ rl_max_sources l' = rl_max_sources l.
Proof. unfold allow. destruct (bucket_of _ _); by destruct (_ <? ONE). Qed.

(** What remains of the other buckets. *)
Definition others (source : string) (l : LoginRateLimiter) : list (string * Bucket) :=
  match bucket_of source (rl_buckets l) with
  | None => if rl_max_sources l <=? Z.of_nat (length (rl_buckets l)) then tail (rl_buckets l) else rl_buckets l
  | Some _ => without source (rl_buckets l)
  end.

Definition available (source : string) (now : Z) (l : LoginRateLimiter) : Z :=
  from_option (refilled l now) (float_of_int (rl_capacity l)) (bucket_of source (rl_buckets l)).

Lemma allow_shape source now l :
  let t := available source now l in
  allow source now l =
    (negb (t <? ONE),
     mkLimiter (rl_capacity l) (rl_refill_seconds l) (rl_max_sources l)
       (others source l ++ [(source, mkBucket (if t <? ONE then t else float_sub t ONE) now)])).
Proof. unfold allow, others, available. destruct (bucket_of _ _); cbn [from_option]; by destruct (_ <? ONE). Qed.

Lemma available_range source now l : limiter_wf l -> 0 <= available source now l <= rl_capacity l * ONE.
Proof.
  intros W. unfold available. destruct (bucket_of _ _) as [b|] eqn:Eb; cbn [from_option].
  - apply refilled_range; [done|]. apply (bucket_of_tokens source l b W Eb).
  - pose proof (wf_capacity _ W). pose proof one_large. rewrite float_of_int_exact by lia. nia.
Qed.

Lemma others_sublist source l : others source l `sublist_of` rl_buckets l.
Proof.
  unfold others. destruct (bucket_of _ _); [apply sublist_filter|]. destruct (_ <=? _); [|done].
  destruct (rl_buckets l); [done|]. by apply sublist_cons.
Qed.

Lemma others_fresh source l : limiter_wf l ->
  (source ∉ (others source l).*1) /\ Z.of_nat (length (others source l)) < rl_max_sources l.
Proof.
  intros W. pose proof (wf_size _ W). pose proof (wf_sources _ W). pose proof (wf_keys _ W) as Hk. unfold others.
  destruct (bucket_of _ _) as [b|] eqn:Eb.
  - split; [by apply without_keys|]. apply bucket_of_elem in Eb; [|done].
    assert (length (without source (rl_buckets l)) < length (rl_buckets l))%nat; [|lia].
    apply (length_filter_lt _ _ (source, b)); [done|]. cbn. tauto.
  - apply bucket_of_none in Eb. destruct (Z.leb_spec (rl_max_sources l) (Z.of_nat (length (rl_buckets l)))); [|by split].
    destruct (rl_buckets l) as [|x rest]; cbn in *; [split; [done|lia]|]. split; [|lia]. intros Hs. apply Eb. by right.
Qed.

Lemma allow_wf source now l : limiter_wf l -> limiter_wf (allow source now l).2.
Proof.
  intros W. rewrite allow_shape. cbn [snd]. destruct (others_fresh source l W) as [Hs Hn].
  pose proof (others_sublist source l) as Hl. pose proof (available_range source now l W) as Ht.
  destruct W as [Hc HR Hm Hk Hz Htk]. split; cbn [rl_capacity rl_refill_seconds rl_max_sources rl_buckets]; [done..| | |].
  - rewrite fmap_app. apply NoDup_app. split; [eapply sublist_NoDup; [exact Hk|by apply fmap_sublist]|].
    split; [|apply NoDup_singleton]. intros x Hx. cbn. rewrite list_elem_of_singleton. by intros ->.
  - rewrite length_app. cbn. lia.
  - apply Forall_app. split.
    { apply Forall_forall. intros x Hx. rewrite Forall_forall in Htk. apply Htk. by apply (elem_of_sublist _ _ _ Hx Hl). }
    apply Forall_singleton. cbn.
    destruct (Z.ltb_spec (available source now l) ONE); [done|]. apply taken_bound; [by split|lia].
Qed.

(** The bucket of the caller after the call. *)
Definition left_over (source : string) (now : Z) (l : LoginRateLimiter) : Z :=
  let t := available source now l in if t <? ONE then t else float_sub t ONE.

Lemma allow_own source now l : limiter_wf l ->
  bucket_of source (rl_buckets (allow source now l).2) = Some (mkBucket (left_over source now l) now).
Proof.
  intros W. pose proof (allow_wf source now l W) as W'. apply bucket_of_elem; [apply W'|].
  rewrite allow_shape. cbn. apply elem_of_app. right. by apply list_elem_of_singleton.
Qed.

(** The limiter has room for the sources that call. *)
Definition roomy (callers : list string) (l : LoginRateLimiter) : Prop :=
  Z.of_nat (length callers) <= rl_max_sources l /\ (rl_buckets l).*1 ⊆ callers.

Lemma allow_roomy callers source now l : limiter_wf l -> source ∈ callers -> roomy callers l -> roomy callers (allow source now l).2.
Proof.
  intros W Hs [Hn Hk]. rewrite allow_shape. split; cbn [snd rl_max_sources rl_buckets]; [done|]. rewrite fmap_app. intros x.
  rewrite elem_of_app. cbn. rewrite list_elem_of_singleton. intros [Hx| ->]; [|done]. apply Hk.
  eapply elem_of_sublist; [exact Hx|]. apply fmap_sublist, others_sublist.
Qed.

Lemma allow_other callers s source now l b : limiter_wf l -> source ∈ callers -> roomy callers l -> s <> source ->
  bucket_of s (rl_buckets l) = Some b -> bucket_of s (rl_buckets (allow source now l).2) = Some b.
Proof.
  intros W Hs [Hn Hk] Hne Hb. pose proof (allow_wf source now l W) as W'. apply bucket_of_elem in Hb; [|apply W].
  apply bucket_of_elem; [apply W'|]. rewrite allow_shape. cbn. apply elem_of_app. left. unfold others.
  destruct (bucket_of source _) eqn:Es; [by apply without_spec|]. apply bucket_of_none in Es.
  assert (length (rl_buckets l) < length callers)%nat; [|by rewrite (proj2 (Z.leb_gt _ _)) by lia].
  assert (Hsub : source :: (rl_buckets l).*1 ⊆+ callers).
  { apply NoDup_submseteq; [by apply NoDup_cons; split; [|apply W]|]. intros x [->|Hx]%elem_of_cons; [done|by apply Hk]. }
  apply submseteq_length in Hsub. cbn in Hsub. by rewrite length_fmap in Hsub.
Qed.

(** ** The account of a source *)
(** What a call lets through and leaves is covered by what was there, the time
    that passed and a little rounding. *)
Lemma call_account source now l b : limiter_wf l -> bucket_of source (rl_buckets l) = Some b -> bucket_updated_at b <= now ->
  2 ^ 51 * rl_refill_seconds l * (left_over source now l + (if (allow source now l).1 then ONE else 0)) <=
  2 ^ 51 * rl_refill_seconds l * bucket_tokens b + rl_refill_seconds l * (rl_capacity l * ONE + 2 ^ 51) +
  (2 ^ 51 + 1) * (now - bucket_updated_at b) * ONE.
Proof.
  intros W Hb Hnow. pose proof (wf_capacity _ W). pose proof (wf_refill _ W) as HR. pose proof one_large.
  pose proof (available_range source now l W) as Hr. rewrite allow_shape. cbn [fst]. unfold left_over.
  pose proof (bucket_of_tokens source l b W Hb) as Ht.
  pose proof (refilled_bound l now b W Ht Hnow) as Hf.
  assert (E : available source now l = refilled l now b) by (unfold available; by rewrite Hb). rewrite <- E in Hf.
  set (t := available source now l) in *. set (R := rl_refill_seconds l) in *. set (C := rl_capacity l * ONE) in *.
  set (D := now - bucket_updated_at b) in *. set (k := bucket_tokens b) in *. assert (0 <= C) by nia.
  assert (Hl : 2 ^ 53 * ((if t <? ONE then t else float_sub t ONE) + (if negb (t <? ONE) then ONE else 0)) <= 2 ^ 53 * t + C).
  { destruct (Z.ltb_spec t ONE); cbn [negb]; [lia|]. apply taken_bound; [done|lia]. }
  set (x := (if t <? ONE then t else _) + _) in *. clearbody x t R C D k. assert (R * (2 ^ 53 * x) <= R * (2 ^ 53 * t + C)) by (apply Z.mul_le_mono_nonneg_l; lia).
  assert (0 <= R * C) by nia. lia.
Qed.

(** A source that calls for the first time. *)
Lemma first_account source now l : limiter_wf l -> bucket_of source (rl_buckets l) = None ->
  left_over source now l + (if (allow source now l).1 then ONE else 0) <= rl_capacity l * ONE.
Proof.
  intros W Hb. pose proof (wf_capacity _ W). pose proof one_large. rewrite allow_shape. cbn [fst]. unfold left_over, available.
  rewrite Hb. cbn [from_option]. rewrite float_of_int_exact by lia. destruct (Z.ltb_spec (rl_capacity l * ONE) ONE) as [|Hle]; [nia|].
  cbn [negb]. rewrite float_sub_nonneg by done. replace (rl_capacity l * ONE - ONE) with ((rl_capacity l - 1) * ONE) by lia.
  rewrite round_double by (apply whole_double; lia). lia.
Qed.

(** ** Sequences of calls *)
Fixpoint admitted (s : string) (calls : list (string * Z)) (l : LoginRateLimiter) : Z :=
  match calls with
  | [] => 0
  | (source, now) :: calls =>
      (if (allow source now l).1 && bool_decide (source = s) then 1 else 0) + admitted s calls (allow source now l).2
  end.

Lemma admitted_present callers s calls l b T :
  limiter_wf l -> roomy callers l -> bucket_of s (rl_buckets l) = Some b ->
  Forall (fun c => c.1 ∈ callers /\ bucket_updated_at b <= c.2 <= T) calls -> StronglySorted Z.le calls.*2 -> bucket_updated_at b <= T ->
  2 ^ 51 * rl_refill_seconds l * ONE * admitted s calls l <=
  2 ^ 51 * rl_refill_seconds l * bucket_tokens b +
  Z.of_nat (length calls) * (rl_refill_seconds l * (rl_capacity l * ONE + 2 ^ 51)) +
  (2 ^ 51 + 1) * (T - bucket_updated_at b) * ONE.
Proof.
  revert l b. induction calls as [|[source now] calls IH]; intros l b W Hroom Hb Hc Hs HT; cbn [admitted].
  all: pose proof (wf_capacity _ W) as Hcap; pose proof (wf_refill _ W) as HR; pose proof one_large as H1.
  - pose proof (bucket_of_tokens s l b W Hb). nia.
  - apply Forall_cons in Hc as [[Hsrc Hnow] Hc]. cbn [fst snd] in *. inversion Hs as [|? ? Hs' Hle]. subst.
    destruct (allow_config source now l) as (Ec & ER & _). set (l' := (allow source now l).2) in *.
    assert (W' : limiter_wf l') by by apply allow_wf. assert (Hroom' : roomy callers l') by by apply allow_roomy.
    rewrite length_cons, Nat2Z.inj_succ. assert (0 <= rl_refill_seconds l * (rl_capacity l * ONE + 2 ^ 51)) by nia.
    destruct (bool_decide_reflect (source = s)) as [->|Hne]; rewrite ?andb_true_r, ?andb_false_r.
    + pose proof (call_account s now l b W Hb ltac:(lia)) as Ha. pose proof (allow_own s now l W) as Ho.
      specialize (IH l' _ W' Hroom' Ho). cbn [bucket_updated_at bucket_tokens] in IH. rewrite Ec, ER in IH.
      assert (Hf : Forall (fun c => c.1 ∈ callers /\ now <= c.2 <= T) calls).
      { rewrite Forall_fmap in Hle. rewrite Forall_forall in *. intros c Hin. specialize (Hc c Hin). specialize (Hle c Hin). cbn in Hle. naive_solver lia. }
      specialize (IH Hf Hs' ltac:(lia)). destruct (allow s now l).1; lia.
    + pose proof (allow_other callers s source now l b W Hsrc Hroom (not_eq_sym Hne) Hb) as Ho.
      specialize (IH l' b W' Hroom' Ho Hc Hs' HT). rewrite Ec, ER in IH. lia.
Qed.

Lemma allow_absent s source now l : s <> source -> bucket_of s (rl_buckets l) = None ->
  bucket_of s (rl_buckets (allow source now l).2) = None.
Proof.
  rewrite !bucket_of_none, allow_shape. cbn. intros Hne Hs. rewrite fmap_app, elem_of_app. cbn. rewrite list_elem_of_singleton.
  intros [Hx| ->]; [|done]. apply Hs. eapply elem_of_sublist; [exact Hx|]. apply fmap_sublist, others_sublist.
Qed.

Lemma admitted_absent callers s calls l t T :
  limiter_wf l -> roomy callers l -> bucket_of s (rl_buckets l) = None ->
  Forall (fun c => c.1 ∈ callers /\ t <= c.2 <= T) calls -> StronglySorted Z.le calls.*2 -> t <= T ->
  2 ^ 51 * rl_refill_seconds l * ONE * admitted s calls l <=
  2 ^ 51 * rl_refill_seconds l * (rl_capacity l * ONE) +
  Z.of_nat (length calls) * (rl_refill_seconds l * (rl_capacity l * ONE + 2 ^ 51)) + (2 ^ 51 + 1) * (T - t) * ONE.
Proof.
  revert l. induction calls as [|[source now] calls IH]; intros l W Hroom Hb Hc Hs HT; cbn [admitted].
  all: pose proof (wf_capacity _ W) as Hcap; pose proof (wf_refill _ W) as HR; pose proof one_large as H1.
  - nia.
  - apply Forall_cons in Hc as [[Hsrc Hnow] Hc]. cbn [fst snd] in *. inversion Hs as [|? ? Hs' Hle]. subst.
    destruct (allow_config source now l) as (Ec & ER & _). set (l' := (allow source now l).2) in *.
    assert (W' : limiter_wf l') by by apply allow_wf. assert (Hroom' : roomy callers l') by by apply allow_roomy.
    rewrite length_cons, Nat2Z.inj_succ. assert (0 <= rl_refill_seconds l * (rl_capacity l * ONE + 2 ^ 51)) by nia.
    destruct (bool_decide_reflect (source = s)) as [->|Hne]; rewrite ?andb_true_r, ?andb_false_r.
    + pose proof (first_account s now l W Hb) as Ha. pose proof (allow_own s now l W) as Ho.
      assert (Hf : Forall (fun c => c.1 ∈ callers /\ now <= c.2 <= T) calls).
      { rewrite Forall_fmap in Hle. rewrite Forall_forall in *. intros c Hin. specialize (Hc c Hin). specialize (Hle c Hin). cbn in Hle. naive_solver lia. }
      pose proof (admitted_present callers s calls l' _ T W' Hroom' Ho Hf Hs' ltac:(cbn; lia)) as Hp.
      cbn [bucket_updated_at bucket_tokens] in Hp. rewrite Ec, ER in Hp. assert ((T - now) * ONE <= (T - t) * ONE) by nia.
      assert (2 ^ 51 * rl_refill_seconds l * (left_over s now l + (if (allow s now l).1 then ONE else 0)) <=
              2 ^ 51 * rl_refill_seconds l * (rl_capacity l * ONE)) by (apply Z.mul_le_mono_nonneg_l; lia).
      destruct (allow s now l).1; lia.
    + specialize (IH l' W' Hroom' (allow_absent s source now l (not_eq_sym Hne) Hb) Hc Hs' HT). rewrite Ec, ER in IH. lia.
Qed.

(** ** The limit *)
(** While there is room for every caller, a source gets through at most once
    more than an ideal bucket would let it. *)
Lemma admitted_bounded callers s calls capacity refill_seconds max_sources l t span :
  new_limiter capacity refill_seconds max_sources = Some l -> capacity <= 2 ^ 20 -> Z.of_nat (length callers) <= max_sources ->
  Forall (fun c => c.1 ∈ callers /\ t <= c.2 <= t + span) calls -> StronglySorted Z.le calls.*2 ->
  Z.of_nat (length calls) * capacity <= 2 ^ 40 -> 0 <= span <= 2 ^ 40 * refill_seconds ->
  admitted s calls l <= capacity + span / refill_seconds + 1.
Proof.
  intros Hnew Hcap Hroom Hc Hs Hn Hspan. pose proof (new_limiter_wf _ _ _ _ Hcap Hnew) as W.
  apply new_limiter_fields in Hnew as ->.
  pose proof (wf_capacity _ W) as HC. pose proof (wf_refill _ W) as HR. cbn in HC, HR. pose proof one_large as H1.
  pose proof (admitted_absent callers s calls _ t (t + span) W (conj Hroom (list_subseteq_nil _)) eq_refl Hc Hs ltac:(lia)) as Ha.
  cbn [rl_capacity rl_refill_seconds] in Ha. set (N := admitted _ _ _) in *. set (n := Z.of_nat (length calls)) in *.
  assert (Hnn : 0 <= n <= 2 ^ 40) by (unfold n in *; nia). set (R := refill_seconds) in *.
  assert (E1 : n * (capacity * ONE) <= 2 ^ 40 * ONE) by nia. assert (E2 : n * 2 ^ 51 <= ONE) by nia.
  assert (E3 : R * (n * (capacity * ONE) + n * 2 ^ 51) <= R * (2 ^ 41 * ONE)) by (apply Z.mul_le_mono_nonneg_l; lia).
  assert (E4 : span * ONE <= 2 ^ 40 * R * ONE) by nia.
  assert (Hlt : (2 ^ 51 * ONE) * (R * N) < (2 ^ 51 * ONE) * (R * capacity + span + R)) by nia.
  apply Z.mul_lt_mono_pos_l in Hlt; [|lia]. assert (N - capacity - 1 <= span / R); [|lia].
  apply Z.div_le_lower_bound; lia.
Qed.

(** ** What is let through *)
(** A source that waited [refill_seconds] is let through. *)
Theorem allow_after_refill source now l b : limiter_wf l -> is_double (rl_refill_seconds l) ->
  bucket_of source (rl_buckets l) = Some b -> bucket_updated_at b + rl_refill_seconds l <= now ->
  (allow source now l).1 = true.
Proof.
  intros W HR Hb Hnow. pose proof (wf_refill _ W) as HR0. pose proof (wf_capacity _ W) as HC. pose proof one_large as H1.
  rewrite allow_shape. cbn [fst]. unfold available. rewrite Hb. cbn [from_option]. apply negb_true_iff, Z.ltb_ge.
  pose proof (bucket_of_tokens source l b W Hb) as Ht.
  assert (HO : is_double ONE) by (rewrite <- (Z.mul_1_l ONE); apply whole_double; lia).
  unfold refilled. rewrite float_of_int_exact, float_sub_nonneg by lia. apply Z.min_glb; [nia|].
  apply double_below_round; [| |done|]; [|lia|]; rewrite ?Z.mul_1_r.
  all: assert (HE : rl_refill_seconds l <= round (now - bucket_updated_at b) 1) by (apply double_below_round; [lia|lia|done|lia]).
  all: assert (HD : ONE <= float_div (Z.max 0 (round (now - bucket_updated_at b) 1)) (rl_refill_seconds l)) by
    (apply double_below_round; [nia|lia|done|nia]); lia.
Qed.

(** A new source is let through [capacity] times at once, and then no more. *)
Lemma burst_step source now l k : limiter_wf l -> 0 <= k <= rl_capacity l ->
  bucket_of source (rl_buckets l) = Some (mkBucket (k * ONE) now) ->
  (allow source now l).1 = (1 <=? k) /\
  bucket_of source (rl_buckets (allow source now l).2) = Some (mkBucket (Z.max 0 (k - 1) * ONE) now).
Proof.
  intros W Hk Hb. pose proof (wf_capacity _ W) as HC. pose proof (wf_refill _ W) as HR. pose proof one_large as H1.
  rewrite (allow_own source now l W). rewrite allow_shape. cbn [fst]. unfold left_over.
  assert (available source now l = k * ONE) as ->.
  { unfold available, refilled. rewrite Hb. cbn [from_option bucket_tokens bucket_updated_at].
    rewrite float_sub_nonneg, Z.sub_diag by lia. change (Z.max 0 (round 0 1)) with 0. unfold float_div, float_add. rewrite Z.mul_0_l.
    rewrite round_0 by done.
    rewrite Z.add_0_r, float_of_int_exact, round_double by (lia || (apply whole_double; lia)). nia. }
  destruct (Z.ltb_spec (k * ONE) ONE); [assert (k = 0) as -> by nia; done|]. assert (1 <= k) by nia.
  rewrite (proj2 (Z.leb_le 1 k)) by done. split; [done|]. rewrite float_sub_nonneg by done.
  replace (k * ONE - ONE) with ((k - 1) * ONE) by lia. rewrite round_double by (apply whole_double; lia). by rewrite Z.max_r by lia.
Qed.

Lemma burst_present source now n l k : limiter_wf l -> 0 <= k <= rl_capacity l ->
  bucket_of source (rl_buckets l) = Some (mkBucket (k * ONE) now) ->
  admitted source (replicate n (source, now)) l = Z.min (Z.of_nat n) k.
Proof.
  revert l k. induction n as [|n IH]; intros l k W Hk Hb; cbn [replicate admitted]; [lia|].
  destruct (burst_step source now l k W Hk Hb) as [-> Hb']. destruct (allow_config source now l) as (Ec & _ & _).
  rewrite (IH _ (Z.max 0 (k - 1)) (allow_wf source now l W) ltac:(lia) Hb'). rewrite bool_decide_true, andb_true_r by done.
  destruct (Z.leb_spec 1 k); lia.
Qed.

Theorem burst_exact source now capacity refill_seconds max_sources l n :
  new_limiter capacity refill_seconds max_sources = Some l -> capacity <= 2 ^ 20 ->
  admitted source (replicate n (source, now)) l = Z.min (Z.of_nat n) capacity.
Proof.
  intros Hnew Hc. pose proof (new_limiter_wf _ _ _ _ Hc Hnew) as W. apply new_limiter_fields in Hnew as ->.
  pose proof (wf_capacity _ W) as HC. cbn in HC. pose proof one_large. destruct n as [|n]; [cbn; lia|]. cbn [replicate admitted].
  set (l := mkLimiter _ _ _ _) in *. assert (E : available source now l = capacity * ONE) by (apply float_of_int_exact; cbn; lia).
  assert (Hb : bucket_of source (rl_buckets (allow source now l).2) = Some (mkBucket ((capacity - 1) * ONE) now)).
  { rewrite (allow_own source now l W). unfold left_over. rewrite E. rewrite (proj2 (Z.ltb_ge _ _)) by nia.
    rewrite float_sub_nonneg by nia. replace (capacity * ONE - ONE) with ((capacity - 1) * ONE) by lia.
    by rewrite round_double by (apply whole_double; lia). }
  destruct (allow_config source now l) as (Ec & _ & _). change (rl_capacity l) with capacity in Ec.
  rewrite (burst_present source now n _ (capacity - 1) (allow_wf source now l W) ltac:(lia) Hb). rewrite allow_shape, E. cbn [fst].
  rewrite (proj2 (Z.ltb_ge _ _)), bool_decide_true by (done || nia). cbn [negb andb]. lia.
Qed.
