(* ===== verification/Login.v ===== *)
(** * Logging in

    The bearer token of [src/backend/ic_env_guard/auth/token.py], [AuthState] and
    [require_auth] of [src/backend/ic_env_guard/auth/dependencies.py], and the
    handler [login] of [src/backend/ic_env_guard/api/auth.py], over the limiter
    of [RateLimit] and the credential service of [EnrollmentService].  What a
    request is parsed to, the clocks and what others do while its body is read
    are arguments. *)

From stdpp Require Import base tactics list gmap strings sorting.
From Stdlib Require Import ZArith Lia Ascii.
From S2P Require Import Prelude Text Sql Digest Models JobValidation ManagerRegistry ManagerCredentials CredentialStore.
From S2P Require Import EnrollmentService ServiceClaims TargetPolicy AgentClient LatestValue LogSources LogTail FleetImport AgentHttp RateLimit.

(** ** Tokens *)
Inductive auth_exn :=
| AuthTypeError
| AuthValueError
| AuthOSError
| ApiError (status_code : Z) (error : string)
| RequestValidationError
| VerifierError (e : cred_exn)
| LoginAuditError.

(** [path.read_text]: a line ends with ["\n"], ["\r\n"] or ["\r"]. *)
Fixpoint universal_newlines (s : string) : string :=
  match s with
  | EmptyString => EmptyString
  | String c rest =>
      if is_char "013" c then
        match rest with
        | String d rest' => if is_char "010" d then String "010" (universal_newlines rest') else String "010" (universal_newlines rest)
        | EmptyString => String "010" EmptyString
        end
      else String c (universal_newlines rest)
  end.

(** The bytes of the file, if it can be read. *)
Definition load_bearer_token (content : option string) : auth_exn + string :=
  match content with
  | None => inl AuthOSError
  | Some content =>
      if negb (strict_utf8 (bytes_of content)) then inl AuthValueError
      else
        let token := strip_text (universal_newlines content) in
        if bool_decide (token = "") then inl AuthValueError else inr token
  end.

(** The mode of the file, if there is one. *)
Definition validate_token_file_permissions (mode : option Z) : auth_exn + unit :=
  match mode with
  | None => inl AuthOSError
  | Some mode => if negb (Z.land mode 63 =? 0)%Z then inl AuthValueError else inr tt
  end.

Definition ascii_only (s : string) : bool := all_chars (fun c => (byte_of c <? 128)%Z) s.

(** [secrets.compare_digest] of two texts raises unless both are ASCII. *)
Definition validate (token candidate : string) : auth_exn + bool :=
  if negb (ascii_only candidate && ascii_only token) then inl AuthTypeError else inr (bool_decide (candidate = token)).

(** ** [AuthState] *)
Record AuthContext := mkAuthContext {
  auth_actor_id : string;
  auth_manager_id : option string;
  auth_credential_id : option string;
  auth_pending : bool
}.

(** Whether there is a [manager_verifier]. *)
Record AuthState := mkAuthState { auth_token : string; auth_verifier : bool }.

(** A token file is its mode and its content. *)
Definition new_auth_state (token_file : option (option Z * option string)) (token : option string) (verifier : bool)
    : auth_exn + AuthState :=
  let loaded :=
    match token, token_file with
    | None, Some (mode, content) =>
        match validate_token_file_permissions mode with
        | inl e => inl e
        | inr _ => match load_bearer_token content with inl e => inl e | inr t => inr (Some t) end
        end
    | _, _ => inr token
    end in
  match loaded with
  | inl e => inl e
  | inr (Some token) => if bool_decide (token = "") then inl AuthValueError else inr (mkAuthState token verifier)
  | inr None => inl AuthValueError
  end.

(** ** Requests *)
(** The peer, the identifier given to the request, its header [content-type] and
    the JSON value of its body, if it is one. *)
Record LoginHttp := mkLoginHttp {
  req_client : option string;
  req_correlation_id : option string;
  req_content_type : option string;
  req_json : option json
}.

Definition ends_with (suffix s : string) : bool :=
  (String.length suffix <=? String.length s) &&
  bool_decide (String.substring (String.length s - String.length suffix) (String.length suffix) s = suffix).

Definition has_json_content_type (request : LoginHttp) : bool :=
  match req_content_type request with
  | None => true
  | Some content_type =>
      let media_type := lower (strip_text (partition ";" content_type).1) in
      bool_decide (media_type = "application/json") ||
      String.prefix "application/" media_type && ends_with "+json" media_type
  end.

(** [LoginRequest.model_validate] *)
Definition login_token (submitted : json) : option string :=
  match submitted with
  | JDict d => match json_get "token" d with
               | Some (JString token) => if bool_decide (token = "") then None else Some token
               | _ => None
               end
  | _ => None
  end.

Inductive LoginEvent :=
| LoginSucceeded (actor : string) (source_addr correlation_id : option string)
| LoginDenied (source_addr correlation_id : option string) (reason : string).

(** [LoginAuditRecorder]: recording may raise. *)
Class LoginAudit (L : Type) := record_login : LoginEvent -> L -> bool * L.

(** [source_addr or "<unknown>"] *)
Definition limited_source (request : LoginHttp) : string :=
  match req_client request with
  | Some source => if bool_decide (source = "") then "<unknown>" else source
  | None => "<unknown>"
  end.

Section Login.
Context {S A L : Type} `{CredentialRepository S} `{EnrollmentAudit A} `{LoginAudit L}.
Context (auth : AuthState).

(** [AuthState.authenticate] *)
Definition auth_authenticate (token : string) (allow_pending : bool) (now : time) (x : S * A)
    : (auth_exn + AuthContext) * (S * A) :=
  match validate (auth_token auth) token with
  | inl e => (inl e, x)
  | inr true => (inr (mkAuthContext "local-admin" None None false), x)
  | inr false =>
      if auth_verifier auth then
        match authenticate token now x with
        | (inl e, x) => (inl (VerifierError e), x)
        | (inr (Some credential), x) =>
            let pending := bool_decide (context_state credential = CRED_PENDING) in
            if negb pending || allow_pending then
              (inr (mkAuthContext (actor_id (context_state credential) (context_manager_id credential))
                      (Some (context_manager_id credential)) (Some (context_credential_id credential)) pending), x)
            else (inl (ApiError 401 "unauthorized"), x)
        | (inr None, x) => (inl (ApiError 401 "unauthorized"), x)
        end
      else (inl (ApiError 401 "unauthorized"), x)
  end.

(** [require_auth]: the scheme and the credentials of the request, if it has them. *)
Definition require_auth (credentials : option (string * string)) (now : time) (x : S * A)
    : (auth_exn + AuthContext) * (S * A) :=
  match credentials with
  | Some (scheme, token) =>
      if bool_decide (lower scheme = "bearer") then auth_authenticate token false now x
      else (inl (ApiError 401 "unauthorized"), x)
  | None => (inl (ApiError 401 "unauthorized"), x)
  end.

(** ** The handler *)
(** Records an event and raises, or goes on with an answer. *)
Definition recording {B} (event : LoginEvent) (r : auth_exn + B) (log : L) : (auth_exn + B) * L :=
  match record_login event log with
  | (false, log) => (inl LoginAuditError, log)
  | (true, log) => (r, log)
  end.

(** After the body was read. *)
Definition login_submitted (request : LoginHttp) (now : time) (x : S * A) (log : L) : (auth_exn + string) * (S * A) * L :=
  let denied reason e := let '(r, log) := recording (LoginDenied (req_client request) (req_correlation_id request) reason) (inl e) log in
                         (r, x, log) in
  match req_json request ≫= login_token with
  | None => denied "invalid_request" RequestValidationError
  | Some token =>
      match auth_authenticate token false now x with
      | (inl (ApiError _ _), x) =>
          let '(r, log) := recording (LoginDenied (req_client request) (req_correlation_id request) "invalid_credentials")
                             (inl (ApiError 401 "unauthorized")) log in
          (r, x, log)
      | (inl e, x) => (inl e, x, log)
      | (inr context, x) =>
          let '(r, log) := recording (LoginSucceeded (auth_actor_id context) (req_client request) (req_correlation_id request))
                             (inr (auth_actor_id context)) log in
          (r, x, log)
      end
  end.

(** [ticks] and [now] are the readings of the monotonic and of the wall clock,
    [other] what happens to the tables while the body is awaited. *)
Definition login (other : S * A * L -> S * A * L) (request : LoginHttp) (ticks : Z) (now : time)
    (limiter : LoginRateLimiter) (x : S * A * L) : (auth_exn + string) * LoginRateLimiter * (S * A * L) :=
  let '(allowed, limiter) := allow (limited_source request) ticks limiter in
  let denied reason e := let '(r, log) := recording (LoginDenied (req_client request) (req_correlation_id request) reason) (inl e) x.2 in
                         (r, limiter, (x.1, log)) in
  if negb allowed then denied "rate_limited" (ApiError 429 "too_many_login_attempts")
  else if negb (has_json_content_type request) then denied "invalid_request" RequestValidationError
  else
    let x := other x in
    let '(r, sa, log) := login_submitted request now x.1 x.2 in
    (r, limiter, (sa, log)).
End Login.

(** ** Who may log in *)
Section Claims.
Context {S A L : Type} `{CredentialContract S} `{EnrollmentAudit A} `{LoginAudit L}.
Context (auth : AuthState).

(** The actor that a token stands for: the configured token, or that of an
    active credential. *)
Definition stands_for (s : S) (token actor : string) : Prop :=
  (token = auth_token auth /\ actor = "local-admin") \/
  (token <> auth_token auth /\ auth_verifier auth = true /\
   exists c, view s !! cred_id c = Some c /\ cred_token_hash c = token_hash token /\ cred_state c = CRED_ACTIVE /\
     actor = "manager:" +:+ cred_manager_id c).

Lemma auth_exact token now s (a : A) : credentials_wf (view s) -> ascii_only token && ascii_only (auth_token auth) = true ->
  (exists context, auth_authenticate auth token false now (s, a) = (inr context, (s, a)) /\
     forall actor, auth_actor_id context = actor <-> stands_for s token actor) \/
  (auth_authenticate auth token false now (s, a) = (inl (ApiError 401 "unauthorized"), (s, a)) /\
     forall actor, ~ stands_for s token actor).
Proof.
  intros W Ha. unfold auth_authenticate, validate. rewrite Ha. cbn [negb].
  destruct (bool_decide_reflect (token = auth_token auth)) as [->|Hne].
  { left. eexists. split; [done|]. intros actor. unfold stands_for. cbn. naive_solver. }
  destruct (auth_verifier auth) eqn:Ev; [|right; split; [done|]; unfold stands_for; intros actor; rewrite Ev; naive_solver].
  destruct (authenticate_exact token now s a W) as (r & -> & Hr). destruct r as [context|].
  - destruct (proj1 (Hr context) eq_refl) as (c & Hc & Hh & Hu & ->). cbn [context_of context_state].
    assert (Hone : forall c', view s !! cred_id c' = Some c' -> cred_token_hash c' = token_hash token -> cred_state c' = CRED_ACTIVE -> c' = c).
    { intros c' Hc' Hh' Hs'. assert (Hx : Some (context_of c) = Some (context_of c')).
      { apply Hr. exists c'. split_and!; [done..| |done]. unfold usable. by rewrite bool_decide_true. }
      injection Hx as Hid _ _. rewrite <- Hid in Hc'. congruence. }
    destruct (bool_decide_reflect (cred_state c = CRED_PENDING)) as [Hp|Hp]; cbn [negb orb].
    + right. split; [done|]. intros actor [[? _]|(_ & _ & c' & Hc' & Hh' & Hs' & _)]; [done|]. rewrite (Hone c' Hc' Hh' Hs') in Hs'. congruence.
    + left. eexists. split; [done|]. cbn. assert (Hs : cred_state c = CRED_ACTIVE).
      { unfold usable, live_pending in Hu. by destruct (cred_state c). }
      intros actor. unfold stands_for. rewrite Hs. cbn. split.
      * intros <-. right. split_and!; [done..|]. eauto 10.
      * intros [[? _]|(_ & _ & c' & Hc' & Hh' & Hs' & ->)]; [done|]. by rewrite (Hone c' Hc' Hh' Hs').
  - right. split; [done|]. intros actor [[? _]|(_ & _ & c & Hc & Hh & Hs & _)]; [done|].
    assert (None = Some (context_of c)); [|done]. apply Hr. exists c. split_and!; [done..| |done].
    unfold usable. by rewrite bool_decide_true.
Qed.

Lemma validate_type_error token candidate : ascii_only candidate && ascii_only token = false -> validate token candidate = inl AuthTypeError.
Proof. unfold validate. by intros ->. Qed.

Lemma recording_inr {B} event (r : auth_exn + B) (log : L) b :
  (recording event r log).1 = inr b <-> r = inr b /\ (record_login event log).1 = true.
Proof. unfold recording. destruct (record_login event log) as [[|] log']; cbn; naive_solver. Qed.

(** What a request whose body was read is answered. *)
Lemma submitted_returns request now s (a : A) (log : L) actor : credentials_wf (view s) ->
  (login_submitted auth request now (s, a) log).1.1 = inr actor <->
  exists token, req_json request ≫= login_token = Some token /\ ascii_only token && ascii_only (auth_token auth) = true /\
    stands_for s token actor /\ (record_login (LoginSucceeded actor (req_client request) (req_correlation_id request)) log).1 = true.
Proof.
  intros W. unfold login_submitted. destruct (req_json request ≫= login_token) as [token|].
  2:{ unfold recording. destruct (record_login _ _) as [[|] ?]; cbn; naive_solver. }
  destruct (ascii_only token && ascii_only (auth_token auth)) eqn:Ha.
  - destruct (auth_exact token now s a W Ha) as [(context & -> & Hs)|[-> Hs]].
    + pose proof (recording_inr (LoginSucceeded (auth_actor_id context) (req_client request) (req_correlation_id request))
        (inr (auth_actor_id context)) log actor) as Hr.
      destruct (recording _ _ log) as [r log']. cbn [fst] in *. rewrite Hr. split.
      * intros [[= E] Hrec]. exists token. rewrite <- E at 2. split_and!; [done..|by apply Hs|done].
      * intros (? & [= <-] & _ & Hst & Hrec). apply Hs in Hst as ->. done.
    + unfold recording. destruct (record_login _ _) as [[|] ?]; cbn; naive_solver.
  - unfold auth_authenticate. rewrite validate_type_error by done. cbn. split; [done|]. intros (? & [= <-] & Hx & _). congruence.
Qed.

(** C40: who gets in.  A login returns an actor exactly when the limiter let the
    source through, the request is JSON with a token, token and configured token
    are ASCII, the success was recorded, and the token stands for that actor when
    the body has been read: it is the configured token, or that of an active
    credential.  A pending credential does not log in. *)
Theorem login_returns_iff other request ticks now limiter s (a : A) (log : L) actor :
  credentials_wf (view (other (s, a, log)).1.1) ->
  (login auth other request ticks now limiter (s, a, log)).1.1 = inr actor <->
  (allow (limited_source request) ticks limiter).1 = true /\ has_json_content_type request = true /\
  exists token, req_json request ≫= login_token = Some token /\ ascii_only token && ascii_only (auth_token auth) = true /\
    stands_for (other (s, a, log)).1.1 token actor /\
    (record_login (LoginSucceeded actor (req_client request) (req_correlation_id request)) (other (s, a, log)).2).1 = true.
Proof.
  intros W. unfold login. destruct (allow _ _ _) as [[|] limiter']; cbn [negb fst].
  2:{ unfold recording. destruct (record_login _ _) as [[|] ?]; cbn; naive_solver. }
  destruct (has_json_content_type request); cbn [negb].
  2:{ unfold recording. destruct (record_login _ _) as [[|] ?]; cbn; naive_solver. }
  destruct (other (s, a, log)) as [[s' a'] log']. cbn [fst snd] in *.
  pose proof (submitted_returns request now s' a' log' actor W) as Hr.
  destruct (login_submitted _ _ _ _ _) as [[r sa] log'']. cbn [fst] in *. rewrite Hr. naive_solver.
Qed.

(** ** How many tokens can be tried *)
(** One attempt: its request, the readings of the clocks, what happens meanwhile. *)
Record Attempt := mkAttempt {
  attempt_request : LoginHttp;
  attempt_ticks : Z;
  attempt_now : time;
  attempt_other : S * A * L -> S * A * L
}.

(** The outcomes of attempts, in the order in which they reach the limiter. *)
Fixpoint logins (attempts : list Attempt) (limiter : LoginRateLimiter) (x : S * A * L) : list (Attempt * (auth_exn + string)) :=
  match attempts with
  | [] => []
  | t :: attempts =>
      let '(r, limiter, x) := login auth (attempt_other t) (attempt_request t) (attempt_ticks t) (attempt_now t) limiter x in
      (t, r) :: logins attempts limiter x
  end.

(** The answer tells whether the token is right. *)
Definition tells (r : auth_exn + string) : bool :=
  match r with
  | inr _ | inl (ApiError 401 _) | inl AuthTypeError => true
  | _ => false
  end.

Lemma login_limited other request ticks now limiter (x : S * A * L) :
  let '(r, limiter', _) := login auth other request ticks now limiter x in
  limiter' = (allow (limited_source request) ticks limiter).2 /\
  (tells r = true -> (allow (limited_source request) ticks limiter).1 = true).
Proof.
  unfold login. destruct (allow _ _ _) as [[|] limiter']; cbn [negb fst snd].
  - destruct (has_json_content_type request); cbn [negb]; [destruct (login_submitted _ _ _ _ _) as [[r sa] log]; done|].
    by destruct (recording _ _ _).
  - unfold recording. by destruct (record_login _ _) as [[|] ?].
Qed.

Definition guesses (source : string) (outcomes : list (Attempt * (auth_exn + string))) : Z :=
  Z.of_nat (length (filter (fun o => limited_source (attempt_request o.1) = source /\ tells o.2 = true) outcomes)).

Lemma guesses_admitted source attempts limiter x :
  (guesses source (logins attempts limiter x) <=
   admitted source ((fun t => (limited_source (attempt_request t), attempt_ticks t)) <$> attempts) limiter)%Z.
Proof.
  unfold guesses. revert limiter x. induction attempts as [|t attempts IH]; intros limiter x; cbn [logins fmap list_fmap admitted]; [done|].
  pose proof (login_limited (attempt_other t) (attempt_request t) (attempt_ticks t) (attempt_now t) limiter x) as Hl.
  destruct (login _ _ _ _ _ _ _) as [[r limiter'] x']. destruct Hl as [-> Hr].
  specialize (IH (allow (limited_source (attempt_request t)) (attempt_ticks t) limiter).2 x').
  rewrite filter_cons. cbn [fst snd]. destruct (decide _) as [[Es Ht]|_].
  - rewrite (Hr Ht), bool_decide_true by done. cbn [andb length]. lia.
  - destruct (_ && _); lia.
Qed.

(** C39: how many tokens can be tried.  While there is room in the limiter for all
    who call, the attempts of one source that learn whether their token is right
    are at most the capacity, one more for every [refill_seconds] of the time span,
    and one: the rounding of the floating-point bucket gives nothing more away. *)
Theorem login_guesses_bounded capacity refill_seconds max_sources limiter source attempts callers t span x :
  new_limiter capacity refill_seconds max_sources = Some limiter -> (capacity <= 2 ^ 20)%Z ->
  (Z.of_nat (length callers) <= max_sources)%Z ->
  Forall (fun a => limited_source (attempt_request a) ∈ callers /\ (t <= attempt_ticks a <= t + span)%Z) attempts ->
  StronglySorted Z.le (attempt_ticks <$> attempts) ->
  (Z.of_nat (length attempts) * capacity <= 2 ^ 40)%Z -> (0 <= span <= 2 ^ 40 * refill_seconds)%Z ->
  (guesses source (logins attempts limiter x) <= capacity + span / refill_seconds + 1)%Z.
Proof.
  intros Hnew Hc Hroom Ha Hs Hn Hspan. etrans; [apply guesses_admitted|].
  apply (admitted_bounded callers source _ capacity refill_seconds max_sources limiter t span); try done.
  - by apply Forall_fmap.
  - rewrite <- list_fmap_compose. exact Hs.
  - by rewrite length_fmap.
Qed.
End Claims.

(** ** The log of logins *)
#[global] Instance list_logins : LoginAudit (list LoginEvent) := fun event log => (true, event :: log).

(** The event that an outcome is recorded as. *)
Definition event_of (request : LoginHttp) (r : auth_exn + string) : option LoginEvent :=
  let denied reason := Some (LoginDenied (req_client request) (req_correlation_id request) reason) in
  match r with
  | inr actor => Some (LoginSucceeded actor (req_client request) (req_correlation_id request))
  | inl (ApiError 429 _) => denied "rate_limited"
  | inl (ApiError _ _) => denied "invalid_credentials"
  | inl RequestValidationError => denied "invalid_request"
  | inl _ => None
  end.

Section Audited.
Context {S A : Type} `{CredentialContract S} `{EnrollmentAudit A} (auth : AuthState).

(** A login is recorded once, as what it was answered; only one that ends with
    another exception leaves no trace. *)
Theorem login_recorded_once request ticks now limiter (s : S) (a : A) (log : list LoginEvent) :
  credentials_wf (view s) ->
  let '(r, _, (_, log')) := login auth (fun x => x) request ticks now limiter (s, a, log) in
  log' = option_list (event_of request r) ++ log /\
  (event_of request r = None -> r = inl AuthTypeError /\
     exists token, req_json request ≫= login_token = Some token /\ ascii_only token && ascii_only (auth_token auth) = false).
Proof.
  intros W. unfold login. destruct (allow _ _ _) as [[|] limiter']; cbn [negb fst snd]; [|done].
  destruct (has_json_content_type request); cbn [negb]; [|done]. unfold login_submitted.
  destruct (req_json request ≫= login_token) as [token|]; [|done].
  destruct (ascii_only token && ascii_only (auth_token auth)) eqn:Ha.
  - by destruct (auth_exact auth token now s a W Ha) as [(context & -> & _)|[-> _]].
  - unfold auth_authenticate. rewrite validate_type_error by done. cbn. split; [done|]. intros _. split; [done|]. eauto.
Qed.
End Audited.

(** ** Concrete logins *)
Definition admin : AuthState := mkAuthState "operator-token" true.

Definition posting (token : string) : LoginHttp :=
  mkLoginHttp (Some "10.0.0.7") None (Some "application/json; charset=utf-8") (Some (JDict [("token", JString token)])).

(** Five attempts at once, one more a minute. *)
Definition default_limiter : LoginRateLimiter := mkLimiter 5 (60 * ONE) 1024 [].

Definition logged_in (token : string) : auth_exn + string :=
  (login admin (fun x => x) (posting token) 0 6%Z default_limiter (issued_state, [] : list LoginEvent)).1.1.

Lemma first_allowed source : (allow source 0 default_limiter).1 = true.
Proof.
  pose proof (burst_exact source 0%Z 5 (60 * ONE) 1024 default_limiter 1 eq_refl ltac:(done)) as E. cbn [replicate admitted] in E.
  rewrite bool_decide_true in E by done. by destruct (allow source 0 default_limiter).1.
Qed.

(** The configured token logs in. *)
Lemma login_returns_iff_witness : logged_in "operator-token" = inr "local-admin".
Proof.
  refine (proj2 (login_returns_iff (S := Store) (A := AuditLog) (L := list LoginEvent) admin (fun x => x) (posting "operator-token") 0 6%Z
    default_limiter issued_state.1 issued_state.2 [] "local-admin" issued_wf) _).
  split; [apply first_allowed|]. split; [vm_compute; reflexivity|]. exists "operator-token".
  split; [reflexivity|]. split; [reflexivity|]. split; [left; split; reflexivity|reflexivity].
Defined.

(** Nine attempts within eight seconds learn at most six times whether a token is right. *)
Lemma login_guesses_bounded_witness :
  let attempt n := mkAttempt (posting "guess") (Z.of_nat n * ONE)%Z 6%Z (fun x => x) in
  (guesses "10.0.0.7" (logins admin (attempt <$> seq 0 9) default_limiter (issued_state, [] : list LoginEvent)) <= 6)%Z.
Proof.
  intros attempt. pose proof one_large as HO.
  refine (login_guesses_bounded admin 5 (60 * ONE) 1024 default_limiter "10.0.0.7" (attempt <$> seq 0 9) ["10.0.0.7"] 0 (8 * ONE)
    (issued_state, [] : list LoginEvent) _ _ _ _ _ _ _).
  - reflexivity.
  - lia.
  - cbn. lia.
  - cbn [seq fmap list_fmap]. repeat (apply Forall_cons_2; [split; [by left|subst attempt; cbn [attempt_ticks]; lia]|]). apply Forall_nil_2.
  - subst attempt. cbn [seq fmap list_fmap attempt_ticks].
    repeat (apply SSorted_cons; [|repeat (apply Forall_cons_2; [lia|]); apply Forall_nil_2]). apply SSorted_nil.
  - cbn. lia.
  - lia.
Defined.

(** A token that is not ASCII ends a login with [TypeError], and unrecorded. *)
Theorem unicode_login_unrecorded ticks now limiter (x : Store * AuditLog * list LoginEvent) :
  (allow "10.0.0.7" ticks limiter).1 = true ->
  exists limiter', login admin (fun x => x) (posting (String "195" (String "169" ""))) ticks now limiter x = (inl AuthTypeError, limiter', x).
Proof.
  intros Ha. unfold login. change (limited_source _) with "10.0.0.7". destruct (allow _ _ _) as [r l]. cbn in Ha. subst r. exists l.
  by destruct x as [[s a] log].
Qed.
